(* ===== verification/_CoqProject ===== *)
-Q . S2P
Prelude.v
Errors.v
WireCodec.v
DataFrames.v
ControlFrames.v
Wire.v
Uds.v
EventFd.v
Metrics.v
Ring.v
Transport.v
Filter.v
Manager.v
ManagerInv.v
ManagerSpec.v
Races.v
RaceRings.v
Delivery.v
SenderShm.v
Sender.v
Consumer.v
EndToEnd.v
Wakeup.v
ControlPlane.v
Conformance.v
