(* ===== verification/Prelude.v ===== *)
(** * Qlaster: verification library (root file)

    Qlaster moves Solana account, transaction and slot updates from a sender
    process to consumer processes on the same host.  The data plane is one
    shared-memory byte ring per consumer plus a wakeup descriptor; the control plane
    is a Unix socket over which a consumer subscribes, re-subscribes and pings.  This
    library models the crate under [src/src/] function by function and proves what
    makes it correct.  Everything below is about definitions that run: the witnesses
    evaluate them on concrete inputs.

    ** How the program is put together

    - The application hands updates to broadcast channels.  A dispatcher task per
      channel calls [ConnectionManager::dispatch_*], which tests each of the ten
      slots' [SubscriptionFilter], encodes the update once, and pushes the frame into
      the [SlotSink] of every slot that wants it.  A sink writes the frame into its
      [ShmRingProducer] and notifies its [EventFd].  A consumer whose ring refuses a
      frame, or that has not pinged for thirty seconds, loses its slot.
    - A control connection reads framed requests.  A subscription without a live slot
      token makes [upsert_shm] provision a slot: a ring file, an eventfd and a
      generation; the reply carries the descriptor ([SCM_RIGHTS]).  With a live token
      it widens the slot's filter.  A ping renews the lease.
    - The consumer opens the ring and runs a reader task: drain the ring, decode,
      put each update into one of three bounded queues, sleep on the descriptor; it
      ends when it meets the close sentinel or the ring file is gone.

    ** Files

    - [Prelude.v]: results with panics, fixed-width integers, little-endian bytes,
      slices, power-of-two arithmetic, the hint databases [qbytes] and [qbounds] and
      the tactics [len], [inv_ok], [decide_now].
    - [Errors.v]: [error.rs].  [WireCodec.v]: constants and bounded reads of
      [types.rs].  [DataFrames.v]: the three update frames of [types.rs] with the LZ4
      policy.  [ControlFrames.v]: the four control frames and the routers of
      [types.rs]; [Module Bincode] is an instance of the serialiser's class.
    - [Wire.v]: [wire.rs].  [Uds.v]: [shm/uds.rs], with the process's descriptor
      table.  [EventFd.v]: [shm/eventfd.rs], both backends.  [Metrics.v]: [metrics.rs].
    - [Ring.v]: [shm/ring.rs] over an explicit store of ring files, with the abstract
      specification [Fifo] and its simulation relation [rel].
    - [Transport.v]: [transport.rs].  [Filter.v]: [SubscriptionFilter].
      [Manager.v]: [ConnectionManager], all handlers, both of [sender/mod.rs].
      [ManagerInv.v]: the representation invariant [mgr_ok] and its preservation by
      the two elementary changes of a slot.  [ManagerSpec.v]: the handlers' contracts
      and the step relation [mstep] of the whole manager.  [Races.v]: the same
      operations with every access to a slot or a connection as a step, interleaved
      freely over any number of tasks and with the consumers' pops.  [RaceRings.v]: the rings in those
      interleavings, with a log of what enters and leaves each.  [Delivery.v]: dispatch
      composed with encoders, rings, wakeups and metrics.
    - [SenderShm.v]: [sender/shm.rs].  [Sender.v]: the set-up functions and
      dispatcher tasks of [sender/mod.rs].  [Consumer.v]: [consumer/shm.rs].
    - [EndToEnd.v]: sender and consumer together.  [Wakeup.v]: the notify/sleep
      protocol of [transport.rs], [sender/mod.rs] and [consumer/shm.rs] with every
      shared access as a step of its own.  [ControlPlane.v]: the consumer's control
      requests against the sender's handler, after the handshake.
    - [Conformance.v]: unit tests of the crate, evaluated on the model to validate the
      translation; no property rests on them.

    ** How code is represented

    A fallible function returns [result]: [Ok], [Err] or [Panic] (a failed [expect],
    an out-of-range index, a checked overflow).  Machine integers are [Z] with the
    wrap, saturation or range check of the code written out.  Mutable state is passed
    explicitly.  [Arc] pointers to connections are addresses of a heap, so that
    compare-and-swap compares identities and the drop of the last reference unlinks
    the ring file.  What the operating system, the clock and the timers answer is an
    argument, one per call or reading.  Loops that the code does not bound take fuel:
    [notify] and [drain] retry on a signal (the theorems give one more unit than the
    signals the kernel model holds), [drain_ring] pops until empty (one more than the
    messages the ring ever gets, or than its bytes if nobody writes),
    [handle_uds_connection] reads frames (one more than the bytes of the stream),
    [upsert_shm] retries when another task took its slot (one attempt suffices when none
    does).  In each case a theorem states that the fuel is
    enough and what the result is.

    Third-party code is a class with the laws its documentation states: [Lz4]
    ([lz4_flex]), [Wincode] ([wincode]), [BloomFilter] ([solana_bloom]), [ByteQueue]
    ([shaq]), [BoundedQueue] ([crossbeam_queue]), [EventKernel] and [PipeKernel]
    ([eventfd(2)], [pipe(7)]).  [arc_swap] cells are modelled as the memory cells with
    identity comparison they are documented to be, like the standard library's atomics.
    Each class has a concrete instance that satisfies its
    laws ([rle_lz4], [Bincode.codecs], [exact_bloom], [list_byte_queue],
    [list_bounded_queue], [sim_event_kernel], [sim_pipe_kernel]), at which the
    witnesses are evaluated.

    ** What is proved

    - Frames: every encoder is inverted by every decoder of its frame; decoders never
      panic, accept only well-formed values, refuse foreign versions and tags with
      the error that names them; transaction and slot frames are canonical and update
      frames prefix-free; the borrowing and owning decoders agree.
    - Control stream: framed messages round-trip, the reader's errors are classified;
      a frame with its descriptor survives the socket exactly if it fits the receive
      buffer; where every received descriptor ends up, with the two cases in which one
      stays open: a second one in one control message, and, off Linux, those behind a
      first one that cannot be marked close-on-exec.  A connection is served to its end
      without a panic.
    - Ring: it refines a bounded FIFO of messages on every sequence of operations;
      nothing accepted is lost or reordered; a close is seen exactly when the sentinel
      fitted; creation leaves no file behind on error.
    - Filter: the shortcuts and the Bloom filter compute membership in the union of
      the requests.
    - Manager: what each handler does on every branch (provisioning, re-subscription,
      leases) and the invariant of every reachable state; in every interleaving of
      its tasks nothing dangles, nothing leaks, a generation is never reused and every
      ring stays a FIFO of whole messages; the handlers are sequences of the
      interleaved steps.
    - Dispatch: per slot, who gets the frame, what it decodes to, who is evicted, who
      is untouched and what the metrics count; in the default configuration six wanted
      updates of any legal size always fit.
    - Consumer: what the reader delivers over its whole life with the sender at work
      between any two of its accesses, why it returned or sleeps, that a sentinel ends
      it, and that on arbitrary ring contents no round panics and only well-formed
      updates are queued.
    - Control plane: a re-subscription and a ping on a live token have their effect at
      the sender and leave the consumer its token; a re-subscription on a dead token
      always fails at the consumer although the sender provisions a slot for it, so
      that retries use up the free slots.
    - Wakeup: in every interleaving of sender tasks with the reader a message in the
      ring leaves the reader running or wakeable; an evicted reader ends if the close
      sentinel fitted into its ring, and may sleep forever if it did not; and it may
      end with messages left in the ring if the eviction falls between its last pop and
      its check for the file.
    - Together: the handshake connects the two ends of one ring, and the updates of
      all three kinds dispatched to a live subscriber arrive in its queues, equal and
      in order.

    ** What is not modelled, and what comes next

    Log output, the tokio scheduler and the registration of descriptors with it, the
    memory orderings of the atomics, and the mutex around the consumer's stream are
    not modelled; module files hold no code.  The contracts of the handlers in
    [ManagerSpec.v] and [Delivery.v] are for a handler that runs alone; what holds with
    others in between is in [Races.v] and [RaceRings.v].  [upsert_shm] takes what others
    do before its compare-and-swap as an argument ([ue_rely]), the identity in those
    contracts.  Next: delivery and provisioning contracts under interference, the lost
    update of two re-subscriptions with one token that race in [apply_request], and
    the flows of the integration test. *)

From stdpp Require Import prelude gmap strings pretty.
From Stdlib Require Import Strings.Byte.

#[export] Set Default Goal Selector "!".
#[export] Set Warnings "-clear-no-such-hyp".
Declare Scope qlaster_scope.
Delimit Scope qlaster_scope with Q.
#[global] Open Scope Z_scope.
#[global] Open Scope qlaster_scope.

(** ** Outcomes of Rust code

    [Ok]/[Err] are the two constructors of Rust's [Result]; [Panic] is an
    unwinding panic (an out-of-range index, a failed [expect]). *)
Inductive result (E A : Type) : Type :=
| Ok (a : A)
| Err (e : E)
| Panic.
Arguments Ok {E A} a.
Arguments Err {E A} e.
Arguments Panic {E A}.

#[export] Instance Ok_inj {E A} : Inj (=) (=) (@Ok E A).
Proof. by intros ?? [=]. Qed.

Definition rbind {E A B} (m : result E A) (k : A → result E B) : result E B :=
  match m with Ok a => k a | Err e => Err e | Panic => Panic end.

(** Rust's [Result::map]. *)
Definition rmap {E A B} (f : A → B) (m : result E A) : result E B :=
  rbind m (λ a, Ok (f a)).

(** Rust's [Option::ok_or]. *)
Definition ok_or {E A} (o : option A) (e : E) : result E A :=
  match o with Some a => Ok a | None => Err e end.

(** Indexing that panics when the index is out of range. *)
Definition or_panic {E A} (o : option A) : result E A :=
  match o with Some a => Ok a | None => Panic end.

Notation "'let?' x ':=' m 'in' k" := (rbind m (λ x, k))
  (at level 10, x pattern, m at level 100, k at level 200,
   format "'let?'  x  ':='  m  'in' '//' k") : qlaster_scope.

Definition is_ok {E A} (m : result E A) : bool :=
  match m with Ok _ => true | _ => false end.
Definition is_panic {E A} (m : result E A) : bool :=
  match m with Panic => true | _ => false end.

Lemma rbind_Ok_inv {E A B} (m : result E A) (k : A → result E B) b :
  rbind m k = Ok b → ∃ a, m = Ok a ∧ k a = Ok b.
Proof. destruct m; naive_solver. Qed.

Lemma rmap_Ok_inv {E A B} (f : A → B) (m : result E A) b :
  rmap f m = Ok b → ∃ a, m = Ok a ∧ b = f a.
Proof. destruct m; naive_solver. Qed.

Lemma rbind_no_panic {E A B} (m : result E A) (k : A → result E B) :
  m ≠ Panic → (∀ a, m = Ok a → k a ≠ Panic) → rbind m k ≠ Panic.
Proof. destruct m; naive_solver. Qed.

Lemma rmap_no_panic {E A B} (f : A → B) (m : result E A) :
  m ≠ Panic → rmap f m ≠ Panic.
Proof. by destruct m. Qed.

Lemma ok_or_no_panic {E A} (o : option A) (e : E) : ok_or o e ≠ Panic.
Proof. by destruct o. Qed.

(** ** Machine integers

    A [w]-bit unsigned integer is a [Z] in [0, 2^w); the arithmetic that the
    source relies on at the boundary is written out here. *)
Definition u8_max : Z := 255.
Definition u32_max : Z := 4294967295.
Definition u64_max : Z := 18446744073709551615.
Definition is_u8 (z : Z) : Prop := 0 ≤ z ≤ u8_max.
Definition is_u32 (z : Z) : Prop := 0 ≤ z ≤ u32_max.
Definition is_u64 (z : Z) : Prop := 0 ≤ z ≤ u64_max.

#[export] Instance is_u8_dec z : Decision (is_u8 z).
Proof. unfold is_u8. apply _. Defined.
#[export] Instance is_u32_dec z : Decision (is_u32 z).
Proof. unfold is_u32. apply _. Defined.
#[export] Instance is_u64_dec z : Decision (is_u64 z).
Proof. unfold is_u64. apply _. Defined.

Definition wrap64 (z : Z) : Z := z mod (u64_max + 1).
(** [u64::saturating_sub] and [u64::saturating_add]. *)
Definition saturating_sub (a b : Z) : Z := Z.max 0 (a - b).
Definition saturating_add (a b : Z) : Z := Z.min u64_max (a + b).
(** [usize::checked_add] on a 64-bit target. *)
Definition checked_add (a b : Z) : option Z :=
  if bool_decide (a + b ≤ u64_max) then Some (a + b) else None.
(** [u32::try_from(usize)]. *)
Definition u32_try_from (n : Z) : option Z :=
  if bool_decide (n ≤ u32_max) then Some n else None.

(** [usize::is_power_of_two] and [usize::next_power_of_two] (for arguments
    whose next power of two is representable). *)
Definition is_power_of_two (n : Z) : bool :=
  bool_decide (0 < n ∧ n = 2 ^ Z.log2 n).
Definition next_power_of_two (n : Z) : Z :=
  if bool_decide (n ≤ 1) then 1 else 2 ^ Z.log2_up n.

Lemma wrap64_range z : is_u64 (wrap64 z).
Proof. pose proof (Z.mod_pos_bound z (u64_max + 1)). unfold is_u64, wrap64, u64_max in *. lia. Qed.

Lemma wrap64_id z : is_u64 z → wrap64 z = z.
Proof. unfold is_u64, wrap64, u64_max. intros. apply Z.mod_small. lia. Qed.

Lemma wrap64_add_l a b : wrap64 (wrap64 a + b) = wrap64 (a + b).
Proof. unfold wrap64. apply Zplus_mod_idemp_l. Qed.

Lemma next_power_of_two_ge n : n ≤ next_power_of_two n.
Proof.
  unfold next_power_of_two. case_bool_decide; [lia|].
  apply Z.log2_up_spec. lia.
Qed.

Lemma is_power_of_two_spec n :
  is_power_of_two n = true ↔ ∃ k, 0 ≤ k ∧ n = 2 ^ k.
Proof.
  unfold is_power_of_two. rewrite bool_decide_eq_true. split.
  - intros [Hn Heq]. exists (Z.log2 n). split; [apply Z.log2_nonneg|done].
  - intros (k & Hk & ->). split; [apply Z.pow_pos_nonneg; lia|].
    by rewrite Z.log2_pow2.
Qed.

Lemma next_power_of_two_fix n :
  is_power_of_two n = true → next_power_of_two n = n.
Proof.
  intros (k & Hk & ->)%is_power_of_two_spec. unfold next_power_of_two.
  case_bool_decide as Hle; [|by rewrite Z.log2_up_pow2].
  pose proof (Z.pow_pos_nonneg 2 k). lia.
Qed.

Lemma next_power_of_two_is n : is_power_of_two (next_power_of_two n) = true.
Proof.
  unfold next_power_of_two. case_bool_decide; [done|].
  apply is_power_of_two_spec. exists (Z.log2_up n).
  split; [apply Z.log2_up_nonneg|done].
Qed.

Lemma next_power_of_two_le_pow2 n k :
  0 ≤ k → n ≤ 2 ^ k → next_power_of_two n ≤ 2 ^ k.
Proof.
  intros Hk Hn. unfold next_power_of_two. case_bool_decide.
  - pose proof (Z.pow_pos_nonneg 2 k). lia.
  - apply Z.pow_le_mono_r; [lia|]. apply Z.log2_up_le_pow2; lia.
Qed.

(** ** Bytes and byte strings *)
#[export] Instance byte_eq_dec : EqDecision byte := Byte.byte_eq_dec.

Definition u8_of (b : byte) : Z := Z.of_N (Byte.to_N b).
(** [z as u8]: truncation. *)
Definition byte_of (z : Z) : byte :=
  default x00 (Byte.of_N (Z.to_N (z mod 256))).

Lemma u8_of_range b : is_u8 (u8_of b).
Proof.
  unfold is_u8, u8_of, u8_max. pose proof (Byte.to_N_bounded b). lia.
Qed.

Lemma byte_of_u8_of b : byte_of (u8_of b) = b.
Proof.
  pose proof (u8_of_range b) as Hb. unfold is_u8, u8_max in Hb.
  unfold byte_of. rewrite Z.mod_small by lia.
  unfold u8_of. by rewrite N2Z.id, Byte.of_to_N.
Qed.

Lemma u8_of_byte_of z : u8_of (byte_of z) = z mod 256.
Proof.
  pose proof (Z.mod_pos_bound z 256). unfold byte_of, u8_of.
  destruct (Byte.of_N (Z.to_N (z mod 256))) as [b|] eqn:E; simpl.
  - apply Byte.to_of_N in E. rewrite E. lia.
  - apply Byte.of_N_None_iff in E. lia.
Qed.

Lemma u8_of_byte_of_small z : is_u8 z → u8_of (byte_of z) = z.
Proof. unfold is_u8, u8_max. intros. rewrite u8_of_byte_of. apply Z.mod_small. lia. Qed.

#[export] Instance u8_of_inj : Inj (=) (=) u8_of.
Proof. intros a b H. by rewrite <-(byte_of_u8_of a), H, byte_of_u8_of. Qed.

#[export] Instance byte_countable : Countable byte.
Proof. by apply (inj_countable' u8_of byte_of), byte_of_u8_of. Defined.

(** Lengths are [usize]s, hence integers. *)
Definition zlen {A} (l : list A) : Z := Z.of_nat (length l).

Lemma zlen_nonneg {A} (l : list A) : 0 ≤ zlen l.
Proof. unfold zlen. lia. Qed.
Lemma zlen_nil {A} : zlen (@nil A) = 0.
Proof. done. Qed.
Lemma zlen_cons {A} (x : A) l : zlen (x :: l) = 1 + zlen l.
Proof. unfold zlen. simpl. lia. Qed.
Lemma zlen_app {A} (l k : list A) : zlen (l ++ k) = zlen l + zlen k.
Proof. unfold zlen. rewrite length_app. lia. Qed.
Lemma zlen_0_nil {A} (l : list A) : zlen l = 0 → l = [].
Proof. destruct l; [done|]. rewrite zlen_cons. pose proof (zlen_nonneg l). lia. Qed.

Lemma zlen_1_singleton {A} (l : list A) : zlen l = 1 → ∃ x, l = [x].
Proof. unfold zlen. destruct l as [|x [|y l]]; simpl; [lia|eauto|lia]. Qed.

(** [&l[a..b]] and [l.get(a..b)]: the sub-slice, when it is in range. *)
Definition slice {A} (l : list A) (a b : Z) : option (list A) :=
  if bool_decide (0 ≤ a ∧ a ≤ b ∧ b ≤ zlen l)
  then Some (take (Z.to_nat (b - a)) (drop (Z.to_nat a) l)) else None.

Lemma slice_Some {A} (l s : list A) a b :
  slice l a b = Some s →
  0 ≤ a ∧ a ≤ b ∧ b ≤ zlen l ∧ zlen s = b - a ∧
  drop (Z.to_nat a) l = s ++ drop (Z.to_nat b) l.
Proof.
  unfold slice. case_bool_decide as H; [|done]. intros [= <-].
  destruct H as (Ha & Hab & Hb). split_and!; [done..| |].
  - unfold zlen in *. rewrite length_take, length_drop. lia.
  - replace (Z.to_nat b) with (Z.to_nat a + Z.to_nat (b - a))%nat by lia.
    by rewrite <-drop_drop, take_drop.
Qed.

Lemma slice_app {A} (l x rest : list A) a n :
  0 ≤ a → a ≤ zlen l → drop (Z.to_nat a) l = x ++ rest → n = zlen x →
  slice l a (a + n) = Some x ∧ a + n ≤ zlen l ∧ drop (Z.to_nat (a + n)) l = rest.
Proof.
  intros Ha Hal Hd ->. pose proof (zlen_nonneg x).
  assert (zlen l - a = zlen x + zlen rest) as Hlen.
  { rewrite <-zlen_app, <-Hd. unfold zlen in *. rewrite length_drop. lia. }
  pose proof (zlen_nonneg rest). split_and!; [|lia|].
  - unfold slice. rewrite bool_decide_true by lia. f_equal. rewrite Hd.
    replace (Z.to_nat (a + zlen x - a)) with (length x) by (unfold zlen; lia).
    by rewrite take_app_length.
  - replace (Z.to_nat (a + zlen x)) with (Z.to_nat a + length x)%nat
      by (unfold zlen; lia).
    by rewrite <-drop_drop, Hd, drop_app_length.
Qed.

Lemma slice_full_tail {A} (l x rest : list A) a n :
  l = x ++ rest → a = zlen x → n = zlen rest → slice l a (a + n) = Some rest.
Proof.
  intros -> -> ->. pose proof (zlen_nonneg x). pose proof (zlen_nonneg rest).
  unfold slice. rewrite bool_decide_true by (rewrite zlen_app; lia). f_equal.
  replace (Z.to_nat (zlen x)) with (length x) by (unfold zlen; lia).
  rewrite drop_app_length. apply take_ge. unfold zlen. lia.
Qed.

(** *** Little-endian integers ([to_le_bytes] / [from_le_bytes]) *)
Fixpoint to_le_bytes (n : nat) (z : Z) : list byte :=
  match n with
  | O => []
  | S n => byte_of z :: to_le_bytes n (z / 256)
  end.

Fixpoint from_le_bytes (l : list byte) : Z :=
  match l with
  | [] => 0
  | b :: l => u8_of b + 256 * from_le_bytes l
  end.

Lemma length_to_le_bytes n z : length (to_le_bytes n z) = n.
Proof. revert z. induction n; simpl; auto. Qed.

Lemma zlen_to_le_bytes n z : zlen (to_le_bytes n z) = Z.of_nat n.
Proof. unfold zlen. by rewrite length_to_le_bytes. Qed.

Lemma from_to_le_bytes n z :
  0 ≤ z < 256 ^ Z.of_nat n → from_le_bytes (to_le_bytes n z) = z.
Proof.
  revert z. induction n as [|n IH]; intros z Hz; [simpl in *; lia|].
  cbn [to_le_bytes from_le_bytes]. rewrite Nat2Z.inj_succ, Z.pow_succ_r in Hz by lia.
  rewrite u8_of_byte_of, IH.
  - pose proof (Z.div_mod z 256). lia.
  - split; [apply Z.div_pos; lia|]. apply Z.div_lt_upper_bound; lia.
Qed.

Lemma from_le_bytes_range l : 0 ≤ from_le_bytes l < 256 ^ zlen l.
Proof.
  induction l as [|b l IH]; [unfold zlen; simpl; lia|].
  rewrite zlen_cons, Z.pow_add_r by (pose proof (zlen_nonneg l); lia).
  cbn [from_le_bytes]. pose proof (u8_of_range b) as Hb.
  unfold is_u8, u8_max in Hb. nia.
Qed.

Lemma to_from_le_bytes l n :
  length l = n → to_le_bytes n (from_le_bytes l) = l.
Proof.
  intros <-. induction l as [|b l IH]; [done|].
  cbn [length to_le_bytes from_le_bytes].
  pose proof (u8_of_range b) as Hb. unfold is_u8, u8_max in Hb.
  rewrite (Z.mul_comm 256). f_equal.
  - apply (inj u8_of). rewrite u8_of_byte_of, Z_mod_plus_full.
    apply Z.mod_small. lia.
  - rewrite Z.div_add, Z.div_small by lia. done.
Qed.

Definition u32_le (z : Z) : list byte := to_le_bytes 4 z.
Definition u64_le (z : Z) : list byte := to_le_bytes 8 z.

Lemma from_u32_le z : is_u32 z → from_le_bytes (u32_le z) = z.
Proof. unfold is_u32, u32_max. intros. apply from_to_le_bytes. simpl. lia. Qed.
Lemma from_u64_le z : is_u64 z → from_le_bytes (u64_le z) = z.
Proof. unfold is_u64, u64_max. intros. apply from_to_le_bytes. simpl. lia. Qed.
Lemma zlen_u32_le z : zlen (u32_le z) = 4.
Proof. apply zlen_to_le_bytes. Qed.
Lemma zlen_u64_le z : zlen (u64_le z) = 8.
Proof. apply zlen_to_le_bytes. Qed.
Lemma u32_le_from l : zlen l = 4 → u32_le (from_le_bytes l) = l.
Proof. intros H. apply to_from_le_bytes. unfold zlen in H. lia. Qed.
Lemma u64_le_from l : zlen l = 8 → u64_le (from_le_bytes l) = l.
Proof. intros H. apply to_from_le_bytes. unfold zlen in H. lia. Qed.
Lemma from_le_bytes_u32 l : zlen l = 4 → is_u32 (from_le_bytes l).
Proof.
  intros H. pose proof (from_le_bytes_range l) as Hr. rewrite H in Hr.
  unfold is_u32, u32_max. simpl in Hr. lia.
Qed.
Lemma from_le_bytes_u64 l : zlen l = 8 → is_u64 (from_le_bytes l).
Proof.
  intros H. pose proof (from_le_bytes_range l) as Hr. rewrite H in Hr.
  unfold is_u64, u64_max. simpl in Hr. lia.
Qed.

#[global] Opaque u32_le u64_le.

(** ** Automation

    [len] normalises lengths of concatenations and closes the arithmetic;
    the [qbytes] rewrite database and the [qbounds] resolve database carry the
    facts about encodings that every codec proof needs. *)
Create HintDb qbounds.
Create Rewrite HintDb qbytes.
#[export] Hint Rewrite @zlen_app @zlen_cons @zlen_nil zlen_to_le_bytes
  zlen_u32_le zlen_u64_le : qbytes.
#[export] Hint Resolve from_le_bytes_u32 from_le_bytes_u64 u8_of_range
  wrap64_range : qbounds.

Ltac len := autorewrite with qbytes in *; try lia.

(** Case analysis of a monadic chain that is known to have succeeded. *)
Ltac inv_ok :=
  repeat match goal with
  | H : rbind _ _ = Ok _ |- _ =>
      apply rbind_Ok_inv in H; destruct H as (? & ? & H)
  | H : rmap _ _ = Ok _ |- _ =>
      apply rmap_Ok_inv in H; destruct H as (? & ? & H)
  | H : Ok _ = Ok _ |- _ => apply (inj Ok) in H
  | H : Err _ = Ok _ |- _ => discriminate H
  | H : Panic = Ok _ |- _ => discriminate H
  | H : (if bool_decide ?P then _ else _) = Ok _ |- _ =>
      case_bool_decide; try discriminate H
  | H : (if negb (bool_decide ?P) then _ else _) = Ok _ |- _ =>
      case_bool_decide; cbn [negb] in H; try discriminate H
  | H : match ?x with (_, _) => _ end = Ok _ |- _ => destruct x
  | H : ok_or ?o _ = Ok _ |- _ =>
      destruct o eqn:?; cbn [ok_or] in H; try discriminate H
  | H : or_panic ?o = Ok _ |- _ =>
      destruct o eqn:?; cbn [or_panic] in H; try discriminate H
  end.

(** Closed decidable facts, by evaluating their decision procedure. *)
Ltac decide_now := apply (bool_decide_unpack _); vm_compute; exact I.
