(* ===== verification/Errors.v ===== *)
(** * Errors of the crate ([src/src/error.rs])

    One constructor per variant of [QlasterError].  An [std::io::Error] is
    represented by its [ErrorKind] together with the OS error number it was
    built from, when it came from [last_os_error]. *)

From stdpp Require Import prelude strings pretty.
From S2P Require Import Prelude.

(** The [std::io::ErrorKind]s the crate distinguishes. *)
Inductive ErrorKind :=
| UnexpectedEof | WouldBlock | Interrupted | WriteZero | Unsupported
| OtherKind (name : string).

#[export] Instance ErrorKind_eq_dec : EqDecision ErrorKind.
Proof. solve_decision. Defined.

Record IoError := mkIoError {
  io_kind : ErrorKind;
  raw_os_error : option Z;
  io_display : string;
}.

#[export] Instance IoError_eq_dec : EqDecision IoError.
Proof. solve_decision. Defined.

Inductive QlasterError :=
| ConnectionFailed
| Io (e : IoError)
| FrameTooLarge (size : Z)
| PayloadTooLarge (found max : Z)
| InvalidWireVersion (found expected : Z)
| InvalidMessageTag (found expected : Z)
| DecodeError (msg : string)
| Timeout_ (what : string)
| ConfigError (msg : string)
| MalformedPayload (msg : string)
| IncomingClosed
| ShmError (msg : string)
| ShmFull
| UdsError (msg : string).

#[export] Instance QlasterError_eq_dec : EqDecision QlasterError.
Proof. solve_decision. Defined.

(** Results of the crate's fallible functions. *)
Abbreviation Res := (result QlasterError).

(** The [Display] text that [thiserror] derives for each variant. *)
Definition error_display (e : QlasterError) : string :=
  match e with
  | ConnectionFailed => "unable to connect to endpoint"
  | Io e => "io error: " +:+ io_display e
  | FrameTooLarge n => "frame too large: " +:+ pretty n +:+ " bytes"
  | PayloadTooLarge f m =>
      "account payload too large: " +:+ pretty f +:+ " bytes (max " +:+ pretty m
      +:+ " bytes)"
  | InvalidWireVersion f x =>
      "invalid wire version " +:+ pretty f +:+ "; expected " +:+ pretty x
  | InvalidMessageTag f x =>
      "invalid message tag " +:+ pretty f +:+ "; expected " +:+ pretty x
  | DecodeError m => "decode error: " +:+ m
  | Timeout_ w => "operation timed out: " +:+ w
  | ConfigError m => "configuration error: " +:+ m
  | MalformedPayload m => "malformed payload: " +:+ m
  | IncomingClosed => "incoming endpoint accept loop closed"
  | ShmError m => "shared memory error: " +:+ m
  | ShmFull => "shared memory ring full"
  | UdsError m => "uds error: " +:+ m
  end.
