(* ===== verification/WireCodec.v ===== *)
(** * Wire constants and the cursor primitives of [src/src/types.rs]

    The message tags, version check and size constants, and the [take_*]
    helpers with which the hand-written update decoders walk a frame.  Rust's
    [&mut usize] cursor is passed in and returned.  [at_cursor] is the loop
    invariant of every decoder: which bytes are still unread. *)

From stdpp Require Import prelude strings.
From Stdlib Require Import Strings.Byte.
From S2P Require Import Prelude Errors.

Definition REQUEST_SUBSCRIBE_TAG : Z := 1.
Definition UPDATE_TAG : Z := 2.
Definition READY_TAG : Z := 3.
Definition REQUEST_PING_TAG : Z := 4.
Definition READY_SHM_TAG : Z := 5.
Definition TRANSACTION_UPDATE_TAG : Z := 6.
Definition SLOT_UPDATE_TAG : Z := 7.
Definition WIRE_VERSION : Z := 9.
Definition UNSET_SLOT_INDEX : Z := u8_max.
Definition MAX_ACCOUNT_PAYLOAD_BYTES : Z := 10 * 1024 * 1024.
Definition MAX_TRANSACTION_PAYLOAD_BYTES : Z := 10 * 1024 * 1024.
Definition ACCOUNT_UPDATE_FLAG_LZ4 : Z := 1.
Definition ACCOUNT_UPDATE_COMPRESSION_THRESHOLD_BYTES : Z := 500 * 1024.
Definition ACCOUNT_UPDATE_COMPRESSION_SAMPLE_BYTES : Z := 8 * 1024.
Definition ACCOUNT_UPDATE_COMPRESSION_MIN_GAIN_BPS : Z := 75.
Definition ACCOUNT_UPDATE_FIXED_BYTES : Z :=
  2 + 8 + (32 * 2) + (8 * 4) + 1 + 1 + 4 + 4.
Definition TRANSACTION_UPDATE_FIXED_BYTES : Z := 2 + 8 + 8 + 4 + 1 + 64 + 4.
Definition SLOT_UPDATE_FIXED_BYTES : Z := 2 + 8 + 8.

Definition ensure_wire (wire_version message_tag expected_tag : Z) : Res unit :=
  if negb (bool_decide (wire_version = WIRE_VERSION))
  then Err (InvalidWireVersion wire_version WIRE_VERSION)
  else if negb (bool_decide (message_tag = expected_tag))
  then Err (InvalidMessageTag message_tag expected_tag)
  else Ok tt.

Definition take_exact (bytes : list byte) (cursor len : Z) (context : string) :
    Res (list byte * Z) :=
  let? end_ := ok_or (checked_add cursor len) (MalformedPayload context) in
  let? slice := ok_or (slice bytes cursor end_) (MalformedPayload context) in
  Ok (slice, end_).

(** [take_exact(..)?[0]]: the index panics if the slice were empty. *)
Definition take_u8 (bytes : list byte) (cursor : Z) : Res (Z * Z) :=
  let? (raw, cursor) :=
    take_exact bytes cursor 1 "account update u8 out of bounds" in
  let? b := or_panic (raw !! 0%nat) in
  Ok (u8_of b, cursor).

(** [<[u8; N]>::try_from(&[u8])]: fails unless the length is exactly [N]. *)
Definition try_into_array (n : Z) (raw : list byte) : option (list byte) :=
  if bool_decide (zlen raw = n) then Some raw else None.

Definition take_u32_le (bytes : list byte) (cursor : Z) : Res (Z * Z) :=
  let? (raw, cursor) :=
    take_exact bytes cursor 4 "account update u32 out of bounds" in
  let? raw := ok_or (try_into_array 4 raw)
                    (MalformedPayload "account update bad u32") in
  Ok (from_le_bytes raw, cursor).

Definition take_u64_le (bytes : list byte) (cursor : Z) : Res (Z * Z) :=
  let? (raw, cursor) :=
    take_exact bytes cursor 8 "account update u64 out of bounds" in
  let? raw := ok_or (try_into_array 8 raw)
                    (MalformedPayload "account update bad u64") in
  Ok (from_le_bytes raw, cursor).

Definition take_array_32 (bytes : list byte) (cursor : Z) :
    Res (list byte * Z) :=
  let? (raw, cursor) :=
    take_exact bytes cursor 32 "account update [u8;32] out of bounds" in
  let? raw := ok_or (try_into_array 32 raw)
                    (MalformedPayload "account update bad [u8;32]") in
  Ok (raw, cursor).

Definition take_array_64 (bytes : list byte) (cursor : Z) :
    Res (list byte * Z) :=
  let? (raw, cursor) :=
    take_exact bytes cursor 64 "transaction update [u8;64] out of bounds" in
  let? raw := ok_or (try_into_array 64 raw)
                    (MalformedPayload "transaction update bad [u8;64]") in
  Ok (raw, cursor).

Definition wire_tag (bytes : list byte) : Res Z :=
  let? b := ok_or (bytes !! 1%nat)
                  (MalformedPayload "frame too short for wire tag") in
  Ok (u8_of b).

(** ** The decoders' invariant: [rest] is what is left to read at [cursor]. *)
Definition at_cursor (bytes : list byte) (cursor : Z) (rest : list byte) : Prop :=
  0 ≤ cursor ∧ cursor ≤ zlen bytes ∧ zlen bytes ≤ u64_max ∧
  drop (Z.to_nat cursor) bytes = rest.

Lemma at_cursor_prefix pre rest :
  zlen (pre ++ rest) ≤ u64_max → at_cursor (pre ++ rest) (zlen pre) rest.
Proof.
  intros. pose proof (zlen_nonneg pre). pose proof (zlen_nonneg rest).
  repeat split; len. unfold zlen. by rewrite Nat2Z.id, drop_app_length.
Qed.

Lemma at_cursor_len bytes c rest :
  at_cursor bytes c rest → zlen bytes = c + zlen rest.
Proof.
  intros (Hc & Hl & _ & <-). unfold zlen in *. rewrite length_drop. lia.
Qed.

Lemma at_cursor_start bytes :
  zlen bytes ≤ u64_max → at_cursor bytes 0 bytes.
Proof. intros. pose proof (zlen_nonneg bytes). repeat split; try done; lia. Qed.

(** Each primitive reads its field and advances the invariant. *)
Lemma take_exact_at bytes c x rest n ctx :
  at_cursor bytes c (x ++ rest) → zlen x = n →
  take_exact bytes c n ctx = Ok (x, c + n) ∧ at_cursor bytes (c + n) rest.
Proof.
  intros (Hc & Hl & Hm & Hd) Hx. pose proof (zlen_nonneg x).
  destruct (slice_app bytes x rest c n) as (Hs & Hle & Hr); [done..|].
  unfold take_exact, checked_add. rewrite bool_decide_true by lia. cbn.
  rewrite Hs. split; [done|]. split_and!; [lia|done|done|done].
Qed.

Lemma take_exact_inv bytes c n ctx x c' :
  0 ≤ c → zlen bytes ≤ u64_max →
  take_exact bytes c n ctx = Ok (x, c') →
  c' = c + n ∧ zlen x = n ∧ at_cursor bytes c (x ++ drop (Z.to_nat c') bytes) ∧
  0 ≤ c' ≤ zlen bytes.
Proof.
  unfold take_exact, checked_add. intros Hc Hm H.
  case_bool_decide; cbn in H; [|done].
  destruct (slice bytes c (c + n)) as [s|] eqn:E; cbn in H; [|done].
  injection H as -> <-. apply slice_Some in E as (? & ? & ? & ? & ?).
  unfold at_cursor. split_and!; (lia || done).
Qed.

Lemma take_u8_at bytes c b rest :
  at_cursor bytes c (b :: rest) →
  take_u8 bytes c = Ok (u8_of b, c + 1) ∧ at_cursor bytes (c + 1) rest.
Proof.
  intros H. change (b :: rest) with ([b] ++ rest) in H.
  unfold take_u8.
  destruct (take_exact_at _ _ _ _ 1 "account update u8 out of bounds" H eq_refl)
    as [-> ?]. done.
Qed.

Lemma take_u32_at bytes c z rest :
  at_cursor bytes c (u32_le z ++ rest) → is_u32 z →
  take_u32_le bytes c = Ok (z, c + 4) ∧ at_cursor bytes (c + 4) rest.
Proof.
  intros H Hz. unfold take_u32_le.
  destruct (take_exact_at _ _ _ _ 4 "account update u32 out of bounds" H
              (zlen_u32_le z)) as [-> ?]. cbn.
  unfold try_into_array. rewrite bool_decide_true by apply zlen_u32_le. cbn.
  by rewrite from_u32_le.
Qed.

Lemma take_u64_at bytes c z rest :
  at_cursor bytes c (u64_le z ++ rest) → is_u64 z →
  take_u64_le bytes c = Ok (z, c + 8) ∧ at_cursor bytes (c + 8) rest.
Proof.
  intros H Hz. unfold take_u64_le.
  destruct (take_exact_at _ _ _ _ 8 "account update u64 out of bounds" H
              (zlen_u64_le z)) as [-> ?]. cbn.
  unfold try_into_array. rewrite bool_decide_true by apply zlen_u64_le. cbn.
  by rewrite from_u64_le.
Qed.

Lemma take_array_32_at bytes c x rest :
  at_cursor bytes c (x ++ rest) → zlen x = 32 →
  take_array_32 bytes c = Ok (x, c + 32) ∧ at_cursor bytes (c + 32) rest.
Proof.
  intros H Hx. unfold take_array_32.
  destruct (take_exact_at _ _ _ _ 32 "account update [u8;32] out of bounds" H Hx)
    as [-> ?]. cbn. unfold try_into_array. by rewrite bool_decide_true.
Qed.

Lemma take_array_64_at bytes c x rest :
  at_cursor bytes c (x ++ rest) → zlen x = 64 →
  take_array_64 bytes c = Ok (x, c + 64) ∧ at_cursor bytes (c + 64) rest.
Proof.
  intros H Hx. unfold take_array_64.
  destruct (take_exact_at _ _ _ _ 64 "transaction update [u8;64] out of bounds"
              H Hx) as [-> ?]. cbn.
  unfold try_into_array. by rewrite bool_decide_true.
Qed.

(** The inverse direction: what a successful read says about the frame.
    [read_field bytes c x c'] is the common conclusion. *)
Definition read_field (bytes : list byte) (c : Z) (x : list byte) (c' : Z) : Prop :=
  c' = c + zlen x ∧ 0 ≤ c' ≤ zlen bytes ∧
  drop (Z.to_nat c) bytes = x ++ drop (Z.to_nat c') bytes.

Lemma take_exact_read bytes c n ctx x c' :
  0 ≤ c → zlen bytes ≤ u64_max → take_exact bytes c n ctx = Ok (x, c') →
  zlen x = n ∧ read_field bytes c x c'.
Proof.
  intros Hc Hm H. apply take_exact_inv in H as (-> & <- & (_ & _ & _ & Hd) & ?);
    [|done..]. split; [done|]. unfold read_field. split_and!; (done || lia).
Qed.

Ltac inv_take :=
  match goal with
  | H : take_exact _ _ _ _ = Ok _ |- _ =>
      apply take_exact_read in H as [? ?]; [|done..]
  end.

Lemma try_into_array_Some n raw x :
  try_into_array n raw = Some x → x = raw ∧ zlen raw = n.
Proof. unfold try_into_array. case_bool_decide; naive_solver. Qed.

Lemma take_u8_read bytes c z c' :
  0 ≤ c → zlen bytes ≤ u64_max → take_u8 bytes c = Ok (z, c') →
  is_u8 z ∧ read_field bytes c [byte_of z] c'.
Proof.
  unfold take_u8. intros Hc Hm H. inv_ok. inv_take. simplify_eq.
  match goal with H : zlen _ = 1 |- _ => apply zlen_1_singleton in H as [b ->] end.
  simplify_eq/=. rewrite byte_of_u8_of. auto with qbounds.
Qed.

Lemma take_u32_read bytes c z c' :
  0 ≤ c → zlen bytes ≤ u64_max → take_u32_le bytes c = Ok (z, c') →
  is_u32 z ∧ read_field bytes c (u32_le z) c'.
Proof.
  unfold take_u32_le. intros Hc Hm H. inv_ok. inv_take. simplify_eq.
  match goal with H : try_into_array _ _ = _ |- _ =>
    apply try_into_array_Some in H as [-> ?] end.
  rewrite u32_le_from by done. auto with qbounds.
Qed.

Lemma take_u64_read bytes c z c' :
  0 ≤ c → zlen bytes ≤ u64_max → take_u64_le bytes c = Ok (z, c') →
  is_u64 z ∧ read_field bytes c (u64_le z) c'.
Proof.
  unfold take_u64_le. intros Hc Hm H. inv_ok. inv_take. simplify_eq.
  match goal with H : try_into_array _ _ = _ |- _ =>
    apply try_into_array_Some in H as [-> ?] end.
  rewrite u64_le_from by done. auto with qbounds.
Qed.

Lemma take_array_32_read bytes c x c' :
  0 ≤ c → zlen bytes ≤ u64_max → take_array_32 bytes c = Ok (x, c') →
  zlen x = 32 ∧ read_field bytes c x c'.
Proof.
  unfold take_array_32. intros Hc Hm H. inv_ok. inv_take. simplify_eq.
  match goal with H : try_into_array _ _ = _ |- _ =>
    by apply try_into_array_Some in H as [-> ?] end.
Qed.

Lemma take_array_64_read bytes c x c' :
  0 ≤ c → zlen bytes ≤ u64_max → take_array_64 bytes c = Ok (x, c') →
  zlen x = 64 ∧ read_field bytes c x c'.
Proof.
  unfold take_array_64. intros Hc Hm H. inv_ok. inv_take. simplify_eq.
  match goal with H : try_into_array _ _ = _ |- _ =>
    by apply try_into_array_Some in H as [-> ?] end.
Qed.

(** None of the primitives panics, whatever the bytes and the cursor. *)
Lemma take_exact_no_panic bytes c n ctx : take_exact bytes c n ctx ≠ Panic.
Proof.
  unfold take_exact. apply rbind_no_panic; [apply ok_or_no_panic|].
  intros ? _. apply rbind_no_panic; [apply ok_or_no_panic|done].
Qed.

Lemma take_exact_1_nonempty bytes c ctx raw c' :
  take_exact bytes c 1 ctx = Ok (raw, c') → ∃ b, raw = [b].
Proof.
  unfold take_exact. intros H. inv_ok. simplify_eq. unfold checked_add in *.
  case_bool_decide; [|done]. simplify_eq/=.
  match goal with H : slice _ _ _ = _ |- _ =>
    apply slice_Some in H as (_ & _ & _ & ? & _) end.
  apply zlen_1_singleton. lia.
Qed.

Lemma take_u8_no_panic bytes c : take_u8 bytes c ≠ Panic.
Proof.
  unfold take_u8. apply rbind_no_panic; [apply take_exact_no_panic|].
  intros [raw c'] [b ->]%take_exact_1_nonempty. done.
Qed.
Lemma take_u32_no_panic bytes c : take_u32_le bytes c ≠ Panic.
Proof.
  unfold take_u32_le. apply rbind_no_panic; [apply take_exact_no_panic|].
  intros [raw c'] _. apply rbind_no_panic; [apply ok_or_no_panic|done].
Qed.
Lemma take_u64_no_panic bytes c : take_u64_le bytes c ≠ Panic.
Proof.
  unfold take_u64_le. apply rbind_no_panic; [apply take_exact_no_panic|].
  intros [raw c'] _. apply rbind_no_panic; [apply ok_or_no_panic|done].
Qed.
Lemma take_array_32_no_panic bytes c : take_array_32 bytes c ≠ Panic.
Proof.
  unfold take_array_32. apply rbind_no_panic; [apply take_exact_no_panic|].
  intros [raw c'] _. apply rbind_no_panic; [apply ok_or_no_panic|done].
Qed.
Lemma take_array_64_no_panic bytes c : take_array_64 bytes c ≠ Panic.
Proof.
  unfold take_array_64. apply rbind_no_panic; [apply take_exact_no_panic|].
  intros [raw c'] _. apply rbind_no_panic; [apply ok_or_no_panic|done].
Qed.
Lemma ensure_wire_no_panic v t e : ensure_wire v t e ≠ Panic.
Proof. unfold ensure_wire. by do 2 case_bool_decide. Qed.
Lemma wire_tag_no_panic bytes : wire_tag bytes ≠ Panic.
Proof. unfold wire_tag. apply rbind_no_panic; [apply ok_or_no_panic|done]. Qed.

Create HintDb qpanic.
#[export] Hint Resolve take_exact_no_panic take_u8_no_panic take_u32_no_panic
  take_u64_no_panic take_array_32_no_panic take_array_64_no_panic
  ensure_wire_no_panic wire_tag_no_panic ok_or_no_panic : qpanic.

(** [ensure_wire] accepts exactly the current version with the given tag. *)
Lemma ensure_wire_Ok v t e :
  ensure_wire v t e = Ok tt ↔ v = WIRE_VERSION ∧ t = e.
Proof. unfold ensure_wire. do 2 case_bool_decide; naive_solver. Qed.

Lemma ensure_wire_good t : ensure_wire WIRE_VERSION t t = Ok tt.
Proof. by apply ensure_wire_Ok. Qed.
