(* ===== verification/DataFrames.v ===== *)
(** * Data-plane frames of [src/src/types.rs]

    [AccountUpdate], [TransactionUpdate] and [SlotUpdate] with their bounded
    payload types, their hand-written encoders and decoders, and the LZ4
    decision.  The LZ4 block codec is a third-party crate: it is the class
    [Lz4], and [Lz4Laws] is the round trip its documentation promises.

    Results: each decoder inverts its encoder, a decoder never panics, what it
    returns is well formed, and transaction and slot frames are canonical (the
    accepted bytes are exactly the encoding of the value returned). *)

From stdpp Require Import prelude strings.
From Stdlib Require Import Strings.Byte.
From S2P Require Import Prelude Errors WireCodec.

(** ** The LZ4 block codec ([lz4_flex::block]) *)
Class Lz4 := {
  lz4_compress : list byte → list byte;
  lz4_decompress : list byte → Z → list byte + string;
}.

Class Lz4Laws `{!Lz4} := {
  lz4_roundtrip p : lz4_decompress (lz4_compress p) (zlen p) = inl p;
}.

(** ** Payloads: byte strings with a checked upper bound *)
Record AccountPayload := mkAccountPayload { account_payload_bytes : list byte }.
Record TransactionPayload :=
  mkTransactionPayload { transaction_payload_bytes : list byte }.

#[export] Instance AccountPayload_eq_dec : EqDecision AccountPayload.
Proof. solve_decision. Defined.
#[export] Instance TransactionPayload_eq_dec : EqDecision TransactionPayload.
Proof. solve_decision. Defined.

Definition AccountPayload_new (payload : list byte) : Res AccountPayload :=
  let len := zlen payload in
  if bool_decide (len > MAX_ACCOUNT_PAYLOAD_BYTES)
  then Err (PayloadTooLarge len MAX_ACCOUNT_PAYLOAD_BYTES)
  else Ok (mkAccountPayload payload).

Definition TransactionPayload_new (payload : list byte) : Res TransactionPayload :=
  let len := zlen payload in
  if bool_decide (len > MAX_TRANSACTION_PAYLOAD_BYTES)
  then Err (PayloadTooLarge len MAX_TRANSACTION_PAYLOAD_BYTES)
  else Ok (mkTransactionPayload payload).

(** The other constructors and the accessors; [Bytes] and [&[u8]] are both the
    bytes themselves. *)
Definition AccountPayload_from_slice (payload : list byte) : Res AccountPayload :=
  AccountPayload_new payload.
Definition AccountPayload_from_bytes (payload : list byte) : Res AccountPayload :=
  AccountPayload_new payload.
Definition AccountPayload_try_from (value : list byte) : Res AccountPayload :=
  AccountPayload_new value.
Definition AccountPayload_as_slice (p : AccountPayload) : list byte := account_payload_bytes p.
Definition AccountPayload_as_ref (p : AccountPayload) : list byte := AccountPayload_as_slice p.
Definition AccountPayload_len (p : AccountPayload) : Z := zlen (account_payload_bytes p).
Definition AccountPayload_is_empty (p : AccountPayload) : bool :=
  bool_decide (account_payload_bytes p = []).
Definition AccountPayload_into_bytes (p : AccountPayload) : list byte := account_payload_bytes p.
Definition AccountPayload_clone_bytes (p : AccountPayload) : list byte := account_payload_bytes p.

Definition TransactionPayload_from_slice (payload : list byte) : Res TransactionPayload :=
  TransactionPayload_new payload.
Definition TransactionPayload_from_bytes (payload : list byte) : Res TransactionPayload :=
  TransactionPayload_new payload.
Definition TransactionPayload_try_from (value : list byte) : Res TransactionPayload :=
  TransactionPayload_new value.
Definition TransactionPayload_as_slice (p : TransactionPayload) : list byte :=
  transaction_payload_bytes p.
Definition TransactionPayload_as_ref (p : TransactionPayload) : list byte :=
  TransactionPayload_as_slice p.
Definition TransactionPayload_len (p : TransactionPayload) : Z :=
  zlen (transaction_payload_bytes p).
Definition TransactionPayload_is_empty (p : TransactionPayload) : bool :=
  bool_decide (transaction_payload_bytes p = []).
Definition TransactionPayload_clone_bytes (p : TransactionPayload) : list byte :=
  transaction_payload_bytes p.

(** ** The update structs *)
Record AccountUpdate := mkAccountUpdate {
  account_pubkey : list byte;
  account_owner : list byte;
  lamports : Z;
  executable : bool;
  rent_epoch : Z;
  account_slot : Z;
  write_version : Z;
  account_payload : AccountPayload;
}.

Record TransactionUpdate := mkTransactionUpdate {
  tx_slot : Z;
  tx_index : Z;
  signature : list byte;
  is_vote : bool;
  tx_payload : TransactionPayload;
}.

Record SlotUpdate := mkSlotUpdate { su_slot : Z }.

Record AccountUpdateWireMeta := mkWireMeta { sender_created_at_unix_nanos : Z }.

#[export] Instance AccountUpdate_eq_dec : EqDecision AccountUpdate.
Proof. solve_decision. Defined.
#[export] Instance TransactionUpdate_eq_dec : EqDecision TransactionUpdate.
Proof. solve_decision. Defined.
#[export] Instance SlotUpdate_eq_dec : EqDecision SlotUpdate.
Proof. solve_decision. Defined.

(** The Rust types, as predicates: array lengths, integer widths and the
    bound the payload constructors enforce. *)
Definition AccountUpdate_wf (u : AccountUpdate) : Prop :=
  zlen (account_pubkey u) = 32 ∧ zlen (account_owner u) = 32 ∧
  is_u64 (lamports u) ∧ is_u64 (rent_epoch u) ∧ is_u64 (account_slot u) ∧
  is_u64 (write_version u) ∧
  zlen (account_payload_bytes (account_payload u)) ≤ MAX_ACCOUNT_PAYLOAD_BYTES.

Definition TransactionUpdate_wf (u : TransactionUpdate) : Prop :=
  is_u64 (tx_slot u) ∧ is_u32 (tx_index u) ∧ zlen (signature u) = 64 ∧
  zlen (transaction_payload_bytes (tx_payload u)) ≤ MAX_TRANSACTION_PAYLOAD_BYTES.

Definition SlotUpdate_wf (u : SlotUpdate) : Prop := is_u64 (su_slot u).

#[export] Instance AccountUpdate_wf_dec u : Decision (AccountUpdate_wf u).
Proof. unfold AccountUpdate_wf. apply _. Defined.
#[export] Instance TransactionUpdate_wf_dec u : Decision (TransactionUpdate_wf u).
Proof. unfold TransactionUpdate_wf. apply _. Defined.
#[export] Instance SlotUpdate_wf_dec u : Decision (SlotUpdate_wf u).
Proof. unfold SlotUpdate_wf. apply _. Defined.

Definition AccountUpdate_new (pubkey owner : list byte) (lamports : Z)
    (executable : bool) (rent_epoch : Z) (payload : list byte) :
    Res AccountUpdate :=
  let? payload := AccountPayload_new payload in
  Ok {| account_pubkey := pubkey; account_owner := owner;
        lamports := lamports; executable := executable;
        rent_epoch := rent_epoch; account_slot := 0; write_version := 0;
        account_payload := payload |}.

Definition with_slot_write_version (u : AccountUpdate) (slot wv : Z) :
    AccountUpdate :=
  {| account_pubkey := account_pubkey u; account_owner := account_owner u;
     lamports := lamports u; executable := executable u;
     rent_epoch := rent_epoch u; account_slot := slot; write_version := wv;
     account_payload := account_payload u |}.

Definition TransactionUpdate_new (slot index : Z) (signature : list byte)
    (is_vote : bool) (payload : list byte) : Res TransactionUpdate :=
  let? payload := TransactionPayload_new payload in
  Ok {| tx_slot := slot; tx_index := index; signature := signature;
        is_vote := is_vote; tx_payload := payload |}.

(** [u8::from(bool)] *)
Definition u8_of_bool (b : bool) : Z := if b then 1 else 0.
(** [!x] on [u8] *)
Definition u8_not (z : Z) : Z := u8_max - z.

(** ** Encoders *)
Section encode.
Context {LZ : Lz4}.

Definition should_attempt_lz4 (payload : list byte) : bool :=
  if bool_decide (zlen payload < ACCOUNT_UPDATE_COMPRESSION_THRESHOLD_BYTES)
  then false
  else if bool_decide (ACCOUNT_UPDATE_COMPRESSION_MIN_GAIN_BPS = 0) then true
  else
    let sample_len :=
      Z.min (zlen payload) ACCOUNT_UPDATE_COMPRESSION_SAMPLE_BYTES in
    let sample := take (Z.to_nat sample_len) payload in
    let compressed_sample := lz4_compress sample in
    if bool_decide (zlen compressed_sample >= sample_len) then false
    else
      let gain_bps :=
        ((sample_len - zlen compressed_sample) * 10000) / sample_len in
      bool_decide (gain_bps >= ACCOUNT_UPDATE_COMPRESSION_MIN_GAIN_BPS).

(** The [header] vector of [AccountUpdate::encode_parts_at]. *)
Definition account_header (u : AccountUpdate) (ts flags raw_len wire_len : Z) :
    list byte :=
  [byte_of WIRE_VERSION; byte_of UPDATE_TAG]
  ++ u64_le ts ++ account_pubkey u ++ account_owner u ++ u64_le (lamports u)
  ++ [byte_of (u8_of_bool (executable u))]
  ++ u64_le (rent_epoch u) ++ u64_le (account_slot u) ++ u64_le (write_version u)
  ++ [byte_of flags] ++ u32_le raw_len ++ u32_le wire_len.

Definition AccountUpdate_encode_parts_at (u : AccountUpdate) (ts : Z) :
    Res (list byte * list byte) :=
  let raw_payload := account_payload_bytes (account_payload u) in
  if bool_decide (zlen raw_payload > MAX_ACCOUNT_PAYLOAD_BYTES)
  then Err (PayloadTooLarge (zlen raw_payload) MAX_ACCOUNT_PAYLOAD_BYTES)
  else
    let? raw_payload_len_u32 := ok_or (u32_try_from (zlen raw_payload))
      (PayloadTooLarge (zlen raw_payload) MAX_ACCOUNT_PAYLOAD_BYTES) in
    let '(flags, wire_payload) :=
      if should_attempt_lz4 raw_payload then
        let compressed := lz4_compress raw_payload in
        if bool_decide (zlen compressed < zlen raw_payload)
        then (Z.lor 0 ACCOUNT_UPDATE_FLAG_LZ4, compressed)
        else (0, raw_payload)
      else (0, raw_payload) in
    let? wire_payload_len_u32 := ok_or (u32_try_from (zlen wire_payload))
      (PayloadTooLarge (zlen wire_payload) MAX_ACCOUNT_PAYLOAD_BYTES) in
    Ok (account_header u ts flags raw_payload_len_u32 wire_payload_len_u32,
        wire_payload).

Definition TransactionUpdate_encode_parts_at (u : TransactionUpdate) (ts : Z) :
    Res (list byte * list byte) :=
  let payload := transaction_payload_bytes (tx_payload u) in
  if bool_decide (zlen payload > MAX_TRANSACTION_PAYLOAD_BYTES)
  then Err (PayloadTooLarge (zlen payload) MAX_TRANSACTION_PAYLOAD_BYTES)
  else
    let? payload_len_u32 := ok_or (u32_try_from (zlen payload))
      (PayloadTooLarge (zlen payload) MAX_TRANSACTION_PAYLOAD_BYTES) in
    Ok ([byte_of WIRE_VERSION; byte_of TRANSACTION_UPDATE_TAG]
        ++ u64_le ts ++ u64_le (tx_slot u) ++ u32_le (tx_index u)
        ++ [byte_of (u8_of_bool (is_vote u))] ++ signature u
        ++ u32_le payload_len_u32,
        payload).

Definition SlotUpdate_encode_parts_at (u : SlotUpdate) (ts : Z) :
    Res (list byte * list byte) :=
  Ok ([byte_of WIRE_VERSION; byte_of SLOT_UPDATE_TAG]
      ++ u64_le ts ++ u64_le (su_slot u), []).

(** [encode]: the parts stamped with the current time ([unix_time_nanos()],
    here [ts]) and concatenated. *)
Definition concat_parts (parts : Res (list byte * list byte)) : Res (list byte) :=
  let? (header, payload) := parts in Ok (header ++ payload).

Definition AccountUpdate_encode (u : AccountUpdate) (ts : Z) : Res (list byte) :=
  concat_parts (AccountUpdate_encode_parts_at u ts).
Definition TransactionUpdate_encode (u : TransactionUpdate) (ts : Z) :
    Res (list byte) :=
  concat_parts (TransactionUpdate_encode_parts_at u ts).
Definition SlotUpdate_encode (u : SlotUpdate) (ts : Z) : Res (list byte) :=
  concat_parts (SlotUpdate_encode_parts_at u ts).

(** ** Decoders *)
Record DecodedAccountUpdate := mkDecodedAccountUpdate {
  da_ts : Z;
  da_pubkey : list byte;
  da_owner : list byte;
  da_lamports : Z;
  da_executable : bool;
  da_rent_epoch : Z;
  da_slot : Z;
  da_write_version : Z;
  da_compressed : bool;
  da_raw_payload_len : Z;
  da_payload_offset : Z;
  da_wire_payload_len : Z;
}.

Definition DecodedAccountUpdate_parse (bytes : list byte) :
    Res DecodedAccountUpdate :=
  if bool_decide (zlen bytes < ACCOUNT_UPDATE_FIXED_BYTES)
  then Err (MalformedPayload "account update frame shorter than fixed header")
  else
    let? b0 := or_panic (bytes !! 0%nat) in
    let? b1 := or_panic (bytes !! 1%nat) in
    let? _ := ensure_wire (u8_of b0) (u8_of b1) UPDATE_TAG in
    let cursor := 2 in
    let? (ts, cursor) := take_u64_le bytes cursor in
    let? (pubkey, cursor) := take_array_32 bytes cursor in
    let? (owner, cursor) := take_array_32 bytes cursor in
    let? (lamports, cursor) := take_u64_le bytes cursor in
    let? (ex, cursor) := take_u8 bytes cursor in
    let? executable :=
      if bool_decide (ex = 0) then Ok false
      else if bool_decide (ex = 1) then Ok true
      else Err (MalformedPayload "account update executable flag must be 0 or 1") in
    let? (rent_epoch, cursor) := take_u64_le bytes cursor in
    let? (slot, cursor) := take_u64_le bytes cursor in
    let? (write_version, cursor) := take_u64_le bytes cursor in
    let? (flags, cursor) := take_u8 bytes cursor in
    if negb (bool_decide (Z.land flags (u8_not ACCOUNT_UPDATE_FLAG_LZ4) = 0))
    then Err (MalformedPayload "account update has unsupported compression flags")
    else
      let? (raw_payload_len, cursor) := take_u32_le bytes cursor in
      if bool_decide (raw_payload_len > MAX_ACCOUNT_PAYLOAD_BYTES)
      then Err (PayloadTooLarge raw_payload_len MAX_ACCOUNT_PAYLOAD_BYTES)
      else
        let? (wire_payload_len, cursor) := take_u32_le bytes cursor in
        if negb (bool_decide (zlen bytes = cursor + wire_payload_len))
        then Err (MalformedPayload "account update payload size mismatch")
        else Ok {| da_ts := ts; da_pubkey := pubkey; da_owner := owner;
                   da_lamports := lamports; da_executable := executable;
                   da_rent_epoch := rent_epoch; da_slot := slot;
                   da_write_version := write_version;
                   da_compressed :=
                     negb (bool_decide (Z.land flags ACCOUNT_UPDATE_FLAG_LZ4 = 0));
                   da_raw_payload_len := raw_payload_len;
                   da_payload_offset := cursor;
                   da_wire_payload_len := wire_payload_len |}.

Record DecodedTransactionUpdate := mkDecodedTransactionUpdate {
  dt_ts : Z;
  dt_slot : Z;
  dt_index : Z;
  dt_is_vote : bool;
  dt_signature : list byte;
  dt_payload_offset : Z;
  dt_payload_len : Z;
}.

Definition DecodedTransactionUpdate_parse (bytes : list byte) :
    Res DecodedTransactionUpdate :=
  if bool_decide (zlen bytes < TRANSACTION_UPDATE_FIXED_BYTES)
  then Err (MalformedPayload "transaction update frame shorter than fixed header")
  else
    let? b0 := or_panic (bytes !! 0%nat) in
    let? b1 := or_panic (bytes !! 1%nat) in
    let? _ := ensure_wire (u8_of b0) (u8_of b1) TRANSACTION_UPDATE_TAG in
    let cursor := 2 in
    let? (ts, cursor) := take_u64_le bytes cursor in
    let? (slot, cursor) := take_u64_le bytes cursor in
    let? (index, cursor) := take_u32_le bytes cursor in
    let? (v, cursor) := take_u8 bytes cursor in
    let? is_vote :=
      if bool_decide (v = 0) then Ok false
      else if bool_decide (v = 1) then Ok true
      else Err (MalformedPayload "transaction update vote flag must be 0 or 1") in
    let? (signature, cursor) := take_array_64 bytes cursor in
    let? (payload_len, cursor) := take_u32_le bytes cursor in
    if bool_decide (payload_len > MAX_TRANSACTION_PAYLOAD_BYTES)
    then Err (PayloadTooLarge payload_len MAX_TRANSACTION_PAYLOAD_BYTES)
    else if negb (bool_decide (zlen bytes = cursor + payload_len))
    then Err (MalformedPayload "transaction update payload size mismatch")
    else Ok {| dt_ts := ts; dt_slot := slot; dt_index := index;
               dt_is_vote := is_vote; dt_signature := signature;
               dt_payload_offset := cursor; dt_payload_len := payload_len |}.

Record DecodedSlotUpdate := mkDecodedSlotUpdate { ds_ts : Z; ds_slot : Z }.

Definition DecodedSlotUpdate_parse (bytes : list byte) : Res DecodedSlotUpdate :=
  if bool_decide (zlen bytes < SLOT_UPDATE_FIXED_BYTES)
  then Err (MalformedPayload "slot update frame shorter than fixed header")
  else
    let? b0 := or_panic (bytes !! 0%nat) in
    let? b1 := or_panic (bytes !! 1%nat) in
    let? _ := ensure_wire (u8_of b0) (u8_of b1) SLOT_UPDATE_TAG in
    let cursor := 2 in
    let? (ts, cursor) := take_u64_le bytes cursor in
    let? (slot, cursor) := take_u64_le bytes cursor in
    if negb (bool_decide (zlen bytes = cursor))
    then Err (MalformedPayload "slot update payload size mismatch")
    else Ok {| ds_ts := ts; ds_slot := slot |}.

Definition AccountUpdate_from_decoded (d : DecodedAccountUpdate)
    (payload : list byte) : Res (AccountUpdate * AccountUpdateWireMeta) :=
  let? payload := AccountPayload_new payload in
  Ok ({| account_pubkey := da_pubkey d; account_owner := da_owner d;
         lamports := da_lamports d; executable := da_executable d;
         rent_epoch := da_rent_epoch d; account_slot := da_slot d;
         write_version := da_write_version d; account_payload := payload |},
      {| sender_created_at_unix_nanos := da_ts d |}).

Definition AccountUpdate_decode_with_meta (bytes : list byte) :
    Res (AccountUpdate * AccountUpdateWireMeta) :=
  let? decoded := DecodedAccountUpdate_parse bytes in
  let? wire_payload := or_panic (slice bytes (da_payload_offset decoded)
    (da_payload_offset decoded + da_wire_payload_len decoded)) in
  let? payload :=
    if da_compressed decoded then
      let? decompressed :=
        match lz4_decompress wire_payload (da_raw_payload_len decoded) with
        | inl d => Ok d
        | inr e => Err (DecodeError ("account update decompress: " +:+ e))
        end in
      if negb (bool_decide (zlen decompressed = da_raw_payload_len decoded))
      then Err (MalformedPayload "account update decompressed payload size mismatch")
      else Ok decompressed
    else if negb (bool_decide (da_wire_payload_len decoded
                               = da_raw_payload_len decoded))
    then Err (MalformedPayload "account update uncompressed payload size mismatch")
    else Ok wire_payload in
  AccountUpdate_from_decoded decoded payload.

Definition AccountUpdate_decode (bytes : list byte) : Res AccountUpdate :=
  rmap fst (AccountUpdate_decode_with_meta bytes).

(** The owned variant decodes out of a reference-counted [Bytes]; its slices
    are the same byte strings. *)
Definition AccountUpdate_decode_owned_with_meta (bytes : list byte) :
    Res (AccountUpdate * AccountUpdateWireMeta) :=
  let? decoded := DecodedAccountUpdate_parse bytes in
  let? wire_payload := or_panic (slice bytes (da_payload_offset decoded)
    (da_payload_offset decoded + da_wire_payload_len decoded)) in
  let? payload :=
    if da_compressed decoded then
      let? decompressed :=
        match lz4_decompress wire_payload (da_raw_payload_len decoded) with
        | inl d => Ok d
        | inr e => Err (DecodeError ("account update decompress: " +:+ e))
        end in
      if negb (bool_decide (zlen decompressed = da_raw_payload_len decoded))
      then Err (MalformedPayload "account update decompressed payload size mismatch")
      else Ok decompressed
    else if negb (bool_decide (da_wire_payload_len decoded
                               = da_raw_payload_len decoded))
    then Err (MalformedPayload "account update uncompressed payload size mismatch")
    else Ok wire_payload in
  AccountUpdate_from_decoded decoded payload.

Definition AccountUpdate_decode_owned (bytes : list byte) : Res AccountUpdate :=
  rmap fst (AccountUpdate_decode_owned_with_meta bytes).

Definition TransactionUpdate_from_decoded (d : DecodedTransactionUpdate)
    (payload : list byte) : Res (TransactionUpdate * AccountUpdateWireMeta) :=
  let? payload := TransactionPayload_new payload in
  Ok ({| tx_slot := dt_slot d; tx_index := dt_index d;
         signature := dt_signature d; is_vote := dt_is_vote d;
         tx_payload := payload |},
      {| sender_created_at_unix_nanos := dt_ts d |}).

Definition TransactionUpdate_decode_with_meta (bytes : list byte) :
    Res (TransactionUpdate * AccountUpdateWireMeta) :=
  let? decoded := DecodedTransactionUpdate_parse bytes in
  let? payload := or_panic (slice bytes (dt_payload_offset decoded)
    (dt_payload_offset decoded + dt_payload_len decoded)) in
  TransactionUpdate_from_decoded decoded payload.

Definition TransactionUpdate_decode (bytes : list byte) : Res TransactionUpdate :=
  rmap fst (TransactionUpdate_decode_with_meta bytes).

Definition TransactionUpdate_decode_owned_with_meta (bytes : list byte) :
    Res (TransactionUpdate * AccountUpdateWireMeta) :=
  let? decoded := DecodedTransactionUpdate_parse bytes in
  let? payload := or_panic (slice bytes (dt_payload_offset decoded)
    (dt_payload_offset decoded + dt_payload_len decoded)) in
  TransactionUpdate_from_decoded decoded payload.

Definition TransactionUpdate_decode_owned (bytes : list byte) :
    Res TransactionUpdate :=
  rmap fst (TransactionUpdate_decode_owned_with_meta bytes).

Definition SlotUpdate_decode_with_meta (bytes : list byte) :
    Res (SlotUpdate * AccountUpdateWireMeta) :=
  let? decoded := DecodedSlotUpdate_parse bytes in
  Ok ({| su_slot := ds_slot decoded |},
      {| sender_created_at_unix_nanos := ds_ts decoded |}).

Definition SlotUpdate_decode (bytes : list byte) : Res SlotUpdate :=
  rmap fst (SlotUpdate_decode_with_meta bytes).

Definition SlotUpdate_decode_owned_with_meta (bytes : list byte) :
    Res (SlotUpdate * AccountUpdateWireMeta) := SlotUpdate_decode_with_meta bytes.

Definition SlotUpdate_decode_owned (bytes : list byte) : Res SlotUpdate :=
  rmap fst (SlotUpdate_decode_owned_with_meta bytes).
End encode.

(** ** Proof automation for the decoders

    [fwd_take H] runs the next primitive of a decoder on a frame whose unread
    part is described by [H : at_cursor bytes c rest]. *)
Ltac fwd_take H :=
  let H' := fresh "Hcur" in
  lazymatch goal with
  | |- context [rbind (take_u64_le ?b ?c) _] =>
      destruct (take_u64_at b c _ _ H ltac:(assumption)) as [-> H']
  | |- context [rbind (take_u32_le ?b ?c) _] =>
      destruct (take_u32_at b c _ _ H ltac:(assumption)) as [-> H']
  | |- context [rbind (take_u8 ?b ?c) _] =>
      destruct (take_u8_at b c _ _ H) as [-> H']
  | |- context [rbind (take_array_32 ?b ?c) _] =>
      destruct (take_array_32_at b c _ _ H ltac:(assumption)) as [-> H']
  | |- context [rbind (take_array_64 ?b ?c) _] =>
      destruct (take_array_64_at b c _ _ H ltac:(assumption)) as [-> H']
  end;
  clear H; rename H' into H; cbn [rbind].

(** [back_take] turns one successful read of a decoder into what it says
    about the frame, earliest field first. *)
Ltac back_take :=
  match goal with
  | H : take_u64_le _ _ = Ok (_, _) |- _ =>
      apply take_u64_read in H as (? & -> & ? & ?); [|lia..]
  | H : take_u32_le _ _ = Ok (_, _) |- _ =>
      apply take_u32_read in H as (? & -> & ? & ?); [|lia..]
  | H : take_u8 _ _ = Ok (_, _) |- _ =>
      apply take_u8_read in H as (? & -> & ? & ?); [|lia..]
  | H : take_array_32 _ _ = Ok (_, _) |- _ =>
      apply take_array_32_read in H as (? & -> & ? & ?); [|lia..]
  | H : take_array_64 _ _ = Ok (_, _) |- _ =>
      apply take_array_64_read in H as (? & -> & ? & ?); [|lia..]
  end.

Lemma u8_bool_flag (b : bool) :
  u8_of (byte_of (u8_of_bool b)) = u8_of_bool b.
Proof. by destruct b. Qed.

Lemma decode_bool_flag (b : bool) msg :
  (if bool_decide (u8_of_bool b = 0) then Ok false
   else if bool_decide (u8_of_bool b = 1) then Ok true
   else Err (MalformedPayload msg)) = Ok (E:=QlasterError) b.
Proof. by destruct b. Qed.

Lemma two_byte_prefix v t (rest : list byte) :
  zlen ([v; t] ++ rest) ≤ u64_max → at_cursor ([v; t] ++ rest) 2 rest.
Proof. apply (at_cursor_prefix [v; t]). Qed.

Section slot_frames.

(** A slot frame decodes to the update and timestamp it was built from. *)
Lemma slot_parse_encode u ts :
  SlotUpdate_wf u → is_u64 ts →
  ∃ h p, SlotUpdate_encode_parts_at u ts = Ok (h, p) ∧ p = [] ∧
    zlen h = SLOT_UPDATE_FIXED_BYTES ∧
    SlotUpdate_decode_with_meta (h ++ p) = Ok (u, mkWireMeta ts).
Proof.
  intros Hu Hts. unfold SlotUpdate_wf in Hu. do 2 eexists. split; [done|].
  split; [done|]. rewrite app_nil_r. split; [by len|].
  unfold SlotUpdate_decode_with_meta, DecodedSlotUpdate_parse.
  rewrite bool_decide_false by (unfold SLOT_UPDATE_FIXED_BYTES; len).
  cbn [lookup list_lookup app or_panic rbind].
  rewrite !u8_of_byte_of_small by done. rewrite ensure_wire_good. cbn [rbind].
  pose proof (two_byte_prefix (byte_of WIRE_VERSION) (byte_of SLOT_UPDATE_TAG)
    (u64_le ts ++ u64_le (su_slot u))) as Hcur.
  rewrite <-(app_nil_r (u64_le (su_slot u))) in Hcur at 3.
  specialize (Hcur ltac:(unfold u64_max; len)).
  do 2 fwd_take Hcur.
  rewrite bool_decide_true by len. by destruct u.
Qed.
End slot_frames.

Section account_frames.
Context {LZ : Lz4}.

Lemma zlen_account_header_raw u ts flags raw wire :
  zlen (account_pubkey u) = 32 → zlen (account_owner u) = 32 →
  zlen (account_header u ts flags raw wire) = ACCOUNT_UPDATE_FIXED_BYTES.
Proof.
  intros Hpk How. unfold account_header, ACCOUNT_UPDATE_FIXED_BYTES. len.
Qed.

Lemma zlen_account_header u ts flags raw wire :
  AccountUpdate_wf u →
  zlen (account_header u ts flags raw wire) = ACCOUNT_UPDATE_FIXED_BYTES.
Proof. intros Hwf. apply zlen_account_header_raw; apply Hwf. Qed.

(** The header parser recovers every header field and locates the payload. *)
Lemma account_parse_header u ts (compressed : bool) raw p :
  AccountUpdate_wf u → is_u64 ts → 0 ≤ raw ≤ MAX_ACCOUNT_PAYLOAD_BYTES →
  is_u32 (zlen p) →
  DecodedAccountUpdate_parse
    (account_header u ts (u8_of_bool compressed) raw (zlen p) ++ p) =
  Ok {| da_ts := ts; da_pubkey := account_pubkey u; da_owner := account_owner u;
        da_lamports := lamports u; da_executable := executable u;
        da_rent_epoch := rent_epoch u; da_slot := account_slot u;
        da_write_version := write_version u; da_compressed := compressed;
        da_raw_payload_len := raw;
        da_payload_offset := ACCOUNT_UPDATE_FIXED_BYTES;
        da_wire_payload_len := zlen p |}.
Proof.
  intros Hwf Hts Hraw Hp.
  pose proof (zlen_account_header u ts (u8_of_bool compressed) raw (zlen p) Hwf) as Hh.
  set (frame := account_header u ts (u8_of_bool compressed) raw (zlen p) ++ p).
  assert (zlen frame = ACCOUNT_UPDATE_FIXED_BYTES + zlen p) as Hframe.
  { subst frame. rewrite zlen_app. lia. }
  assert (at_cursor frame 2 (u64_le ts ++ account_pubkey u ++ account_owner u
    ++ u64_le (lamports u) ++ byte_of (u8_of_bool (executable u))
    :: u64_le (rent_epoch u) ++ u64_le (account_slot u) ++ u64_le (write_version u)
    ++ byte_of (u8_of_bool compressed) :: u32_le raw ++ u32_le (zlen p) ++ p))
    as Hcur.
  { assert (zlen frame ≤ u64_max) as Hmax.
    { rewrite Hframe.
      unfold is_u32, u32_max, ACCOUNT_UPDATE_FIXED_BYTES, u64_max in *. lia. }
    subst frame. unfold account_header in *. rewrite <-!app_assoc in *.
    by apply two_byte_prefix. }
  assert (is_u32 raw) as Hraw32.
  { unfold is_u32, u32_max, MAX_ACCOUNT_PAYLOAD_BYTES in *. lia. }
  destruct Hwf as (Hpk & How & Hla & Hre & Hsl & Hwv & Hpl).
  unfold DecodedAccountUpdate_parse.
  rewrite bool_decide_false by (pose proof (zlen_nonneg p); lia).
  assert (frame !! 0%nat = Some (byte_of WIRE_VERSION)) as -> by done.
  assert (frame !! 1%nat = Some (byte_of UPDATE_TAG)) as -> by done.
  cbn [or_panic rbind].
  rewrite !u8_of_byte_of_small by done. rewrite ensure_wire_good. cbn [rbind].
  do 5 fwd_take Hcur. rewrite u8_bool_flag, decode_bool_flag. cbn [rbind].
  do 4 fwd_take Hcur. rewrite u8_bool_flag.
  assert (Z.land (u8_of_bool compressed) (u8_not ACCOUNT_UPDATE_FLAG_LZ4) = 0) as ->
    by by destruct compressed.
  rewrite bool_decide_true by done. cbn [negb]. fwd_take Hcur.
  rewrite bool_decide_false by lia. fwd_take Hcur.
  rewrite bool_decide_true by (unfold ACCOUNT_UPDATE_FIXED_BYTES in *; lia).
  cbn [negb]. f_equal. by destruct compressed.
Qed.

(** What [encode_parts_at] produces: either the raw payload with a clear
    flag, or the strictly smaller LZ4 block with the flag set. *)
Lemma account_encode_shape u ts :
  AccountUpdate_wf u →
  let raw := account_payload_bytes (account_payload u) in
  ∃ (compressed : bool) wire,
    AccountUpdate_encode_parts_at u ts =
      Ok (account_header u ts (u8_of_bool compressed) (zlen raw) (zlen wire), wire) ∧
    zlen wire ≤ zlen raw ∧
    (if compressed then
       wire = lz4_compress raw ∧ zlen wire < zlen raw ∧
       ACCOUNT_UPDATE_COMPRESSION_THRESHOLD_BYTES ≤ zlen raw
     else wire = raw).
Proof.
  intros (_ & _ & _ & _ & _ & _ & Hpl) raw. fold raw in Hpl.
  unfold AccountUpdate_encode_parts_at. fold raw.
  rewrite bool_decide_false by lia.
  assert (∀ l : list byte, zlen l ≤ zlen raw → u32_try_from (zlen l) = Some (zlen l))
    as Hu32.
  { intros l Hl. unfold u32_try_from. rewrite bool_decide_true; [done|].
    unfold u32_max, MAX_ACCOUNT_PAYLOAD_BYTES in *. lia. }
  rewrite Hu32 by lia. cbn [ok_or rbind].
  destruct (should_attempt_lz4 raw) eqn:Hsh.
  - case_bool_decide as Hlt.
    + exists true, (lz4_compress raw). rewrite Hu32 by lia.
      split; [done|]. split; [lia|]. split_and!; [done|lia|].
      unfold should_attempt_lz4 in Hsh. case_bool_decide; [done|lia].
    + exists false, raw. rewrite Hu32 by lia. done.
  - exists false, raw. rewrite Hu32 by lia. done.
Qed.

Lemma account_roundtrip `{!Lz4Laws} u ts :
  AccountUpdate_wf u → is_u64 ts →
  ∃ h p, AccountUpdate_encode_parts_at u ts = Ok (h, p) ∧
    zlen h = ACCOUNT_UPDATE_FIXED_BYTES ∧
    zlen p ≤ zlen (account_payload_bytes (account_payload u)) ∧
    AccountUpdate_decode_with_meta (h ++ p) = Ok (u, mkWireMeta ts).
Proof.
  intros Hwf Hts.
  destruct (account_encode_shape u ts Hwf) as (c & wire & Henc & Hle & Hc).
  assert (zlen (account_payload_bytes (account_payload u))
          ≤ MAX_ACCOUNT_PAYLOAD_BYTES) as Hmax by apply Hwf.
  do 2 eexists. split; [exact Henc|].
  split; [by apply zlen_account_header|]. split; [done|].
  unfold AccountUpdate_decode_with_meta.
  pose proof (zlen_nonneg (account_payload_bytes (account_payload u))).
  pose proof (zlen_nonneg wire).
  rewrite account_parse_header; [|done|done|lia|].
  2:{ unfold is_u32, u32_max, MAX_ACCOUNT_PAYLOAD_BYTES in *. lia. }
  cbn [rbind da_payload_offset da_wire_payload_len da_compressed
       da_raw_payload_len].
  erewrite slice_full_tail;
    [|reflexivity|symmetry; by apply zlen_account_header|reflexivity].
  cbn [or_panic rbind].
  assert (AccountPayload_new (account_payload_bytes (account_payload u))
          = Ok (account_payload u)) as Hnew.
  { unfold AccountPayload_new. rewrite bool_decide_false by lia.
    by destruct (account_payload u). }
  destruct c.
  - destruct Hc as (-> & _ & _). rewrite lz4_roundtrip. cbn [rbind].
    rewrite bool_decide_true by done. cbn [negb rbind].
    unfold AccountUpdate_from_decoded. rewrite Hnew. by destruct u.
  - subst wire. rewrite bool_decide_true by done. cbn [negb rbind].
    unfold AccountUpdate_from_decoded. rewrite Hnew. by destruct u.
Qed.
End account_frames.

Section transaction_frames.

Lemma transaction_roundtrip u ts :
  TransactionUpdate_wf u → is_u64 ts →
  ∃ h p, TransactionUpdate_encode_parts_at u ts = Ok (h, p) ∧
    zlen h = TRANSACTION_UPDATE_FIXED_BYTES ∧
    p = transaction_payload_bytes (tx_payload u) ∧
    TransactionUpdate_decode_with_meta (h ++ p) = Ok (u, mkWireMeta ts).
Proof.
  intros (Hsl & Hix & Hsig & Hpl) Hts.
  set (p := transaction_payload_bytes (tx_payload u)) in *.
  pose proof (zlen_nonneg p).
  assert (is_u32 (zlen p)) as Hp32
    by (unfold is_u32, u32_max, MAX_TRANSACTION_PAYLOAD_BYTES in *; lia).
  unfold TransactionUpdate_encode_parts_at. fold p.
  rewrite bool_decide_false by lia. unfold u32_try_from.
  rewrite bool_decide_true by apply Hp32. cbn [ok_or rbind].
  do 2 eexists. split; [reflexivity|].
  assert (∀ v t : byte, zlen ([v; t] ++ u64_le ts ++ u64_le (tx_slot u)
    ++ u32_le (tx_index u) ++ [byte_of (u8_of_bool (is_vote u))] ++ signature u
    ++ u32_le (zlen p)) = TRANSACTION_UPDATE_FIXED_BYTES) as Hh.
  { intros. unfold TRANSACTION_UPDATE_FIXED_BYTES. len. }
  split; [apply Hh|]. split; [done|].
  specialize (Hh (byte_of WIRE_VERSION) (byte_of TRANSACTION_UPDATE_TAG)).
  set (h := [byte_of WIRE_VERSION; byte_of TRANSACTION_UPDATE_TAG] ++ _) in *.
  assert (at_cursor (h ++ p) 2 (u64_le ts ++ u64_le (tx_slot u)
    ++ u32_le (tx_index u) ++ byte_of (u8_of_bool (is_vote u)) :: signature u
    ++ u32_le (zlen p) ++ p)) as Hcur.
  { assert (zlen (h ++ p) ≤ u64_max) as Hmax.
    { rewrite zlen_app, Hh. unfold is_u32, u32_max, u64_max,
        TRANSACTION_UPDATE_FIXED_BYTES in *. lia. }
    subst h. rewrite <-!app_assoc in *. by apply two_byte_prefix. }
  assert (zlen (h ++ p) = TRANSACTION_UPDATE_FIXED_BYTES + zlen p) as Hlen
    by (rewrite zlen_app; lia).
  unfold TransactionUpdate_decode_with_meta, DecodedTransactionUpdate_parse.
  rewrite bool_decide_false by lia.
  assert ((h ++ p) !! 0%nat = Some (byte_of WIRE_VERSION)) as -> by done.
  assert ((h ++ p) !! 1%nat = Some (byte_of TRANSACTION_UPDATE_TAG)) as -> by done.
  cbn [or_panic rbind].
  rewrite !u8_of_byte_of_small by done. rewrite ensure_wire_good. cbn [rbind].
  do 4 fwd_take Hcur. rewrite u8_bool_flag, decode_bool_flag. cbn [rbind].
  do 2 fwd_take Hcur. rewrite bool_decide_false by lia.
  rewrite bool_decide_true by (unfold TRANSACTION_UPDATE_FIXED_BYTES in *; lia).
  cbn [negb rbind dt_payload_offset dt_payload_len].
  erewrite slice_full_tail; [|reflexivity|rewrite Hh; reflexivity|reflexivity].
  cbn [or_panic rbind]. unfold TransactionUpdate_from_decoded, TransactionPayload_new.
  rewrite bool_decide_false by lia. cbn. subst p. destruct u as [???? []]. done.
Qed.
End transaction_frames.

(** ** What an accepted frame looks like *)
Lemma two_bytes_split (bytes : list byte) b0 b1 tag :
  ensure_wire (u8_of b0) (u8_of b1) tag = Ok tt →
  bytes !! 0%nat = Some b0 → bytes !! 1%nat = Some b1 →
  bytes = [byte_of WIRE_VERSION; byte_of tag] ++ drop (Z.to_nat 2) bytes.
Proof.
  intros [Hv Ht]%ensure_wire_Ok H0 H1.
  rewrite <-Hv, <-Ht, !byte_of_u8_of. destruct bytes as [|? [|??]]; naive_solver.
Qed.

Lemma bool_flag_read z msg b :
  (if bool_decide (z = 0) then Ok false
   else if bool_decide (z = 1) then Ok true
   else Err (MalformedPayload msg)) = Ok (E:=QlasterError) b → z = u8_of_bool b.
Proof. intros. inv_ok; by subst. Qed.

Lemma drop_zlen {A} (l : list A) : drop (Z.to_nat (zlen l)) l = [].
Proof. apply drop_ge. unfold zlen. lia. Qed.

(** Rebuild the whole frame from the [drop] equations of the reads. *)
Ltac rebuild_frame :=
  match goal with
  | u : unit |- _ => destruct u
  end;
  match goal with
  | H : ensure_wire _ _ _ = Ok tt |- ?bytes = _ =>
      let E := fresh in
      pose proof (two_bytes_split bytes _ _ _ H ltac:(eassumption)
                    ltac:(eassumption)) as E;
      etransitivity; [exact E|]; clear E
  end;
  repeat match goal with
  | H : drop (Z.to_nat ?c) ?b = _ |- context [drop (Z.to_nat ?c) ?b] =>
      rewrite H; clear H
  end.

Lemma slot_parse_inv bytes d :
  zlen bytes ≤ u64_max → DecodedSlotUpdate_parse bytes = Ok d →
  is_u64 (ds_ts d) ∧ is_u64 (ds_slot d) ∧
  bytes = [byte_of WIRE_VERSION; byte_of SLOT_UPDATE_TAG]
          ++ u64_le (ds_ts d) ++ u64_le (ds_slot d).
Proof.
  intros Hm H. unfold DecodedSlotUpdate_parse in H. inv_ok.
  do 2 back_take. subst. cbn. split_and!; [done..|]. rebuild_frame.
  match goal with H : zlen bytes = _ |- _ => rewrite <-H end.
  by rewrite drop_zlen, app_nil_r.
Qed.

Lemma zlen_drop_tail {A} (l : list A) c n :
  0 ≤ c ≤ zlen l → zlen l = c + n → zlen (drop (Z.to_nat c) l) = n.
Proof. unfold zlen. rewrite length_drop. lia. Qed.

(** Name the unread tail, the payload of the frame. *)
Ltac name_payload :=
  match goal with
  | H : zlen ?b = ?c + ?n |- _ =>
      let E := fresh "Hp" in
      pose proof (zlen_drop_tail b c n ltac:(lia) H) as E;
      exists (drop (Z.to_nat c) b); rewrite E; clear E
  end.

Lemma transaction_parse_inv bytes d :
  zlen bytes ≤ u64_max → DecodedTransactionUpdate_parse bytes = Ok d →
  ∃ p, is_u64 (dt_ts d) ∧ is_u64 (dt_slot d) ∧ is_u32 (dt_index d) ∧
    zlen (dt_signature d) = 64 ∧ zlen p ≤ MAX_TRANSACTION_PAYLOAD_BYTES ∧
    dt_payload_len d = zlen p ∧
    dt_payload_offset d = TRANSACTION_UPDATE_FIXED_BYTES ∧
    bytes = ([byte_of WIRE_VERSION; byte_of TRANSACTION_UPDATE_TAG]
      ++ u64_le (dt_ts d) ++ u64_le (dt_slot d) ++ u32_le (dt_index d)
      ++ [byte_of (u8_of_bool (dt_is_vote d))] ++ dt_signature d
      ++ u32_le (zlen p)) ++ p.
Proof.
  intros Hm H. unfold DecodedTransactionUpdate_parse in H. inv_ok.
  all: do 6 back_take; subst;
    cbn [dt_ts dt_slot dt_index dt_is_vote dt_signature dt_payload_offset
         dt_payload_len].
  all: name_payload; split_and!; try done; try lia;
    [unfold TRANSACTION_UPDATE_FIXED_BYTES; len|].
  all: rewrite <-!app_assoc; rebuild_frame; reflexivity.
Qed.

(** The update a decoded account header describes, around a payload. *)
Definition decoded_account (d : DecodedAccountUpdate) (p : AccountPayload) :
    AccountUpdate :=
  {| account_pubkey := da_pubkey d; account_owner := da_owner d;
     lamports := da_lamports d; executable := da_executable d;
     rent_epoch := da_rent_epoch d; account_slot := da_slot d;
     write_version := da_write_version d; account_payload := p |}.

Lemma lz4_flag_read flags :
  is_u8 flags → Z.land flags (u8_not ACCOUNT_UPDATE_FLAG_LZ4) = 0 →
  flags = u8_of_bool (negb (bool_decide (Z.land flags ACCOUNT_UPDATE_FLAG_LZ4 = 0))).
Proof.
  intros Hf H0. unfold is_u8, u8_max in Hf.
  assert (flags = Z.land flags ACCOUNT_UPDATE_FLAG_LZ4) as Heq.
  { transitivity (Z.land flags (Z.ones 8)).
    { rewrite Z.land_ones by lia. symmetry. apply Z.mod_small. lia. }
    change (Z.ones 8) with
      (Z.lor ACCOUNT_UPDATE_FLAG_LZ4 (u8_not ACCOUNT_UPDATE_FLAG_LZ4)).
    by rewrite Z.land_lor_distr_r, H0, Z.lor_0_r. }
  change ACCOUNT_UPDATE_FLAG_LZ4 with (Z.ones 1) in *.
  rewrite Z.land_ones in * by lia. pose proof (Z.mod_pos_bound flags (2 ^ 1)).
  case_bool_decide; cbn; lia.
Qed.

Lemma account_parse_inv bytes d :
  zlen bytes ≤ u64_max → DecodedAccountUpdate_parse bytes = Ok d →
  ∃ p, is_u64 (da_ts d) ∧ zlen (da_pubkey d) = 32 ∧ zlen (da_owner d) = 32 ∧
    is_u64 (da_lamports d) ∧ is_u64 (da_rent_epoch d) ∧ is_u64 (da_slot d) ∧
    is_u64 (da_write_version d) ∧
    0 ≤ da_raw_payload_len d ≤ MAX_ACCOUNT_PAYLOAD_BYTES ∧
    da_wire_payload_len d = zlen p ∧ is_u32 (zlen p) ∧
    da_payload_offset d = ACCOUNT_UPDATE_FIXED_BYTES ∧
    bytes = account_header (decoded_account d (mkAccountPayload p)) (da_ts d)
              (u8_of_bool (da_compressed d)) (da_raw_payload_len d) (zlen p) ++ p.
Proof.
  intros Hm H. unfold DecodedAccountUpdate_parse in H. inv_ok.
  all: do 11 back_take; subst;
    cbn [da_ts da_pubkey da_owner da_lamports da_executable da_rent_epoch da_slot
         da_write_version da_compressed da_raw_payload_len da_payload_offset
         da_wire_payload_len].
  all: match goal with H : Z.land _ _ = 0 |- _ =>
         apply lz4_flag_read in H; [|done]; rewrite <-H; clear H end.
  all: name_payload; unfold is_u32 in *; split_and!; try done; try lia;
    [unfold ACCOUNT_UPDATE_FIXED_BYTES; len|].
  all: unfold account_header, decoded_account; rewrite <-!app_assoc;
    rebuild_frame; reflexivity.
Qed.

(** ** Decoder results are well formed and decoders do not panic *)
Section decoders.
Context {LZ : Lz4}.

Lemma slot_decode_inv bytes u m :
  zlen bytes ≤ u64_max → SlotUpdate_decode_with_meta bytes = Ok (u, m) →
  SlotUpdate_wf u ∧ is_u64 (sender_created_at_unix_nanos m) ∧
  SlotUpdate_encode u (sender_created_at_unix_nanos m) = Ok bytes.
Proof.
  unfold SlotUpdate_decode_with_meta. intros Hm H. inv_ok. simplify_eq.
  match goal with H : DecodedSlotUpdate_parse _ = _ |- _ =>
    apply slot_parse_inv in H as (? & ? & ->); [|done] end.
  split_and!; [done..|]. unfold SlotUpdate_encode, SlotUpdate_encode_parts_at.
  cbn [concat_parts rbind su_slot sender_created_at_unix_nanos].
  by rewrite app_nil_r.
Qed.

Lemma transaction_decode_inv bytes u m :
  zlen bytes ≤ u64_max → TransactionUpdate_decode_with_meta bytes = Ok (u, m) →
  TransactionUpdate_wf u ∧ is_u64 (sender_created_at_unix_nanos m) ∧
  TransactionUpdate_encode u (sender_created_at_unix_nanos m) = Ok bytes.
Proof.
  unfold TransactionUpdate_decode_with_meta, TransactionUpdate_from_decoded,
    TransactionPayload_new. intros Hm H. inv_ok. simplify_eq.
  match goal with H : DecodedTransactionUpdate_parse _ = Ok ?d |- _ =>
    apply transaction_parse_inv in H as (p & ? & ? & ? & ? & ? & Hl & Ho & Hb);
    [|done]; rewrite Hl, Ho, Hb in * end.
  match goal with H : slice _ _ _ = Some _ |- _ =>
    erewrite slice_full_tail in H; [|reflexivity| |reflexivity];
    [|unfold TRANSACTION_UPDATE_FIXED_BYTES; len] end.
  simplify_eq. split_and!; [done..|].
  unfold TransactionUpdate_encode, TransactionUpdate_encode_parts_at, u32_try_from.
  cbn [transaction_payload_bytes tx_payload]. rewrite bool_decide_false by done.
  rewrite bool_decide_true
    by (unfold u32_max, MAX_TRANSACTION_PAYLOAD_BYTES in *; lia).
  reflexivity.
Qed.

(** The abstract meaning of an account frame: a fixed header, then either the
    payload itself or an LZ4 block that expands to it. *)
Definition account_frame_of (u : AccountUpdate) (ts : Z) (bytes : list byte) : Prop :=
  let raw := account_payload_bytes (account_payload u) in
  ∃ (compressed : bool) wire,
    bytes = account_header u ts (u8_of_bool compressed) (zlen raw) (zlen wire) ++ wire ∧
    (if compressed then lz4_decompress wire (zlen raw) = inl raw else wire = raw).

Lemma account_decode_inv bytes u m :
  zlen bytes ≤ u64_max → AccountUpdate_decode_with_meta bytes = Ok (u, m) →
  AccountUpdate_wf u ∧ is_u64 (sender_created_at_unix_nanos m) ∧
  account_frame_of u (sender_created_at_unix_nanos m) bytes.
Proof.
  unfold AccountUpdate_decode_with_meta, AccountUpdate_from_decoded,
    AccountPayload_new. intros Hm H. inv_ok. simplify_eq.
  match goal with H : DecodedAccountUpdate_parse _ = Ok ?d |- _ =>
    apply account_parse_inv in H
      as (p & ? & ? & ? & ? & ? & ? & ? & ? & Hl & _ & Ho & Hb);
    [|done]; rewrite Hl, Ho, Hb in * end.
  match goal with H : slice _ _ _ = Some _ |- _ =>
    erewrite slice_full_tail in H;
      [|reflexivity|by rewrite zlen_account_header_raw|reflexivity] end.
  simplify_eq. split; [by split_and!; try (done || lia)|]. split; [done|].
  match goal with
  | |- account_frame_of _ _ (account_header (decoded_account ?d _) _ _ _ _ ++ ?w) =>
      exists (da_compressed d), w; cbn [account_payload account_payload_bytes];
      destruct (da_compressed d); inv_ok; simplify_eq
  end.
  - case_match; simplify_eq.
    match goal with H : zlen _ = da_raw_payload_len _ |- _ => by rewrite H end.
  - match goal with H : zlen _ = da_raw_payload_len _ |- _ => by rewrite H end.
Qed.
End decoders.

Ltac no_panic :=
  repeat first
    [ done
    | solve [auto with qpanic]
    | match goal with
      | |- (if bool_decide _ then _ else _) ≠ Panic => case_bool_decide
      | |- (if negb (bool_decide _) then _ else _) ≠ Panic =>
          case_bool_decide; cbn [negb]
      | |- match ?x with (_, _) => _ end ≠ Panic => destruct x
      | |- rbind _ _ ≠ Panic => apply rbind_no_panic; [|intros ? _]
      end ].

Lemma lookup_in_range {A E} (l : list A) (i : nat) :
  Z.of_nat i < zlen l → or_panic (E:=E) (l !! i) ≠ Panic.
Proof.
  intros Hi. destruct (lookup_lt_is_Some_2 l i) as [x ->]; [|done].
  unfold zlen in Hi. lia.
Qed.

Section no_panic.
Context {LZ : Lz4}.

Lemma slot_parse_no_panic bytes : DecodedSlotUpdate_parse bytes ≠ Panic.
Proof.
  unfold DecodedSlotUpdate_parse. case_bool_decide; [done|].
  unfold SLOT_UPDATE_FIXED_BYTES in *.
  apply rbind_no_panic; [apply lookup_in_range; lia|intros ? _].
  apply rbind_no_panic; [apply lookup_in_range; lia|intros ? _]. no_panic.
Qed.

Lemma transaction_parse_no_panic bytes :
  DecodedTransactionUpdate_parse bytes ≠ Panic.
Proof.
  unfold DecodedTransactionUpdate_parse. case_bool_decide; [done|].
  unfold TRANSACTION_UPDATE_FIXED_BYTES in *.
  apply rbind_no_panic; [apply lookup_in_range; lia|intros ? _].
  apply rbind_no_panic; [apply lookup_in_range; lia|intros ? _]. no_panic.
Qed.

Lemma account_parse_no_panic bytes : DecodedAccountUpdate_parse bytes ≠ Panic.
Proof.
  unfold DecodedAccountUpdate_parse. case_bool_decide; [done|].
  unfold ACCOUNT_UPDATE_FIXED_BYTES in *.
  apply rbind_no_panic; [apply lookup_in_range; lia|intros ? _].
  apply rbind_no_panic; [apply lookup_in_range; lia|intros ? _]. no_panic.
Qed.

Lemma slot_decode_no_panic bytes : SlotUpdate_decode_with_meta bytes ≠ Panic.
Proof. apply rbind_no_panic; [apply slot_parse_no_panic|done]. Qed.

Lemma transaction_decode_no_panic bytes :
  zlen bytes ≤ u64_max → TransactionUpdate_decode_with_meta bytes ≠ Panic.
Proof.
  intros Hm. apply rbind_no_panic; [apply transaction_parse_no_panic|].
  intros d (p & _ & _ & _ & Hs & _ & Hl & Ho & Hb)%transaction_parse_inv; [|done].
  rewrite Hl, Ho, Hb. erewrite slice_full_tail; [|reflexivity| |reflexivity].
  - cbn [or_panic rbind]. unfold TransactionUpdate_from_decoded, TransactionPayload_new.
    no_panic.
  - unfold TRANSACTION_UPDATE_FIXED_BYTES. len.
Qed.

Lemma account_decode_no_panic bytes :
  zlen bytes ≤ u64_max → AccountUpdate_decode_with_meta bytes ≠ Panic.
Proof.
  intros Hm. apply rbind_no_panic; [apply account_parse_no_panic|].
  intros d (p & _ & Hpk & How & _ & _ & _ & _ & _ & Hl & _ & Ho & Hb)%account_parse_inv;
    [|done].
  rewrite Hl, Ho, Hb.
  erewrite slice_full_tail;
    [|reflexivity|by rewrite zlen_account_header_raw|reflexivity].
  cbn [or_panic rbind]. apply rbind_no_panic.
  - destruct (da_compressed d); [|no_panic].
    apply rbind_no_panic; [by case_match|]. intros ? _. no_panic.
  - intros ? _. unfold AccountUpdate_from_decoded, AccountPayload_new. no_panic.
Qed.
End no_panic.

(** ** Frames are self-delimiting *)
Lemma u32_le_inj a b : is_u32 a → is_u32 b → u32_le a = u32_le b → a = b.
Proof. intros Ha Hb H. by rewrite <-(from_u32_le a), H, from_u32_le. Qed.

(** Two frames whose equal-length headers end in the payload length: neither
    is a proper prefix of the other. *)
Lemma length_suffixed_prefix_free (h1 h2 p1 p2 : list byte) :
  zlen (h1 ++ u32_le (zlen p1)) = zlen (h2 ++ u32_le (zlen p2)) →
  is_u32 (zlen p1) → is_u32 (zlen p2) →
  ((h1 ++ u32_le (zlen p1)) ++ p1) `prefix_of` ((h2 ++ u32_le (zlen p2)) ++ p2) →
  (h1 ++ u32_le (zlen p1)) ++ p1 = (h2 ++ u32_le (zlen p2)) ++ p2.
Proof.
  intros Hlen H1 H2 [rest Heq].
  rewrite <-(app_assoc _ p1 rest) in Heq.
  apply app_inj_1 in Heq as [Hh Hp]; [|by apply Nat2Z.inj].
  apply app_inj_2 in Hh as [-> Hl]; [|apply Nat2Z.inj; trans 4; [|symmetry]; apply zlen_u32_le].
  apply u32_le_inj in Hl; [|done..].
  pose proof (f_equal zlen Hp) as Hz. rewrite zlen_app in Hz.
  assert (rest = []) as -> by (apply zlen_0_nil; lia).
  by rewrite Hp, app_nil_r.
Qed.

Lemma account_header_split u ts flags raw wire :
  ∃ pre, account_header u ts flags raw wire = pre ++ u32_le wire.
Proof. unfold account_header. rewrite !app_assoc. eauto. Qed.

(** A parsed account frame ends its fixed-size header with the body length. *)
Lemma account_parse_shape b d :
  zlen b ≤ u64_max → DecodedAccountUpdate_parse b = Ok d →
  ∃ pre p, b = (pre ++ u32_le (zlen p)) ++ p ∧ is_u32 (zlen p) ∧
    zlen (pre ++ u32_le (zlen p)) = ACCOUNT_UPDATE_FIXED_BYTES.
Proof.
  intros Hm (p & _ & Hpk & How & _ & _ & _ & _ & _ & _ & Hu & _ & Hb)%account_parse_inv;
    [|done].
  destruct (account_header_split (decoded_account d (mkAccountPayload p)) (da_ts d)
    (u8_of_bool (da_compressed d)) (da_raw_payload_len d) (zlen p)) as [pre Hs].
  exists pre, p. rewrite <-Hs. split_and!; [done..|]. by apply zlen_account_header_raw.
Qed.

Lemma transaction_parse_shape b d :
  zlen b ≤ u64_max → DecodedTransactionUpdate_parse b = Ok d →
  ∃ pre p, b = (pre ++ u32_le (zlen p)) ++ p ∧ is_u32 (zlen p) ∧
    zlen (pre ++ u32_le (zlen p)) = TRANSACTION_UPDATE_FIXED_BYTES.
Proof.
  intros Hm (p & _ & _ & _ & Hs & Hu & _ & _ & Hb)%transaction_parse_inv; [|done].
  rewrite !app_assoc in Hb. do 2 eexists. split; [exact Hb|]. split.
  - pose proof (zlen_nonneg p).
    unfold is_u32, u32_max, MAX_TRANSACTION_PAYLOAD_BYTES in *. lia.
  - unfold TRANSACTION_UPDATE_FIXED_BYTES. len.
Qed.

Lemma is_ok_true {E A} (m : result E A) : is_ok m = true → ∃ a, m = Ok a.
Proof. destruct m; naive_solver. Qed.

(** ** A concrete block codec, to instantiate [Lz4]

    Run-length coding of constant strings, everything else stored verbatim
    behind a marker byte. *)
Definition rle_compress (p : list byte) : list byte :=
  match p with
  | b :: l =>
      if forallb (λ b', bool_decide (b' = b)) l && bool_decide (zlen p ≤ u64_max)
      then x01 :: b :: u64_le (zlen p) else x00 :: p
  | [] => [x00]
  end.

Definition rle_decompress (c : list byte) (n : Z) : list byte + string :=
  match c with
  | x00 :: p => inl p
  | x01 :: b :: l => inl (replicate (Z.to_nat (from_le_bytes l)) b)
  | _ => inr "corrupt block"
  end.

Definition rle_lz4 : Lz4 :=
  {| lz4_compress := rle_compress; lz4_decompress := rle_decompress |}.

Lemma forallb_const (b : byte) l :
  forallb (λ b', bool_decide (b' = b)) l = true → l = replicate (length l) b.
Proof.
  induction l as [|b' l IH]; [done|]. cbn.
  intros [->%bool_decide_eq_true ?]%andb_prop. f_equal. auto.
Qed.

Lemma rle_lz4_laws : @Lz4Laws rle_lz4.
Proof.
  split. intros [|b l]; [done|]. cbn [lz4_compress lz4_decompress rle_lz4].
  unfold rle_compress.
  destruct (_ && _) eqn:E; [|done].
  apply andb_prop in E as [Hc%forallb_const Hl%bool_decide_eq_true].
  cbn [rle_decompress]. rewrite from_u64_le.
  - f_equal. unfold zlen. rewrite Nat2Z.id. cbn [length replicate]. by rewrite <-Hc.
  - split; [apply zlen_nonneg|done].
Qed.

(** ** Properties of the data-plane codecs *)

(** C9: Every well-formed account update is encodable, the fixed header has the
    declared size, the body on the wire is never longer than the payload, and
    decoding header and body gives back the update and the sender timestamp,
    whether or not the payload was LZ4-compressed. *)
Theorem account_update_roundtrip {LZ : Lz4} {LZL : Lz4Laws} u ts :
  AccountUpdate_wf u → is_u64 ts →
  ∃ h p, AccountUpdate_encode_parts_at u ts = Ok (h, p) ∧
    zlen h = ACCOUNT_UPDATE_FIXED_BYTES ∧
    zlen p ≤ zlen (account_payload_bytes (account_payload u)) ∧
    AccountUpdate_encode u ts = Ok (h ++ p) ∧
    AccountUpdate_decode_with_meta (h ++ p) = Ok (u, mkWireMeta ts) ∧
    AccountUpdate_decode_owned (h ++ p) = Ok u.
Proof.
  intros Hwf Hts.
  destruct (account_roundtrip u ts Hwf Hts) as (h & p & He & Hh & Hp & Hd).
  exists h, p. unfold AccountUpdate_encode, AccountUpdate_decode_owned.
  change AccountUpdate_decode_owned_with_meta with AccountUpdate_decode_with_meta.
  by rewrite He, Hd.
Qed.

Definition sample_account (p : list byte) : AccountUpdate :=
  {| account_pubkey := replicate 32 x11; account_owner := replicate 32 x22;
     lamports := 42; executable := true; rent_epoch := 7; account_slot := 99;
     write_version := 11; account_payload := mkAccountPayload p |}.

Lemma account_update_roundtrip_witness :
  ∃ h p,
    @AccountUpdate_encode_parts_at rle_lz4 (sample_account [x01; x02; x03]) 123 = Ok (h, p) ∧
    @AccountUpdate_decode_with_meta rle_lz4 (h ++ p)
      = Ok (sample_account [x01; x02; x03], mkWireMeta 123).
Proof.
  destruct (@account_update_roundtrip rle_lz4 rle_lz4_laws
    (sample_account [x01; x02; x03]) 123) as (h & p & ? & ? & ? & ? & ? & ?).
  - decide_now.
  - decide_now.
  - eauto.
Defined.

(** C27: Transaction and slot updates survive the wire: encoding a well-formed
    value succeeds, the payload travels verbatim, and both the borrowing and the
    owning decoder give back the value and the sender timestamp. *)
Theorem transaction_slot_update_roundtrip t s ts :
  TransactionUpdate_wf t → SlotUpdate_wf s → is_u64 ts →
  (∃ h, TransactionUpdate_encode_parts_at t ts
          = Ok (h, transaction_payload_bytes (tx_payload t)) ∧
        zlen h = TRANSACTION_UPDATE_FIXED_BYTES ∧
        TransactionUpdate_decode_with_meta
          (h ++ transaction_payload_bytes (tx_payload t)) = Ok (t, mkWireMeta ts) ∧
        TransactionUpdate_decode_owned
          (h ++ transaction_payload_bytes (tx_payload t)) = Ok t) ∧
  (∃ h, SlotUpdate_encode_parts_at s ts = Ok (h, []) ∧
        zlen h = SLOT_UPDATE_FIXED_BYTES ∧
        SlotUpdate_decode_with_meta h = Ok (s, mkWireMeta ts) ∧
        SlotUpdate_decode_owned h = Ok s).
Proof.
  intros Ht Hs Hts. split.
  - destruct (transaction_roundtrip t ts Ht Hts) as (h & p & He & Hh & -> & Hd).
    exists h. split_and!; [done..|]. unfold TransactionUpdate_decode_owned.
    change TransactionUpdate_decode_owned_with_meta
      with TransactionUpdate_decode_with_meta. by rewrite Hd.
  - destruct (slot_parse_encode s ts Hs Hts) as (h & p & He & -> & Hh & Hd).
    rewrite app_nil_r in Hd. exists h. split_and!; [done..|].
    unfold SlotUpdate_decode_owned, SlotUpdate_decode_owned_with_meta. by rewrite Hd.
Qed.

Definition sample_transaction : TransactionUpdate :=
  {| tx_slot := 123; tx_index := 4; signature := replicate 64 x07;
     is_vote := true; tx_payload := mkTransactionPayload [x74; x78] |}.

Lemma transaction_slot_update_roundtrip_witness :
  ∃ h, TransactionUpdate_encode_parts_at sample_transaction 5 = Ok (h, [x74; x78]).
Proof.
  destruct (transaction_slot_update_roundtrip sample_transaction (mkSlotUpdate 456) 5)
    as [(h & He & _) _];
    [decide_now..|]. exists h. exact He.
Defined.

(** C28: No byte string, however malformed, makes an update decoder panic: the
    direct indexing and slicing in the parsers is always in range. *)
Theorem update_decoders_never_panic {LZ : Lz4} bytes :
  zlen bytes ≤ u64_max →
  AccountUpdate_decode_with_meta bytes ≠ Panic ∧
  AccountUpdate_decode_owned_with_meta bytes ≠ Panic ∧
  TransactionUpdate_decode_with_meta bytes ≠ Panic ∧
  TransactionUpdate_decode_owned_with_meta bytes ≠ Panic ∧
  SlotUpdate_decode_with_meta bytes ≠ Panic.
Proof.
  intros Hm.
  split_and!; [by apply account_decode_no_panic|by apply account_decode_no_panic| | |].
  - by apply transaction_decode_no_panic.
  - by apply transaction_decode_no_panic.
  - apply slot_decode_no_panic.
Qed.

Lemma update_decoders_never_panic_witness :
  @AccountUpdate_decode_with_meta rle_lz4 [x09; x02; xff] ≠ Panic.
Proof.
  apply (@update_decoders_never_panic rle_lz4 [x09; x02; xff]).
  decide_now.
Defined.

(** C30: Transaction and slot frames are canonical: any bytes the decoder accepts
    are exactly the encoding of the value and timestamp it returns, and that
    value is well formed (array lengths, integer widths, payload bound). *)
Theorem transaction_slot_frames_canonical bytes :
  zlen bytes ≤ u64_max →
  (∀ t m, TransactionUpdate_decode_with_meta bytes = Ok (t, m) →
     TransactionUpdate_wf t ∧ is_u64 (sender_created_at_unix_nanos m) ∧
     TransactionUpdate_encode t (sender_created_at_unix_nanos m) = Ok bytes) ∧
  (∀ s m, SlotUpdate_decode_with_meta bytes = Ok (s, m) →
     SlotUpdate_wf s ∧ is_u64 (sender_created_at_unix_nanos m) ∧
     SlotUpdate_encode s (sender_created_at_unix_nanos m) = Ok bytes).
Proof.
  intros Hm. split; intros.
  - by apply transaction_decode_inv.
  - by apply slot_decode_inv.
Qed.

Lemma transaction_slot_frames_canonical_witness :
  let bytes := [x09; x07] ++ u64_le 5 ++ u64_le 44 in
  SlotUpdate_decode_with_meta bytes = Ok (mkSlotUpdate 44, mkWireMeta 5) ∧
  SlotUpdate_encode (mkSlotUpdate 44) 5 = Ok bytes.
Proof.
  intros bytes.
  assert (SlotUpdate_decode_with_meta bytes = Ok (mkSlotUpdate 44, mkWireMeta 5)) as H
    by (vm_compute; reflexivity).
  split; [exact H|].
  apply (transaction_slot_frames_canonical bytes) in H; [apply H|].
  decide_now.
Defined.

(** C29: An accepted account frame means what it says: the result is well formed
    and the bytes are the fixed header of that very update followed by its
    payload, or by a block that the LZ4 decoder expands to exactly the payload
    whose length the header declares. *)
Theorem account_decode_sound {LZ : Lz4} bytes u m :
  zlen bytes ≤ u64_max → AccountUpdate_decode_with_meta bytes = Ok (u, m) →
  AccountUpdate_wf u ∧ is_u64 (sender_created_at_unix_nanos m) ∧
  account_frame_of u (sender_created_at_unix_nanos m) bytes.
Proof. apply account_decode_inv. Qed.

Lemma account_decode_sound_witness :
  let bytes := @account_header (sample_account [x05]) 77 0 1 1 ++ [x05] in
  AccountUpdate_wf (sample_account [x05]) ∧
  @account_frame_of rle_lz4 (sample_account [x05]) 77 bytes.
Proof.
  intros bytes.
  destruct (@account_decode_sound rle_lz4 bytes (sample_account [x05]) (mkWireMeta 77))
    as (H1 & _ & H2).
  - decide_now.
  - vm_compute. reflexivity.
  - split; [exact H1|exact H2].
Defined.

(** C31: Frames are self-delimiting: if a decoder accepts two frames and one is a
    prefix of the other they are equal, so a truncated or extended frame is
    never mistaken for a valid one. *)
Theorem update_frames_prefix_free b1 b2 :
  zlen b1 ≤ u64_max → zlen b2 ≤ u64_max → b1 `prefix_of` b2 →
  (is_ok (DecodedAccountUpdate_parse b1) = true →
   is_ok (DecodedAccountUpdate_parse b2) = true → b1 = b2) ∧
  (is_ok (DecodedTransactionUpdate_parse b1) = true →
   is_ok (DecodedTransactionUpdate_parse b2) = true → b1 = b2) ∧
  (is_ok (DecodedSlotUpdate_parse b1) = true →
   is_ok (DecodedSlotUpdate_parse b2) = true → b1 = b2).
Proof.
  intros Hm1 Hm2 Hpre.
  split_and!; intros [d1 E1]%is_ok_true [d2 E2]%is_ok_true.
  - apply account_parse_shape in E1 as (h1 & p1 & -> & Hu1 & Hl1); [|done].
    apply account_parse_shape in E2 as (h2 & p2 & -> & Hu2 & Hl2); [|done].
    apply length_suffixed_prefix_free; [congruence|done..].
  - apply transaction_parse_shape in E1 as (h1 & p1 & -> & Hu1 & Hl1); [|done].
    apply transaction_parse_shape in E2 as (h2 & p2 & -> & Hu2 & Hl2); [|done].
    apply length_suffixed_prefix_free; [congruence|done..].
  - apply slot_parse_inv in E1 as (_ & _ & Hx1); [|done].
    apply slot_parse_inv in E2 as (_ & _ & Hx2); [|done].
    apply prefix_length_eq; [done|]. apply Nat2Z.inj_le.
    change (zlen b2 ≤ zlen b1). rewrite Hx1, Hx2. len.
Qed.

Lemma update_frames_prefix_free_witness :
  let b := [x09; x07] ++ u64_le 5 ++ u64_le 44 in
  is_ok (DecodedSlotUpdate_parse b) = true ∧
  ¬ (is_ok (DecodedSlotUpdate_parse (take 17 b)) = true).
Proof.
  intros b. assert (is_ok (DecodedSlotUpdate_parse b) = true) as H
    by (vm_compute; reflexivity).
  split; [exact H|]. intros Ht.
  assert (take 17 b = b) as Heq; [|vm_compute in Heq; discriminate Heq].
  apply (update_frames_prefix_free (take 17 b) b);
    [decide_now|decide_now|apply prefix_take|exact Ht|exact H].
Defined.

(** The wire format of account bodies: below the 500 KiB threshold the body
    is the payload itself with a clear flag; otherwise it is compressed only when
    the LZ4 block is strictly smaller, so a body never exceeds its payload. *)
Theorem account_compression_policy {LZ : Lz4} u ts :
  AccountUpdate_wf u →
  let raw := account_payload_bytes (account_payload u) in
  ∃ (compressed : bool) wire,
    AccountUpdate_encode_parts_at u ts =
      Ok (account_header u ts (u8_of_bool compressed) (zlen raw) (zlen wire), wire) ∧
    zlen wire ≤ zlen raw ∧
    (if compressed then
       wire = lz4_compress raw ∧ zlen wire < zlen raw ∧
       ACCOUNT_UPDATE_COMPRESSION_THRESHOLD_BYTES ≤ zlen raw
     else wire = raw).
Proof. apply account_encode_shape. Qed.

Lemma account_compression_policy_witness :
  ∃ (compressed : bool) wire,
    @AccountUpdate_encode_parts_at rle_lz4 (sample_account [x05; x06]) 9 =
      Ok (account_header (sample_account [x05; x06]) 9 (u8_of_bool compressed) 2
            (zlen wire), wire).
Proof.
  destruct (@account_compression_policy rle_lz4 (sample_account [x05; x06]) 9)
    as (c & w & H & _); [decide_now|]. exists c, w. exact H.
Defined.

(** A frame of another protocol version or message kind is refused with the
    error that names what was found and what was expected, the version being
    checked first. *)
Theorem update_decoders_reject_foreign {LZ : Lz4} b0 b1 rest :
  ACCOUNT_UPDATE_FIXED_BYTES ≤ zlen (b0 :: b1 :: rest) →
  let bytes := b0 :: b1 :: rest in
  (u8_of b0 ≠ WIRE_VERSION →
     AccountUpdate_decode bytes = Err (InvalidWireVersion (u8_of b0) WIRE_VERSION) ∧
     TransactionUpdate_decode bytes = Err (InvalidWireVersion (u8_of b0) WIRE_VERSION) ∧
     SlotUpdate_decode bytes = Err (InvalidWireVersion (u8_of b0) WIRE_VERSION)) ∧
  (u8_of b0 = WIRE_VERSION →
     (u8_of b1 ≠ UPDATE_TAG →
        AccountUpdate_decode bytes = Err (InvalidMessageTag (u8_of b1) UPDATE_TAG)) ∧
     (u8_of b1 ≠ TRANSACTION_UPDATE_TAG →
        TransactionUpdate_decode bytes
          = Err (InvalidMessageTag (u8_of b1) TRANSACTION_UPDATE_TAG)) ∧
     (u8_of b1 ≠ SLOT_UPDATE_TAG →
        SlotUpdate_decode bytes = Err (InvalidMessageTag (u8_of b1) SLOT_UPDATE_TAG))).
Proof.
  intros Hlen bytes.
  assert (TRANSACTION_UPDATE_FIXED_BYTES ≤ zlen bytes ∧
          SLOT_UPDATE_FIXED_BYTES ≤ zlen bytes) as [Ht Hs].
  { unfold ACCOUNT_UPDATE_FIXED_BYTES, TRANSACTION_UPDATE_FIXED_BYTES,
      SLOT_UPDATE_FIXED_BYTES in *. subst bytes. lia. }
  unfold AccountUpdate_decode, AccountUpdate_decode_with_meta,
    DecodedAccountUpdate_parse, TransactionUpdate_decode,
    TransactionUpdate_decode_with_meta, DecodedTransactionUpdate_parse,
    SlotUpdate_decode, SlotUpdate_decode_with_meta, DecodedSlotUpdate_parse.
  rewrite !bool_decide_false by (subst bytes; lia).
  subst bytes. cbn [lookup list_lookup or_panic rbind]. unfold ensure_wire.
  split; [intros Hv; by rewrite (bool_decide_false _ Hv)|].
  intros Hv. rewrite (bool_decide_true _ Hv). cbn [negb].
  split_and!; intros Hn; by rewrite (bool_decide_false _ Hn).
Qed.

Lemma update_decoders_reject_foreign_witness :
  @AccountUpdate_decode rle_lz4 (x4d :: x02 :: replicate 120 x00)
    = Err (InvalidWireVersion 77 9).
Proof.
  apply (@update_decoders_reject_foreign rle_lz4 x4d x02 (replicate 120 x00));
    decide_now.
Defined.
