(* ===== verification/ControlFrames.v ===== *)
(** * Control-plane frames of [src/src/types.rs]

    Subscribe, ping, ready and shm-ready messages, and the routing functions
    [decode_client_frame] / [decode_server_frame*].  The wire structs are
    serialised by the third-party [wincode] crate: class [Wincode] holds its
    two functions per struct and [WincodeLaws] what the crate documents and the
    code relies on: values within the codec's limits round-trip, and fields are
    laid out in declaration order with [u8] as one byte, so that the version
    and tag are bytes 0 and 1 and do not affect the rest. *)

From stdpp Require Import prelude strings.
From Stdlib Require Import Strings.Byte.
From S2P Require Import Prelude Errors WireCodec DataFrames.

(** ** Messages *)
Record SlotToken := mkSlotToken { slot_index : Z; generation : Z }.

Record SubscriptionRequest := mkSubscriptionRequest {
  req_slot_token : option SlotToken;
  req_account_pubkeys : list (list byte);
  req_account_owners : list (list byte);
  req_include_transactions : bool;
}.

Record PingRequest := mkPingRequest { ping_slot_token : SlotToken }.
Record ConnectionReady := mkConnectionReady { ready_slot_token : SlotToken }.
Record ConnectionReadyShm := mkConnectionReadyShm {
  rs_slot_token : SlotToken;
  rs_ring_path : string;
  rs_ring_capacity : Z;
}.

#[export] Instance SlotToken_eq_dec : EqDecision SlotToken.
Proof. solve_decision. Defined.
#[export] Instance SubscriptionRequest_eq_dec : EqDecision SubscriptionRequest.
Proof. solve_decision. Defined.
#[export] Instance PingRequest_eq_dec : EqDecision PingRequest.
Proof. solve_decision. Defined.
#[export] Instance ConnectionReady_eq_dec : EqDecision ConnectionReady.
Proof. solve_decision. Defined.
#[export] Instance ConnectionReadyShm_eq_dec : EqDecision ConnectionReadyShm.
Proof. solve_decision. Defined.

Definition SubscriptionRequest_new (pks owners : list (list byte)) :
    SubscriptionRequest :=
  {| req_slot_token := None; req_account_pubkeys := pks;
     req_account_owners := owners; req_include_transactions := false |}.

Definition SubscriptionRequest_transactions : SubscriptionRequest :=
  {| req_slot_token := None; req_account_pubkeys := [];
     req_account_owners := []; req_include_transactions := true |}.

Definition with_slot_token (r : SubscriptionRequest) (t : option SlotToken) :
    SubscriptionRequest :=
  {| req_slot_token := t; req_account_pubkeys := req_account_pubkeys r;
     req_account_owners := req_account_owners r;
     req_include_transactions := req_include_transactions r |}.

Definition with_transactions (r : SubscriptionRequest) : SubscriptionRequest :=
  {| req_slot_token := req_slot_token r;
     req_account_pubkeys := req_account_pubkeys r;
     req_account_owners := req_account_owners r;
     req_include_transactions := true |}.

(** ** The wire structs *)
Record WireSubscriptionRequest := mkWireSubscriptionRequest {
  ws_wire_version : Z;
  ws_message_tag : Z;
  ws_slot_index : Z;
  ws_slot_generation : Z;
  ws_account_pubkeys : list (list byte);
  ws_account_owners : list (list byte);
  ws_include_transactions : bool;
}.

Record WirePingRequest := mkWirePingRequest {
  wp_wire_version : Z;
  wp_message_tag : Z;
  wp_slot_index : Z;
  wp_slot_generation : Z;
}.

Record WireConnectionReady := mkWireConnectionReady {
  wr_wire_version : Z;
  wr_message_tag : Z;
  wr_slot_index : Z;
  wr_slot_generation : Z;
}.

Record WireConnectionReadyShm := mkWireConnectionReadyShm {
  wrs_wire_version : Z;
  wrs_message_tag : Z;
  wrs_slot_index : Z;
  wrs_slot_generation : Z;
  wrs_ring_path : string;
  wrs_ring_capacity : Z;
}.

(** ** [wincode] *)
Class Wincode (W : Type) := {
  wincode_serialize : W → list byte + string;
  wincode_deserialize : list byte → W + string;
  (** values within the configured limits of the codec *)
  wincode_fits : W → Prop;
}.

(** The two leading [u8] fields every wire struct has. *)
Class HasHead (W : Type) := {
  head_version : W → Z;
  head_tag : W → Z;
  with_version_tag : W → Z → Z → W;
}.

Class WincodeLaws (W : Type) `{!Wincode W, !HasHead W} := {
  wincode_roundtrip w : wincode_fits w →
    ∃ bytes, wincode_serialize w = inl bytes ∧ wincode_deserialize bytes = inl w;
  wincode_layout w bytes : wincode_fits w → wincode_serialize w = inl bytes →
    ∃ rest, bytes = byte_of (head_version w) :: byte_of (head_tag w) :: rest ∧
      ∀ v t, is_u8 v → is_u8 t →
        wincode_fits (with_version_tag w v t) ∧
        wincode_serialize (with_version_tag w v t)
          = inl (byte_of v :: byte_of t :: rest);
}.

#[export] Instance subscription_head : HasHead WireSubscriptionRequest := {|
  head_version := ws_wire_version; head_tag := ws_message_tag;
  with_version_tag w v t :=
    mkWireSubscriptionRequest v t (ws_slot_index w) (ws_slot_generation w)
      (ws_account_pubkeys w) (ws_account_owners w) (ws_include_transactions w) |}.
#[export] Instance ping_head : HasHead WirePingRequest := {|
  head_version := wp_wire_version; head_tag := wp_message_tag;
  with_version_tag w v t :=
    mkWirePingRequest v t (wp_slot_index w) (wp_slot_generation w) |}.
#[export] Instance ready_head : HasHead WireConnectionReady := {|
  head_version := wr_wire_version; head_tag := wr_message_tag;
  with_version_tag w v t :=
    mkWireConnectionReady v t (wr_slot_index w) (wr_slot_generation w) |}.
#[export] Instance ready_shm_head : HasHead WireConnectionReadyShm := {|
  head_version := wrs_wire_version; head_tag := wrs_message_tag;
  with_version_tag w v t :=
    mkWireConnectionReadyShm v t (wrs_slot_index w) (wrs_slot_generation w)
      (wrs_ring_path w) (wrs_ring_capacity w) |}.

(** [serialize_wire!]: [expect] turns a failure into a panic. *)
Definition serialize_wire {W} `{!Wincode W} (w : W) : Res (list byte) :=
  match wincode_serialize w with inl b => Ok b | inr _ => Panic end.

(** [deserialize_wire!] *)
Definition deserialize_wire {W} `{!Wincode W} (bytes : list byte) (ctx : string) :
    Res W :=
  match wincode_deserialize bytes with
  | inl w => Ok w
  | inr e => Err (DecodeError (ctx +:+ ": " +:+ e))
  end.

(** The frames the two peers exchange. *)
Inductive ClientFrame :=
| Subscription (r : SubscriptionRequest)
| Ping (p : PingRequest).

Inductive ServerFrame :=
| SF_AccountUpdate (u : AccountUpdate)
| SF_TransactionUpdate (u : TransactionUpdate)
| SF_SlotUpdate (u : SlotUpdate)
| SF_ConnectionReady (r : ConnectionReady)
| SF_ConnectionReadyShm (r : ConnectionReadyShm).

Inductive ServerFrameWithMeta :=
| SFM_AccountUpdate (u : AccountUpdate) (m : AccountUpdateWireMeta)
| SFM_TransactionUpdate (u : TransactionUpdate) (m : AccountUpdateWireMeta)
| SFM_SlotUpdate (u : SlotUpdate) (m : AccountUpdateWireMeta)
| SFM_ConnectionReady (r : ConnectionReady)
| SFM_ConnectionReadyShm (r : ConnectionReadyShm).

(** The four codecs the control plane uses. *)
Class ControlCodecs := {
  cc_subscription :: Wincode WireSubscriptionRequest;
  cc_ping :: Wincode WirePingRequest;
  cc_ready :: Wincode WireConnectionReady;
  cc_ready_shm :: Wincode WireConnectionReadyShm;
}.

Class ControlCodecsLaws `{!ControlCodecs} := {
  ccl_subscription :: WincodeLaws WireSubscriptionRequest;
  ccl_ping :: WincodeLaws WirePingRequest;
  ccl_ready :: WincodeLaws WireConnectionReady;
  ccl_ready_shm :: WincodeLaws WireConnectionReadyShm;
}.

Section control.
Context {CC : ControlCodecs}.

(** The wire struct each [encode] builds. *)
Definition SubscriptionRequest_wire (r : SubscriptionRequest) :
    WireSubscriptionRequest :=
  let '(slot_index, slot_generation) :=
    match req_slot_token r with
    | Some t => (slot_index t, generation t)
    | None => (UNSET_SLOT_INDEX, 0)
    end in
  {| ws_wire_version := WIRE_VERSION; ws_message_tag := REQUEST_SUBSCRIBE_TAG;
     ws_slot_index := slot_index;
     ws_slot_generation := slot_generation;
     ws_account_pubkeys := req_account_pubkeys r;
     ws_account_owners := req_account_owners r;
     ws_include_transactions := req_include_transactions r |}.

Definition SubscriptionRequest_encode (r : SubscriptionRequest) : Res (list byte) :=
  serialize_wire (SubscriptionRequest_wire r).

Definition SubscriptionRequest_decode (bytes : list byte) : Res SubscriptionRequest :=
  let? wire := deserialize_wire (W:=WireSubscriptionRequest) bytes
                 "subscription request" in
  let? _ := ensure_wire (ws_wire_version wire) (ws_message_tag wire)
              REQUEST_SUBSCRIBE_TAG in
  let slot_token :=
    if negb (bool_decide (ws_slot_index wire = UNSET_SLOT_INDEX))
    then Some (mkSlotToken (ws_slot_index wire)
                           (ws_slot_generation wire))
    else None in
  Ok {| req_slot_token := slot_token;
        req_account_pubkeys := ws_account_pubkeys wire;
        req_account_owners := ws_account_owners wire;
        req_include_transactions := ws_include_transactions wire |}.

Definition PingRequest_wire (p : PingRequest) : WirePingRequest :=
  {| wp_wire_version := WIRE_VERSION; wp_message_tag := REQUEST_PING_TAG;
     wp_slot_index := slot_index (ping_slot_token p);
     wp_slot_generation := generation (ping_slot_token p) |}.

Definition PingRequest_encode (p : PingRequest) : Res (list byte) :=
  serialize_wire (PingRequest_wire p).

Definition PingRequest_decode (bytes : list byte) : Res PingRequest :=
  let? wire := deserialize_wire (W:=WirePingRequest) bytes "ping request" in
  let? _ := ensure_wire (wp_wire_version wire) (wp_message_tag wire)
              REQUEST_PING_TAG in
  if bool_decide (wp_slot_index wire = UNSET_SLOT_INDEX)
  then Err (MalformedPayload "ping request missing slot token")
  else Ok (mkPingRequest (mkSlotToken (wp_slot_index wire)
                                      (wp_slot_generation wire))).

Definition ConnectionReady_wire (r : ConnectionReady) : WireConnectionReady :=
  {| wr_wire_version := WIRE_VERSION; wr_message_tag := READY_TAG;
     wr_slot_index := slot_index (ready_slot_token r);
     wr_slot_generation := generation (ready_slot_token r) |}.

Definition ConnectionReady_encode (r : ConnectionReady) : Res (list byte) :=
  serialize_wire (ConnectionReady_wire r).

Definition ConnectionReady_decode (bytes : list byte) : Res ConnectionReady :=
  let? wire := deserialize_wire (W:=WireConnectionReady) bytes "connection ready" in
  let? _ := ensure_wire (wr_wire_version wire) (wr_message_tag wire)
              READY_TAG in
  if bool_decide (wr_slot_index wire = UNSET_SLOT_INDEX)
  then Err (MalformedPayload "connection ready missing slot token")
  else Ok (mkConnectionReady (mkSlotToken (wr_slot_index wire)
                                          (wr_slot_generation wire))).

Definition ConnectionReadyShm_wire (r : ConnectionReadyShm) : WireConnectionReadyShm :=
  {| wrs_wire_version := WIRE_VERSION; wrs_message_tag := READY_SHM_TAG;
     wrs_slot_index := slot_index (rs_slot_token r);
     wrs_slot_generation := generation (rs_slot_token r);
     wrs_ring_path := rs_ring_path r; wrs_ring_capacity := rs_ring_capacity r |}.

Definition ConnectionReadyShm_encode (r : ConnectionReadyShm) : Res (list byte) :=
  serialize_wire (ConnectionReadyShm_wire r).

Definition ConnectionReadyShm_decode (bytes : list byte) : Res ConnectionReadyShm :=
  let? wire := deserialize_wire (W:=WireConnectionReadyShm) bytes
                 "connection ready shm" in
  let? _ := ensure_wire (wrs_wire_version wire) (wrs_message_tag wire)
              READY_SHM_TAG in
  if bool_decide (wrs_slot_index wire = UNSET_SLOT_INDEX)
  then Err (MalformedPayload "connection ready shm missing slot token")
  else if bool_decide (wrs_ring_path wire = "")
  then Err (MalformedPayload "connection ready shm missing ring path")
  else if bool_decide (wrs_ring_capacity wire = 0)
  then Err (MalformedPayload "connection ready shm has zero ring capacity")
  else Ok {| rs_slot_token := mkSlotToken (wrs_slot_index wire)
                                          (wrs_slot_generation wire);
             rs_ring_path := wrs_ring_path wire;
             rs_ring_capacity := wrs_ring_capacity wire |}.

(** ** Routing by message tag *)
Definition decode_client_frame (bytes : list byte) : Res ClientFrame :=
  let? tag := wire_tag bytes in
  if bool_decide (tag = REQUEST_SUBSCRIBE_TAG)
  then rmap Subscription (SubscriptionRequest_decode bytes)
  else if bool_decide (tag = REQUEST_PING_TAG)
  then rmap Ping (PingRequest_decode bytes)
  else Err (InvalidMessageTag tag REQUEST_SUBSCRIBE_TAG).

Context {LZ : Lz4}.

Definition decode_server_frame (bytes : list byte) : Res ServerFrame :=
  let? tag := wire_tag bytes in
  if bool_decide (tag = UPDATE_TAG)
  then rmap SF_AccountUpdate (AccountUpdate_decode bytes)
  else if bool_decide (tag = TRANSACTION_UPDATE_TAG)
  then rmap SF_TransactionUpdate (TransactionUpdate_decode bytes)
  else if bool_decide (tag = SLOT_UPDATE_TAG)
  then rmap SF_SlotUpdate (SlotUpdate_decode bytes)
  else if bool_decide (tag = READY_TAG)
  then rmap SF_ConnectionReady (ConnectionReady_decode bytes)
  else if bool_decide (tag = READY_SHM_TAG)
  then rmap SF_ConnectionReadyShm (ConnectionReadyShm_decode bytes)
  else Err (InvalidMessageTag tag UPDATE_TAG).

Definition decode_server_frame_owned (bytes : list byte) : Res ServerFrame :=
  let? tag := wire_tag bytes in
  if bool_decide (tag = UPDATE_TAG)
  then rmap SF_AccountUpdate (AccountUpdate_decode_owned bytes)
  else if bool_decide (tag = TRANSACTION_UPDATE_TAG)
  then rmap SF_TransactionUpdate (TransactionUpdate_decode_owned bytes)
  else if bool_decide (tag = SLOT_UPDATE_TAG)
  then rmap SF_SlotUpdate (SlotUpdate_decode_owned bytes)
  else if bool_decide (tag = READY_TAG)
  then rmap SF_ConnectionReady (ConnectionReady_decode bytes)
  else if bool_decide (tag = READY_SHM_TAG)
  then rmap SF_ConnectionReadyShm (ConnectionReadyShm_decode bytes)
  else Err (InvalidMessageTag tag UPDATE_TAG).

Definition decode_server_frame_owned_with_meta (bytes : list byte) :
    Res ServerFrameWithMeta :=
  let? tag := wire_tag bytes in
  if bool_decide (tag = UPDATE_TAG) then
    let? (update, meta) := AccountUpdate_decode_owned_with_meta bytes in
    Ok (SFM_AccountUpdate update meta)
  else if bool_decide (tag = TRANSACTION_UPDATE_TAG) then
    let? (update, meta) := TransactionUpdate_decode_owned_with_meta bytes in
    Ok (SFM_TransactionUpdate update meta)
  else if bool_decide (tag = SLOT_UPDATE_TAG) then
    let? (update, meta) := SlotUpdate_decode_owned_with_meta bytes in
    Ok (SFM_SlotUpdate update meta)
  else if bool_decide (tag = READY_TAG)
  then rmap SFM_ConnectionReady (ConnectionReady_decode bytes)
  else if bool_decide (tag = READY_SHM_TAG)
  then rmap SFM_ConnectionReadyShm (ConnectionReadyShm_decode bytes)
  else Err (InvalidMessageTag tag UPDATE_TAG).
End control.

(** ** No control or server frame makes a decoder panic *)
Section no_panic.
Context {CC : ControlCodecs} {LZ : Lz4}.

(** The shape of the four control decoders. *)
Lemma checked_decode_no_panic {W A} `{!Wincode W} bytes ctx (version tag : W → Z) t
    (k : W → Res A) :
  (∀ w, k w ≠ Panic) →
  (let? w := deserialize_wire bytes ctx in let? _ := ensure_wire (version w) (tag w) t in k w)
    ≠ Panic.
Proof.
  intros Hk. apply rbind_no_panic.
  - unfold deserialize_wire. by destruct (wincode_deserialize bytes).
  - intros w _. apply rbind_no_panic; auto with qpanic.
Qed.

Lemma subscription_decode_no_panic bytes : SubscriptionRequest_decode bytes ≠ Panic.
Proof. by apply checked_decode_no_panic. Qed.
Lemma ping_decode_no_panic bytes : PingRequest_decode bytes ≠ Panic.
Proof. apply checked_decode_no_panic. intros w. by case_bool_decide. Qed.
Lemma ready_decode_no_panic bytes : ConnectionReady_decode bytes ≠ Panic.
Proof. apply checked_decode_no_panic. intros w. by case_bool_decide. Qed.
Lemma ready_shm_decode_no_panic bytes : ConnectionReadyShm_decode bytes ≠ Panic.
Proof. apply checked_decode_no_panic. intros w. by repeat case_bool_decide. Qed.

Lemma client_frame_no_panic bytes : decode_client_frame bytes ≠ Panic.
Proof.
  apply rbind_no_panic; [apply wire_tag_no_panic|]. intros tag _.
  repeat case_bool_decide; [| |done]; apply rmap_no_panic;
    [apply subscription_decode_no_panic|apply ping_decode_no_panic].
Qed.

Lemma server_frame_no_panic bytes :
  zlen bytes ≤ u64_max → decode_server_frame_owned_with_meta bytes ≠ Panic.
Proof.
  intros Hl. apply rbind_no_panic; [apply wire_tag_no_panic|]. intros tag _.
  repeat case_bool_decide; [| | | | |done].
  - apply rbind_no_panic; [by apply account_decode_no_panic|by intros []].
  - apply rbind_no_panic; [by apply transaction_decode_no_panic|by intros []].
  - apply rbind_no_panic; [apply slot_decode_no_panic|by intros []].
  - apply rmap_no_panic, ready_decode_no_panic.
  - apply rmap_no_panic, ready_shm_decode_no_panic.
Qed.
End no_panic.

(** ** Generic facts about serialised wire structs *)
Section wire_struct.
Context {W : Type} `{!Wincode W, !HasHead W, !WincodeLaws W}.

Lemma wire_tag_cons2 b0 b1 rest : wire_tag (b0 :: b1 :: rest) = Ok (u8_of b1).
Proof. done. Qed.

Lemma serialize_wire_fits w ctx :
  wincode_fits w → is_u8 (head_tag w) →
  ∃ bytes, serialize_wire w = Ok bytes ∧ deserialize_wire bytes ctx = Ok w ∧
    wire_tag bytes = Ok (head_tag w).
Proof.
  intros Hf Ht. destruct (wincode_roundtrip w Hf) as (bytes & Hs & Hd).
  destruct (wincode_layout w bytes Hf Hs) as (rest & -> & _).
  exists (byte_of (head_version w) :: byte_of (head_tag w) :: rest).
  unfold serialize_wire, deserialize_wire. rewrite Hs, Hd. split_and!; [done..|].
  rewrite wire_tag_cons2. by rewrite u8_of_byte_of_small.
Qed.

(** Overwriting the version and tag bytes of a serialised struct yields the
    serialisation of the struct with those fields. *)
Lemma serialize_wire_patched w v t ctx :
  wincode_fits w → is_u8 v → is_u8 t →
  ∃ b0 b1 rest, serialize_wire w = Ok (b0 :: b1 :: rest) ∧
    deserialize_wire (byte_of v :: byte_of t :: rest) ctx
      = Ok (with_version_tag w v t).
Proof.
  intros Hf Hv Ht. destruct (wincode_roundtrip w Hf) as (bytes & Hs & Hd).
  destruct (wincode_layout w bytes Hf Hs) as (rest & -> & Hpatch).
  destruct (Hpatch v t Hv Ht) as [Hf' Hs'].
  destruct (wincode_roundtrip _ Hf') as (bytes' & Hs'' & Hd').
  do 3 eexists. unfold serialize_wire, deserialize_wire. rewrite Hs.
  split; [done|]. rewrite Hs' in Hs''. injection Hs'' as <-. by rewrite Hd'.
Qed.
End wire_struct.

(** What the subscribe decoder makes of a token: the reserved index 255 is the
    encoding of "no token". *)
Definition normalize_token (t : option SlotToken) : option SlotToken :=
  match t with
  | Some t => if bool_decide (slot_index t = UNSET_SLOT_INDEX) then None else Some t
  | None => None
  end.

Definition erase_meta (f : ServerFrameWithMeta) : ServerFrame :=
  match f with
  | SFM_AccountUpdate u _ => SF_AccountUpdate u
  | SFM_TransactionUpdate u _ => SF_TransactionUpdate u
  | SFM_SlotUpdate u _ => SF_SlotUpdate u
  | SFM_ConnectionReady r => SF_ConnectionReady r
  | SFM_ConnectionReadyShm r => SF_ConnectionReadyShm r
  end.

Section control_lemmas.
Context {CC : ControlCodecs} {CCL : ControlCodecsLaws}.

Lemma subscription_encode_decode r :
  wincode_fits (SubscriptionRequest_wire r) →
  ∃ bytes, SubscriptionRequest_encode r = Ok bytes ∧
    wire_tag bytes = Ok REQUEST_SUBSCRIBE_TAG ∧
    SubscriptionRequest_decode bytes
      = Ok (with_slot_token r (normalize_token (req_slot_token r))).
Proof.
  intros Hf.
  assert (head_tag (SubscriptionRequest_wire r) = REQUEST_SUBSCRIBE_TAG) as Htag
    by (by destruct r as [[]]).
  destruct (serialize_wire_fits _ "subscription request" Hf) as (bytes & Hs & Hd & Ht).
  { by rewrite Htag. }
  exists bytes. rewrite Htag in Ht. split_and!; [done..|].
  unfold SubscriptionRequest_decode. rewrite Hd. cbn [rbind].
  destruct r as [[[idx g]|] pks ows tx]; cbn -[ensure_wire];
    rewrite ensure_wire_good; cbn [rbind]; [|done].
  unfold with_slot_token, normalize_token. cbn. by case_bool_decide.
Qed.

Lemma ping_encode_decode p :
  wincode_fits (PingRequest_wire p) →
  ∃ bytes, PingRequest_encode p = Ok bytes ∧ wire_tag bytes = Ok REQUEST_PING_TAG ∧
    PingRequest_decode bytes =
      if bool_decide (slot_index (ping_slot_token p) = UNSET_SLOT_INDEX)
      then Err (MalformedPayload "ping request missing slot token") else Ok p.
Proof.
  intros Hf. destruct (serialize_wire_fits _ "ping request" Hf) as (bytes & Hs & Hd & Ht);
    [done|].
  exists bytes. split_and!; [done..|]. unfold PingRequest_decode. rewrite Hd.
  cbn -[ensure_wire]. rewrite ensure_wire_good. cbn. by destruct p as [[]].
Qed.

Lemma ready_encode_decode r :
  wincode_fits (ConnectionReady_wire r) →
  ∃ bytes, ConnectionReady_encode r = Ok bytes ∧ wire_tag bytes = Ok READY_TAG ∧
    ConnectionReady_decode bytes =
      if bool_decide (slot_index (ready_slot_token r) = UNSET_SLOT_INDEX)
      then Err (MalformedPayload "connection ready missing slot token") else Ok r.
Proof.
  intros Hf.
  destruct (serialize_wire_fits _ "connection ready" Hf) as (bytes & Hs & Hd & Ht); [done|].
  exists bytes. split_and!; [done..|]. unfold ConnectionReady_decode. rewrite Hd.
  cbn -[ensure_wire]. rewrite ensure_wire_good. cbn. by destruct r as [[]].
Qed.

Lemma ready_shm_encode_decode r :
  wincode_fits (ConnectionReadyShm_wire r) →
  ∃ bytes, ConnectionReadyShm_encode r = Ok bytes ∧ wire_tag bytes = Ok READY_SHM_TAG ∧
    ConnectionReadyShm_decode bytes =
      if bool_decide (slot_index (rs_slot_token r) = UNSET_SLOT_INDEX)
      then Err (MalformedPayload "connection ready shm missing slot token")
      else if bool_decide (rs_ring_path r = "")
      then Err (MalformedPayload "connection ready shm missing ring path")
      else if bool_decide (rs_ring_capacity r = 0)
      then Err (MalformedPayload "connection ready shm has zero ring capacity")
      else Ok r.
Proof.
  intros Hf.
  destruct (serialize_wire_fits _ "connection ready shm" Hf) as (bytes & Hs & Hd & Ht);
    [done|].
  exists bytes. split_and!; [done..|]. unfold ConnectionReadyShm_decode. rewrite Hd.
  cbn -[ensure_wire]. rewrite ensure_wire_good. cbn. by destruct r as [[]].
Qed.

(** A wire struct whose version or tag was overwritten is refused. *)
Lemma ensure_wire_bad_version v t e :
  v ≠ WIRE_VERSION → ensure_wire v t e = Err (InvalidWireVersion v WIRE_VERSION).
Proof. intros H. unfold ensure_wire. by rewrite bool_decide_false. Qed.
Lemma ensure_wire_bad_tag t e :
  t ≠ e → ensure_wire WIRE_VERSION t e = Err (InvalidMessageTag t e).
Proof. intros H. unfold ensure_wire. by rewrite bool_decide_true, bool_decide_false. Qed.
End control_lemmas.

(** ** A concrete codec, to instantiate [Wincode]

    Little-endian fixed-width integers, [u64] length prefixes, fields in
    declaration order. *)
Module Bincode.
Definition dec (A : Type) := list byte → option (A * list byte).

Definition dec_bind {A B} (d : dec A) (k : A → dec B) : dec B := λ l,
  match d l with Some (a, l') => k a l' | None => None end.
Definition dec_ret {A} (a : A) : dec A := λ l, Some (a, l).

Definition dec_u8 : dec Z := λ l,
  match l with b :: l' => Some (u8_of b, l') | [] => None end.
Definition dec_n (n : nat) : dec (list byte) := λ l,
  if bool_decide (n ≤ length l)%nat then Some (take n l, drop n l) else None.
Definition dec_u64 : dec Z := dec_bind (dec_n 8) (λ b, dec_ret (from_le_bytes b)).
Fixpoint dec_keys (n : nat) : dec (list (list byte)) :=
  match n with
  | O => dec_ret []
  | S n => dec_bind (dec_n 32) (λ k, dec_bind (dec_keys n) (λ ks, dec_ret (k :: ks)))
  end.
Definition dec_vec : dec (list (list byte)) :=
  dec_bind dec_u64 (λ n, dec_keys (Z.to_nat n)).
Definition dec_bool : dec bool := dec_bind dec_u8 (λ z, dec_ret (bool_decide (z = 1))).
Definition dec_string : dec string :=
  dec_bind dec_u64 (λ n, dec_bind (dec_n (Z.to_nat n))
    (λ b, dec_ret (String.string_of_list_byte b))).

Definition enc_vec (ks : list (list byte)) : list byte := u64_le (zlen ks) ++ concat ks.
Definition enc_string (s : string) : list byte :=
  u64_le (zlen (String.list_byte_of_string s)) ++ String.list_byte_of_string s.
Definition enc_head (v t i g : Z) : list byte :=
  [byte_of v] ++ [byte_of t] ++ [byte_of i] ++ u64_le g.
Definition dec_head : dec (Z * Z * Z * Z) :=
  dec_bind dec_u8 (λ v, dec_bind dec_u8 (λ t, dec_bind dec_u8 (λ i,
  dec_bind dec_u64 (λ g, dec_ret (v, t, i, g))))).
Definition head_fits (v t i g : Z) : Prop := is_u8 v ∧ is_u8 t ∧ is_u8 i ∧ is_u64 g.

Definition run {A} (d : dec A) (l : list byte) : A + string :=
  match d l with Some (a, []) => inl a | _ => inr "malformed" end.

(** [decodes d e a]: [d] reads [a] back from [e] whatever follows. *)
Definition decodes {A} (d : dec A) (e : list byte) (a : A) : Prop :=
  ∀ rest, d (e ++ rest) = Some (a, rest).

Lemma decodes_bind {A B} (d : dec A) (k : A → dec B) e1 e2 a b :
  decodes d e1 a → decodes (k a) e2 b → decodes (dec_bind d k) (e1 ++ e2) b.
Proof.
  intros H1 H2 rest. unfold dec_bind. rewrite <-app_assoc, H1. apply H2.
Qed.
Lemma decodes_ret {A} (a : A) : decodes (dec_ret a) [] a.
Proof. done. Qed.
Lemma decodes_map {A B} (d : dec A) (f : A → B) e a :
  decodes d e a → decodes (dec_bind d (λ x, dec_ret (f x))) e (f a).
Proof.
  intros H. rewrite <-(app_nil_r e). by eapply decodes_bind; [|apply decodes_ret].
Qed.
Lemma decodes_u8 z : is_u8 z → decodes dec_u8 [byte_of z] z.
Proof. intros Hz rest. cbn. by rewrite u8_of_byte_of_small. Qed.
Lemma decodes_n n l : length l = n → decodes (dec_n n) l l.
Proof.
  intros <- rest. unfold dec_n. rewrite bool_decide_true by (rewrite length_app; lia).
  by rewrite take_app_length, drop_app_length.
Qed.
Lemma decodes_u64 z : is_u64 z → decodes dec_u64 (u64_le z) z.
Proof.
  intros Hz. unfold dec_u64. rewrite <-(from_u64_le z) at 2 by done.
  apply (decodes_map (dec_n 8) from_le_bytes), decodes_n.
  pose proof (zlen_u64_le z). unfold zlen in *. lia.
Qed.
Lemma decodes_keys ks :
  Forall (λ k, zlen k = 32) ks → decodes (dec_keys (length ks)) (concat ks) ks.
Proof.
  induction 1 as [|k ks Hk _ IH]; [apply decodes_ret|]. cbn [length dec_keys concat].
  eapply decodes_bind; [apply decodes_n; unfold zlen in Hk; lia|].
  apply (decodes_map _ (cons k)), IH.
Qed.
Lemma decodes_vec ks :
  is_u64 (zlen ks) → Forall (λ k, zlen k = 32) ks → decodes dec_vec (enc_vec ks) ks.
Proof.
  intros Hn Hk. eapply decodes_bind; [by apply decodes_u64|].
  unfold zlen. rewrite Nat2Z.id. by apply decodes_keys.
Qed.
Lemma decodes_bool (b : bool) : decodes dec_bool [byte_of (u8_of_bool b)] b.
Proof. intros rest. by destruct b. Qed.
Lemma decodes_string s :
  is_u64 (zlen (String.list_byte_of_string s)) → decodes dec_string (enc_string s) s.
Proof.
  intros Hn. eapply decodes_bind; [by apply decodes_u64|].
  rewrite <-(String.string_of_list_byte_of_string s) at 3.
  apply (decodes_map (dec_n _) String.string_of_list_byte), decodes_n.
  unfold zlen. by rewrite Nat2Z.id.
Qed.

Lemma run_decodes {A} (d : dec A) e a : decodes d e a → run d e = inl a.
Proof. intros H. unfold run. specialize (H []). rewrite app_nil_r in H. by rewrite H. Qed.

Lemma decodes_head v t i g :
  head_fits v t i g → decodes dec_head (enc_head v t i g) (v, t, i, g).
Proof.
  intros (Hv & Ht & Hi & Hg).
  eapply decodes_bind; [by apply decodes_u8|].
  eapply decodes_bind; [by apply decodes_u8|].
  eapply decodes_bind; [by apply decodes_u8|].
  by apply (decodes_map dec_u64 (λ g, (v, t, i, g))), decodes_u64.
Qed.

Definition enc_sub (w : WireSubscriptionRequest) : list byte :=
  enc_head (ws_wire_version w) (ws_message_tag w) (ws_slot_index w) (ws_slot_generation w)
  ++ enc_vec (ws_account_pubkeys w) ++ enc_vec (ws_account_owners w)
  ++ [byte_of (u8_of_bool (ws_include_transactions w))].
Definition dec_sub : dec WireSubscriptionRequest :=
  dec_bind dec_head (λ h, dec_bind dec_vec (λ pks, dec_bind dec_vec (λ ows,
  dec_bind dec_bool (λ tx, dec_ret (let '(v, t, i, g) := h in
    mkWireSubscriptionRequest v t i g pks ows tx))))).
Definition sub_fits (w : WireSubscriptionRequest) : Prop :=
  head_fits (ws_wire_version w) (ws_message_tag w) (ws_slot_index w) (ws_slot_generation w) ∧
  is_u64 (zlen (ws_account_pubkeys w)) ∧ is_u64 (zlen (ws_account_owners w)) ∧
  Forall (λ k, zlen k = 32) (ws_account_pubkeys w) ∧
  Forall (λ k, zlen k = 32) (ws_account_owners w).

Definition enc_rs (w : WireConnectionReadyShm) : list byte :=
  enc_head (wrs_wire_version w) (wrs_message_tag w) (wrs_slot_index w)
    (wrs_slot_generation w)
  ++ enc_string (wrs_ring_path w) ++ u64_le (wrs_ring_capacity w).
Definition dec_rs : dec WireConnectionReadyShm :=
  dec_bind dec_head (λ h, dec_bind dec_string (λ p, dec_bind dec_u64 (λ c,
  dec_ret (let '(v, t, i, g) := h in mkWireConnectionReadyShm v t i g p c)))).
Definition rs_fits (w : WireConnectionReadyShm) : Prop :=
  head_fits (wrs_wire_version w) (wrs_message_tag w) (wrs_slot_index w)
    (wrs_slot_generation w) ∧
  is_u64 (zlen (String.list_byte_of_string (wrs_ring_path w))) ∧
  is_u64 (wrs_ring_capacity w).

Definition codecs : ControlCodecs := {|
  cc_subscription := {| wincode_serialize w := inl (enc_sub w);
    wincode_deserialize := run dec_sub; wincode_fits := sub_fits |};
  cc_ping := {| wincode_serialize w := inl (enc_head (wp_wire_version w)
      (wp_message_tag w) (wp_slot_index w) (wp_slot_generation w));
    wincode_deserialize := run (dec_bind dec_head (λ h, dec_ret
      (let '(v, t, i, g) := h in mkWirePingRequest v t i g)));
    wincode_fits w := head_fits (wp_wire_version w) (wp_message_tag w)
      (wp_slot_index w) (wp_slot_generation w) |};
  cc_ready := {| wincode_serialize w := inl (enc_head (wr_wire_version w)
      (wr_message_tag w) (wr_slot_index w) (wr_slot_generation w));
    wincode_deserialize := run (dec_bind dec_head (λ h, dec_ret
      (let '(v, t, i, g) := h in mkWireConnectionReady v t i g)));
    wincode_fits w := head_fits (wr_wire_version w) (wr_message_tag w)
      (wr_slot_index w) (wr_slot_generation w) |};
  cc_ready_shm := {| wincode_serialize w := inl (enc_rs w);
    wincode_deserialize := run dec_rs; wincode_fits := rs_fits |};
|}.

Lemma decodes_sub w : sub_fits w → decodes dec_sub (enc_sub w) w.
Proof.
  intros (Hh & Hn1 & Hn2 & Hk1 & Hk2).
  eapply decodes_bind; [by apply decodes_head|].
  eapply decodes_bind; [by apply decodes_vec|].
  eapply decodes_bind; [by apply decodes_vec|].
  destruct w. apply (decodes_map dec_bool
    (λ tx, mkWireSubscriptionRequest _ _ _ _ _ _ tx)), decodes_bool.
Qed.

Lemma decodes_rs w : rs_fits w → decodes dec_rs (enc_rs w) w.
Proof.
  intros (Hh & Hp & Hc).
  eapply decodes_bind; [by apply decodes_head|].
  eapply decodes_bind; [by apply decodes_string|].
  destruct w. by apply (decodes_map dec_u64
    (λ c, mkWireConnectionReadyShm _ _ _ _ _ c)), decodes_u64.
Qed.

Ltac layout :=
  intros w bytes Hf [= <-]; eexists; split; [reflexivity|];
  intros v t Hv Ht; split; [|reflexivity];
  cbn in *; unfold sub_fits, rs_fits, head_fits in *; cbn in *;
  destruct_and!; split_and!; assumption.

Lemma codecs_laws : @ControlCodecsLaws codecs.
Proof.
  split; split.
  - intros w Hf. eexists. split; [reflexivity|]. by apply run_decodes, decodes_sub.
  - layout.
  - intros w Hf. eexists. split; [reflexivity|]. destruct w.
    apply run_decodes.
    exact (decodes_map dec_head (λ h, let '(v, t, i, g) := h in
      mkWirePingRequest v t i g) _ _ (decodes_head _ _ _ _ Hf)).
  - layout.
  - intros w Hf. eexists. split; [reflexivity|]. destruct w.
    apply run_decodes.
    exact (decodes_map dec_head (λ h, let '(v, t, i, g) := h in
      mkWireConnectionReady v t i g) _ _ (decodes_head _ _ _ _ Hf)).
  - layout.
  - intros w Hf. eexists. split; [reflexivity|]. by apply run_decodes, decodes_rs.
  - layout.
Qed.
End Bincode.

(** ** Properties of the control-plane codecs *)

(** C32: Subscribe and ping messages reach the sender unchanged: encoding never
    panics within the codec's limits, and the router hands the message to the
    right handler; a token with the reserved slot index 255 arrives as "no token"
    in a subscription, and a ping that carries it is refused. *)
Theorem client_frames_roundtrip {CC : ControlCodecs} {CCL : ControlCodecsLaws} r p :
  wincode_fits (SubscriptionRequest_wire r) → wincode_fits (PingRequest_wire p) →
  (∃ bytes, SubscriptionRequest_encode r = Ok bytes ∧
     decode_client_frame bytes
       = Ok (Subscription (with_slot_token r (normalize_token (req_slot_token r))))) ∧
  (∃ bytes, PingRequest_encode p = Ok bytes ∧
     decode_client_frame bytes =
       if bool_decide (slot_index (ping_slot_token p) = UNSET_SLOT_INDEX)
       then Err (MalformedPayload "ping request missing slot token")
       else Ok (Ping p)).
Proof.
  intros Hr Hp. split.
  - destruct (subscription_encode_decode r Hr) as (bytes & He & Ht & Hd).
    exists bytes. split; [done|]. unfold decode_client_frame. rewrite Ht. cbn.
    by rewrite Hd.
  - destruct (ping_encode_decode p Hp) as (bytes & He & Ht & Hd).
    exists bytes. split; [done|]. unfold decode_client_frame. rewrite Ht. cbn.
    rewrite Hd. by case_bool_decide.
Qed.

Definition sample_request : SubscriptionRequest :=
  with_slot_token (with_transactions
    (SubscriptionRequest_new [replicate 32 x01; replicate 32 x02] [replicate 32 x03]))
    (Some (mkSlotToken 2 42)).

Lemma client_frames_roundtrip_witness :
  ∃ bytes, @SubscriptionRequest_encode Bincode.codecs sample_request = Ok bytes ∧
    @decode_client_frame Bincode.codecs bytes = Ok (Subscription sample_request).
Proof.
  destruct (@client_frames_roundtrip Bincode.codecs Bincode.codecs_laws sample_request
    (mkPingRequest (mkSlotToken 1 99))) as [(bytes & He & Hd) _].
  - cbn. unfold Bincode.sub_fits, Bincode.head_fits. decide_now.
  - cbn. unfold Bincode.head_fits. decide_now.
  - exists bytes. split; [exact He|exact Hd].
Defined.

(** C33: Ready and shm-ready messages reach the consumer unchanged, unless they
    carry the reserved slot index, an empty ring path or a zero capacity, in which
    case the decoder names the first field that is missing. *)
Theorem server_control_frames_roundtrip {CC : ControlCodecs} {CCL : ControlCodecsLaws}
    {LZ : Lz4} r s :
  wincode_fits (ConnectionReady_wire r) → wincode_fits (ConnectionReadyShm_wire s) →
  (∃ bytes, ConnectionReady_encode r = Ok bytes ∧
     decode_server_frame bytes =
       if bool_decide (slot_index (ready_slot_token r) = UNSET_SLOT_INDEX)
       then Err (MalformedPayload "connection ready missing slot token")
       else Ok (SF_ConnectionReady r)) ∧
  (∃ bytes, ConnectionReadyShm_encode s = Ok bytes ∧
     decode_server_frame bytes =
       if bool_decide (slot_index (rs_slot_token s) = UNSET_SLOT_INDEX)
       then Err (MalformedPayload "connection ready shm missing slot token")
       else if bool_decide (rs_ring_path s = "")
       then Err (MalformedPayload "connection ready shm missing ring path")
       else if bool_decide (rs_ring_capacity s = 0)
       then Err (MalformedPayload "connection ready shm has zero ring capacity")
       else Ok (SF_ConnectionReadyShm s)).
Proof.
  intros Hr Hs. split.
  - destruct (ready_encode_decode r Hr) as (bytes & He & Ht & Hd).
    exists bytes. split; [done|]. unfold decode_server_frame. rewrite Ht. cbn.
    rewrite Hd. by case_bool_decide.
  - destruct (ready_shm_encode_decode s Hs) as (bytes & He & Ht & Hd).
    exists bytes. split; [done|]. unfold decode_server_frame. rewrite Ht. cbn.
    rewrite Hd. by repeat case_bool_decide.
Qed.

Lemma server_control_frames_roundtrip_witness :
  ∃ bytes,
    @ConnectionReadyShm_encode Bincode.codecs
      (mkConnectionReadyShm (mkSlotToken 3 7) "qlaster/test-ring" 65536) = Ok bytes ∧
    @decode_server_frame Bincode.codecs rle_lz4 bytes
      = Ok (SF_ConnectionReadyShm
              (mkConnectionReadyShm (mkSlotToken 3 7) "qlaster/test-ring" 65536)).
Proof.
  destruct (@server_control_frames_roundtrip Bincode.codecs Bincode.codecs_laws rle_lz4
    (mkConnectionReady (mkSlotToken 3 7))
    (mkConnectionReadyShm (mkSlotToken 3 7) "qlaster/test-ring" 65536))
    as [_ (bytes & He & Hd)].
  - cbn. unfold Bincode.head_fits. decide_now.
  - cbn. unfold Bincode.rs_fits, Bincode.head_fits. decide_now.
  - exists bytes. split; [exact He|exact Hd].
Defined.

(** The tag byte of each update frame. *)
Lemma account_frame_tag {LZ : Lz4} u ts h p :
  AccountUpdate_encode_parts_at u ts = Ok (h, p) → wire_tag (h ++ p) = Ok UPDATE_TAG.
Proof.
  unfold AccountUpdate_encode_parts_at. intros. case_bool_decide; [done|].
  inv_ok. simplify_eq. done.
Qed.
Lemma transaction_frame_tag u ts h p :
  TransactionUpdate_encode_parts_at u ts = Ok (h, p) →
  wire_tag (h ++ p) = Ok TRANSACTION_UPDATE_TAG.
Proof.
  unfold TransactionUpdate_encode_parts_at. intros. inv_ok. simplify_eq. done.
Qed.
Lemma slot_frame_tag u ts h p :
  SlotUpdate_encode_parts_at u ts = Ok (h, p) → wire_tag (h ++ p) = Ok SLOT_UPDATE_TAG.
Proof. unfold SlotUpdate_encode_parts_at. intros. inv_ok. simplify_eq. done. Qed.

(** The consumer's view of an encoded update ([encode_parts_at] at the sender,
    [decode_server_frame_owned_with_meta] at the consumer). *)
Section routing.
Context {CC : ControlCodecs} {LZ : Lz4}.

Lemma route_account {LZL : Lz4Laws} u ts :
  AccountUpdate_wf u → is_u64 ts →
  ∃ h p, AccountUpdate_encode_parts_at u ts = Ok (h, p) ∧
    zlen h = ACCOUNT_UPDATE_FIXED_BYTES ∧
    zlen p ≤ zlen (account_payload_bytes (account_payload u)) ∧
    decode_server_frame_owned_with_meta (h ++ p)
      = Ok (SFM_AccountUpdate u (mkWireMeta ts)).
Proof.
  intros Hu Hts.
  destruct (account_roundtrip u ts Hu Hts) as (h & p & He & Hh & Hp & Hd).
  exists h, p. split_and!; [done..|]. unfold decode_server_frame_owned_with_meta.
  rewrite (account_frame_tag _ _ _ _ He). cbn -[AccountUpdate_decode_owned_with_meta].
  change AccountUpdate_decode_owned_with_meta with AccountUpdate_decode_with_meta.
  by rewrite Hd.
Qed.

Lemma route_transaction u ts :
  TransactionUpdate_wf u → is_u64 ts →
  ∃ h p, TransactionUpdate_encode_parts_at u ts = Ok (h, p) ∧
    zlen h = TRANSACTION_UPDATE_FIXED_BYTES ∧
    p = transaction_payload_bytes (tx_payload u) ∧
    decode_server_frame_owned_with_meta (h ++ p)
      = Ok (SFM_TransactionUpdate u (mkWireMeta ts)).
Proof.
  intros Hu Hts.
  destruct (transaction_roundtrip u ts Hu Hts) as (h & p & He & Hh & Hp & Hd).
  exists h, p. split_and!; [done..|]. unfold decode_server_frame_owned_with_meta.
  rewrite (transaction_frame_tag _ _ _ _ He).
  cbn -[TransactionUpdate_decode_owned_with_meta].
  change TransactionUpdate_decode_owned_with_meta with TransactionUpdate_decode_with_meta.
  by rewrite Hd.
Qed.

Lemma route_slot u ts :
  SlotUpdate_wf u → is_u64 ts →
  ∃ h p, SlotUpdate_encode_parts_at u ts = Ok (h, p) ∧
    zlen h = SLOT_UPDATE_FIXED_BYTES ∧ p = [] ∧
    decode_server_frame_owned_with_meta (h ++ p) = Ok (SFM_SlotUpdate u (mkWireMeta ts)).
Proof.
  intros Hu Hts. destruct (slot_parse_encode u ts Hu Hts) as (h & p & He & Hp & Hh & Hd).
  exists h, p. split_and!; [done..|]. unfold decode_server_frame_owned_with_meta.
  rewrite (slot_frame_tag _ _ _ _ He). cbn -[SlotUpdate_decode_owned_with_meta].
  change SlotUpdate_decode_owned_with_meta with SlotUpdate_decode_with_meta.
  by rewrite Hd.
Qed.
End routing.

(** C34: The three server-frame decoders agree on every byte string: the owning
    decoder equals the borrowing one, and the metadata decoder is the owning one
    plus the sender timestamp; an unknown tag is refused with that tag. *)
Theorem server_decoders_agree {CC : ControlCodecs} {LZ : Lz4} bytes :
  decode_server_frame_owned bytes = decode_server_frame bytes ∧
  rmap erase_meta (decode_server_frame_owned_with_meta bytes)
    = decode_server_frame_owned bytes ∧
  (∀ tag, wire_tag bytes = Ok tag →
     tag ∉ [UPDATE_TAG; TRANSACTION_UPDATE_TAG; SLOT_UPDATE_TAG; READY_TAG;
            READY_SHM_TAG] →
     decode_server_frame bytes = Err (InvalidMessageTag tag UPDATE_TAG)).
Proof.
  split_and!.
  - reflexivity.
  - unfold decode_server_frame_owned, decode_server_frame_owned_with_meta,
      AccountUpdate_decode_owned, TransactionUpdate_decode_owned, SlotUpdate_decode_owned.
    destruct (wire_tag bytes) as [tag| |]; [|done..]. cbn [rbind].
    repeat case_bool_decide; [| | | | |done];
      match goal with |- context [?f bytes] => destruct (f bytes) as [[]| |] end;
      done.
  - intros tag Htag Hn. unfold decode_server_frame. rewrite Htag. cbn [rbind].
    rewrite !bool_decide_false; [done|set_solver..].
Qed.

(** Version and tag are checked on every control message: overwriting the
    version and tag bytes of an encoded message makes its decoder fail exactly as
    [ensure_wire] says (version first, naming what was found), and otherwise decode
    as before. *)
Theorem control_frames_reject_foreign {CC : ControlCodecs} {CCL : ControlCodecsLaws}
    r p c s v t :
  wincode_fits (SubscriptionRequest_wire r) → wincode_fits (PingRequest_wire p) →
  wincode_fits (ConnectionReady_wire c) → wincode_fits (ConnectionReadyShm_wire s) →
  is_u8 v → is_u8 t →
  (∃ b0 b1 rest, SubscriptionRequest_encode r = Ok (b0 :: b1 :: rest) ∧
     SubscriptionRequest_decode (byte_of v :: byte_of t :: rest) =
       let? _ := ensure_wire v t REQUEST_SUBSCRIBE_TAG in
       Ok (with_slot_token r (normalize_token (req_slot_token r)))) ∧
  (∃ b0 b1 rest, PingRequest_encode p = Ok (b0 :: b1 :: rest) ∧
     PingRequest_decode (byte_of v :: byte_of t :: rest) =
       let? _ := ensure_wire v t REQUEST_PING_TAG in
       if bool_decide (slot_index (ping_slot_token p) = UNSET_SLOT_INDEX)
       then Err (MalformedPayload "ping request missing slot token") else Ok p) ∧
  (∃ b0 b1 rest, ConnectionReady_encode c = Ok (b0 :: b1 :: rest) ∧
     ConnectionReady_decode (byte_of v :: byte_of t :: rest) =
       let? _ := ensure_wire v t READY_TAG in
       if bool_decide (slot_index (ready_slot_token c) = UNSET_SLOT_INDEX)
       then Err (MalformedPayload "connection ready missing slot token") else Ok c) ∧
  (∃ b0 b1 rest, ConnectionReadyShm_encode s = Ok (b0 :: b1 :: rest) ∧
     is_ok (ConnectionReadyShm_decode (byte_of v :: byte_of t :: rest)) =
       is_ok (ensure_wire v t READY_SHM_TAG) &&
       negb (bool_decide (slot_index (rs_slot_token s) = UNSET_SLOT_INDEX)) &&
       negb (bool_decide (rs_ring_path s = "")) &&
       negb (bool_decide (rs_ring_capacity s = 0))).
Proof.
  intros Hr Hp Hc Hs Hv Ht. split_and!.
  - destruct (serialize_wire_patched _ v t "subscription request" Hr Hv Ht)
      as (b0 & b1 & rest & He & Hd).
    exists b0, b1, rest. split; [done|]. unfold SubscriptionRequest_decode.
    rewrite Hd. destruct (ensure_wire v t _) eqn:E; destruct r as [[[idx g]|] pks ows tx];
      cbn -[ensure_wire]; rewrite ?E; cbn; [|done..].
    unfold with_slot_token, normalize_token. cbn. by case_bool_decide.
  - destruct (serialize_wire_patched _ v t "ping request" Hp Hv Ht)
      as (b0 & b1 & rest & He & Hd).
    exists b0, b1, rest. split; [done|]. unfold PingRequest_decode. rewrite Hd.
    cbn -[ensure_wire]. by destruct (ensure_wire v t _), p as [[]].
  - destruct (serialize_wire_patched _ v t "connection ready" Hc Hv Ht)
      as (b0 & b1 & rest & He & Hd).
    exists b0, b1, rest. split; [done|]. unfold ConnectionReady_decode. rewrite Hd.
    cbn -[ensure_wire]. by destruct (ensure_wire v t _), c as [[]].
  - destruct (serialize_wire_patched _ v t "connection ready shm" Hs Hv Ht)
      as (b0 & b1 & rest & He & Hd).
    exists b0, b1, rest. split; [done|]. unfold ConnectionReadyShm_decode. rewrite Hd.
    cbn -[ensure_wire]. destruct (ensure_wire v t _); cbn; [|done..].
    by repeat case_bool_decide.
Qed.

Lemma control_frames_reject_foreign_witness :
  ∃ b0 b1 rest,
    @SubscriptionRequest_encode Bincode.codecs sample_request = Ok (b0 :: b1 :: rest) ∧
    @SubscriptionRequest_decode Bincode.codecs (byte_of 99 :: byte_of 1 :: rest)
      = Err (InvalidWireVersion 99 9).
Proof.
  destruct (@control_frames_reject_foreign Bincode.codecs Bincode.codecs_laws
    sample_request (mkPingRequest (mkSlotToken 1 99)) (mkConnectionReady (mkSlotToken 1 99))
    (mkConnectionReadyShm (mkSlotToken 1 99) "/r" 64) 99 1)
    as [(b0 & b1 & rest & He & Hd) _].
  1-4: cbn; unfold Bincode.sub_fits, Bincode.rs_fits, Bincode.head_fits; decide_now.
  1-2: decide_now.
  exists b0, b1, rest. split; [exact He|exact Hd].
Defined.
