(* ===== verification/Wire.v ===== *)
(** * Length-prefixed framing on byte streams ([src/src/wire.rs])

    A reader is the bytes the peer will still deliver and how the stream ends
    (end of file, or an I/O error); a writer is what has been sent so far and,
    possibly, the point at which the connection breaks.  [read_exact] and
    [write_all] are tokio's: all the bytes, or the error after a part of them. *)

From stdpp Require Import prelude strings.
From Stdlib Require Import Strings.Byte.
From S2P Require Import Prelude Errors WireCodec.

Definition MAX_FRAME_SIZE : Z := 16 * 1024 * 1024.

Record Reader := mkReader {
  unread : list byte;
  read_failure : option IoError;  (** [None]: the stream ends in EOF *)
}.

Definition eof_error : IoError := mkIoError UnexpectedEof None "early eof".

Definition read_exact (s : Reader) (n : Z) : Res (list byte) * Reader :=
  if bool_decide (n ≤ zlen (unread s))
  then (Ok (take (Z.to_nat n) (unread s)),
        mkReader (drop (Z.to_nat n) (unread s)) (read_failure s))
  else (Err (Io (default eof_error (read_failure s))), mkReader [] (read_failure s)).

Record Writer := mkWriter {
  sent : list byte;
  breaks_after : option (Z * IoError);  (** bytes still accepted, then the error *)
}.

Definition write_all (s : Writer) (bytes : list byte) : Res unit * Writer :=
  match breaks_after s with
  | Some (room, e) =>
      if bool_decide (room < zlen bytes)
      then (Err (Io e), mkWriter (sent s ++ take (Z.to_nat room) bytes) (Some (0, e)))
      else (Ok tt, mkWriter (sent s ++ bytes) (Some (room - zlen bytes, e)))
  | None => (Ok tt, mkWriter (sent s ++ bytes) None)
  end.

Definition read_framed (s : Reader) : Res (list byte) * Reader :=
  match read_exact s 4 with
  | (Ok len, s) =>
      let size := from_le_bytes len in
      if bool_decide (size > MAX_FRAME_SIZE) then (Err (FrameTooLarge size), s)
      else read_exact s size
  | (Err e, s) => (Err e, s)
  | (Panic, s) => (Panic, s)
  end.

Definition write_framed (s : Writer) (payload : list byte) : Res unit * Writer :=
  match u32_try_from (zlen payload) with
  | None => (Err (FrameTooLarge (zlen payload)), s)
  | Some size =>
      match write_all s (u32_le size) with
      | (Ok _, s) => write_all s payload
      | (Err e, s) => (Err e, s)
      | (Panic, s) => (Panic, s)
      end
  end.

(** The bytes of one frame. *)
Definition frame_bytes (payload : list byte) : list byte :=
  u32_le (zlen payload) ++ payload.

(** Writing and reading a sequence of frames. *)
Fixpoint write_frames (s : Writer) (ps : list (list byte)) : Res unit * Writer :=
  match ps with
  | [] => (Ok tt, s)
  | p :: ps => match write_framed s p with
               | (Ok _, s) => write_frames s ps
               | r => r
               end
  end.

Fixpoint read_frames (n : nat) (s : Reader) : Res (list (list byte)) * Reader :=
  match n with
  | O => (Ok [], s)
  | S n => match read_framed s with
           | (Ok p, s) => match read_frames n s with
                          | (Ok ps, s) => (Ok (p :: ps), s)
                          | r => r
                          end
           | (Err e, s) => (Err e, s)
           | (Panic, s) => (Panic, s)
           end
  end.

Lemma read_exact_app x rest f n :
  n = zlen x → read_exact (mkReader (x ++ rest) f) n = (Ok x, mkReader rest f).
Proof.
  intros ->. unfold read_exact. cbn [unread read_failure].
  rewrite bool_decide_true by (len; pose proof (zlen_nonneg rest); lia).
  unfold zlen. by rewrite Nat2Z.id, take_app_length, drop_app_length.
Qed.

Lemma read_exact_short s n :
  zlen (unread s) < n →
  read_exact s n = (Err (Io (default eof_error (read_failure s))),
                    mkReader [] (read_failure s)).
Proof. intros H. unfold read_exact. rewrite bool_decide_false by lia. done. Qed.

Lemma write_framed_healthy out p :
  zlen p ≤ u32_max →
  write_framed (mkWriter out None) p = (Ok tt, mkWriter (out ++ frame_bytes p) None).
Proof.
  intros H. unfold write_framed, u32_try_from. rewrite bool_decide_true by done.
  cbn. unfold frame_bytes. by rewrite app_assoc.
Qed.

Lemma read_framed_frame p rest f :
  zlen p ≤ MAX_FRAME_SIZE →
  read_framed (mkReader (frame_bytes p ++ rest) f) = (Ok p, mkReader rest f).
Proof.
  intros H. pose proof (zlen_nonneg p). unfold read_framed, frame_bytes.
  rewrite <-app_assoc, read_exact_app by (by rewrite zlen_u32_le).
  rewrite from_u32_le by (unfold is_u32, u32_max, MAX_FRAME_SIZE in *; lia).
  rewrite bool_decide_false by lia. by apply read_exact_app.
Qed.

Lemma write_frames_healthy ps out :
  Forall (λ p, zlen p ≤ u32_max) ps →
  write_frames (mkWriter out None) ps
    = (Ok tt, mkWriter (out ++ concat (map frame_bytes ps)) None).
Proof.
  intros H. revert out. induction H as [|p ps Hp _ IH]; intros out; cbn.
  - by rewrite app_nil_r.
  - rewrite write_framed_healthy by done. rewrite IH, app_assoc. done.
Qed.

Lemma read_frames_all ps rest f :
  Forall (λ p, zlen p ≤ MAX_FRAME_SIZE) ps →
  read_frames (length ps) (mkReader (concat (map frame_bytes ps) ++ rest) f)
    = (Ok ps, mkReader rest f).
Proof.
  induction 1 as [|p ps Hp _ IH]; [done|]. cbn.
  rewrite <-app_assoc, read_framed_frame by done. by rewrite IH.
Qed.

(** ** Properties *)

(** C35: The control stream is a faithful message channel: any sequence of
    messages of at most 16 MiB written on a healthy connection is read back as the
    same sequence, message boundaries included, and nothing else is consumed. *)
Theorem framed_stream_roundtrip ps rest f :
  Forall (λ p, zlen p ≤ MAX_FRAME_SIZE) ps →
  ∃ bytes, write_frames (mkWriter [] None) ps = (Ok tt, mkWriter bytes None) ∧
    read_frames (length ps) (mkReader (bytes ++ rest) f) = (Ok ps, mkReader rest f).
Proof.
  intros H. exists (concat (map frame_bytes ps)). split.
  - rewrite write_frames_healthy; [done|].
    eapply Forall_impl; [exact H|]. cbn. unfold MAX_FRAME_SIZE, u32_max. lia.
  - by apply read_frames_all.
Qed.

Lemma framed_stream_roundtrip_witness :
  ∃ bytes, write_frames (mkWriter [] None) [[x68; x69]; []] = (Ok tt, mkWriter bytes None) ∧
    read_frames 2 (mkReader (bytes ++ [x01]) None)
      = (Ok [[x68; x69]; []], mkReader [x01] None).
Proof. apply (framed_stream_roundtrip [[x68; x69]; []] [x01] None). decide_now. Defined.

(** What the reader does with every other input: a declared size above
    16 MiB is refused before the body is read, and a stream that ends inside the
    prefix or the body gives the stream's error, end of file by default. *)
Theorem read_framed_errors s :
  (zlen (unread s) < 4 →
     (read_framed s).1 = Err (Io (default eof_error (read_failure s)))) ∧
  (∀ len body, unread s = u32_le len ++ body → is_u32 len →
     (MAX_FRAME_SIZE < len →
        read_framed s = (Err (FrameTooLarge len), mkReader body (read_failure s))) ∧
     (len ≤ MAX_FRAME_SIZE → zlen body < len →
        (read_framed s).1 = Err (Io (default eof_error (read_failure s))))).
Proof.
  split.
  - intros H. unfold read_framed. by rewrite read_exact_short.
  - intros len body Hs Hlen. destruct s as [u f]. cbn in *. subst u.
    unfold read_framed. rewrite read_exact_app by (by rewrite zlen_u32_le).
    rewrite from_u32_le by done. split.
    + intros. by rewrite bool_decide_true by lia.
    + intros. rewrite bool_decide_false by lia. by rewrite read_exact_short.
Qed.

(** The two ends disagree on the size limit: a payload between 16 MiB and
    4 GiB is written without error, and the peer refuses the frame. *)
Theorem write_accepts_what_read_refuses p out :
  MAX_FRAME_SIZE < zlen p ≤ u32_max →
  write_framed (mkWriter out None) p = (Ok tt, mkWriter (out ++ frame_bytes p) None) ∧
  (read_framed (mkReader (frame_bytes p) None)).1 = Err (FrameTooLarge (zlen p)).
Proof.
  intros H. pose proof (zlen_nonneg p). split; [apply write_framed_healthy; lia|].
  unfold read_framed, frame_bytes. rewrite read_exact_app by (by rewrite zlen_u32_le).
  rewrite from_u32_le by (unfold is_u32; lia). by rewrite bool_decide_true by lia.
Qed.

Lemma write_accepts_what_read_refuses_witness :
  let p := replicate (Z.to_nat (MAX_FRAME_SIZE + 1)) x00 in
  (read_framed (mkReader (frame_bytes p) None)).1
    = Err (FrameTooLarge (MAX_FRAME_SIZE + 1)).
Proof.
  intros p.
  assert (zlen p = MAX_FRAME_SIZE + 1) as Hp.
  { unfold p, zlen. rewrite length_replicate. apply Z2Nat.id. unfold MAX_FRAME_SIZE. lia. }
  destruct (write_accepts_what_read_refuses p []) as [_ H].
  - rewrite Hp. unfold MAX_FRAME_SIZE, u32_max. lia.
  - rewrite Hp in H. exact H.
Defined.
