(* ===== verification/Uds.v ===== *)
(** * Descriptor passing over the control socket ([src/src/shm/uds.rs])

    The system calls are parameters of the functions: what [sendmsg] and
    [recvmsg] returned, and for [recvmsg] the control messages the kernel
    delivered.  Received descriptors enter the process's table; [OwnedFd] values
    and explicit [close] calls take them out again.  Both backends are modelled:
    on Linux [MSG_CMSG_CLOEXEC] is used, elsewhere [fcntl] is called by hand. *)

From stdpp Require Import prelude gmap strings pretty.
From Stdlib Require Import Strings.Byte.
From S2P Require Import Prelude Errors WireCodec.

Definition ANCILLARY_RECV_BUF : Z := 1024.

Inductive platform := Linux | OtherUnix.
#[export] Instance platform_eq_dec : EqDecision platform.
Proof. solve_decision. Defined.

(** Outcome of a system call: a count or an error. *)
Inductive sysret := SysOk (n : Z) | SysErr (e : IoError).

Inductive cmsg_kind := ScmRights | OtherCmsg.
#[export] Instance cmsg_kind_eq_dec : EqDecision cmsg_kind.
Proof. solve_decision. Defined.

(** A control message: for [SCM_RIGHTS] the kernel attaches at least one
    descriptor, [cm_fd], and possibly more in the same message. *)
Record Cmsg := mkCmsg { cm_kind : cmsg_kind; cm_fd : Z; cm_more : list Z }.

Definition cmsg_fds (c : Cmsg) : list Z :=
  match cm_kind c with ScmRights => cm_fd c :: cm_more c | OtherCmsg => [] end.

(** What [recvmsg] meets: an error, or the bytes queued on the socket up to the next
    message with descriptors, and the control messages that come with them. *)
Inductive recv_outcome :=
| RecvErr (e : IoError)
| RecvMsg (data : list byte) (cmsgs : list Cmsg).

(** [set_nosigpipe]: a no-op on Linux, one [setsockopt] elsewhere. *)
Definition set_nosigpipe (p : platform) (setsockopt : sysret) : result IoError unit :=
  match p with
  | Linux => Ok tt
  | OtherUnix => match setsockopt with
                 | SysOk n => Ok tt
                 | SysErr e => Err e
                 end
  end.

(** [sendmsg_with_fd]: the frame and one [SCM_RIGHTS] message with [fd]; the
    call must take the whole frame.  Besides the result, what went into the socket:
    the bytes the kernel took and, with the first of them, the descriptor. *)
Definition sendmsg_with_fd (payload : list byte) (fd : Z) (ret : sysret) :
    result IoError unit * (list byte * list Z) :=
  match ret with
  | SysErr e => (Err e, ([], []))
  | SysOk n =>
      (if negb (bool_decide (n = zlen payload))
       then Err (mkIoError WriteZero None
                   ("partial sendmsg: " +:+ pretty n +:+ " of " +:+ pretty (zlen payload)
                    +:+ " bytes"))
       else Ok tt,
       (take (Z.to_nat n) payload, [fd]))
  end.

(** The buffer [send_frame_with_fd] hands to [sendmsg]. *)
Definition fd_frame (payload : list byte) : list byte :=
  u32_le (zlen payload) ++ payload.

Definition send_frame_with_fd (payload : list byte) (fd : Z) (ret : sysret) :
    Res unit * (list byte * list Z) :=
  if bool_decide (zlen payload > u32_max) then (Err (FrameTooLarge (zlen payload)), ([], []))
  else match sendmsg_with_fd (fd_frame payload) fd ret with
       | (Ok _, out) => (Ok tt, out)
       | (Err e, out) => (Err (UdsError ("sendmsg: " +:+ io_display e)), out)
       | (Panic, out) => (Panic, out)
       end.

(** The loop over the control messages.  [fds] is the descriptor table, [out]
    the descriptor kept so far; [fcntl] is the outcome of setting [FD_CLOEXEC]
    on a descriptor, [closes] that of [close]. *)
Section recv.
Context (plat : platform) (fcntl : Z → sysret).

Fixpoint take_fds (cmsgs : list Cmsg) (fds : gset Z) (out : option Z) :
    result IoError (option Z) * gset Z :=
  match cmsgs with
  | [] => (Ok out, fds)
  | c :: cmsgs =>
      if bool_decide (cm_kind c = ScmRights) then
        match out with
        | None =>
            match plat, fcntl (cm_fd c) with
            | OtherUnix, SysErr e => (Err e, fds ∖ {[cm_fd c]})
            | _, _ => take_fds cmsgs fds (Some (cm_fd c))
            end
        | Some _ => take_fds cmsgs (fds ∖ {[cm_fd c]}) out
        end
      else take_fds cmsgs fds out
  end.

(** [recvmsg_with_fd] into a buffer of [buf_len] bytes: the kernel copies what is
    queued, at most that much, and installs every descriptor of the message in the
    table before the loop runs. *)
Definition recvmsg_with_fd (buf_len : Z) (o : recv_outcome) (fds : gset Z) :
    result IoError (list byte * option Z) * gset Z :=
  match o with
  | RecvErr e => (Err e, fds)
  | RecvMsg data cmsgs =>
      let fds := fds ∪ list_to_set (concat (map cmsg_fds cmsgs)) in
      match take_fds cmsgs fds None with
      | (Ok out, fds) => (Ok (take (Z.to_nat buf_len) data, out), fds)
      | (Err e, fds) => (Err e, fds)
      | (Panic, fds) => (Panic, fds)
      end
  end.

(** Dropping an [Option<OwnedFd>]. *)
Definition drop_fd (fds : gset Z) (fd : option Z) : gset Z :=
  match fd with Some f => fds ∖ {[f]} | None => fds end.

Definition recv_frame_with_fd (o : recv_outcome) (fds : gset Z) :
    Res (list byte * option Z) * gset Z :=
  match recvmsg_with_fd ANCILLARY_RECV_BUF o fds with
  | (Err e, fds) => (Err (UdsError ("recvmsg: " +:+ io_display e)), fds)
  | (Panic, fds) => (Panic, fds)
  | (Ok (buf, fd), fds) =>
      let n := zlen buf in
      if bool_decide (n = 0)
      then (Err (UdsError "peer closed UDS before sending ready frame"), drop_fd fds fd)
      else if bool_decide (n < 4)
      then (Err (UdsError ("short recvmsg (" +:+ pretty n +:+ " bytes)")), drop_fd fds fd)
      else
        let payload_len := from_le_bytes (take 4 buf) in
        if bool_decide (4 + payload_len > n)
        then (Err (UdsError ("ancillary frame larger than buffer ("
                             +:+ pretty (4 + payload_len) +:+ " > " +:+ pretty n +:+ ")")),
              drop_fd fds fd)
        else match slice buf 4 (4 + payload_len) with
             | Some p => (Ok (p, fd), fds)
             | None => (Panic, fds)
             end
  end.
End recv.

(** The descriptors a [recvmsg] outcome brings in. *)
Definition received (o : recv_outcome) : gset Z :=
  match o with
  | RecvErr _ => ∅
  | RecvMsg _ cmsgs => list_to_set (concat (map cmsg_fds cmsgs))
  end.

Definition owned_by {A} (r : Res (A * option Z)) : gset Z :=
  match r with Ok (_, Some fd) => {[fd]} | _ => ∅ end.

(** Every [SCM_RIGHTS] message carries a single descriptor. *)
Definition single_fds (o : recv_outcome) : Prop :=
  match o with
  | RecvErr _ => True
  | RecvMsg _ cmsgs => Forall (λ c, cm_kind c = ScmRights → cm_more c = []) cmsgs
  end.

(** The descriptors left behind when the first one cannot be marked close-on-exec:
    the loop returns at once, before it has looked at the later messages. *)
Definition stranded (plat : platform) (fcntl : Z → sysret) (o : recv_outcome) : gset Z :=
  match o with
  | RecvErr _ => ∅
  | RecvMsg _ cmsgs =>
      match concat (map cmsg_fds cmsgs) with
      | [] => ∅
      | fd :: later =>
          match plat, fcntl fd with
          | OtherUnix, SysErr _ => list_to_set later
          | _, _ => ∅
          end
      end
  end.

(** ** The descriptor loop *)
Abbreviation fds_of cmsgs := (list_to_set (concat (map cmsg_fds cmsgs)) : gset Z).
Abbreviation single_cmsgs cmsgs :=
  (Forall (λ c, cm_kind c = ScmRights → cm_more c = []) cmsgs).

Lemma cmsg_fds_other c : cm_kind c ≠ ScmRights → cmsg_fds c = [].
Proof. unfold cmsg_fds. by destruct (cm_kind c). Qed.

Lemma cmsg_fds_single c :
  cm_kind c = ScmRights → cm_more c = [] → cmsg_fds c = [cm_fd c].
Proof. unfold cmsg_fds. by intros -> ->. Qed.

Section facts.
Context (plat : platform) (fcntl : Z → sysret).

(** Once a descriptor is kept, the loop closes all the later ones. *)
Lemma take_fds_some cmsgs fds fd :
  single_cmsgs cmsgs →
  take_fds plat fcntl cmsgs fds (Some fd) = (Ok (Some fd), fds ∖ fds_of cmsgs).
Proof.
  intros H. revert fds. induction H as [|c cmsgs Hc _ IH]; intros fds; cbn.
  - f_equal. set_solver.
  - case_bool_decide as Hk.
    + rewrite IH, cmsg_fds_single by auto. f_equal. cbn. set_solver.
    + rewrite IH, cmsg_fds_other by done. done.
Qed.

End facts.

(** The error of marking a descriptor close-on-exec, if any. *)
Definition mark_fails (plat : platform) (fcntl : Z → sysret) (fd : Z) : option IoError :=
  match plat, fcntl fd with OtherUnix, SysErr e => Some e | _, _ => None end.

(** From nothing kept: the first descriptor is kept and the others are closed, unless
    the first cannot be marked; then it is closed and the others stay. *)
Lemma take_fds_none plat fcntl cmsgs fds :
  single_cmsgs cmsgs → NoDup (concat (map cmsg_fds cmsgs)) →
  take_fds plat fcntl cmsgs fds None =
    match concat (map cmsg_fds cmsgs) with
    | [] => (Ok None, fds)
    | fd :: later =>
        match mark_fails plat fcntl fd with
        | Some e => (Err e, fds ∖ {[fd]})
        | None => (Ok (Some fd), fds ∖ list_to_set later)
        end
    end.
Proof.
  intros H. revert fds. induction H as [|c cmsgs Hc Hcs IH]; intros fds Hnd; cbn in *; [done|].
  case_bool_decide as Hk.
  - rewrite cmsg_fds_single in * by auto. cbn. unfold mark_fails.
    destruct plat; [by rewrite take_fds_some|].
    destruct (fcntl (cm_fd c)); [by rewrite take_fds_some|done].
  - rewrite cmsg_fds_other in * by done. cbn in *. by apply IH.
Qed.

Lemma difference_disjoint_id (fds R : gset Z) : fds ## R → fds ∖ R = fds.
Proof. set_solver. Qed.

Lemma close_kept (fds : gset Z) fd : fd ∉ fds → (fds ∪ {[fd]}) ∖ {[fd]} = fds.
Proof. set_solver. Qed.

(** Keeping the first of some fresh descriptors and closing the others. *)
Lemma keep_first (fds : gset Z) fd later :
  fds ## list_to_set (fd :: later) → NoDup (fd :: later) →
  (fds ∪ list_to_set (fd :: later)) ∖ list_to_set later = fds ∪ {[fd]}.
Proof.
  intros Hd [Hn _]%NoDup_cons. rewrite <-(elem_of_list_to_set (C:=gset Z)) in Hn.
  cbn in *. set (R := list_to_set later : gset Z) in *. clearbody R. set_solver.
Qed.

(** Closing the first and keeping the others. *)
Lemma strand_later (fds : gset Z) fd later :
  fds ## list_to_set (fd :: later) → NoDup (fd :: later) →
  (fds ∪ list_to_set (fd :: later)) ∖ {[fd]} = fds ∪ list_to_set later.
Proof.
  intros Hd [Hn _]%NoDup_cons. rewrite <-(elem_of_list_to_set (C:=gset Z)) in Hn.
  cbn in *. set (R := list_to_set later : gset Z) in *. clearbody R. set_solver.
Qed.

(** One message with one descriptor: it is kept. *)
Lemma take_fds_one plat fcntl fd (fds : gset Z) :
  (plat = OtherUnix → ∃ n, fcntl fd = SysOk n) →
  take_fds plat fcntl [mkCmsg ScmRights fd []] (fds ∪ fds_of [mkCmsg ScmRights fd []]) None
    = (Ok (Some fd), fds ∪ {[fd]}).
Proof.
  intros Hfc. cbn. rewrite !union_empty_r_L.
  destruct plat; [done|]. by destruct (Hfc eq_refl) as [n ->].
Qed.

(** The length prefix at the head of what was received. *)
Lemma fd_frame_prefix payload extra k :
  4 ≤ k → zlen payload ≤ u32_max →
  from_le_bytes (take 4 (take (Z.to_nat k) (fd_frame payload ++ extra))) = zlen payload.
Proof.
  intros Hk Hp. pose proof (zlen_nonneg payload). pose proof (zlen_u32_le (zlen payload)) as Hl.
  rewrite take_take. replace (4 `min` Z.to_nat k)%nat with 4%nat by lia.
  unfold fd_frame. rewrite <-app_assoc, take_app_le by (unfold zlen in *; lia).
  rewrite take_ge by (unfold zlen in *; lia). apply from_u32_le. unfold is_u32. lia.
Qed.

Lemma zlen_take {A} (l : list A) k : 0 ≤ k → zlen (take (Z.to_nat k) l) = Z.min k (zlen l).
Proof. intros Hk. unfold zlen. rewrite length_take. lia. Qed.

(** A frame that fits into the buffer comes out as its payload. *)
Lemma recv_frame_payload plat fcntl data extra cmsgs fds out fds' :
  zlen (fd_frame data) ≤ ANCILLARY_RECV_BUF →
  take_fds plat fcntl cmsgs (fds ∪ fds_of cmsgs) None = (Ok out, fds') →
  recv_frame_with_fd plat fcntl (RecvMsg (fd_frame data ++ extra) cmsgs) fds
    = (Ok (data, out), fds').
Proof.
  intros Hd Ht. unfold recv_frame_with_fd, recvmsg_with_fd. rewrite Ht.
  pose proof (zlen_nonneg data). pose proof (zlen_nonneg extra).
  assert (zlen (fd_frame data) = 4 + zlen data) as Hn by (unfold fd_frame; len).
  rewrite Hn in Hd. unfold ANCILLARY_RECV_BUF in *.
  rewrite fd_frame_prefix by (unfold u32_max; lia). rewrite zlen_take, zlen_app, Hn by lia.
  rewrite !bool_decide_false by lia.
  destruct (slice_app (take (Z.to_nat 1024) (fd_frame data ++ extra)) data
    (take (Z.to_nat 1024 - length (fd_frame data)) extra) 4 (zlen data))
    as [-> _]; [lia|rewrite zlen_take, zlen_app, Hn by lia; lia| |done|done].
  rewrite take_app_ge by (unfold zlen in *; lia). unfold fd_frame at 1.
  rewrite <-app_assoc. pose proof (zlen_u32_le (zlen data)).
  rewrite drop_app_ge by (unfold zlen in *; lia).
  replace (Z.to_nat 4 - length (u32_le (zlen data)))%nat with 0%nat; [done|].
  unfold zlen in *. lia.
Qed.

(** A frame that is not wholly in the buffer is refused and its descriptor closed. *)
Lemma recv_frame_cut plat fcntl len data cmsgs fds out fds' :
  let n := Z.min ANCILLARY_RECV_BUF (zlen data) in
  4 ≤ n < 4 + len → from_le_bytes (take 4 (take (Z.to_nat ANCILLARY_RECV_BUF) data)) = len →
  take_fds plat fcntl cmsgs (fds ∪ fds_of cmsgs) None = (Ok out, fds') →
  recv_frame_with_fd plat fcntl (RecvMsg data cmsgs) fds
  = (Err (UdsError ("ancillary frame larger than buffer ("
                    +:+ pretty (4 + len) +:+ " > " +:+ pretty n +:+ ")")), drop_fd fds' out).
Proof.
  intros n Hn Hl Ht. unfold recv_frame_with_fd, recvmsg_with_fd. rewrite Ht, Hl.
  rewrite zlen_take by done. fold n. rewrite !bool_decide_false by lia.
  by rewrite bool_decide_true by lia.
Qed.

(** Once the descriptors are sorted out, every way to end keeps or closes the one
    that was kept. *)
Lemma recv_frame_settles plat fcntl data cmsgs (fds : gset Z) out :
  take_fds plat fcntl cmsgs (fds ∪ fds_of cmsgs) None
    = (Ok out, fds ∪ default ∅ (singleton <$> out)) →
  (∀ fd, out = Some fd → fd ∉ fds) →
  let '(r, fds') := recv_frame_with_fd plat fcntl (RecvMsg data cmsgs) fds in
  fds' = fds ∪ owned_by r ∧ r ≠ Panic.
Proof.
  intros Ht Hnew. unfold recv_frame_with_fd, recvmsg_with_fd. rewrite Ht.
  set (buf := take _ data). clearbody buf.
  assert (drop_fd (fds ∪ default ∅ (singleton <$> out)) out = fds) as Hdrop.
  { destruct out as [fd|]; cbn; [|by rewrite union_empty_r_L]. by apply close_kept, Hnew. }
  do 3 (case_bool_decide; [rewrite Hdrop; cbn; by rewrite union_empty_r_L|]).
  pose proof (from_le_bytes_range (take 4 buf)). unfold slice. rewrite bool_decide_true by lia.
  split; [|done]. by destruct out.
Qed.

(** The kernel took the whole frame. *)
Lemma send_frame_whole payload fd :
  zlen payload ≤ u32_max →
  send_frame_with_fd payload fd (SysOk (zlen (fd_frame payload)))
    = (Ok tt, (fd_frame payload, [fd])).
Proof.
  intros H. unfold send_frame_with_fd. rewrite bool_decide_false by lia. cbn.
  rewrite bool_decide_true by done. cbn. do 2 f_equal. f_equal.
  apply take_ge. unfold zlen. lia.
Qed.

(** ** Properties *)

(** C36: The handshake message survives the socket exactly if it fits the receiver's
    buffer.  When the kernel takes the whole frame and its descriptor, and (off Linux)
    the descriptor can be marked close-on-exec, a payload of at most 1020 bytes reaches
    the consumer as it was sent, with that descriptor as the only new entry of its
    table, even if more bytes follow the frame; a longer one is refused with an error
    that names both sizes, and its descriptor is closed. *)
Theorem fd_frame_roundtrip plat fcntl payload extra fd n fds :
  (plat = OtherUnix → ∃ n, fcntl fd = SysOk n) →
  zlen payload ≤ u32_max → n = zlen (fd_frame payload) → fd ∉ fds →
  send_frame_with_fd payload fd (SysOk n) = (Ok tt, (fd_frame payload, [fd])) ∧
  recv_frame_with_fd plat fcntl
    (RecvMsg (fd_frame payload ++ extra) [mkCmsg ScmRights fd []]) fds
    = if bool_decide (4 + zlen payload ≤ ANCILLARY_RECV_BUF)
      then (Ok (payload, Some fd), fds ∪ {[fd]})
      else (Err (UdsError ("ancillary frame larger than buffer ("
                           +:+ pretty (4 + zlen payload) +:+ " > 1024)")), fds).
Proof.
  intros Hfc Hp -> Hfd. pose proof (take_fds_one plat fcntl fd fds Hfc) as Ht.
  assert (zlen (fd_frame payload) = 4 + zlen payload) as Hn by (unfold fd_frame; len).
  split; [by apply send_frame_whole|]. case_bool_decide as Hf.
  - by apply recv_frame_payload; [rewrite Hn|].
  - pose proof (zlen_nonneg extra). unfold ANCILLARY_RECV_BUF in *.
    erewrite (recv_frame_cut _ _ (zlen payload)) by
      first [done|apply fd_frame_prefix; done|rewrite zlen_app, Hn; unfold ANCILLARY_RECV_BUF; lia].
    rewrite zlen_app, Hn, Z.min_l by (unfold ANCILLARY_RECV_BUF; lia). f_equal. by apply close_kept.
Qed.

Lemma fd_frame_roundtrip_witness :
  recv_frame_with_fd OtherUnix (λ _, SysOk 0)
    (RecvMsg (fd_frame [x68; x69] ++ [x00]) [mkCmsg ScmRights 7 []]) {[3]}
    = (Ok ([x68; x69], Some 7), {[3]} ∪ {[7]}) ∧
  (recv_frame_with_fd Linux (λ _, SysOk 0)
    (RecvMsg (fd_frame (replicate 1021 x2f) ++ []) [mkCmsg ScmRights 7 []]) {[3]}).2 = {[3]}.
Proof.
  split.
  - destruct (fd_frame_roundtrip OtherUnix (λ _, SysOk 0) [x68; x69] [x00] 7 6 {[3]})
      as [_ ->]; [by eexists|decide_now|vm_compute; reflexivity|set_solver|].
    by rewrite bool_decide_true by decide_now.
  - destruct (fd_frame_roundtrip Linux (λ _, SysOk 0) (replicate 1021 x2f) [] 7 1025 {[3]})
      as [_ ->]; [done|decide_now|vm_compute; reflexivity|set_solver|].
    by rewrite bool_decide_false by decide_now.
Defined.

(** C37: Where received descriptors end up.  If each control message carries one
    descriptor and the kernel gave them new and distinct numbers, then after
    [recv_frame_with_fd], success or error, whatever bytes came with them, the table
    has grown by exactly the descriptor handed to the caller, with one exception: off
    Linux, when the first descriptor cannot be marked close-on-exec, the call fails at
    once and the descriptors of all later messages stay open with no owner. *)
Theorem recv_frame_no_leak plat fcntl o fds :
  single_fds o → fds ## received o →
  match o with RecvMsg _ cmsgs => NoDup (concat (map cmsg_fds cmsgs)) | _ => True end →
  let '(r, fds') := recv_frame_with_fd plat fcntl o fds in
  fds' = fds ∪ owned_by r ∪ stranded plat fcntl o ∧ r ≠ Panic ∧
  (plat = Linux ∨ (∃ a, r = Ok a) → stranded plat fcntl o = ∅).
Proof.
  intros Hs Hdisj Hnd. destruct o as [e|data cmsgs]; [cbn; set_solver|]. cbn in Hs, Hdisj, Hnd.
  pose proof (recv_frame_settles plat fcntl data cmsgs fds) as Hset.
  pose proof (take_fds_none plat fcntl cmsgs (fds ∪ fds_of cmsgs) Hs Hnd) as Ht.
  unfold stranded, mark_fails in *. destruct (concat (map cmsg_fds cmsgs)) as [|fd later] eqn:Ec.
  { specialize (Hset None). rewrite Ht in Hset. cbn in Hset.
    destruct (recv_frame_with_fd _ _ _ _) as [r fds'].
    destruct Hset as [-> ?]; [done|done|]. by rewrite union_empty_r_L. }
  assert (fd ∉ fds) as Hfd by (cbn in Hdisj; set_solver).
  specialize (Hset (Some fd)). rewrite Ht in Hset.
  assert (match plat, fcntl fd with OtherUnix, SysErr e => Some e | _, _ => None end = None →
    let '(r, fds') := recv_frame_with_fd plat fcntl (RecvMsg data cmsgs) fds in
    fds' = fds ∪ owned_by r ∧ r ≠ Panic) as Hkept.
  { intros E. rewrite E, keep_first in Hset by done. by apply Hset; [|intros ? [= <-]]. }
  clear Hset. destruct plat; [|destruct (fcntl fd) as [n|e] eqn:Ef].
  - specialize (Hkept eq_refl). destruct (recv_frame_with_fd _ _ _ _) as [r fds'].
    destruct Hkept as [-> ?]. by rewrite union_empty_r_L.
  - specialize (Hkept eq_refl). destruct (recv_frame_with_fd _ _ _ _) as [r fds'].
    destruct Hkept as [-> ?]. by rewrite union_empty_r_L.
  - unfold recv_frame_with_fd, recvmsg_with_fd. rewrite Ec, Ht. cbn [owned_by].
    rewrite union_empty_r_L. split_and!; [by apply strand_later|done|].
    by intros [?|[? ?]].
Qed.

Definition demo_errno : IoError :=
  mkIoError (OtherKind "Uncategorized") None "No locks available".

Lemma recv_frame_no_leak_witness :
  let o := RecvMsg [x00] [mkCmsg ScmRights 7 []; mkCmsg ScmRights 8 []] in
  (recv_frame_with_fd Linux (λ _, SysOk 0) o {[3]}).2 = {[3]} ∧
  (recv_frame_with_fd OtherUnix (λ _, SysErr demo_errno) o {[3]}).2
    = {[3]} ∪ ∅ ∪ list_to_set [8].
Proof.
  intros o.
  assert (single_fds o ∧ {[3]} ## received o ∧ NoDup [7; 8]) as (H1 & H2 & H3).
  { split_and!; [cbn; repeat constructor|cbn; set_solver|].
    apply NoDup_cons. split; [set_solver|apply NoDup_singleton]. }
  pose proof (recv_frame_no_leak Linux (λ _, SysOk 0) o {[3]} H1 H2 H3) as HL.
  pose proof (recv_frame_no_leak OtherUnix (λ _, SysErr demo_errno) o {[3]} H1 H2 H3) as HO.
  split.
  - assert (recv_frame_with_fd Linux (λ _, SysOk 0) o {[3]}
      = (Err (UdsError "short recvmsg (1 bytes)"),
         (recv_frame_with_fd Linux (λ _, SysOk 0) o {[3]}).2)) as E by (vm_compute; reflexivity).
    rewrite E in HL. cbn [snd] in *. destruct HL as [-> _]. vm_compute. reflexivity.
  - assert (recv_frame_with_fd OtherUnix (λ _, SysErr demo_errno) o {[3]}
      = (Err (UdsError ("recvmsg: " +:+ io_display demo_errno)),
         (recv_frame_with_fd OtherUnix (λ _, SysErr demo_errno) o {[3]}).2)) as E
      by (vm_compute; reflexivity).
    rewrite E in HO. cbn [snd] in *. destruct HO as [HO _]. exact HO.
Defined.

(** C38: Several descriptors in ONE control message are not all closed: the loop
    reads only the first descriptor of each [SCM_RIGHTS] message, so a second one
    stays open with no owner (for any frame that fits the buffer, and off Linux with a
    first descriptor that can be marked close-on-exec), although the documentation of
    [recv_frame_with_fd] says extra descriptors are closed on receipt. *)
Theorem recv_frame_leaks_batched_fds plat fcntl payload a b fds :
  (plat = OtherUnix → ∃ n, fcntl a = SysOk n) →
  4 + zlen payload ≤ ANCILLARY_RECV_BUF → a ≠ b → b ∉ fds →
  let '(r, fds') := recv_frame_with_fd plat fcntl
    (RecvMsg (fd_frame payload) [mkCmsg ScmRights a [b]]) fds in
  r = Ok (payload, Some a) ∧ b ∈ fds' ∧ b ∉ fds ∪ owned_by r.
Proof.
  intros Hfc Hp Hab Hb. rewrite <-(app_nil_r (fd_frame payload)).
  rewrite (recv_frame_payload plat fcntl payload [] [mkCmsg ScmRights a [b]] fds
    (Some a) (fds ∪ fds_of [mkCmsg ScmRights a [b]])); [|unfold fd_frame; len|].
  - split; [done|]. split; cbn; set_solver.
  - cbn. destruct plat; [done|]. by destruct (Hfc eq_refl) as [n ->].
Qed.

Lemma recv_frame_leaks_batched_fds_witness :
  let '(r, fds') := recv_frame_with_fd Linux (λ _, SysOk 0)
    (RecvMsg (fd_frame [x01]) [mkCmsg ScmRights 7 [8]]) ∅ in
  r = Ok ([x01], Some 7) ∧ 8 ∈ fds' ∧ 8 ∉ ∅ ∪ owned_by r.
Proof.
  apply (recv_frame_leaks_batched_fds Linux (λ _, SysOk 0) [x01] 7 8 ∅);
    [done|decide_now|lia|set_solver].
Defined.
