(* ===== verification/EventFd.v ===== *)
(** * Wakeup primitive ([src/src/shm/eventfd.rs])

    Both compile-time backends: the Linux [eventfd(2)] counter and the self-pipe
    used elsewhere.  The kernel objects are classes with the behaviour their
    manual pages document ([EventKernelLaws], [PipeKernelLaws]); a signal may
    interrupt a call ([EINTR]) a finite number of times, [*_intr], which bounds
    the retry loops.  The loops take fuel; the theorems give the fuel that is
    enough. *)

From stdpp Require Import prelude gmap strings.
From Stdlib Require Import Strings.Byte.
From S2P Require Import Prelude Errors WireCodec Uds.

(** [libc::EAGAIN] differs between the two backends' targets; [EINTR] does not. *)
Definition EAGAIN (p : platform) : Z := match p with Linux => 11 | OtherUnix => 35 end.
Definition EINTR : Z := 4.

Definition has_errno (e : IoError) (n : Z) : bool := bool_decide (raw_os_error e = Some n).

(** Native byte order is little-endian on the supported targets. *)
Definition u64_ne (z : Z) : list byte := u64_le z.
Definition from_ne_bytes (l : list byte) : Z := from_le_bytes l.

(** Outcome of [read(2)]. *)
Inductive readret := ReadOk (buf : list byte) | ReadErr (e : IoError).

(** The error values of a would-block and of an interrupted call. *)
Definition is_again (p : platform) (e : IoError) : Prop :=
  raw_os_error e = Some (EAGAIN p) ∧ io_kind e = WouldBlock.
Definition is_intr (e : IoError) : Prop :=
  raw_os_error e = Some EINTR ∧ io_kind e = Interrupted.

(** ** Linux backend *)
Class EventKernel (K : Type) := {
  ek_write : list byte → K → sysret * K;
  ek_read : K → readret * K;
  ek_count : K → Z;
  ek_intr : K → nat;
}.

(** The largest value an eventfd counter can hold. *)
Definition eventfd_max : Z := u64_max - 1.

(** eventfd(2), non-blocking mode. *)
Class EventKernelLaws (K : Type) `{!EventKernel K} := {
  ek_range k : 0 ≤ ek_count k ≤ eventfd_max;
  ek_write_spec buf k : zlen buf = 8 → 0 < from_ne_bytes buf ≤ eventfd_max →
    match ek_write buf k with
    | (SysOk n, k') => n = 8 ∧ ek_count k' = ek_count k + from_ne_bytes buf ∧
        (ek_intr k' ≤ ek_intr k)%nat
    | (SysErr e, k') => ek_count k' = ek_count k ∧
        ((is_again Linux e ∧ eventfd_max < ek_count k + from_ne_bytes buf ∧
          (ek_intr k' ≤ ek_intr k)%nat) ∨
         (is_intr e ∧ (ek_intr k' < ek_intr k)%nat))
    end;
  ek_read_spec k :
    match ek_read k with
    | (ReadOk buf, k') => zlen buf = 8 ∧ from_ne_bytes buf = ek_count k ∧
        0 < ek_count k ∧ ek_count k' = 0 ∧ (ek_intr k' ≤ ek_intr k)%nat
    | (ReadErr e, k') => ek_count k' = ek_count k ∧
        ((is_again Linux e ∧ ek_count k = 0 ∧ (ek_intr k' ≤ ek_intr k)%nat) ∨
         (is_intr e ∧ (ek_intr k' < ek_intr k)%nat))
    end;
}.

(** The handle owns one descriptor. *)
Record LinuxEventFd := mkLinuxEventFd { le_fd : Z }.

(** [EventFd::new]: [eventfd] is the outcome of the system call, [fds] the
    descriptor table. *)
Definition eventfd_new (eventfd : sysret) (fds : gset Z) :
    result IoError LinuxEventFd * gset Z :=
  match eventfd with
  | SysErr e => (Err e, fds)
  | SysOk raw => (Ok (mkLinuxEventFd raw), fds ∪ {[raw]})
  end.

Definition eventfd_from_owned_fd (fd : Z) : LinuxEventFd := mkLinuxEventFd fd.
Definition eventfd_pass_fd (h : LinuxEventFd) : Z := le_fd h.
Definition eventfd_as_raw_fd (h : LinuxEventFd) : Z := le_fd h.

Section linux.
Context {K : Type} {EK : EventKernel K}.

(** [EventFd::notify] *)
Fixpoint notify (fuel : nat) (k : K) : option (result IoError unit * K) :=
  match fuel with
  | O => None
  | S fuel =>
      match ek_write (u64_ne 1) k with
      | (SysErr err, k) =>
          if has_errno err (EAGAIN Linux) then Some (Ok tt, k)
          else if has_errno err EINTR then notify fuel k
          else Some (Err err, k)
      | (SysOk _, k) => Some (Ok tt, k)
      end
  end.

(** [EventFd::drain] *)
Fixpoint drain (fuel : nat) (k : K) : option (result IoError Z * K) :=
  match fuel with
  | O => None
  | S fuel =>
      match ek_read k with
      | (ReadErr err, k) =>
          if bool_decide (io_kind err = WouldBlock) then Some (Ok 0, k)
          else if has_errno err EINTR then drain fuel k
          else Some (Err err, k)
      | (ReadOk buf, k) => Some (Ok (from_ne_bytes buf), k)
      end
  end.
End linux.

(** ** Self-pipe backend *)
Class PipeKernel (K : Type) := {
  pk_write : list byte → K → sysret * K;
  pk_read : Z → K → readret * K;
  pk_pending : K → Z;
  pk_intr : K → nat;
}.

(** pipe(7), both ends non-blocking. *)
Class PipeKernelLaws (K : Type) `{!PipeKernel K} := {
  pk_range k : 0 ≤ pk_pending k;
  pk_write_spec b k :
    match pk_write [b] k with
    | (SysOk n, k') => n = 1 ∧ pk_pending k' = pk_pending k + 1 ∧
        (pk_intr k' ≤ pk_intr k)%nat
    | (SysErr e, k') => pk_pending k' = pk_pending k ∧
        ((is_again OtherUnix e ∧ 0 < pk_pending k ∧ (pk_intr k' ≤ pk_intr k)%nat) ∨
         (is_intr e ∧ (pk_intr k' < pk_intr k)%nat))
    end;
  pk_read_spec n k : 0 < n →
    match pk_read n k with
    | (ReadOk buf, k') => zlen buf = Z.min n (pk_pending k) ∧
        pk_pending k' = pk_pending k - zlen buf ∧ (pk_intr k' ≤ pk_intr k)%nat
    | (ReadErr e, k') => pk_pending k' = pk_pending k ∧
        ((is_again OtherUnix e ∧ pk_pending k = 0 ∧ (pk_intr k' ≤ pk_intr k)%nat) ∨
         (is_intr e ∧ (pk_intr k' < pk_intr k)%nat))
    end;
}.

(** A handle: a read end and, at the producer, the write end. *)
Record PipeEventFd := mkPipeEventFd { pe_read : Z; pe_write : option Z }.

(** [configure_pipe_fd]: outcomes of [F_SETFD], [F_GETFL] and [F_SETFL]. *)
Definition configure_pipe_fd (setfd getfl setfl : sysret) : result IoError unit :=
  match setfd with
  | SysErr e => Err e
  | SysOk _ => match getfl with
               | SysErr e => Err e
               | SysOk _ => match setfl with SysErr e => Err e | SysOk _ => Ok tt end
               end
  end.

(** [EventFd::new] on the pipe backend: [pipe] is the pair of descriptors or
    the error, [cfg] the configuration of each end; [fds] the descriptor table. *)
Definition pipe_new (pipe : (Z * Z) + IoError) (cfg : Z → result IoError unit)
    (fds : gset Z) : result IoError PipeEventFd * gset Z :=
  match pipe with
  | inr e => (Err e, fds)
  | inl (r, w) =>
      let fds := fds ∪ {[r; w]} in
      match cfg r with
      | Err e => (Err e, fds ∖ {[r; w]})
      | Panic => (Panic, fds)
      | Ok _ =>
          match cfg w with
          | Err e => (Err e, fds ∖ {[r; w]})
          | Panic => (Panic, fds)
          | Ok _ => (Ok (mkPipeEventFd r (Some w)), fds)
          end
      end
  end.

(** [EventFd::from_owned_fd]: a failed configuration is only logged. *)
Definition pipe_from_owned_fd (fd : Z) (cfg : result IoError unit) : PipeEventFd :=
  mkPipeEventFd fd None.

(** [EventFd::pass_fd]: the read end. *)
Definition pipe_pass_fd (h : PipeEventFd) : Z := pe_read h.

(** [AsRawFd]: what the reactor polls, the read end too. *)
Definition pipe_as_raw_fd (h : PipeEventFd) : Z := pe_read h.

Section pipe.
Context {K : Type} {PK : PipeKernel K}.

Fixpoint pipe_notify_loop (fuel : nat) (k : K) : option (result IoError unit * K) :=
  match fuel with
  | O => None
  | S fuel =>
      match pk_write [x01] k with
      | (SysErr err, k) =>
          if has_errno err (EAGAIN OtherUnix) then Some (Ok tt, k)
          else if has_errno err EINTR then pipe_notify_loop fuel k
          else Some (Err err, k)
      | (SysOk _, k) => Some (Ok tt, k)
      end
  end.

Definition pipe_notify (h : PipeEventFd) (fuel : nat) (k : K) :
    option (result IoError unit * K) :=
  match pe_write h with
  | None => Some (Err (mkIoError Unsupported None
                         "notify on a read-only (consumer-side) eventfd"), k)
  | Some _ => pipe_notify_loop fuel k
  end.

Fixpoint pipe_drain_loop (fuel : nat) (total : Z) (k : K) :
    option (result IoError Z * K) :=
  match fuel with
  | O => None
  | S fuel =>
      match pk_read 64 k with
      | (ReadErr err, k) =>
          if bool_decide (io_kind err = WouldBlock) then Some (Ok total, k)
          else if has_errno err EINTR then pipe_drain_loop fuel total k
          else Some (Err err, k)
      | (ReadOk buf, k) =>
          let n := zlen buf in
          if bool_decide (n = 0) then Some (Ok total, k)
          else
            let total := total + n in
            if bool_decide (n < 64) then Some (Ok total, k)
            else pipe_drain_loop fuel total k
      end
  end.

Definition pipe_drain (fuel : nat) (k : K) : option (result IoError Z * K) :=
  pipe_drain_loop fuel 0 k.
End pipe.

(** [AsyncEventFd::new]: registering the descriptor with the reactor may fail; the
    handle is then dropped, which closes it. *)
Definition async_eventfd_new {H} (register : option IoError) (efd : H) : result IoError H :=
  match register with Some e => Err e | None => Ok efd end.

(** ** [AsyncEventFd::wait]

    One entry per wakeup of the task: the outcome of [readable()] and, when it
    is ready, what [drain] then returned.  [None]: still waiting. *)
Fixpoint wait (events : list (result IoError unit * result IoError Z)) :
    option (result IoError Z) :=
  match events with
  | [] => None
  | (Err e, _) :: _ => Some (Err e)
  | (Panic, _) :: _ => Some Panic
  | (Ok _, drained) :: events =>
      match drained with
      | Ok n => if bool_decide (n = 0) then wait events else Some (Ok n)
      | Err e => if bool_decide (io_kind e = WouldBlock) then wait events
                 else Some (Err e)
      | Panic => Some Panic
      end
  end.

(** ** The loops terminate and do what they say *)
Lemma again_errno p e : is_again p e → has_errno e (EAGAIN p) = true.
Proof. intros [H _]. by apply bool_decide_eq_true. Qed.
Lemma again_kind p e : is_again p e → bool_decide (io_kind e = WouldBlock) = true.
Proof. intros [_ H]. by apply bool_decide_eq_true. Qed.
Lemma intr_errno p e : is_intr e → has_errno e (EAGAIN p) = false ∧ has_errno e EINTR = true.
Proof.
  intros [H _]. unfold has_errno. rewrite H. split; [apply bool_decide_eq_false; by destruct p|].
  by apply bool_decide_eq_true.
Qed.
Lemma intr_kind e : is_intr e → bool_decide (io_kind e = WouldBlock) = false.
Proof. intros [_ H]. rewrite H. by apply bool_decide_eq_false. Qed.

Section linux_facts.
Context {K : Type} {EK : EventKernel K} {EKL : EventKernelLaws K}.

Lemma notify_spec fuel k :
  (ek_intr k < fuel)%nat →
  ∃ k', notify fuel k = Some (Ok tt, k') ∧
    ek_count k' = Z.min (ek_count k + 1) eventfd_max ∧ (ek_intr k' ≤ ek_intr k)%nat.
Proof.
  revert k. induction fuel as [|fuel IH]; intros k Hf; [lia|]. cbn [notify].
  assert (from_ne_bytes (u64_ne 1) = 1) as H1 by (by apply from_u64_le).
  pose proof (ek_write_spec (u64_ne 1) k (zlen_u64_le 1)) as Hw. rewrite H1 in Hw.
  specialize (Hw ltac:(unfold eventfd_max, u64_max; lia)).
  destruct (ek_write (u64_ne 1) k) as [[n|e] k'] eqn:E.
  - destruct Hw as (_ & Hc & Hi). exists k'. split_and!; [done| |done].
    pose proof (ek_range k'). lia.
  - destruct Hw as [Hc [(Ha & Hm & Hi)|[Hi Hlt]]].
    + rewrite (again_errno _ e Ha). exists k'. split_and!; [done| |done].
      pose proof (ek_range k). lia.
    + destruct (intr_errno Linux e Hi) as [-> ->].
      destruct (IH k') as (k'' & Hn & Hc' & Hi'); [lia|].
      exists k''. split_and!; [done|by rewrite Hc', Hc|lia].
Qed.

Lemma drain_spec fuel k :
  (ek_intr k < fuel)%nat →
  ∃ k', drain fuel k = Some (Ok (ek_count k), k') ∧ ek_count k' = 0 ∧
    (ek_intr k' ≤ ek_intr k)%nat.
Proof.
  revert k. induction fuel as [|fuel IH]; intros k Hf; [lia|]. cbn [drain].
  pose proof (ek_read_spec k) as Hr.
  destruct (ek_read k) as [[buf|e] k'] eqn:E.
  - destruct Hr as (_ & Hb & _ & H0 & Hi). exists k'. by rewrite Hb.
  - destruct Hr as [Hc [(Ha & H0 & Hi)|[Hi Hlt]]].
    + rewrite (again_kind _ e Ha). exists k'. rewrite H0 in *. done.
    + rewrite (intr_kind e Hi). destruct (intr_errno Linux e Hi) as [_ ->].
      destruct (IH k') as (k'' & Hn & Hc' & Hi'); [lia|].
      exists k''. rewrite <-Hc. split_and!; [done..|lia].
Qed.

(** [n] notifications in a row. *)
Fixpoint notify_n (n fuel : nat) (k : K) : option K :=
  match n with
  | O => Some k
  | S n => match notify fuel k with
           | Some (Ok _, k) => notify_n n fuel k
           | _ => None
           end
  end.

Lemma notify_n_spec n fuel k :
  (ek_intr k < fuel)%nat →
  ∃ k', notify_n n fuel k = Some k' ∧
    ek_count k' = Z.min (ek_count k + Z.of_nat n) eventfd_max ∧
    (ek_intr k' ≤ ek_intr k)%nat.
Proof.
  revert k. induction n as [|n IH]; intros k Hf.
  - exists k. pose proof (ek_range k). cbn. split_and!; [done|lia|done].
  - cbn [notify_n]. destruct (notify_spec fuel k Hf) as (k1 & -> & Hc & Hi).
    destruct (IH k1) as (k2 & -> & Hc2 & Hi2); [lia|]. exists k2.
    split_and!; [done|rewrite Hc2, Hc; lia|lia].
Qed.
End linux_facts.

Section pipe_facts.
Context {K : Type} {PK : PipeKernel K} {PKL : PipeKernelLaws K}.

Lemma pipe_notify_spec fuel k :
  (pk_intr k < fuel)%nat →
  ∃ k', pipe_notify_loop fuel k = Some (Ok tt, k') ∧ 0 < pk_pending k' ∧
    pk_pending k ≤ pk_pending k' ≤ pk_pending k + 1 ∧ (pk_intr k' ≤ pk_intr k)%nat.
Proof.
  revert k. induction fuel as [|fuel IH]; intros k Hf; [lia|]. cbn [pipe_notify_loop].
  pose proof (pk_write_spec x01 k) as Hw. pose proof (pk_range k).
  destruct (pk_write [x01] k) as [[n|e] k'] eqn:E.
  - destruct Hw as (_ & Hc & Hi). exists k'. split_and!; [done|lia..].
  - destruct Hw as [Hc [(Ha & Hm & Hi)|[Hi Hlt]]].
    + rewrite (again_errno _ e Ha). exists k'. split_and!; [done|lia..].
    + destruct (intr_errno OtherUnix e Hi) as [-> ->].
      destruct (IH k') as (k'' & Hn & ? & ? & ?); [lia|].
      exists k''. split_and!; [done|lia..].
Qed.

(** Each read of a full buffer takes 64 bytes, so [pending / 64] of them and the
    interruptions bound the loop. *)
Lemma pipe_drain_loop_spec fuel total k :
  (pk_intr k + Z.to_nat (pk_pending k / 64) < fuel)%nat →
  ∃ k', pipe_drain_loop fuel total k = Some (Ok (total + pk_pending k), k') ∧
    pk_pending k' = 0.
Proof.
  revert total k. induction fuel as [|fuel IH]; intros total k Hf; [lia|].
  cbn [pipe_drain_loop]. pose proof (pk_read_spec 64 k ltac:(lia)) as Hr.
  pose proof (pk_range k).
  destruct (pk_read 64 k) as [[buf|e] k'] eqn:E.
  - destruct Hr as (Hb & Hc & Hi). case_bool_decide as H0.
    { exists k'. replace (total + pk_pending k) with total by lia. split; [done|lia]. }
    case_bool_decide as H64.
    { exists k'. replace (total + zlen buf) with (total + pk_pending k) by lia.
      split; [done|lia]. }
    assert (zlen buf = 64) as Hz by lia. rewrite Hz in *.
    destruct (IH (total + 64) k') as (k'' & -> & Hc').
    { rewrite Hc. replace (pk_pending k) with ((pk_pending k - 64) + 1 * 64) in Hf by lia.
      rewrite Z.div_add in Hf by lia. pose proof (Z.div_pos (pk_pending k - 64) 64). lia. }
    exists k''. split; [|done]. do 3 f_equal. lia.
  - destruct Hr as [Hc [(Ha & H0 & Hi)|[Hi Hlt]]].
    + rewrite (again_kind _ e Ha). exists k'. rewrite H0, Z.add_0_r. split; [done|lia].
    + rewrite (intr_kind e Hi). destruct (intr_errno OtherUnix e Hi) as [_ ->].
      destruct (IH total k') as (k'' & -> & Hc'); [rewrite Hc; lia|].
      exists k''. by rewrite Hc.
Qed.
End pipe_facts.

(** ** Concrete kernels, to instantiate the classes *)
Record sim_event := mkSimEvent { se_count : Z; se_intr : nat }.

Definition err_again (p : platform) : IoError := mkIoError WouldBlock (Some (EAGAIN p)) "again".
Definition err_intr : IoError := mkIoError Interrupted (Some EINTR) "interrupted".

Definition clamp (z : Z) : Z := Z.max 0 (Z.min z eventfd_max).

Definition sim_event_kernel : EventKernel sim_event := {|
  ek_write buf k :=
    match se_intr k with
    | S i => (SysErr err_intr, mkSimEvent (se_count k) i)
    | O => if bool_decide (eventfd_max < clamp (se_count k) + from_ne_bytes buf)
           then (SysErr (err_again Linux), k)
           else (SysOk 8, mkSimEvent (clamp (se_count k) + from_ne_bytes buf) 0)
    end;
  ek_read k :=
    match se_intr k with
    | S i => (ReadErr err_intr, mkSimEvent (se_count k) i)
    | O => if bool_decide (clamp (se_count k) = 0) then (ReadErr (err_again Linux), k)
           else (ReadOk (u64_ne (clamp (se_count k))), mkSimEvent 0 0)
    end;
  ek_count k := clamp (se_count k);
  ek_intr := se_intr |}.

Lemma sim_event_laws : @EventKernelLaws sim_event sim_event_kernel.
Proof.
  split; cbn.
  - intros k. unfold clamp, eventfd_max, u64_max. lia.
  - intros buf [c i] Hb Hv. destruct i as [|i]; cbn; [case_bool_decide; cbn|].
    + split; [done|]. left. done.
    + split_and!; [done| |done]. unfold clamp in *. lia.
    + split; [done|]. right. split; [done|lia].
  - intros [c i]. destruct i as [|i]; cbn; [case_bool_decide; cbn|].
    + split; [done|]. left. done.
    + split_and!; [apply zlen_u64_le| |unfold clamp in *; lia|done|lia].
      apply from_u64_le. unfold clamp, is_u64, eventfd_max, u64_max. lia.
    + split; [done|]. right. split; [done|lia].
Qed.

Record sim_pipe := mkSimPipe { sp_pending : N; sp_intr : nat }.
Definition sim_pipe_cap : N := 65536.

Definition sim_pipe_kernel : PipeKernel sim_pipe := {|
  pk_write buf k :=
    match sp_intr k with
    | S i => (SysErr err_intr, mkSimPipe (sp_pending k) i)
    | O => if bool_decide (sim_pipe_cap ≤ sp_pending k)%N
           then (SysErr (err_again OtherUnix), k)
           else (SysOk 1, mkSimPipe (sp_pending k + 1) 0)
    end;
  pk_read n k :=
    match sp_intr k with
    | S i => (ReadErr err_intr, mkSimPipe (sp_pending k) i)
    | O => if bool_decide (sp_pending k = 0%N) then (ReadErr (err_again OtherUnix), k)
           else let m := Z.min n (Z.of_N (sp_pending k)) in
                (ReadOk (replicate (Z.to_nat m) x01),
                 mkSimPipe (sp_pending k - Z.to_N m) 0)
    end;
  pk_pending k := Z.of_N (sp_pending k);
  pk_intr := sp_intr |}.

Lemma sim_pipe_laws : @PipeKernelLaws sim_pipe sim_pipe_kernel.
Proof.
  split; cbn.
  - intros. lia.
  - intros b [p i]. destruct i as [|i]; cbn; [case_bool_decide as Hp; cbn|].
    + split; [done|]. left. unfold sim_pipe_cap in Hp. split_and!; [done|lia|lia].
    + split_and!; [done|lia|lia].
    + split; [done|]. right. split; [done|lia].
  - intros n [p i] Hn. destruct i as [|i]; cbn; [case_bool_decide as Hp; cbn|].
    + split; [done|]. left. split_and!; [done|lia|lia].
    + unfold zlen. rewrite length_replicate. split_and!; lia.
    + split; [done|]. right. split; [done|lia].
Qed.

(** ** Properties *)

(** C39: On Linux no wakeup is lost and none is invented: with fuel for the
    pending signals, [n] notifications always succeed, whether interrupted or
    saturated, and the next drain returns their number added to what was pending,
    capped at the counter's maximum, and leaves nothing pending. *)
Theorem linux_notify_drain {K : Type} {EK : EventKernel K} {EKL : EventKernelLaws K}
    (n fuel : nat) (k : K) :
  (ek_intr k < fuel)%nat →
  ∃ k1 k2 k3, notify_n n fuel k = Some k1 ∧
    drain fuel k1
      = Some (Ok (Z.min (ek_count k + Z.of_nat n) eventfd_max), k2) ∧
    drain fuel k2 = Some (Ok 0, k3).
Proof.
  intros Hf. destruct (notify_n_spec n fuel k Hf) as (k1 & Hn & Hc & Hi).
  destruct (drain_spec fuel k1) as (k2 & Hd & Hc2 & Hi2); [lia|].
  destruct (drain_spec fuel k2) as (k3 & Hd3 & _ & _); [lia|].
  exists k1, k2, k3. rewrite <-Hc, <-Hc2. done.
Qed.

Lemma linux_notify_drain_witness :
  ∃ k1 k2 k3, @notify_n _ sim_event_kernel 3 3 (mkSimEvent 0 2) = Some k1 ∧
    @drain _ sim_event_kernel 3 k1 = Some (Ok 3, k2) ∧
    @drain _ sim_event_kernel 3 k2 = Some (Ok 0, k3).
Proof.
  apply (@linux_notify_drain _ sim_event_kernel sim_event_laws 3 3 (mkSimEvent 0 2)).
  cbn. lia.
Defined.

(** The self-pipe backend keeps the same contract up to coalescing: the
    producer's notification leaves a wakeup pending, a drain terminates and returns
    exactly the number of pending bytes, however many reads it takes, leaving none,
    and a consumer-side handle refuses to notify. *)
Theorem pipe_notify_drain {K : Type} {PK : PipeKernel K} {PKL : PipeKernelLaws K}
    (fuel : nat) (k : K) (r w : Z) :
  (pk_intr k < fuel)%nat →
  (∃ k', pipe_notify (mkPipeEventFd r (Some w)) fuel k = Some (Ok tt, k') ∧
     0 < pk_pending k' ≤ pk_pending k + 1) ∧
  (∀ f, (pk_intr k + Z.to_nat (pk_pending k / 64) < f)%nat →
     ∃ k', pipe_drain f k = Some (Ok (pk_pending k), k') ∧ pk_pending k' = 0) ∧
  (∀ cfg, ∃ e, pipe_notify (pipe_from_owned_fd r cfg) fuel k = Some (Err e, k) ∧
     io_kind e = Unsupported).
Proof.
  intros Hf. split_and!.
  - destruct (pipe_notify_spec fuel k Hf) as (k' & Hn & Hp & Hle & _).
    exists k'. split; [done|lia].
  - intros f Hf'. apply (pipe_drain_loop_spec f 0 k Hf').
  - intros cfg. eexists. split; [reflexivity|done].
Qed.

Lemma pipe_notify_drain_witness :
  ∃ k', @pipe_drain _ sim_pipe_kernel 4 (mkSimPipe 130 1) = Some (Ok 130, k').
Proof.
  destruct (@pipe_notify_drain _ sim_pipe_kernel sim_pipe_laws 2 (mkSimPipe 130 1) 5 6)
    as (_ & Hd & _); [cbn; lia|].
  destruct (Hd 4%nat) as (k' & H & _); [vm_compute; lia|]. exists k'. exact H.
Defined.

(** Creating the pipe either yields both ends, or fails with no descriptor
    left open; the descriptor handed to the peer is the read end. *)
Theorem pipe_new_no_leak pipe cfg fds :
  (∀ fd, cfg fd ≠ Panic) →
  (∀ r w, pipe = inl (r, w) → (r ∉ fds) ∧ (w ∉ fds)) →
  match pipe_new pipe cfg fds with
  | (Ok h, fds') => ∃ w, pe_write h = Some w ∧ fds' = fds ∪ {[(pipe_pass_fd h); w]}
  | (Err _, fds') => fds' = fds
  | (Panic, _) => False
  end.
Proof.
  intros Hcfg Hfresh. unfold pipe_new. destruct pipe as [[r w]|e]; [|done].
  destruct (Hfresh r w eq_refl) as [Hr Hw].
  assert ((fds ∪ {[r; w]}) ∖ {[r; w]} = fds) as Hclose.
  { apply set_eq. intros x. rewrite elem_of_difference, !elem_of_union, !elem_of_singleton.
    naive_solver. }
  pose proof (Hcfg r). pose proof (Hcfg w).
  destruct (cfg r); [|done..]. destruct (cfg w); [|done..].
  exists w. done.
Qed.

Lemma pipe_new_no_leak_witness :
  (pipe_new (inl (4, 5)) (λ _, Err (err_again OtherUnix)) {[1; 2]}).2 = {[1; 2]}.
Proof.
  apply (pipe_new_no_leak (inl (4, 5)) (λ _, Err (err_again OtherUnix)) {[1; 2]}).
  - done.
  - intros r w [= <- <-]. split; decide_now.
Defined.

(** An asynchronous wait ends only with a positive wakeup count or with an
    error other than "would block", and spurious readiness makes it wait again. *)
Theorem wait_result events r :
  wait events = Some r →
  match r with
  | Ok n => n ≠ 0 ∧ ∃ pre post, events = pre ++ (Ok tt, Ok n) :: post ∧ wait pre = None
  | Err e => (Err e) ∈ events.*1 ∨ ((Err e) ∈ events.*2 ∧ io_kind e ≠ WouldBlock)
  | Panic => Panic ∈ events.*1 ∨ Panic ∈ events.*2
  end.
Proof.
  induction events as [|[rd dr] events IH]; [done|]. intros H.
  assert (wait events = Some r →
    (wait [(rd, dr)] = None) → match r with
    | Ok n => n ≠ 0 ∧ ∃ pre post,
        (rd, dr) :: events = pre ++ (Ok tt, Ok n) :: post ∧ wait pre = None
    | Err e => (Err e) ∈ ((rd, dr) :: events).*1 ∨
        ((Err e) ∈ ((rd, dr) :: events).*2 ∧ io_kind e ≠ WouldBlock)
    | Panic => Panic ∈ ((rd, dr) :: events).*1 ∨ Panic ∈ ((rd, dr) :: events).*2
    end) as Hskip.
  { intros Hw Hone. specialize (IH Hw). destruct r as [n|e|]; cbn; [|set_solver..].
    destruct IH as (Hn & pre & post & -> & Hpre). split; [done|].
    exists ((rd, dr) :: pre), post. split; [done|]. cbn in *.
    destruct rd; [|done..]. destruct dr; [..|done]; by case_bool_decide. }
  cbn in H. destruct rd as [[]|e|]; [|simplify_eq; cbn; set_solver..].
  destruct dr as [n|e|]; [case_bool_decide..|].
  - apply Hskip; [done|]. cbn. by rewrite bool_decide_true.
  - simplify_eq. split; [done|]. by exists [], events.
  - apply Hskip; [done|]. cbn. by rewrite bool_decide_true.
  - simplify_eq. right. cbn. set_solver.
  - simplify_eq. cbn. set_solver.
Qed.

Lemma wait_result_witness :
  let events := [(Ok tt, Ok 0); (Ok tt, Err (err_again Linux)); (Ok tt, Ok 3)] in
  wait events = Some (Ok 3) ∧ 3 ≠ 0.
Proof.
  intros events. assert (wait events = Some (Ok 3)) as H by (vm_compute; reflexivity).
  split; [exact H|]. apply (wait_result events (Ok 3)). exact H.
Defined.
