(* ===== verification/Metrics.v ===== *)
(** * Metrics ([src/src/metrics.rs])

    Clock conversions and the two aggregators.  [AtomicU64] cells are their
    values; [fetch_add] wraps at 64 bits.  The clock is an argument: the
    nanoseconds since the Unix epoch that [SystemTime::now()] shows, negative
    when the clock is set before the epoch. *)

From stdpp Require Import prelude.
From S2P Require Import Prelude.

(** [duration_since(UNIX_EPOCH).unwrap_or_default().as_nanos()] *)
Definition since_epoch_nanos (systime : Z) : Z := Z.max 0 systime.

Definition unix_time_nanos (systime : Z) : Z := Z.min (since_epoch_nanos systime) u64_max.

Definition elapsed_since_unix_time_nanos_us (systime start_nanos : Z) : Z :=
  if bool_decide (start_nanos = 0) then 0
  else
    let elapsed_nanos := saturating_sub (unix_time_nanos systime) start_nanos in
    if bool_decide (elapsed_nanos = 0) then 0
    else saturating_add elapsed_nanos 999 / 1000.

Record LatencyAggregator := mkLatencyAggregator {
  sum_us : Z; la_count : Z; la_min_us : Z; la_max_us : Z }.

Record LatencySnapshot := mkLatencySnapshot {
  count : Z; total_us : Z; min_us : Z; max_us : Z }.

Definition LatencyAggregator_default : LatencyAggregator :=
  mkLatencyAggregator 0 0 u64_max 0.

Definition record (a : LatencyAggregator) (elapsed_us : Z) : LatencyAggregator :=
  {| sum_us := wrap64 (sum_us a + elapsed_us); la_count := wrap64 (la_count a + 1);
     la_min_us := Z.min (la_min_us a) elapsed_us;
     la_max_us := Z.max (la_max_us a) elapsed_us |}.

Definition LatencyAggregator_flush (a : LatencyAggregator) :
    LatencySnapshot * LatencyAggregator :=
  ({| count := la_count a; total_us := sum_us a;
      min_us := if bool_decide (la_count a = 0) then 0 else la_min_us a;
      max_us := la_max_us a |},
   mkLatencyAggregator 0 0 u64_max 0).

(** [checked_div(..).unwrap_or(0)] *)
Definition avg_us (s : LatencySnapshot) : Z :=
  if bool_decide (count s = 0) then 0 else total_us s / count s.

Definition CounterAggregator := Z.
Definition counter_add (c : CounterAggregator) (n : Z) : CounterAggregator := wrap64 (c + n).
Definition counter_inc (c : CounterAggregator) : CounterAggregator := wrap64 (c + 1).
Definition counter_flush (c : CounterAggregator) : Z * CounterAggregator := (c, 0).
Definition counter_peek (c : CounterAggregator) : Z := c.

Record QlasterSenderMetrics := mkSenderMetrics {
  dispatch : LatencyAggregator; shm_send : LatencyAggregator;
  shm_ring_full : CounterAggregator }.

Record QlasterConsumerMetrics := mkConsumerMetrics {
  m_read : LatencyAggregator; m_decode : LatencyAggregator;
  m_enqueue : LatencyAggregator; m_full_read : LatencyAggregator }.

Definition QlasterSenderMetrics_new : QlasterSenderMetrics :=
  mkSenderMetrics LatencyAggregator_default LatencyAggregator_default 0.
Definition QlasterConsumerMetrics_new : QlasterConsumerMetrics :=
  mkConsumerMetrics LatencyAggregator_default LatencyAggregator_default
    LatencyAggregator_default LatencyAggregator_default.

(** ** Facts *)
Definition sum_list (xs : list Z) : Z := foldr Z.add 0 xs.

Lemma sum_list_bounds xs lo hi :
  Forall (λ x, lo ≤ x ≤ hi) xs → zlen xs * lo ≤ sum_list xs ≤ zlen xs * hi.
Proof.
  induction 1 as [|x xs Hx _ IH]; [unfold zlen; cbn; lia|].
  rewrite zlen_cons. change (sum_list (x :: xs)) with (x + sum_list xs). lia.
Qed.

Lemma sum_list_nonneg xs : Forall is_u64 xs → 0 ≤ sum_list xs.
Proof.
  induction 1 as [|x xs Hx _ IH]; [done|].
  change (sum_list (x :: xs)) with (x + sum_list xs). unfold is_u64 in Hx. lia.
Qed.

(** Recording a batch, from any state that does not overflow. *)
Lemma record_many xs a :
  Forall is_u64 xs → 0 ≤ sum_us a → 0 ≤ la_count a →
  sum_us a + sum_list xs ≤ u64_max → la_count a + zlen xs ≤ u64_max →
  foldl record a xs =
    {| sum_us := sum_us a + sum_list xs; la_count := la_count a + zlen xs;
       la_min_us := foldl Z.min (la_min_us a) xs;
       la_max_us := foldl Z.max (la_max_us a) xs |}.
Proof.
  intros Hxs. revert a. induction Hxs as [|x xs Hx Hxs IH]; intros a H1 H2 H3 H4.
  - destruct a. unfold zlen in *. cbn in *. f_equal; lia.
  - change (sum_list (x :: xs)) with (x + sum_list xs) in *. cbn [foldl].
    rewrite zlen_cons in H4 |- *.
    pose proof (sum_list_nonneg xs Hxs). pose proof (zlen_nonneg xs).
    unfold is_u64 in Hx.
    assert (record a x = mkLatencyAggregator (sum_us a + x) (la_count a + 1)
      (Z.min (la_min_us a) x) (Z.max (la_max_us a) x)) as ->.
    { unfold record. rewrite !wrap64_id; [done|unfold is_u64; lia..]. }
    rewrite IH; cbn [sum_us la_count la_min_us la_max_us]; [f_equal; lia|lia..].
Qed.

Lemma foldl_min_spec xs m :
  foldl Z.min m xs ≤ m ∧ (∀ x, x ∈ xs → foldl Z.min m xs ≤ x) ∧
  (foldl Z.min m xs = m ∨ foldl Z.min m xs ∈ xs).
Proof.
  revert m. induction xs as [|x xs IH]; intros m; cbn.
  - split_and!; [lia|set_solver|by left].
  - destruct (IH (Z.min m x)) as (H1 & H2 & H3). split_and!.
    + lia.
    + intros y [->|Hy]%elem_of_cons; [lia|auto].
    + destruct H3 as [->|H3]; [|set_solver].
      destruct (Z.min_spec m x) as [[_ ->]|[_ ->]]; set_solver.
Qed.

Lemma foldl_max_spec xs m :
  m ≤ foldl Z.max m xs ∧ (∀ x, x ∈ xs → x ≤ foldl Z.max m xs) ∧
  (foldl Z.max m xs = m ∨ foldl Z.max m xs ∈ xs).
Proof.
  revert m. induction xs as [|x xs IH]; intros m; cbn.
  - split_and!; [lia|set_solver|by left].
  - destruct (IH (Z.max m x)) as (H1 & H2 & H3). split_and!.
    + lia.
    + intros y [->|Hy]%elem_of_cons; [lia|auto].
    + destruct H3 as [->|H3]; [|set_solver].
      destruct (Z.max_spec m x) as [[_ ->]|[_ ->]]; set_solver.
Qed.

(** ** Properties *)

(** A latency snapshot is exact: after recording any non-empty batch of
    samples whose sum fits in 64 bits, a flush reports their number, their sum, a
    true minimum and maximum, and an average between the two, and resets the
    aggregator; flushing an idle aggregator reports zeros. *)
Theorem latency_flush_exact xs :
  Forall is_u64 xs → xs ≠ [] → sum_list xs ≤ u64_max → zlen xs ≤ u64_max →
  let '(s, a') := LatencyAggregator_flush (foldl record LatencyAggregator_default xs) in
  count s = zlen xs ∧ total_us s = sum_list xs ∧
  min_us s ∈ xs ∧ max_us s ∈ xs ∧ Forall (λ x, min_us s ≤ x ≤ max_us s) xs ∧
  min_us s ≤ avg_us s ≤ max_us s ∧ a' = LatencyAggregator_default ∧
  LatencyAggregator_flush a' = (mkLatencySnapshot 0 0 0 0, LatencyAggregator_default).
Proof.
  intros Hxs Hne Hsum Hlen. rewrite record_many; [|done|done|done|done|done]. cbn.
  pose proof (zlen_nonneg xs) as Hn.
  assert (0 < zlen xs) as Hpos.
  { destruct xs; [done|]. rewrite zlen_cons in *. pose proof (zlen_nonneg xs). lia. }
  rewrite bool_decide_false by lia.
  destruct (foldl_min_spec xs u64_max) as (_ & Hmin & Hmin').
  destruct (foldl_max_spec xs 0) as (_ & Hmax & Hmax').
  set (lo := foldl Z.min u64_max xs) in *. set (hi := foldl Z.max 0 xs) in *.
  assert (Forall (λ x, lo ≤ x ≤ hi) xs) as Hall by (apply Forall_forall; auto).
  pose proof (sum_list_bounds _ _ _ Hall) as Hb.
  assert (lo ∈ xs ∧ hi ∈ xs) as [Hlo Hhi].
  { destruct xs as [|x xs]; [done|].
    pose proof (Hmin x ltac:(set_solver)). pose proof (Hmax x ltac:(set_solver)).
    inversion_clear Hxs as [|?? Hx _]. unfold is_u64 in Hx.
    split; [destruct Hmin' as [Heq|]|destruct Hmax' as [Heq|]]; [|done| |done].
    - replace lo with x by lia. set_solver.
    - replace hi with x by lia. set_solver. }
  unfold avg_us. cbn. rewrite bool_decide_false by lia.
  split_and!; [done..| | |done|done];
    [apply Z.div_le_lower_bound; lia|apply Z.div_le_upper_bound; lia].
Qed.

Lemma latency_flush_exact_witness :
  let '(s, _) := LatencyAggregator_flush (foldl record LatencyAggregator_default [5; 2; 9]) in
  count s = 3 ∧ min_us s ≤ avg_us s ≤ max_us s.
Proof.
  destruct (latency_flush_exact [5; 2; 9]) as (H1 & _ & _ & _ & _ & H2 & _);
    [decide_now|done|decide_now|decide_now|]. split; [exact H1|exact H2].
Defined.

(** The end-to-end latency is the elapsed time rounded up to whole
    microseconds; it is zero for a missing timestamp or a clock that runs behind
    the sender's, and the rounding saturates instead of overflowing. *)
Theorem elapsed_us_rounds_up systime start :
  0 ≤ start →
  let now := unix_time_nanos systime in
  let us := elapsed_since_unix_time_nanos_us systime start in
  is_u64 us ∧
  ((start = 0 ∨ now ≤ start) → us = 0) ∧
  (0 < start < now → now - start ≤ u64_max - 999 →
     us * 1000 - 1000 < now - start ≤ us * 1000).
Proof.
  intros Hs now us.
  assert (0 ≤ now ≤ u64_max) as Hnow.
  { unfold now, unix_time_nanos, since_epoch_nanos, u64_max. lia. }
  unfold us, elapsed_since_unix_time_nanos_us, saturating_sub, saturating_add.
  fold now. split_and!.
  - unfold is_u64. repeat case_bool_decide; [unfold u64_max; lia..|].
    split; [apply Z.div_pos; lia|]. apply Z.div_le_upper_bound; lia.
  - intros [->|Hle]; repeat case_bool_decide; [done..|lia].
  - intros Hlt Hroom. rewrite !bool_decide_false by lia.
    rewrite Z.max_r, Z.min_r by lia.
    pose proof (Z.div_mod (now - start + 999) 1000 ltac:(lia)).
    pose proof (Z.mod_pos_bound (now - start + 999) 1000 ltac:(lia)). lia.
Qed.

Lemma elapsed_us_rounds_up_witness :
  elapsed_since_unix_time_nanos_us 5001 1000 = 5 ∧
  5 * 1000 - 1000 < 5001 - 1000 ≤ 5 * 1000.
Proof.
  split; [vm_compute; reflexivity|].
  apply (elapsed_us_rounds_up 5001 1000); vm_compute; intuition discriminate.
Defined.
