(* ===== verification/Ring.v ===== *)
(** * Shared-memory ring ([src/src/shm/ring.rs])

    The byte queue of the [shaq] crate is the class [ByteQueue], with the part
    of its contract the adapter uses as [ByteQueueLaws]: a write is
    all-or-nothing, a read batch is the longest available prefix up to the
    requested size, and dropping the batch releases it.  Ring files live in an
    explicit [Shm] store that maps paths to inodes and inodes to queues, because
    producer and consumer share one mapping and because the consumer looks at the
    path to decide that the producer is gone. *)

From stdpp Require Import prelude gmap strings pretty.
From Stdlib Require Import Strings.Byte.
From S2P Require Import Prelude Errors WireCodec.

Class ByteQueue (Q : Type) := {
  bq_data : Q → list byte;       (** written and not yet consumed *)
  bq_capacity : Q → Z;
  minimum_file_size : Z → Z;
  bq_create : Z → Q + string;    (** from a file of the given size *)
  bq_join : Q → option string;   (** the error of a failed join *)
  try_write_slice : list byte → Q → bool * Q;
  reserve_read_batch : Z → Q → option (list byte) * Q;
}.

Class ByteQueueLaws (Q : Type) `{!ByteQueue Q} := {
  bq_create_spec c q : is_power_of_two c = true →
    bq_create (minimum_file_size c) = inl q → bq_data q = [] ∧ bq_capacity q = c;
  bq_write_fits x q : zlen (bq_data q) + zlen x ≤ bq_capacity q →
    (try_write_slice x q).1 = true ∧
    bq_data (try_write_slice x q).2 = bq_data q ++ x;
  bq_write_full x q : bq_capacity q < zlen (bq_data q) + zlen x →
    (try_write_slice x q).1 = false ∧
    bq_data (try_write_slice x q).2 = bq_data q;
  bq_write_capacity x q : bq_capacity (try_write_slice x q).2 = bq_capacity q;
  bq_read_empty n q : bq_data q = [] →
    (reserve_read_batch n q).1 = None ∧ bq_data (reserve_read_batch n q).2 = [];
  bq_read_batch n q : 0 < n → bq_data q ≠ [] →
    (reserve_read_batch n q).1 = Some (take (Z.to_nat n) (bq_data q)) ∧
    bq_data (reserve_read_batch n q).2 = drop (Z.to_nat n) (bq_data q);
  bq_read_capacity n q : bq_capacity (reserve_read_batch n q).2 = bq_capacity q;
}.

Definition RING_HEADER_SIZE : Z := 0.
Definition FRAME_LEN_BYTES : Z := 4.
Definition CLOSE_SENTINEL : Z := u32_max.

Record ShmRingProducer := mkProducer {
  p_inode : nat; p_capacity : Z; p_path : string; p_dropped : Z; owns_file : bool }.

Record ShmRingConsumer := mkConsumer {
  c_inode : nat; c_capacity : Z; c_path : string; c_closed : bool }.

(** Ring files and the queues they map; an unlinked queue stays mapped. *)
Record Shm (Q : Type) := mkShm {
  files : gmap string nat; queues : gmap nat Q; next_inode : nat }.
Arguments mkShm {Q}.
Arguments files {Q}.
Arguments queues {Q}.
Arguments next_inode {Q}.

Definition remove_file {Q} (path : string) (s : Shm Q) : Shm Q :=
  mkShm (delete path (files s)) (queues s) (next_inode s).

(** What the operating system does in a call of [create]: the error, if any, of
    making the parent directory and of opening the file (besides the path being
    taken, which [Shm] decides). *)
Record CreateEnv := mkCreateEnv {
  mkdir_error : option string; open_error : option string }.

Section ring.
Context {Q : Type} {BQ : ByteQueue Q}.

(** [next_power_of_two] panics above [2^63] in a build with overflow checks. *)
Definition create (env : CreateEnv) (path : string) (capacity : Z) (s : Shm Q) :
    Res ShmRingProducer * Shm Q :=
  if bool_decide (capacity < 64)
  then (Err (ShmError ("capacity " +:+ pretty capacity +:+ " too small (min 64)")), s)
  else match mkdir_error env with
  | Some e => (Err (ShmError ("create parent dir: " +:+ e)), s)
  | None =>
    match (match files s !! path with
           | Some _ => Some "File exists (os error 17)"
           | None => open_error env
           end) with
    | Some e => (Err (ShmError ("open " +:+ path +:+ ": " +:+ e)), s)
    | None =>
      let ino := next_inode s in
      let s := mkShm (<[path := ino]> (files s)) (queues s) (S ino) in
      if bool_decide (2 ^ 63 < capacity) then (Panic, s)
      else
        let normalized_capacity := next_power_of_two capacity in
        let file_size := minimum_file_size normalized_capacity in
        match bq_create file_size with
        | inr err => (Err (ShmError ("shaq create: " +:+ err)), remove_file path s)
        | inl q =>
            (Ok (mkProducer ino normalized_capacity path 0 true),
             mkShm (files s) (<[ino := q]> (queues s)) (next_inode s))
        end
    end
  end.

Definition sum_lens (parts : list (list byte)) : Z := foldr Z.add 0 (map zlen parts).

(** [ShmRingProducer::try_push] *)
Definition ring_try_push (r : ShmRingProducer) (parts : list (list byte)) (q : Q) :
    Res unit * ShmRingProducer * Q :=
  let body_len := sum_lens parts in
  match u32_try_from body_len with
  | None => (Err (PayloadTooLarge body_len u32_max), r, q)
  | Some body_len_u32 =>
      let frame_size := FRAME_LEN_BYTES + body_len in
      if bool_decide (frame_size > p_capacity r)
      then (Err (ShmError ("frame " +:+ pretty frame_size +:+ " > ring capacity "
                           +:+ pretty (p_capacity r))), r, q)
      else
        let frame := foldl app (u32_le body_len_u32) parts in
        match try_write_slice frame q with
        | (true, q) => (Ok tt, r, q)
        | (false, q) =>
            (Err ShmFull,
             mkProducer (p_inode r) (p_capacity r) (p_path r)
               (wrap64 (p_dropped r + 1)) (owns_file r), q)
        end
  end.

(** [ShmRingProducer::close] *)
Definition ring_close (q : Q) : Q := (try_write_slice (u32_le CLOSE_SENTINEL) q).2.

Definition dropped_frames (r : ShmRingProducer) : Z := p_dropped r.

(** [Drop for ShmRingProducer] *)
Definition drop_producer (r : ShmRingProducer) (s : Shm Q) : Shm Q :=
  if owns_file r then remove_file (p_path r) s else s.

(** [ShmRingConsumer::open]; [open_err] is an OS refusal other than a missing
    file, [meta_len] the file length when [metadata] succeeds. *)
Definition ring_open (open_err : option string) (meta_len : option Z)
    (path : string) (s : Shm Q) : Res ShmRingConsumer :=
  match (match open_err with
         | Some e => inr e
         | None => match files s !! path with
                   | Some ino => match queues s !! ino with
                                 | Some q => inl (ino, q)
                                 | None => inr "No such file or directory (os error 2)"
                                 end
                   | None => inr "No such file or directory (os error 2)"
                   end
         end) with
  | inr e => Err (ShmError ("open " +:+ path +:+ ": " +:+ e))
  | inl (ino, q) =>
      match bq_join q with
      | Some e => Err (ShmError ("shaq join: " +:+ e))
      | None => Ok (mkConsumer ino (default 0 meta_len) path false)
      end
  end.

Definition is_closed (c : ShmRingConsumer) (s : Shm Q) : bool :=
  c_closed c || bool_decide (files s !! c_path c = None).

(** [ShmRingConsumer::read_exact] *)
Definition ring_read_exact (n : Z) (q : Q) : option (list byte) * Q :=
  match reserve_read_batch n q with
  | (None, q) => (None, q)
  | (Some batch, q) =>
      if bool_decide (zlen batch ≠ n) then (None, q) else (Some batch, q)
  end.

(** [ShmRingConsumer::try_pop] *)
Definition try_pop (c : ShmRingConsumer) (q : Q) :
    option (list byte) * ShmRingConsumer * Q :=
  match ring_read_exact FRAME_LEN_BYTES q with
  | (None, q) => (None, c, q)
  | (Some len_bytes, q) =>
      match try_into_array 4 len_bytes with
      | None => (None, c, q)
      | Some arr =>
          let frame_len := from_le_bytes arr in
          if bool_decide (frame_len = CLOSE_SENTINEL)
          then (None, mkConsumer (c_inode c) (c_capacity c) (c_path c) true, q)
          else if bool_decide (frame_len = 0) then (Some [], c, q)
          else let '(r, q) := ring_read_exact frame_len q in (r, c, q)
      end
  end.

(** Accessors of the two handles. *)
Definition producer_capacity (r : ShmRingProducer) : Z := p_capacity r.
Definition producer_path (r : ShmRingProducer) : string := p_path r.
Definition consumer_capacity (c : ShmRingConsumer) : Z := c_capacity c.

End ring.

(** ** Specification: a bounded queue of messages

    What the adapter promises its clients: a FIFO of whole messages whose
    occupancy is four bytes plus the body each, with an end-of-stream mark. *)
Inductive entry := Frame (body : list byte) | Closed.

Definition entry_bytes (e : entry) : list byte :=
  match e with
  | Frame body => u32_le (zlen body) ++ body
  | Closed => u32_le CLOSE_SENTINEL
  end.

Definition stream (es : list entry) : list byte := concat (map entry_bytes es).
Definition occupancy (es : list entry) : Z := zlen (stream es).

(** A message the consumer can tell from the close sentinel. *)
Definition entry_ok (e : entry) : Prop :=
  match e with Frame body => zlen body < CLOSE_SENTINEL | Closed => True end.

Record Fifo := mkFifo {
  entries : list entry; limit : Z; lost : Z; seen_close : bool }.

Inductive op := Push (parts : list (list byte)) | CloseRing | Pop.

(** What the caller of an operation sees. *)
Inductive out :=
| Pushed | Refused (e : QlasterError) | ClosedRing | Popped (m : option (list byte)).

Definition too_big (size cap : Z) : QlasterError :=
  ShmError ("frame " +:+ pretty size +:+ " > ring capacity " +:+ pretty cap).

Definition fifo_step (o : op) (f : Fifo) : out * Fifo :=
  match o with
  | Push parts =>
      let body := concat parts in
      let size := 4 + zlen body in
      if bool_decide (zlen body > u32_max)
      then (Refused (PayloadTooLarge (zlen body) u32_max), f)
      else if bool_decide (size > limit f) then (Refused (too_big size (limit f)), f)
      else if bool_decide (limit f < occupancy (entries f) + size)
      then (Refused ShmFull,
            mkFifo (entries f) (limit f) (wrap64 (lost f + 1)) (seen_close f))
      else (Pushed, mkFifo (entries f ++ [Frame body]) (limit f) (lost f) (seen_close f))
  | CloseRing =>
      (ClosedRing,
       if bool_decide (occupancy (entries f) + 4 ≤ limit f)
       then mkFifo (entries f ++ [Closed]) (limit f) (lost f) (seen_close f) else f)
  | Pop =>
      match entries f with
      | [] => (Popped None, f)
      | Frame body :: es => (Popped (Some body), mkFifo es (limit f) (lost f) (seen_close f))
      | Closed :: es => (Popped None, mkFifo es (limit f) (lost f) true)
      end
  end.

Fixpoint run_ops {S} (step : op → S → out * S) (os : list op) (s : S) : list out * S :=
  match os with
  | [] => ([], s)
  | o :: os => let '(x, s) := step o s in
               let '(xs, s) := run_ops step os s in (x :: xs, s)
  end.

Section ring_ops.
Context {Q : Type} {BQ : ByteQueue Q}.

Definition Ring : Type := ShmRingProducer * ShmRingConsumer * Q.

(** The same operations on the two ends of a real ring. *)
Definition ring_step (o : op) (r : Ring) : out * Ring :=
  let '(p, c, q) := r in
  match o with
  | Push parts =>
      match ring_try_push p parts q with
      | (Ok _, p, q) => (Pushed, (p, c, q))
      | (Err e, p, q) => (Refused e, (p, c, q))
      | (Panic, p, q) => (Refused ShmFull, (p, c, q))
      end
  | CloseRing => (ClosedRing, (p, c, ring_close q))
  | Pop => let '(m, c, q) := try_pop c q in (Popped m, (p, c, q))
  end.

(** The simulation relation. *)
Record rel (f : Fifo) (r : Ring) : Prop := mkRel {
  rel_data : bq_data r.2 = stream (entries f);
  rel_ok : Forall entry_ok (entries f);
  rel_cap : bq_capacity r.2 = limit f;
  rel_limit : p_capacity r.1.1 = limit f;
  rel_bound : 64 ≤ limit f ≤ 2 ^ 32;
  rel_lost : dropped_frames r.1.1 = lost f;
  rel_closed : c_closed r.1.2 = seen_close f;
}.
End ring_ops.

(** ** Lemmas *)
Lemma sum_lens_concat parts : sum_lens parts = zlen (concat parts).
Proof.
  unfold sum_lens. induction parts as [|p ps IH]; [done|]. cbn. rewrite IH. by len.
Qed.

Lemma foldl_app_concat {A} (parts : list (list A)) x : foldl app x parts = x ++ concat parts.
Proof.
  revert x. induction parts as [|p ps IH]; intros x; cbn; [by rewrite app_nil_r|].
  by rewrite IH, app_assoc.
Qed.

#[global] Arguments stream : simpl never.

Lemma stream_app es es' : stream (es ++ es') = stream es ++ stream es'.
Proof. unfold stream. by rewrite map_app, concat_app. Qed.

Lemma stream_cons e es : stream (e :: es) = entry_bytes e ++ stream es.
Proof. done. Qed.

Lemma stream_one e : stream [e] = entry_bytes e.
Proof. apply app_nil_r. Qed.

Lemma occupancy_frame es body : occupancy (es ++ [Frame body]) = occupancy es + (4 + zlen body).
Proof. unfold occupancy. rewrite stream_app, stream_one. cbn. len. Qed.

Lemma occupancy_nonneg es : 0 ≤ occupancy es.
Proof. apply zlen_nonneg. Qed.

#[export] Hint Rewrite sum_lens_concat @foldl_app_concat : qbytes.

Section ring_lemmas.
Context {Q : Type} {BQ : ByteQueue Q} {BQL : ByteQueueLaws Q}.

(** Reading back the bytes in front of the queue. *)
Lemma ring_read_exact_app n x rest q :
  bq_data q = x ++ rest → n = zlen x → 0 < n →
  (ring_read_exact n q).1 = Some x ∧ bq_data (ring_read_exact n q).2 = rest ∧
  bq_capacity (ring_read_exact n q).2 = bq_capacity q.
Proof.
  intros Hq -> Hn.
  assert (bq_data q ≠ []) as Hne.
  { rewrite Hq. by destruct x. }
  destruct (bq_read_batch _ q Hn Hne) as [H1 H2].
  pose proof (bq_read_capacity (zlen x) q) as H3. unfold ring_read_exact.
  destruct (reserve_read_batch (zlen x) q) as [b q']. cbn in *. subst b.
  rewrite Hq in *. unfold zlen in H2 |- *.
  rewrite Nat2Z.id, take_app_length, drop_app_length in *.
  rewrite bool_decide_false by tauto. done.
Qed.

Lemma ring_read_exact_empty n q :
  bq_data q = [] →
  (ring_read_exact n q).1 = None ∧ bq_data (ring_read_exact n q).2 = [] ∧
  bq_capacity (ring_read_exact n q).2 = bq_capacity q.
Proof.
  intros Hq. destruct (bq_read_empty n q Hq) as [H1 H2].
  pose proof (bq_read_capacity n q) as H3. unfold ring_read_exact.
  destruct (reserve_read_batch n q) as [b q']. cbn in *. by subst b.
Qed.

Lemma try_pop_empty c q :
  bq_data q = [] → ∃ q', try_pop c q = (None, c, q') ∧ bq_data q' = [] ∧
    bq_capacity q' = bq_capacity q.
Proof.
  intros Hq. destruct (ring_read_exact_empty FRAME_LEN_BYTES q Hq) as (H1 & H2 & H3).
  unfold try_pop. destruct (ring_read_exact FRAME_LEN_BYTES q) as [r q']. cbn in *.
  subst r. eauto.
Qed.

(** The length prefix, read and interpreted. *)
Lemma read_prefix n rest q :
  is_u32 n → bq_data q = u32_le n ++ rest →
  ∃ q' raw, ring_read_exact FRAME_LEN_BYTES q = (Some raw, q') ∧
    try_into_array 4 raw = Some raw ∧ from_le_bytes raw = n ∧
    bq_data q' = rest ∧ bq_capacity q' = bq_capacity q.
Proof.
  intros Hn Hq.
  destruct (ring_read_exact_app FRAME_LEN_BYTES _ _ _ Hq) as (H1 & H2 & H3);
    [by rewrite zlen_u32_le|done|].
  destruct (ring_read_exact FRAME_LEN_BYTES q) as [r q']. cbn in *. subst r.
  exists q', (u32_le n). split_and!; [done| |by apply from_u32_le|done|done].
  unfold try_into_array. by rewrite bool_decide_true by apply zlen_u32_le.
Qed.

Lemma try_pop_closed c q rest :
  bq_data q = u32_le CLOSE_SENTINEL ++ rest →
  ∃ q', try_pop c q = (None, mkConsumer (c_inode c) (c_capacity c) (c_path c) true, q') ∧
    bq_data q' = rest ∧ bq_capacity q' = bq_capacity q.
Proof.
  intros Hq. destruct (read_prefix CLOSE_SENTINEL rest q ltac:(done) Hq) as (q' & raw & E1 & E2 & E3 & E4 & E5).
  exists q'. unfold try_pop. rewrite E1, E2, E3. by rewrite bool_decide_true.
Qed.

Lemma try_pop_frame c q body rest :
  bq_data q = u32_le (zlen body) ++ body ++ rest → zlen body < CLOSE_SENTINEL →
  ∃ q', try_pop c q = (Some body, c, q') ∧ bq_data q' = rest ∧
    bq_capacity q' = bq_capacity q.
Proof.
  intros Hq Hb. pose proof (zlen_nonneg body).
  destruct (read_prefix (zlen body) (body ++ rest) q) as (q' & raw & E1 & E2 & E3 & E4 & E5);
    [unfold is_u32, CLOSE_SENTINEL in *; lia|done|].
  unfold try_pop. rewrite E1, E2, E3. rewrite bool_decide_false by lia.
  case_bool_decide as H0.
  - apply zlen_0_nil in H0 as ->. eauto.
  - destruct (ring_read_exact_app (zlen body) body rest q') as (H1 & H2 & H3);
      [done|done|lia|].
    destruct (ring_read_exact (zlen body) q') as [r q'']. cbn in *. subst r.
    exists q''. split_and!; [done|done|congruence].
Qed.

(** Pushing, by the room left. *)
Lemma ring_try_push_spec p parts q :
  p_capacity p = bq_capacity q →
  let body := concat parts in let size := 4 + zlen body in
  if bool_decide (zlen body > u32_max)
  then ring_try_push p parts q = (Err (PayloadTooLarge (zlen body) u32_max), p, q)
  else if bool_decide (size > p_capacity p)
  then ring_try_push p parts q = (Err (too_big size (p_capacity p)), p, q)
  else if bool_decide (p_capacity p < zlen (bq_data q) + size)
  then ∃ q', ring_try_push p parts q
      = (Err ShmFull, mkProducer (p_inode p) (p_capacity p) (p_path p)
           (wrap64 (p_dropped p + 1)) (owns_file p), q') ∧
      bq_data q' = bq_data q ∧ bq_capacity q' = bq_capacity q
  else ∃ q', ring_try_push p parts q = (Ok tt, p, q') ∧
      bq_data q' = bq_data q ++ u32_le (zlen body) ++ body ∧
      bq_capacity q' = bq_capacity q.
Proof.
  intros Hc body size. unfold ring_try_push, u32_try_from, FRAME_LEN_BYTES.
  rewrite sum_lens_concat. fold body. fold size.
  case_bool_decide as Hu; [by rewrite bool_decide_false by lia|].
  rewrite (bool_decide_true (zlen body ≤ u32_max)) by lia.
  case_bool_decide as Hs; [done|]. rewrite foldl_app_concat. fold body.
  set (x := u32_le (zlen body) ++ body).
  assert (zlen x = size) as Hx by (unfold x, size; len).
  pose proof (bq_write_capacity x q) as Hk. case_bool_decide as Hf.
  - destruct (bq_write_full x q) as [H1 H2]; [lia|].
    destruct (try_write_slice x q) as [b q']. cbn in *. subst b. eauto.
  - destruct (bq_write_fits x q) as [H1 H2]; [lia|].
    destruct (try_write_slice x q) as [b q']. cbn in *. subst b. eauto.
Qed.
Lemma ring_close_spec q :
  bq_data (ring_close q) = (if bool_decide (zlen (bq_data q) + 4 ≤ bq_capacity q)
    then bq_data q ++ u32_le CLOSE_SENTINEL else bq_data q) ∧
  bq_capacity (ring_close q) = bq_capacity q.
Proof.
  unfold ring_close. set (x := u32_le CLOSE_SENTINEL).
  assert (zlen x = 4) as Hx by apply zlen_u32_le. split; [|apply bq_write_capacity].
  case_bool_decide.
  - apply bq_write_fits. lia.
  - apply bq_write_full. lia.
Qed.

(** Reads and pops, whatever the queue holds. *)
Lemma ring_read_exact_any n (q : Q) :
  0 < n →
  let '(r, q') := ring_read_exact n q in
  bq_capacity q' = bq_capacity q ∧ (length (bq_data q') ≤ length (bq_data q))%nat ∧
  ∀ x, r = Some x → zlen x = n ∧ (length (bq_data q') < length (bq_data q))%nat.
Proof.
  intros Hn. pose proof (bq_read_capacity n q) as Hc. unfold ring_read_exact.
  destruct (decide (bq_data q = [])) as [He|He].
  - destruct (bq_read_empty n q He) as [H1 H2]. destruct (reserve_read_batch n q) as [r q'].
    cbn in *. subst r. split_and!; [done| |done]. rewrite H2. cbn. lia.
  - destruct (bq_read_batch n q Hn He) as [H1 H2]. destruct (reserve_read_batch n q) as [r q'].
    cbn in *. subst r. assert (0 < length (bq_data q))%nat by (destruct (bq_data q); cbn; [done|lia]).
    case_bool_decide; (split_and!; [done|rewrite H2, length_drop; lia|]); intros x Hx; [done|].
    injection Hx as <-. split; [lia|]. rewrite H2, length_drop. lia.
Qed.

Lemma try_pop_any c (q : Q) :
  let '(r, c', q') := try_pop c q in
  c_inode c' = c_inode c ∧ c_path c' = c_path c ∧ bq_capacity q' = bq_capacity q ∧
  (length (bq_data q') ≤ length (bq_data q))%nat ∧
  ∀ b, r = Some b → zlen b ≤ u32_max ∧ (length (bq_data q') < length (bq_data q))%nat.
Proof.
  unfold try_pop. pose proof (ring_read_exact_any FRAME_LEN_BYTES q ltac:(done)) as H.
  destruct (ring_read_exact FRAME_LEN_BYTES q) as [[raw|] q1]; destruct H as (H1 & H2 & H3);
    [|done]. destruct (H3 raw eq_refl) as [Hl Hlt]. unfold try_into_array.
  rewrite bool_decide_true by done.
  pose proof (from_le_bytes_range raw) as Hr. rewrite Hl in Hr. cbn in Hr.
  case_bool_decide; [done|]. case_bool_decide.
  - split_and!; [done|done|done|done|]. intros b [= <-]. split; [done|lia].
  - pose proof (ring_read_exact_any (from_le_bytes raw) q1 ltac:(lia)) as Hx.
    destruct (ring_read_exact _ q1) as [r q2]. destruct Hx as (K1 & K2 & K3).
    split_and!; [done|done|congruence|lia|]. intros b Hb. destruct (K3 b Hb).
    unfold FRAME_LEN_BYTES, u32_max in *. split; lia.
Qed.

(** One operation of the ring is one operation of the FIFO. *)
Lemma ring_step_refines o f (r : Ring) :
  rel f r →
  (ring_step o r).1 = (fifo_step o f).1 ∧ rel (fifo_step o f).2 (ring_step o r).2.
Proof.
  destruct r as [[p c] q], f as [es lim n sc]. intros [Hd Hok Hc Hl Hb Hn Hcl]. cbn in *.
  destruct o as [parts| |]; cbn -[Z.add].
  - pose proof (ring_try_push_spec p parts q ltac:(congruence)) as Hp. cbv zeta in Hp.
    rewrite Hd, Hl in Hp. unfold occupancy.
    case_bool_decide; [by rewrite Hp|]. case_bool_decide; [by rewrite Hp|].
    case_bool_decide.
    + destruct Hp as (q' & -> & Hq1 & Hq2). cbn. split; [done|].
      split; cbn; try congruence. unfold dropped_frames in Hn. by rewrite Hn.
    + destruct Hp as (q' & -> & Hq1 & Hq2). cbn. split; [done|].
      split; cbn; try congruence; try done.
      * by rewrite Hq1, stream_app, stream_one.
      * apply Forall_app. split; [done|]. apply Forall_singleton. cbn.
        unfold CLOSE_SENTINEL, u32_max in *. lia.
  - destruct (ring_close_spec q) as [Hq1 Hq2]. rewrite Hd, Hc in Hq1. unfold occupancy.
    split; [done|]. case_bool_decide; split; cbn; try congruence; try done.
    + by rewrite Hq1, stream_app, stream_one.
    + apply Forall_app. split; [done|]. by apply Forall_singleton.
  - destruct Hok as [|[body|] es Hok Hoks].
    + destruct (try_pop_empty c q Hd) as (q' & -> & Hq1 & Hq2). cbn. split; [done|].
      split; cbn; try congruence; try done.
    + rewrite stream_cons in Hd. cbn in Hd. rewrite <-app_assoc in Hd.
      destruct (try_pop_frame c q body _ Hd Hok) as (q' & -> & Hq1 & Hq2). cbn.
      split; [done|]. split; cbn; try congruence; try done.
    + destruct (try_pop_closed c q _ Hd) as (q' & -> & Hq1 & Hq2). cbn.
      split; [done|]. split; cbn; try congruence; try done.
Qed.

Lemma run_ops_refines os f (r : Ring) :
  rel f r →
  (run_ops ring_step os r).1 = (run_ops fifo_step os f).1 ∧
  rel (run_ops fifo_step os f).2 (run_ops ring_step os r).2.
Proof.
  revert f r. induction os as [|o os IH]; intros f r Hr; [done|].
  destruct (ring_step_refines o f r Hr) as [H1 H2]. cbn.
  destruct (ring_step o r) as [x r1], (fifo_step o f) as [y f1]. cbn in *.
  destruct (IH f1 r1 H2) as [H3 H4].
  destruct (run_ops ring_step os r1), (run_ops fifo_step os f1). cbn in *.
  by rewrite H1, H3.
Qed.
End ring_lemmas.

(** ** The store of ring files *)
Definition shm_wf {Q} (s : Shm Q) : Prop :=
  map_Forall (λ _ ino, (ino < next_inode s)%nat) (files s) ∧
  map_Forall (λ ino _, (ino < next_inode s)%nat) (queues s).

Definition shm_empty {Q} : Shm Q := mkShm ∅ ∅ 0.

Lemma shm_wf_empty {Q} : shm_wf (@shm_empty Q).
Proof. split; apply map_Forall_empty. Qed.

Lemma remove_file_wf {Q} path (s : Shm Q) : shm_wf s → shm_wf (remove_file path s).
Proof. intros [H1 H2]. split; [by apply map_Forall_delete|done]. Qed.

Section store.
Context {Q : Type} {BQ : ByteQueue Q}.

Lemma create_cases env path capacity (s : Shm Q) :
  match create env path capacity s with
  | (Ok p, s') =>
      64 ≤ capacity ≤ 2 ^ 63 ∧ files s !! path = None ∧
      ∃ q, bq_create (minimum_file_size (next_power_of_two capacity)) = inl q ∧
      p = mkProducer (next_inode s) (next_power_of_two capacity) path 0 true ∧
      s' = mkShm (<[path := next_inode s]> (files s))
             (<[next_inode s := q]> (queues s)) (S (next_inode s))
  | (Err e, s') =>
      (∃ msg, e = ShmError msg) ∧ files s' = files s ∧ queues s' = queues s ∧
      (next_inode s ≤ next_inode s')%nat
  | (Panic, _) => 2 ^ 63 < capacity
  end.
Proof.
  unfold create. case_bool_decide; [cbn; eauto 10 with lia|].
  destruct (mkdir_error env); [cbn; eauto 10 with lia|].
  destruct (files s !! path) eqn:Hp; [cbn; eauto 10 with lia|].
  destruct (open_error env); [cbn; eauto 10 with lia|].
  case_bool_decide; [cbn; lia|].
  destruct (bq_create _) as [q|e] eqn:Hq; cbn.
  - split_and!; [lia|lia|done|]. by exists q.
  - split_and!; [eauto|by apply delete_insert_id|done|lia].
Qed.

Lemma create_wf env path capacity (s : Shm Q) :
  shm_wf s → capacity ≤ 2 ^ 63 → shm_wf (create env path capacity s).2.
Proof.
  intros [H1 H2] Hc. pose proof (create_cases env path capacity s) as H.
  destruct (create env path capacity s) as [[p|e|] s']; cbn in *; [| |lia].
  - destruct H as (_ & _ & q & _ & _ & ->). split; cbn;
      (apply map_Forall_insert_2; [lia|eapply map_Forall_impl; [done|cbn; lia]]).
  - destruct H as (_ & Hf & Hq & Hn). unfold shm_wf. rewrite Hf, Hq.
    split; eapply map_Forall_impl; try done; cbn; lia.
Qed.

Lemma is_closed_after_drop p c (s : Shm Q) :
  owns_file p = true → c_path c = p_path p → is_closed c (drop_producer p s) = true.
Proof.
  intros Ho Hp. unfold is_closed, drop_producer. rewrite Ho, Hp. cbn.
  rewrite lookup_delete_eq. by destruct (c_closed c).
Qed.
End store.

(** ** A reference queue

    A list of bytes with a capacity: the laws above can hold together. *)
Record list_queue := mkListQueue { lq_data : list byte; lq_cap : Z }.

Definition list_byte_queue : ByteQueue list_queue := {|
  bq_data := lq_data;
  bq_capacity := lq_cap;
  minimum_file_size c := 192 + c;
  bq_create size := inl (mkListQueue [] (size - 192));
  bq_join _ := None;
  try_write_slice x q :=
    if bool_decide (zlen (lq_data q) + zlen x ≤ lq_cap q)
    then (true, mkListQueue (lq_data q ++ x) (lq_cap q)) else (false, q);
  reserve_read_batch n q :=
    match lq_data q with
    | [] => (None, q)
    | d => (Some (take (Z.to_nat n) d), mkListQueue (drop (Z.to_nat n) d) (lq_cap q))
    end;
|}.

Lemma list_byte_queue_laws : @ByteQueueLaws list_queue list_byte_queue.
Proof.
  split; cbn -[Z.add].
  - intros c q _ [= <-]. split; [done|]. cbn. lia.
  - intros x q H. by rewrite bool_decide_true.
  - intros x q H. by rewrite bool_decide_false by lia.
  - intros x q. by case_bool_decide.
  - intros n [d c] Hd. cbn in *. by subst d.
  - intros n [d c] Hn Hd. cbn in *. by destruct d.
  - intros n [d c]. cbn. by destruct d.
Qed.

(** ** Accounting of a run *)

(** The bodies the producer was told are in the ring. *)
Fixpoint accepted (os : list op) (xs : list out) : list (list byte) :=
  match os, xs with
  | Push parts :: os, Pushed :: xs => concat parts :: accepted os xs
  | _ :: os, _ :: xs => accepted os xs
  | _, _ => []
  end.

(** The bodies the consumer got. *)
Definition delivered (xs : list out) : list (list byte) :=
  omap (λ x, match x with Popped m => m | _ => None end) xs.

Definition bodies (es : list entry) : list (list byte) :=
  omap (λ e, match e with Frame b => Some b | Closed => None end) es.

#[export] Instance out_eq_dec : EqDecision out.
Proof. solve_decision. Defined.

(** Pushes refused for lack of room. *)
Definition refused_full (xs : list out) : Z :=
  zlen (filter (λ x, x = Refused ShmFull) xs).

Lemma fifo_step_accounts o f :
  bodies (entries f) ++ accepted [o] [(fifo_step o f).1]
    = delivered [(fifo_step o f).1] ++ bodies (entries (fifo_step o f).2).
Proof.
  unfold bodies, delivered. destruct f as [es lim n sc], o as [parts| |]; cbn -[Z.add].
  - repeat case_bool_decide; cbn; rewrite ?app_nil_r; [done..|].
    by rewrite omap_app.
  - case_bool_decide; cbn; rewrite ?app_nil_r; [|done].
    rewrite omap_app. cbn. by rewrite app_nil_r.
  - destruct es as [|[b|] es]; cbn; by rewrite ?app_nil_r.
Qed.

Lemma accepted_cons o os x xs : accepted (o :: os) (x :: xs) = accepted [o] [x] ++ accepted os xs.
Proof. by destruct o, x. Qed.

Lemma delivered_cons x xs : delivered (x :: xs) = delivered [x] ++ delivered xs.
Proof. destruct x as [| | |[]]; done. Qed.

Lemma fifo_run_accounts os f :
  let '(xs, f') := run_ops fifo_step os f in
  bodies (entries f) ++ accepted os xs = delivered xs ++ bodies (entries f').
Proof.
  revert f. induction os as [|o os IH]; intros f; cbn [run_ops];
    [by rewrite app_nil_r|].
  pose proof (fifo_step_accounts o f) as H. destruct (fifo_step o f) as [x f1].
  specialize (IH f1). destruct (run_ops fifo_step os f1) as [xs f2]. cbn [fst snd] in *.
  cbv beta iota. rewrite accepted_cons, delivered_cons, app_assoc, H, <-!app_assoc. by rewrite IH.
Qed.

Lemma fifo_run_limits os f :
  let '(xs, f') := run_ops fifo_step os f in
  limit f' = limit f ∧
  (occupancy (entries f) ≤ limit f → occupancy (entries f') ≤ limit f').
Proof.
  revert f. induction os as [|o os IH]; intros f; cbn; [done|].
  assert (limit (fifo_step o f).2 = limit f ∧
    (occupancy (entries f) ≤ limit f →
     occupancy (entries (fifo_step o f).2) ≤ limit f)) as [H1 H2].
  { destruct f as [es lim n sc], o as [parts| |]; cbn -[Z.add].
    - repeat case_bool_decide; cbn; split; try done; intros.
      rewrite occupancy_frame. lia.
    - case_bool_decide; cbn; split; try done. intros _.
      unfold occupancy in *. rewrite stream_app, stream_one. cbn. len.
    - destruct es as [|e es]; [done|].
      assert (occupancy es ≤ occupancy (e :: es)).
      { unfold occupancy. rewrite stream_cons, zlen_app.
        pose proof (zlen_nonneg (entry_bytes e)). lia. }
      destruct e; cbn; split; try done; lia. }
  destruct (fifo_step o f) as [x f1]. specialize (IH f1).
  destruct (run_ops fifo_step os f1) as [xs f2]. cbn [fst snd] in *.
  destruct IH as [H3 H4]. rewrite H1 in *. auto.
Qed.

(** A ring that was created and joined is an empty FIFO of its capacity. *)
Lemma create_open_rel {Q} {BQ : ByteQueue Q} {BQL : ByteQueueLaws Q}
    env path capacity (s s' : Shm Q) p c meta q :
  capacity ≤ 2 ^ 32 →
  create env path capacity s = (Ok p, s') →
  ring_open None meta path s' = Ok c → queues s' !! c_inode c = Some q →
  rel (mkFifo [] (next_power_of_two capacity) 0 false) (p, c, q).
Proof.
  intros Hcap Hcr Hop Hq. pose proof (create_cases env path capacity s) as H.
  rewrite Hcr in H. destruct H as (Hc & _ & q0 & Hq0 & -> & ->).
  unfold ring_open in Hop. cbn in Hop. rewrite lookup_insert_eq in Hop.
  rewrite lookup_insert_eq in Hop. destruct (bq_join q0); [done|].
  injection Hop as <-. cbn in *. rewrite lookup_insert_eq in Hq. injection Hq as <-.
  destruct (bq_create_spec _ _ (next_power_of_two_is _) Hq0) as [Hd Hk].
  pose proof (next_power_of_two_ge capacity).
  split; cbn; try done. split; [lia|].
  by apply next_power_of_two_le_pow2.
Qed.

(** Draining a FIFO that holds only messages. *)
Lemma fifo_drain bs lim n sc :
  run_ops fifo_step (replicate (length bs) Pop) (mkFifo (map Frame bs) lim n sc)
    = (map (λ b, Popped (Some b)) bs, mkFifo [] lim n sc).
Proof. induction bs as [|b bs IH]; [done|]. cbn. by rewrite IH. Qed.

Lemma run_ops_app {S} (step : op → S → out * S) os os' s :
  run_ops step (os ++ os') s =
    let '(xs, s1) := run_ops step os s in
    let '(ys, s2) := run_ops step os' s1 in (xs ++ ys, s2).
Proof.
  revert s. induction os as [|o os IH]; intros s; cbn.
  - by destruct (run_ops step os' s).
  - destruct (step o s) as [x s1]. rewrite IH. destruct (run_ops step os s1) as [xs s2].
    by destruct (run_ops step os' s2).
Qed.

Lemma fifo_drain_tail bs tail lim n sc :
  run_ops fifo_step (replicate (length bs) Pop) (mkFifo (map Frame bs ++ tail) lim n sc)
    = (map (λ b, Popped (Some b)) bs, mkFifo tail lim n sc).
Proof. induction bs as [|b bs IH]; [done|]. cbn. by rewrite IH. Qed.

(** A ring of the reference queue, for the witnesses. *)
Definition sample_env : CreateEnv := mkCreateEnv None None.
Definition sample_store : Shm list_queue :=
  (@create _ list_byte_queue sample_env "/dev/shm/q/7-0-1" 100 shm_empty).2.
Definition sample_producer : ShmRingProducer := mkProducer 0 128 "/dev/shm/q/7-0-1" 0 true.
Definition sample_consumer : ShmRingConsumer := mkConsumer 0 320 "/dev/shm/q/7-0-1" false.
Definition sample_queue : list_queue := mkListQueue [] 128.
Definition sample_ops : list op :=
  [Push [[x01]; [x02; x03]]; Push []; Pop; CloseRing; Pop; Pop; Pop].

(** ** Properties *)

(** C3: The ring is a bounded FIFO of messages: a ring created with any
    capacity up to 4 GiB and joined by a consumer gives, for every interleaving of
    pushes, closes and pops, exactly the results of the abstract queue whose limit
    is the next power of two, including every refusal, and counts the refused
    frames. *)
Theorem ring_refines_fifo {Q} {BQ : ByteQueue Q} {BQL : ByteQueueLaws Q}
    env path capacity (s s' : Shm Q) p c meta q os :
  capacity ≤ 2 ^ 32 →
  create env path capacity s = (Ok p, s') →
  ring_open None meta path s' = Ok c → queues s' !! c_inode c = Some q →
  let f := mkFifo [] (next_power_of_two capacity) 0 false in
  (run_ops ring_step os (p, c, q)).1 = (run_ops fifo_step os f).1 ∧
  dropped_frames (run_ops ring_step os (p, c, q)).2.1.1 = lost (run_ops fifo_step os f).2 ∧
  c_closed (run_ops ring_step os (p, c, q)).2.1.2 = seen_close (run_ops fifo_step os f).2.
Proof.
  intros Hcap Hcr Hop Hq f.
  destruct (run_ops_refines os f (p, c, q)) as [H1 H2].
  - by eapply create_open_rel.
  - split_and!; [done|apply H2|apply H2].
Qed.

Lemma ring_refines_fifo_witness :
  (run_ops (@ring_step _ list_byte_queue) sample_ops
     (sample_producer, sample_consumer, sample_queue)).1
  = [Pushed; Pushed; Popped (Some [x01; x02; x03]); ClosedRing; Popped (Some []);
     Popped None; Popped None].
Proof.
  destruct (@ring_refines_fifo _ list_byte_queue list_byte_queue_laws sample_env
    "/dev/shm/q/7-0-1" 100 shm_empty sample_store sample_producer sample_consumer
    (Some 320) sample_queue sample_ops) as [H _].
  - lia.
  - vm_compute. reflexivity.
  - vm_compute. reflexivity.
  - vm_compute. reflexivity.
  - rewrite H. vm_compute. reflexivity.
Defined.

(** C11: Nothing is lost, duplicated or reordered in the ring: at any point of
    any interleaving the messages accepted so far are the messages delivered so
    far followed by the ones still in the ring, and the ring never holds more
    bytes than its capacity. *)
Theorem ring_no_loss {Q} {BQ : ByteQueue Q} {BQL : ByteQueueLaws Q}
    env path capacity (s s' : Shm Q) p c meta q os :
  capacity ≤ 2 ^ 32 →
  create env path capacity s = (Ok p, s') →
  ring_open None meta path s' = Ok c → queues s' !! c_inode c = Some q →
  let '(xs, r) := run_ops ring_step os (p, c, q) in
  ∃ es, bq_data r.2 = stream es ∧ accepted os xs = delivered xs ++ bodies es ∧
    zlen (bq_data r.2) ≤ bq_capacity r.2.
Proof.
  intros Hcap Hcr Hop Hq.
  pose proof (create_open_rel _ _ _ _ _ _ _ _ _ Hcap Hcr Hop Hq) as Hrel.
  pose proof (run_ops_refines os _ _ Hrel) as [H1 H2]. set (f := mkFifo _ _ _ _) in *.
  pose proof (fifo_run_accounts os f) as H3. pose proof (fifo_run_limits os f) as H4.
  destruct (run_ops ring_step os (p, c, q)) as [xs r], (run_ops fifo_step os f) as [ys f'].
  cbn [fst snd] in *. subst ys. exists (entries f').
  split_and!; [apply H2|exact H3|].
  rewrite (rel_data _ _ H2), (rel_cap _ _ H2). apply H4.
  destruct (rel_bound _ _ Hrel) as [Hb _]. change (occupancy (entries f)) with 0. lia.
Qed.

Lemma ring_no_loss_witness :
  let '(xs, r) := run_ops (@ring_step _ list_byte_queue) sample_ops
     (sample_producer, sample_consumer, sample_queue) in
  delivered xs = [[x01; x02; x03]; []] ∧ accepted sample_ops xs = delivered xs ∧
  ∃ es, lq_data r.2 = stream es ∧ accepted sample_ops xs = delivered xs ++ bodies es.
Proof.
  pose proof (@ring_no_loss _ list_byte_queue list_byte_queue_laws sample_env
    "/dev/shm/q/7-0-1" 100 shm_empty sample_store sample_producer sample_consumer
    (Some 320) sample_queue sample_ops ltac:(lia) ltac:(vm_compute; reflexivity)
    ltac:(vm_compute; reflexivity) ltac:(vm_compute; reflexivity)) as H.
  destruct (run_ops (@ring_step _ list_byte_queue) sample_ops
     (sample_producer, sample_consumer, sample_queue)) as [xs r] eqn:E.
  assert (xs = (run_ops (@ring_step _ list_byte_queue) sample_ops
     (sample_producer, sample_consumer, sample_queue)).1) as -> by (by rewrite E).
  destruct H as (es & H1 & H2 & _). cbn in H1.
  split_and!; [vm_compute; reflexivity|vm_compute; reflexivity|by exists es].
Defined.

(** C25: When the sender closes a ring, the consumer still gets every message
    in it; it then learns about the close if and only if four bytes were free when
    the sentinel was written.  On a ring with less room the sentinel is dropped and
    the consumer, once drained, sees an open ring for as long as the file exists. *)
Theorem ring_close_seen_iff_room {Q} {BQ : ByteQueue Q} {BQL : ByteQueueLaws Q}
    bs lim n p c q (s : Shm Q) :
  rel (mkFifo (map Frame bs) lim n false) (p, c, q) →
  let '(xs, r) := run_ops ring_step (CloseRing :: replicate (length bs) Pop ++ [Pop]) (p, c, q) in
  xs = ClosedRing :: map (λ b, Popped (Some b)) bs ++ [Popped None] ∧
  bq_data r.2 = [] ∧
  c_closed r.1.2 = bool_decide (zlen (bq_data q) + 4 ≤ bq_capacity q) ∧
  (bq_capacity q < zlen (bq_data q) + 4 → is_Some (files s !! c_path r.1.2) →
     is_closed r.1.2 s = false).
Proof.
  intros Hrel. set (os := CloseRing :: _).
  destruct (run_ops_refines os _ _ Hrel) as [H1 H2].
  pose proof (rel_data _ _ Hrel) as Hd. pose proof (rel_cap _ _ Hrel) as Hk.
  cbn [entries limit snd] in Hd, Hk. rewrite Hd, Hk.
  assert (run_ops fifo_step os (mkFifo (map Frame bs) lim n false)
    = (ClosedRing :: map (λ b, Popped (Some b)) bs ++ [Popped None],
       mkFifo [] lim n (bool_decide (zlen (stream (map Frame bs)) + 4 ≤ lim)))) as Hrun.
  { unfold os. cbn [run_ops fifo_step]. unfold occupancy. cbn [entries limit lost seen_close].
    rewrite run_ops_app. case_bool_decide.
    - by rewrite fifo_drain_tail.
    - by rewrite fifo_drain. }
  rewrite Hrun in H1, H2. destruct (run_ops ring_step os (p, c, q)) as [xs r].
  cbn [fst snd] in *. split_and!; [done|apply H2|apply H2|].
  intros Hfull [ino Hf]. unfold is_closed. rewrite (rel_closed _ _ H2), Hf. cbn.
  by rewrite bool_decide_false by lia.
Qed.

(** A full ring: one message of 60 bytes in 64. *)
Definition full_queue : list_queue :=
  mkListQueue (u32_le 60 ++ replicate 60 x00) 64.
Definition small_producer : ShmRingProducer := mkProducer 0 64 "/r" 0 true.
Definition small_consumer : ShmRingConsumer := mkConsumer 0 64 "/r" false.

Lemma full_queue_rel :
  @rel _ list_byte_queue (mkFifo (map Frame [replicate 60 x00]) 64 0 false)
    (small_producer, small_consumer, full_queue).
Proof.
  split; try reflexivity; [|cbn; lia]. apply Forall_singleton. reflexivity.
Qed.

Lemma ring_close_seen_iff_room_witness :
  let '(xs, r) := run_ops (@ring_step _ list_byte_queue) [CloseRing; Pop; Pop]
    (small_producer, small_consumer, full_queue) in
  xs = [ClosedRing; Popped (Some (replicate 60 x00)); Popped None] ∧
  c_closed r.1.2 = false.
Proof.
  pose proof (@ring_close_seen_iff_room _ list_byte_queue list_byte_queue_laws
    [replicate 60 x00] 64 0 small_producer small_consumer full_queue shm_empty
    full_queue_rel) as H.
  cbn [length replicate app] in H.
  destruct (run_ops _ _ _) as [xs r]. destruct H as (H1 & _ & H2 & _).
  split; [exact H1|]. rewrite H2. vm_compute. reflexivity.
Defined.

(** Creating a ring: a success always gives an empty queue of the next
    power of two of the request, on a path that did not exist; any error leaves no
    file behind and every other ring as it was; when the producer is dropped the
    consumer sees the ring closed. *)
Theorem ring_create_contract {Q} {BQ : ByteQueue Q} {BQL : ByteQueueLaws Q}
    env path capacity (s : Shm Q) :
  shm_wf s → capacity ≤ 2 ^ 63 →
  match create env path capacity s with
  | (Ok p, s') =>
      64 ≤ capacity ≤ p_capacity p ∧ is_power_of_two (p_capacity p) = true ∧
      files s !! path = None ∧ queues s !! p_inode p = None ∧
      (∃ q, queues s' = <[p_inode p := q]> (queues s) ∧
         bq_data q = [] ∧ bq_capacity q = p_capacity p) ∧
      shm_wf s' ∧
      ∀ c, c_path c = path → is_closed c (drop_producer p s') = true
  | (Err e, s') =>
      (∃ msg, e = ShmError msg) ∧ files s' = files s ∧ queues s' = queues s
  | (Panic, _) => False
  end.
Proof.
  intros Hwf Hcap. pose proof (create_cases env path capacity s) as H.
  pose proof (create_wf env path capacity s Hwf Hcap) as Hwf'.
  destruct (create env path capacity s) as [[p|e|] s']; cbn in *; [| |lia].
  - destruct H as (Hc & Hf & q & Hq & -> & ->). cbn.
    destruct (bq_create_spec _ _ (next_power_of_two_is _) Hq) as [Hd Hk].
    split_and!; [lia|apply next_power_of_two_ge|apply next_power_of_two_is|done| |
                 by exists q|done|].
    + destruct Hwf as [_ Hwf]. destruct (queues s !! next_inode s) eqn:E; [|done].
      apply Hwf in E. cbn in E. lia.
    + intros c Hp. by apply (is_closed_after_drop (mkProducer (next_inode s)
        (next_power_of_two capacity) path 0 true)).
  - naive_solver.
Qed.

Lemma ring_create_contract_witness :
  (@create _ list_byte_queue sample_env "/dev/shm/q/7-0-1" 100 shm_empty).1
    = Ok sample_producer ∧
  is_power_of_two 128 = true.
Proof.
  pose proof (@ring_create_contract _ list_byte_queue list_byte_queue_laws sample_env
    "/dev/shm/q/7-0-1" 100 shm_empty shm_wf_empty ltac:(lia)) as H.
  assert (@create _ list_byte_queue sample_env "/dev/shm/q/7-0-1" 100 shm_empty
    = (Ok sample_producer, sample_store)) as E by (vm_compute; reflexivity).
  rewrite E in H |- *. split; [reflexivity|apply H].
Defined.

(** The close sentinel cannot be confused with a message on any ring up to
    4 GiB (the default is 64 MiB): the messages such a ring accepts are shorter.  On
    a larger ring a body of [u32::MAX] bytes is accepted, and the consumer takes its
    length for the sentinel, reports the ring closed and never delivers it. *)
Theorem ring_sentinel_collision {Q} {BQ : ByteQueue Q} {BQL : ByteQueueLaws Q} p c q body :
  p_capacity p = bq_capacity q → bq_data q = [] → zlen body = u32_max →
  (p_capacity p ≤ 2 ^ 32 →
     ring_try_push p [body] q = (Err (too_big (4 + u32_max) (p_capacity p)), p, q)) ∧
  (2 ^ 33 ≤ p_capacity p →
     let '(r, p', q') := ring_try_push p [body] q in
     r = Ok tt ∧ (try_pop c q').1.1 = None ∧ c_closed (try_pop c q').1.2 = true).
Proof.
  intros Hcap Hd Hb. pose proof (ring_try_push_spec p [body] q Hcap) as H.
  cbv zeta in H. cbn [concat] in H. rewrite app_nil_r, Hd, Hb in H.
  rewrite bool_decide_false in H by lia. split; intros Hc.
  - rewrite bool_decide_true in H by (unfold u32_max; lia). done.
  - rewrite !bool_decide_false in H by (rewrite ?zlen_nil; unfold u32_max; lia).
    destruct H as (q' & -> & Hq' & _). split; [done|]. cbn in Hq'.
    destruct (try_pop_closed c q' body Hq') as (q'' & -> & _). done.
Qed.

Lemma ring_sentinel_collision_witness :
  let body := replicate (Z.to_nat u32_max) x00 in
  @ring_try_push _ list_byte_queue small_producer [body] (mkListQueue [] 64)
    = (Err (too_big (4 + u32_max) 64), small_producer, mkListQueue [] 64).
Proof.
  intros body.
  assert (zlen body = u32_max) as Hb.
  { unfold body, zlen. rewrite length_replicate. apply Z2Nat.id. done. }
  clearbody body.
  apply (@ring_sentinel_collision _ list_byte_queue list_byte_queue_laws small_producer
    small_consumer (mkListQueue [] 64) body); [reflexivity|reflexivity|exact Hb|].
  cbn. lia.
Defined.
