(* ===== verification/Transport.v ===== *)
(** * Per-slot sink ([src/src/transport.rs])

    A sink is the producer end of a ring and the wakeup object of the same
    consumer; the queue the ring maps is passed in and out.  The wakeup is the
    Linux backend; its retry loop gets the fuel that is always enough
    ([notify_now_count]). *)

From stdpp Require Import prelude gmap strings.
From Stdlib Require Import Strings.Byte.
From S2P Require Import Prelude Errors EventFd Ring.

Record OutboundFrame := mkOutboundFrame {
  of_header : list byte; of_payload : list byte; frame_start : Z }.

Definition total_len (f : OutboundFrame) : Z := zlen (of_header f) + zlen (of_payload f).

Record SlotSink (K : Type) := mkSink { sink_ring : ShmRingProducer; sink_wakeup : K }.
Arguments mkSink {K}.
Arguments sink_ring {K}.
Arguments sink_wakeup {K}.

Section sink.
Context {Q : Type} {BQ : ByteQueue Q} {K : Type} {EK : EventKernel K}.

(** [notify()] with its result dropped: a failure is logged or ignored. *)
Definition notify_now (k : K) : K :=
  match notify (S (ek_intr k)) k with Some (_, k) => k | None => k end.

(** [SlotSink::try_push] *)
Definition sink_try_push (s : SlotSink K) (frame : OutboundFrame) (q : Q) :
    result OutboundFrame unit * SlotSink K * Q :=
  match ring_try_push (sink_ring s) [of_header frame; of_payload frame] q with
  | (Ok _, r, q) => (Ok tt, mkSink r (notify_now (sink_wakeup s)), q)
  | (Err _, r, q) => (Err frame, mkSink r (sink_wakeup s), q)
  | (Panic, r, q) => (Panic, mkSink r (sink_wakeup s), q)
  end.

(** [SlotSink::close] *)
Definition sink_close (s : SlotSink K) (q : Q) : SlotSink K * Q :=
  let q := ring_close q in (mkSink (sink_ring s) (notify_now (sink_wakeup s)), q).
End sink.

Section sink_facts.
Context {Q : Type} {BQ : ByteQueue Q} {BQL : ByteQueueLaws Q}.
Context {K : Type} {EK : EventKernel K} {EKL : EventKernelLaws K}.

Lemma notify_now_count (k : K) :
  ek_count (notify_now k) = Z.min (ek_count k + 1) eventfd_max.
Proof.
  unfold notify_now. destruct (notify_spec (S (ek_intr k)) k) as (k' & -> & H & _); [lia|done].
Qed.

Lemma notify_now_pending (k : K) : 0 < ek_count (notify_now k).
Proof.
  rewrite notify_now_count. pose proof (ek_range k). unfold eventfd_max, u64_max in *. lia.
Qed.

(** The ring identity a sink keeps through every operation. *)
Definition same_ring (r r' : ShmRingProducer) : Prop :=
  p_inode r' = p_inode r ∧ p_capacity r' = p_capacity r ∧ p_path r' = p_path r ∧
  owns_file r' = owns_file r.

Lemma ring_try_push_same (r : ShmRingProducer) parts (q : Q) :
  same_ring r (ring_try_push r parts q).1.2.
Proof.
  unfold ring_try_push. destruct (u32_try_from _); [|done]. case_bool_decide; [done|].
  by destruct (try_write_slice _ _) as [[] ?].
Qed.

Lemma ring_try_push_no_panic (r : ShmRingProducer) parts (q : Q) :
  (ring_try_push r parts q).1.1 ≠ Panic.
Proof.
  unfold ring_try_push. destruct (u32_try_from _); [|done]. case_bool_decide; [done|].
  by destruct (try_write_slice _ _) as [[] ?].
Qed.

(** Capacity is a constant of the mapping. *)
Lemma ring_try_push_capacity (r : ShmRingProducer) parts (q : Q) :
  bq_capacity (ring_try_push r parts q).2 = bq_capacity q.
Proof.
  unfold ring_try_push. destruct (u32_try_from _); [|done]. case_bool_decide; [done|].
  pose proof (bq_write_capacity (foldl app (u32_le z) parts) q).
  by destruct (try_write_slice _ _) as [[] ?].
Qed.

Lemma sink_try_push_same (s : SlotSink K) f (q : Q) :
  let '(r, s', q') := sink_try_push s f q in
  r ≠ Panic ∧ same_ring (sink_ring s) (sink_ring s') ∧ bq_capacity q' = bq_capacity q.
Proof.
  unfold sink_try_push. set (parts := [_; _]).
  pose proof (ring_try_push_same (sink_ring s) parts q) as H1.
  pose proof (ring_try_push_no_panic (sink_ring s) parts q) as H2.
  pose proof (ring_try_push_capacity (sink_ring s) parts q) as H3.
  by destruct (ring_try_push _ _ _) as [[[] r'] q'].
Qed.

Lemma sink_close_same (s : SlotSink K) (q : Q) :
  same_ring (sink_ring s) (sink_ring (sink_close s q).1) ∧
  bq_capacity (sink_close s q).2 = bq_capacity q.
Proof. split; [done|]. apply ring_close_spec. Qed.
End sink_facts.

(** Pushing, by the room left in the ring. *)
Lemma sink_push_cases {Q} {BQ : ByteQueue Q} {BQL : ByteQueueLaws Q}
    {K} {EK : EventKernel K} {EKL : EventKernelLaws K} (s : SlotSink K) f (q : Q) :
  p_capacity (sink_ring s) = bq_capacity q → total_len f ≤ u32_max →
  let '(r, s', q') := sink_try_push s f q in
  if bool_decide (zlen (bq_data q) + (4 + total_len f) ≤ bq_capacity q)
  then r = Ok tt ∧ 0 < ek_count (sink_wakeup s') ∧
       bq_data q' = bq_data q ++ u32_le (total_len f) ++ of_header f ++ of_payload f
  else r = Err f ∧ sink_wakeup s' = sink_wakeup s ∧ bq_data q' = bq_data q.
Proof.
  intros Hc Hb. unfold sink_try_push, total_len in *.
  pose proof (ring_try_push_spec (sink_ring s) [of_header f; of_payload f] q Hc) as H.
  cbv zeta in H. cbn [concat] in H. rewrite app_nil_r, zlen_app, Hc in H.
  pose proof (zlen_nonneg (bq_data q)). rewrite bool_decide_false in H by lia.
  destruct (decide (zlen (bq_data q) + (4 + (zlen (of_header f) + zlen (of_payload f)))
    ≤ bq_capacity q)) as [Hfit|Hfull].
  - rewrite (bool_decide_true (_ ≤ bq_capacity q)) by done.
    rewrite !bool_decide_false in H by lia.
    destruct H as (q' & -> & Hd & _). split_and!; [done|apply notify_now_pending|done].
  - rewrite (bool_decide_false (_ ≤ bq_capacity q)) by done.
    repeat case_bool_decide; [by rewrite H| |lia].
    by destruct H as (q' & -> & Hd & _).
Qed.

(** ** Properties *)

(** A sink accepts a frame exactly when its ring has room for the length
    prefix and the body; the frame is then appended whole and the consumer has a
    wakeup pending.  Otherwise the caller gets its frame back and neither the ring's
    contents nor the wakeup change. *)
Theorem sink_push_contract {Q} {BQ : ByteQueue Q} {BQL : ByteQueueLaws Q}
    {K} {EK : EventKernel K} {EKL : EventKernelLaws K} (s : SlotSink K) f (q : Q) :
  p_capacity (sink_ring s) = bq_capacity q → total_len f ≤ u32_max →
  let '(r, s', q') := sink_try_push s f q in
  if bool_decide (zlen (bq_data q) + (4 + total_len f) ≤ bq_capacity q)
  then r = Ok tt ∧ 0 < ek_count (sink_wakeup s') ∧
       bq_data q' = bq_data q ++ u32_le (total_len f) ++ of_header f ++ of_payload f
  else r = Err f ∧ sink_wakeup s' = sink_wakeup s ∧ bq_data q' = bq_data q.
Proof. intros Hc Hb. by apply sink_push_cases. Qed.

Lemma sink_push_contract_witness :
  let f := mkOutboundFrame [x01] [x02] 0 in
  let s := mkSink small_producer (mkSimEvent 0 0) in
  let '(r, s', q') := @sink_try_push _ list_byte_queue _ sim_event_kernel s f
                        (mkListQueue [] 64) in
  r = Ok tt ∧ 0 < @ek_count _ sim_event_kernel (sink_wakeup s').
Proof.
  intros f s.
  pose proof (@sink_push_contract _ list_byte_queue list_byte_queue_laws _ sim_event_kernel
    sim_event_laws s f (mkListQueue [] 64) ltac:(reflexivity) ltac:(vm_compute; discriminate)) as H.
  destruct (sink_try_push s f (mkListQueue [] 64)) as [[r s'] q'].
  rewrite bool_decide_true in H by (vm_compute; discriminate). tauto.
Defined.
