(* ===== verification/Filter.v ===== *)
(** * Subscription filters ([SubscriptionFilter] of [src/src/sender/mod.rs])

    [HashSet<Pubkey>] is a [gset] of byte strings.  The Bloom filter of the
    [solana_bloom] crate is the class [BloomFilter]; the code relies on one
    documented fact, that it has no false negatives ([BloomLaws]). *)

From stdpp Require Import prelude gmap.
From Stdlib Require Import Strings.Byte.
From S2P Require Import Prelude DataFrames ControlFrames.

Abbreviation pubkey := (list byte).

Class BloomFilter (B : Type) := {
  (** [Bloom::random(items, false_rate, max_bits)]: [seed] is the randomness it
      draws, the false rate is given per mille *)
  bloom_random : nat → Z → Z → Z → B;
  bloom_add : pubkey → B → B;
  bloom_contains : pubkey → B → bool;
}.

Class BloomLaws (B : Type) `{!BloomFilter B} := {
  bloom_add_same k b : bloom_contains k (bloom_add k b) = true;
  bloom_add_mono k k' b :
    bloom_contains k b = true → bloom_contains k (bloom_add k' b) = true;
}.

Record SubscriptionFilter (B : Type) := mkFilter {
  f_account_pubkeys : gset pubkey;
  f_account_owners : gset pubkey;
  f_bloom : B;
  f_include_transactions : bool;
  f_single_pubkey : option pubkey;
  f_single_owner : option pubkey;
  use_bloom_fast_reject : bool;
}.
Arguments mkFilter {B}.
Arguments f_account_pubkeys {B}.
Arguments f_account_owners {B}.
Arguments f_bloom {B}.
Arguments f_include_transactions {B}.
Arguments f_single_pubkey {B}.
Arguments f_single_owner {B}.
Arguments use_bloom_fast_reject {B}.

Section filter.
Context {B : Type} {BF : BloomFilter B}.

Definition set_len (s : gset pubkey) : Z := Z.of_nat (size s).

(** [(s.len() == 1).then(|| *s.iter().next().expect(..))] *)
Definition single (s : gset pubkey) : option pubkey :=
  if bool_decide (set_len s = 1) then head (elements s) else None.

Definition from_sets (seed : nat) (account_pubkeys account_owners : gset pubkey)
    (include_transactions : bool) : SubscriptionFilter B :=
  let requested_items := set_len account_pubkeys + set_len account_owners in
  let bloom := bloom_random seed (Z.max requested_items 1) 1 (2 ^ 20) in
  let bloom := foldl (λ b k, bloom_add k b) bloom (elements account_pubkeys) in
  let bloom := foldl (λ b k, bloom_add k b) bloom (elements account_owners) in
  {| f_account_pubkeys := account_pubkeys;
     f_account_owners := account_owners;
     f_bloom := bloom;
     f_include_transactions := include_transactions;
     f_single_pubkey := single account_pubkeys;
     f_single_owner := single account_owners;
     use_bloom_fast_reject := bool_decide (requested_items > 16) |}.

(** [HashSet::extend] / repeated [HashSet::insert]. *)
Definition extend (s : gset pubkey) (ks : list pubkey) : gset pubkey :=
  foldl (λ s k, {[k]} ∪ s) s ks.

Definition from_request (seed : nat) (req : SubscriptionRequest) : SubscriptionFilter B :=
  from_sets seed (extend ∅ (req_account_pubkeys req)) (extend ∅ (req_account_owners req))
    (req_include_transactions req).

Definition with_request (seed : nat) (f : SubscriptionFilter B)
    (req : SubscriptionRequest) : SubscriptionFilter B :=
  from_sets seed
    (extend (f_account_pubkeys f) (req_account_pubkeys req))
    (extend (f_account_owners f) (req_account_owners req))
    (f_include_transactions f || req_include_transactions req).

(** The code after the early returns of [matches_account]. *)
Definition matches_account_general (f : SubscriptionFilter B) (u : AccountUpdate) : bool :=
  let reject :=
    use_bloom_fast_reject f &&
    (let maybe_pubkey := bloom_contains (account_pubkey u) (f_bloom f) in
     let maybe_owner := bloom_contains (account_owner u) (f_bloom f) in
     negb maybe_pubkey && negb maybe_owner) in
  if reject then false
  else bool_decide (account_pubkey u ∈ f_account_pubkeys f)
       || bool_decide (account_owner u ∈ f_account_owners f).

Definition matches_account (f : SubscriptionFilter B) (u : AccountUpdate) : bool :=
  match f_single_pubkey f, f_single_owner f with
  | Some pk, None =>
      if bool_decide (f_account_owners f = ∅) then bool_decide (pk = account_pubkey u)
      else matches_account_general f u
  | None, Some owner =>
      if bool_decide (f_account_pubkeys f = ∅) then bool_decide (owner = account_owner u)
      else matches_account_general f u
  | Some pk, Some owner =>
      if bool_decide (set_len (f_account_pubkeys f) = 1 ∧ set_len (f_account_owners f) = 1)
      then bool_decide (pk = account_pubkey u) || bool_decide (owner = account_owner u)
      else matches_account_general f u
  | None, None => matches_account_general f u
  end.

Definition matches_transaction (f : SubscriptionFilter B) : bool := f_include_transactions f.
End filter.

(** ** What a filter means

    The specification ignores every shortcut: an update matches when its key or
    its owner was asked for. *)
Definition wants_account (rs : list SubscriptionRequest) (u : AccountUpdate) : Prop :=
  Exists (λ r, account_pubkey u ∈ req_account_pubkeys r ∨
               account_owner u ∈ req_account_owners r) rs.

Definition wants_transactions (rs : list SubscriptionRequest) : Prop :=
  Exists (λ r, req_include_transactions r = true) rs.

(** The filter after a subscription and further ones on the same slot; each
    rebuild of the Bloom filter draws new randomness. *)
Definition filter_of {B} {BF : BloomFilter B} (seeds : nat → nat) (r0 : SubscriptionRequest)
    (rs : list SubscriptionRequest) : SubscriptionFilter B :=
  (foldl (λ '(i, f) r, (S i, with_request (seeds i) f r))
     (1%nat, from_request (seeds 0%nat) r0) rs).2.

Section filter_lemmas.
Context {B : Type} {BF : BloomFilter B} {BL : BloomLaws B}.

(** The invariant every construction establishes. *)
Definition filter_ok (f : SubscriptionFilter B) : Prop :=
  f_single_pubkey f = single (f_account_pubkeys f) ∧
  f_single_owner f = single (f_account_owners f) ∧
  ∀ k, k ∈ f_account_pubkeys f ∪ f_account_owners f → bloom_contains k (f_bloom f) = true.

Lemma bloom_keeps ks k (b : B) :
  bloom_contains k b = true → bloom_contains k (foldl (λ b k, bloom_add k b) b ks) = true.
Proof. revert b. induction ks; intros b H; cbn; auto using bloom_add_mono. Qed.

Lemma bloom_holds ks k (b : B) :
  k ∈ ks → bloom_contains k (foldl (λ b k, bloom_add k b) b ks) = true.
Proof.
  intros H. revert b. induction H as [|k' ks H IH]; intros b; cbn;
    auto using bloom_keeps, bloom_add_same.
Qed.

Lemma from_sets_ok seed pks owners inc : filter_ok (from_sets seed pks owners inc).
Proof.
  split_and!; [done|done|]. cbn [from_sets f_account_pubkeys f_account_owners f_bloom].
  intros k [Hk|Hk]%elem_of_union.
  - apply bloom_keeps, bloom_holds. by apply elem_of_elements.
  - apply bloom_holds. by apply elem_of_elements.
Qed.

Lemma single_spec s k : single s = Some k → s = {[k]}.
Proof.
  unfold single, set_len. case_bool_decide as H; [|done].
  assert (size s = 1%nat) as [x Hx]%size_1_elem_of by lia.
  apply leibniz_equiv in Hx. subst s. rewrite elements_singleton. naive_solver.
Qed.

Lemma single_size s k : single s = Some k → set_len s = 1.
Proof. unfold single. by case_bool_decide. Qed.

Lemma general_spec f u :
  filter_ok f →
  matches_account_general f u = true ↔
  account_pubkey u ∈ f_account_pubkeys f ∨ account_owner u ∈ f_account_owners f.
Proof.
  intros (_ & _ & Hb). unfold matches_account_general. cbv zeta.
  assert (account_pubkey u ∈ f_account_pubkeys f ∨ account_owner u ∈ f_account_owners f →
    negb (bloom_contains (account_pubkey u) (f_bloom f)) &&
    negb (bloom_contains (account_owner u) (f_bloom f)) = false) as Hrej.
  { intros [H|H]; (rewrite (Hb (account_pubkey u)) by set_solver)
      || (rewrite (Hb (account_owner u)) by set_solver; rewrite andb_false_r); done. }
  destruct (use_bloom_fast_reject f && _) eqn:E.
  - apply andb_true_iff in E as [_ E]. split; [done|]. intros H. by rewrite Hrej in E.
  - rewrite orb_true_iff, !bool_decide_eq_true. done.
Qed.

Lemma matches_account_spec f u :
  filter_ok f →
  matches_account f u = true ↔
  account_pubkey u ∈ f_account_pubkeys f ∨ account_owner u ∈ f_account_owners f.
Proof.
  intros Hok. pose proof (general_spec f u Hok) as Hg. destruct Hok as (Hp & Ho & _).
  unfold matches_account. rewrite Hp, Ho.
  destruct (single (f_account_pubkeys f)) as [pk|] eqn:Ep,
           (single (f_account_owners f)) as [ow|] eqn:Eo; [| | |done].
  - rewrite bool_decide_true by eauto using single_size.
    rewrite (single_spec _ _ Ep), (single_spec _ _ Eo).
    rewrite orb_true_iff, !bool_decide_eq_true. set_solver.
  - case_bool_decide as He; [|done]. rewrite He, (single_spec _ _ Ep).
    rewrite bool_decide_eq_true. set_solver.
  - case_bool_decide as He; [|done]. rewrite He, (single_spec _ _ Eo).
    rewrite bool_decide_eq_true. set_solver.
Qed.

Lemma extend_spec s ks k : k ∈ extend s ks ↔ k ∈ s ∨ k ∈ ks.
Proof.
  revert s. induction ks as [|k' ks IH]; intros s; cbn; [set_solver|].
  unfold extend in IH. rewrite IH. set_solver.
Qed.

(** Keys, owners and the transaction flag accumulate over requests. *)
Definition holds_requests (f : SubscriptionFilter B) (rs : list SubscriptionRequest) : Prop :=
  filter_ok f ∧
  (∀ k, k ∈ f_account_pubkeys f ↔ Exists (λ r, k ∈ req_account_pubkeys r) rs) ∧
  (∀ k, k ∈ f_account_owners f ↔ Exists (λ r, k ∈ req_account_owners r) rs) ∧
  (f_include_transactions f = true ↔ wants_transactions rs).

Lemma from_request_holds seed r : holds_requests (from_request seed r) [r].
Proof.
  split_and!; [apply from_sets_ok|..]; unfold wants_transactions; cbn;
    try intros k; rewrite ?extend_spec, Exists_cons, Exists_nil; set_solver.
Qed.

Lemma with_request_holds seed f r rs :
  holds_requests f rs → holds_requests (with_request seed f r) (rs ++ [r]).
Proof.
  intros (_ & Hp & Ho & Ht). unfold wants_transactions in *.
  split_and!; [apply from_sets_ok|..]; unfold wants_transactions; cbn;
    try intros k; rewrite ?extend_spec, ?orb_true_iff, Exists_app, Exists_cons, Exists_nil,
      ?Hp, ?Ho, ?Ht; tauto.
Qed.

Lemma holds_requests_matches f rs u :
  holds_requests f rs →
  (matches_account f u = true ↔ wants_account rs u) ∧
  (matches_transaction f = true ↔ wants_transactions rs).
Proof.
  intros (Hok & Hp & Ho & Ht). split; [|done].
  rewrite matches_account_spec, Hp, Ho by done. unfold wants_account.
  rewrite !Exists_exists. naive_solver.
Qed.

Lemma filter_of_holds seeds r0 rs : holds_requests (filter_of seeds r0 rs) (r0 :: rs).
Proof.
  unfold filter_of. set (f0 := from_request _ _).
  assert (holds_requests f0 [r0]) as H by apply from_request_holds.
  change (r0 :: rs) with ([r0] ++ rs). revert H.
  generalize 1%nat, f0, [r0]. clear f0.
  induction rs as [|r rs IH]; intros i f l H; cbn; [by rewrite app_nil_r|].
  replace (l ++ r :: rs) with ((l ++ [r]) ++ rs) by (by rewrite <-app_assoc).
  apply IH. by apply with_request_holds.
Qed.
End filter_lemmas.

(** ** A reference Bloom filter

    The trivial one: it remembers what it was given. *)
Definition exact_bloom : BloomFilter (gset pubkey) := {|
  bloom_random _ _ _ _ := ∅;
  bloom_add k b := {[k]} ∪ b;
  bloom_contains k b := bool_decide (k ∈ b);
|}.

Lemma exact_bloom_laws : @BloomLaws (gset pubkey) exact_bloom.
Proof.
  split; cbn.
  - intros k b. apply bool_decide_eq_true. set_solver.
  - intros k k' b. rewrite !bool_decide_eq_true. set_solver.
Qed.

(** ** Properties *)

(** C10: A slot's filter is exactly the union of what was subscribed on it:
    after the first subscription and any number of further ones, an account update
    matches if and only if some request asked for its key or its owner, and
    transactions are wanted once any request asked for them, whatever randomness the
    Bloom filters draw and whichever shortcut the code takes. *)
Theorem filter_is_union {B} {BF : BloomFilter B} {BL : BloomLaws B} seeds r0 rs u :
  (matches_account (filter_of (B:=B) seeds r0 rs) u = true ↔ wants_account (r0 :: rs) u) ∧
  (matches_transaction (filter_of (B:=B) seeds r0 rs) = true ↔ wants_transactions (r0 :: rs)).
Proof. apply holds_requests_matches, filter_of_holds. Qed.

Definition sample_key (b : byte) : pubkey := replicate 32 b.
Definition sample_account (key owner : pubkey) : AccountUpdate :=
  mkAccountUpdate key owner 1 false 2 3 4 (mkAccountPayload [x2a]).

#[local] Existing Instance exact_bloom.

Lemma filter_is_union_witness :
  let r0 := SubscriptionRequest_new [sample_key x01] [] in
  let r1 := SubscriptionRequest_new (map (λ i, sample_key (byte_of (Z.of_nat i))) (seq 2 20)) [sample_key xff] in
  let f := @filter_of _ exact_bloom (λ i, i) r0 [r1] in
  use_bloom_fast_reject f = true ∧
  (matches_account f (sample_account (sample_key x05) (sample_key x00)) = true ↔
   wants_account [r0; r1] (sample_account (sample_key x05) (sample_key x00))) ∧
  matches_account f (sample_account (sample_key x05) (sample_key x00)) = true ∧
  matches_account f (sample_account (sample_key x63) (sample_key xff)) = true ∧
  matches_account f (sample_account (sample_key x63) (sample_key x05)) = false.
Proof.
  intros r0 r1 f. split; [vm_compute; reflexivity|].
  split; [|split_and!; vm_compute; reflexivity].
  exact (proj1 (@filter_is_union _ exact_bloom exact_bloom_laws (λ i, i) r0 [r1]
    (sample_account (sample_key x05) (sample_key x00)))).
Defined.
