(* ===== verification/Manager.v ===== *)
(** * Connection manager ([ConnectionManager] of [src/src/sender/mod.rs])

    [Arc<ManagedConnection>] is a pointer into a heap, so that
    [compare_and_swap] compares identities, and the last reference to a
    connection, when it goes, drops its ring and unlinks the ring file
    ([release]).  Handlers are whole functions on the state [MState]; every
    reading of the wall clock is an argument of its own (they need not be equal, nor
    increasing), and so are the other outcomes of the environment (timers, file
    system, [eventfd]).  What other tasks do between the free-slot search and the
    compare-and-swap of [upsert_shm] is the argument [rely]. *)

From stdpp Require Import prelude gmap strings pretty.
From Stdlib Require Import Strings.Byte Strings.Ascii.
From S2P Require Import Prelude Errors WireCodec DataFrames ControlFrames Metrics EventFd Ring Transport.
From S2P Require Import Filter.

Definition MAX_CONNECTION_SLOTS : nat := 10.
Definition SLOT_IDLE_TIMEOUT_ms : Z := 30 * 1000.
Definition DEFAULT_SHM_RING_CAPACITY : Z := 64 * 1024 * 1024.

Record ManagedConnection (B K : Type) := mkManaged {
  mc_slot_index : nat;
  connection_id : Z;
  mc_filter : SubscriptionFilter B;
  mc_sink : SlotSink K;
  last_seen_ms : Z;
}.
Arguments mkManaged {B K}.
Arguments mc_slot_index {B K}.
Arguments connection_id {B K}.
Arguments mc_filter {B K}.
Arguments mc_sink {B K}.
Arguments last_seen_ms {B K}.

Definition mc_ring {B K} (c : ManagedConnection B K) : ShmRingProducer := sink_ring (mc_sink c).

(** [ConnectionManager] with the memory its pointers lead to. *)
Record MState (Q B K : Type) := mkMState {
  connections : list (option nat);
  next_connection_id : Z;
  heap : gmap nat (ManagedConnection B K);
  next_ptr : nat;
  shm : Shm Q;
}.
Arguments mkMState {Q B K}.
Arguments connections {Q B K}.
Arguments next_connection_id {Q B K}.
Arguments heap {Q B K}.
Arguments next_ptr {Q B K}.
Arguments shm {Q B K}.

Inductive ShmSlotProvision (K : Type) :=
| Existing (slot_token : SlotToken)
| Created (slot_token : SlotToken) (ring_path : string) (ring_capacity : Z) (eventfd : K).
Arguments Existing {K}.
Arguments Created {K}.

(** [SystemTime::now()] in nanoseconds to milliseconds. *)
Definition now_ms (systime : Z) : Z := wrap64 (since_epoch_nanos systime / 1000000).

(** [Path::join] of a directory and a relative file name. *)
Definition path_join (dir file : string) : string :=
  match String.get (String.length dir - 1) dir with
  | None => file
  | Some c => if bool_decide (c = "/"%char) then dir +:+ file else dir +:+ "/" +:+ file
  end.

Definition ring_file_name (pid : Z) (slot_index : nat) (connection_id : Z) : string :=
  pretty pid +:+ "-" +:+ pretty slot_index +:+ "-" +:+ pretty connection_id.

Section manager.
Context {Q : Type} {BQ : ByteQueue Q}.
Context {B : Type} {BF : BloomFilter B}.
Context {K : Type} {EK : EventKernel K}.
Implicit Types (st : MState Q B K) (c : ManagedConnection B K) (ptr idx : nat).

Definition manager_new : MState Q B K :=
  mkMState (replicate MAX_CONNECTION_SLOTS None) 1 ∅ 0 shm_empty.

(** ** Memory *)
Definition set_connections st (cs : list (option nat)) : MState Q B K :=
  mkMState cs (next_connection_id st) (heap st) (next_ptr st) (shm st).

Definition set_shm st (s : Shm Q) : MState Q B K :=
  mkMState (connections st) (next_connection_id st) (heap st) (next_ptr st) s.

(** Write a connection's cells and the contents of its ring. *)
Definition put ptr c (q : Q) st : MState Q B K :=
  mkMState (connections st) (next_connection_id st) (<[ptr := c]> (heap st)) (next_ptr st)
    (mkShm (files (shm st)) (<[p_inode (mc_ring c) := q]> (queues (shm st)))
       (next_inode (shm st))).

Definition load st idx : option nat := mjoin (connections st !! idx).

(** The connection a pointer leads to, with the ring it maps. *)
Definition deref st ptr : option (ManagedConnection B K * Q) :=
  c ← heap st !! ptr; q ← queues (shm st) !! p_inode (mc_ring c); Some (c, q).

(** [ArcSwapOption::compare_and_swap]: by identity; returns the previous value. *)
Definition compare_and_swap idx (expected new : option nat) st :
    option nat * MState Q B K :=
  let previous := load st idx in
  (previous,
   if bool_decide (previous = expected)
   then set_connections st (<[idx := new]> (connections st)) else st).

(** The end of the life of a local [Arc]: if no slot holds the connection it is
    dropped, and with it its ring. *)
Definition release ptr st : MState Q B K :=
  if bool_decide (Some ptr ∈ connections st) then st
  else match heap st !! ptr with
       | None => st
       | Some c =>
           mkMState (connections st) (next_connection_id st) (delete ptr (heap st))
             (next_ptr st) (drop_producer (mc_ring c) (shm st))
       end.

Definition set_sink c (s : SlotSink K) : ManagedConnection B K :=
  mkManaged (mc_slot_index c) (connection_id c) (mc_filter c) s (last_seen_ms c).
Definition set_last_seen c (t : Z) : ManagedConnection B K :=
  mkManaged (mc_slot_index c) (connection_id c) (mc_filter c) (mc_sink c) t.
Definition set_filter c (f : SubscriptionFilter B) : ManagedConnection B K :=
  mkManaged (mc_slot_index c) (connection_id c) f (mc_sink c) (last_seen_ms c).

(** [entry.sink.close()] and [entry.sink.try_push(frame)]. *)
Definition close_entry ptr st : MState Q B K :=
  match deref st ptr with
  | None => st
  | Some (c, q) => let '(s, q) := sink_close (mc_sink c) q in put ptr (set_sink c s) q st
  end.

Definition push_entry ptr (frame : OutboundFrame) st :
    result OutboundFrame unit * MState Q B K :=
  match deref st ptr with
  | None => (Panic, st)
  | Some (c, q) =>
      let '(r, s, q) := sink_try_push (mc_sink c) frame q in (r, put ptr (set_sink c s) q st)
  end.

(** ** Slots *)
Definition is_stale (now : Z) c : bool :=
  bool_decide (saturating_sub now (last_seen_ms c) > SLOT_IDLE_TIMEOUT_ms).

Definition cleanup_if_same idx (id : Z) st : MState Q B K :=
  match load st idx with
  | None => st
  | Some ptr =>
      match heap st !! ptr with
      | Some c =>
          if bool_decide (connection_id c = id)
          then (compare_and_swap idx (Some ptr) None (close_entry ptr st)).2
          else st
      | None => st
      end
  end.

Definition maybe_cleanup_stale_slot (now : Z) idx ptr st : bool * MState Q B K :=
  match heap st !! ptr with
  | Some c =>
      if negb (is_stale now c) then (false, st)
      else (true, (compare_and_swap idx (Some ptr) None (close_entry ptr st)).2)
  | None => (false, st)
  end.

Definition slot_token c : SlotToken :=
  mkSlotToken (Z.of_nat (mc_slot_index c) mod 256) (connection_id c).

Definition lookup_by_token (now : Z) (token : SlotToken) st : option nat * MState Q B K :=
  let idx := Z.to_nat (slot_index token) in
  if bool_decide (MAX_CONNECTION_SLOTS ≤ idx)%nat then (None, st)
  else match load st idx with
  | None => (None, st)
  | Some ptr =>
      match heap st !! ptr with
      | None => (None, st)
      | Some c =>
          if bool_decide (connection_id c ≠ generation token) then (None, st)
          else match maybe_cleanup_stale_slot now idx ptr st with
               | (true, st) => (None, release ptr st)
               | (false, st) => (Some ptr, st)
               end
      end
  end.

(** The slots from [idx] on, [n] of them; [now i] is the clock at slot [i]. *)
Fixpoint find_free_from (now : nat → Z) (n idx : nat) st : option nat * MState Q B K :=
  match n with
  | O => (None, st)
  | S n =>
      match load st idx with
      | None => (Some idx, st)
      | Some ptr =>
          match maybe_cleanup_stale_slot (now idx) idx ptr st with
          | (true, st) =>
              if bool_decide (load st idx = None) then (Some idx, release ptr st)
              else find_free_from now n (S idx) (release ptr st)
          | (false, st) => find_free_from now n (S idx) st
          end
      end
  end.

Definition find_free_slot (now : nat → Z) st : option nat * MState Q B K :=
  find_free_from now (length (connections st)) 0 st.

(** Writes to a live connection's own cells. *)
Definition update_entry ptr (f : ManagedConnection B K → ManagedConnection B K) st :
    MState Q B K :=
  match deref st ptr with Some (c, q) => put ptr (f c) q st | None => st end.

(** [seen] is the clock when the token is looked up, [now] when it is renewed. *)
Definition touch_ping (seen now : Z) (ping : PingRequest) st : bool * MState Q B K :=
  match lookup_by_token seen (ping_slot_token ping) st with
  | (Some ptr, st) => (true, update_entry ptr (λ c, set_last_seen c now) st)
  | (None, st) => (false, st)
  end.

Definition apply_request (seed : nat) (request : SubscriptionRequest) c :
    ManagedConnection B K :=
  set_filter c (with_request seed (mc_filter c) request).

(** ** Dispatch *)

(** What the timers show during one dispatch. *)
Record DispatchEnv := mkDispatchEnv {
  de_now : nat → Z;        (** [now_ms()] at each slot *)
  de_systime : Z;          (** the clock behind [unix_time_nanos()] *)
  de_instant : Z;          (** [Instant::now()] of the frame *)
  de_send_us : nat → Z;    (** [frame_start.elapsed()] after the push to a slot *)
  de_dispatch_us : Z;      (** [dispatch_start.elapsed()] *)
}.

Definition record_send (m : QlasterSenderMetrics) (us : Z) : QlasterSenderMetrics :=
  mkSenderMetrics (dispatch m) (record (shm_send m) us) (shm_ring_full m).
Definition record_dispatch (m : QlasterSenderMetrics) (us : Z) : QlasterSenderMetrics :=
  mkSenderMetrics (record (dispatch m) us) (shm_send m) (shm_ring_full m).
Definition inc_ring_full (m : QlasterSenderMetrics) : QlasterSenderMetrics :=
  mkSenderMetrics (dispatch m) (shm_send m) (counter_inc (shm_ring_full m)).

Definition push_to_entry (us : Z) ptr (frame : OutboundFrame) st
    (m : QlasterSenderMetrics) : MState Q B K * QlasterSenderMetrics :=
  match push_entry ptr frame st with
  | (Ok _, st) => (st, record_send m us)
  | (_, st) =>
      let m := inc_ring_full m in
      match heap st !! ptr with
      | Some c => (cleanup_if_same (mc_slot_index c) (connection_id c) st, m)
      | None => (st, m)
      end
  end.

(** The [for] loop shared by the three dispatchers, over [n] slots from [idx]:
    [wants] is the filter test, [encode] the frame of the update, computed at the
    first match and kept in [shared]; if that fails the loop is over. *)
Fixpoint dispatch_loop (env : DispatchEnv) (wants : SubscriptionFilter B → bool)
    (encode : Res OutboundFrame) (n idx : nat) (shared : option OutboundFrame) st
    (m : QlasterSenderMetrics) : MState Q B K * QlasterSenderMetrics :=
  match n with
  | O => (st, m)
  | S n =>
      match load st idx with
      | None => dispatch_loop env wants encode n (S idx) shared st m
      | Some ptr =>
          match maybe_cleanup_stale_slot (de_now env idx) idx ptr st with
          | (true, st) => dispatch_loop env wants encode n (S idx) shared (release ptr st) m
          | (false, st) =>
              match heap st !! ptr with
              | None => dispatch_loop env wants encode n (S idx) shared st m
              | Some c =>
                  if negb (wants (mc_filter c))
                  then dispatch_loop env wants encode n (S idx) shared st m
                  else
                    match (match shared with Some frame => Ok frame | None => encode end) with
                    | Ok frame =>
                        let '(st, m) := push_to_entry (de_send_us env idx) ptr frame st m in
                        dispatch_loop env wants encode n (S idx) (Some frame)
                          (release ptr st) m
                    | _ => (st, m)
                    end
              end
          end
      end
  end.

Definition outbound (env : DispatchEnv) (parts : Res (list byte * list byte)) :
    Res OutboundFrame :=
  let? (header, payload) := parts in
  Ok (mkOutboundFrame header payload (de_instant env)).

Context {LZ : Lz4}.

Definition encode_account_frame env (u : AccountUpdate) : Res OutboundFrame :=
  outbound env (AccountUpdate_encode_parts_at u (unix_time_nanos (de_systime env))).
Definition encode_transaction_frame env (u : TransactionUpdate) : Res OutboundFrame :=
  outbound env (TransactionUpdate_encode_parts_at u (unix_time_nanos (de_systime env))).
Definition encode_slot_frame env (u : SlotUpdate) : Res OutboundFrame :=
  outbound env (SlotUpdate_encode_parts_at u (unix_time_nanos (de_systime env))).

(** Every path ends by recording the dispatch time. *)
Definition dispatch_with (env : DispatchEnv) (wants : SubscriptionFilter B → bool)
    (encode : Res OutboundFrame) st (m : QlasterSenderMetrics) :
    MState Q B K * QlasterSenderMetrics :=
  let '(st, m) := dispatch_loop env wants encode (length (connections st)) 0 None st m in
  (st, record_dispatch m (de_dispatch_us env)).

Definition dispatch_account_update env (u : AccountUpdate) st m :=
  dispatch_with env (λ f, matches_account f u) (encode_account_frame env u) st m.
Definition dispatch_transaction_update env (u : TransactionUpdate) st m :=
  dispatch_with env matches_transaction (encode_transaction_frame env u) st m.
Definition dispatch_slot_update env (u : SlotUpdate) st m :=
  dispatch_with env (λ _, true) (encode_slot_frame env u) st m.

(** ** Provisioning *)
Record UpsertEnv := mkUpsertEnv {
  ue_seen : Z;                             (** [now_ms()] when the token is looked up *)
  ue_now : Z;                              (** [now_ms()] when it is renewed *)
  ue_scan : nat → nat → Z;                 (** [now_ms()] per attempt and slot *)
  ue_installed : nat → Z;                  (** [now_ms()] of the new connection *)
  ue_pid : Z;
  ue_seed : nat;                           (** randomness of the Bloom filter *)
  ue_create : nat → CreateEnv;             (** file system, per attempt *)
  ue_eventfd : nat → K + string;           (** [EventFd::new()], per attempt *)
  ue_rely : nat → MState Q B K → MState Q B K;  (** other tasks, per attempt *)
}.

(** The [loop] of [upsert_shm]; one unit of fuel per attempt. *)
Fixpoint upsert_loop (env : UpsertEnv) (shm_dir : string) (ring_capacity : Z)
    (filter : SubscriptionFilter B) (id : Z) (fuel attempt : nat) st :
    option (Res (ShmSlotProvision K) * MState Q B K) :=
  match fuel with
  | O => None
  | S fuel =>
      match find_free_slot (ue_scan env attempt) st with
      | (None, st) =>
          Some (Err (ConfigError ("connection slots exhausted (max " +:+
                  pretty MAX_CONNECTION_SLOTS +:+ ")")), st)
      | (Some idx, st) =>
          let ring_path := path_join shm_dir (ring_file_name (ue_pid env) idx id) in
          match create (ue_create env attempt) ring_path ring_capacity (shm st) with
          | (Err e, s) => Some (Err e, set_shm st s)
          | (Panic, s) => Some (Panic, set_shm st s)
          | (Ok ring, s) =>
              match ue_eventfd env attempt with
              | inr e => Some (Err (ShmError ("eventfd: " +:+ e)),
                               set_shm st (drop_producer ring s))
              | inl eventfd =>
                  let ptr := next_ptr st in
                  let managed := mkManaged idx id filter (mkSink ring eventfd)
                                   (ue_installed env attempt) in
                  let st := mkMState (connections st) (next_connection_id st)
                              (<[ptr := managed]> (heap st)) (S ptr) s in
                  let st := ue_rely env attempt st in
                  match compare_and_swap idx None (Some ptr) st with
                  | (None, st) =>
                      Some (Ok (Created (mkSlotToken (Z.of_nat idx mod 256) id) ring_path
                                  ring_capacity eventfd), st)
                  | (Some _, st) =>
                      upsert_loop env shm_dir ring_capacity filter id fuel (S attempt)
                        (release ptr st)
                  end
              end
          end
      end
  end.

Definition upsert_shm (env : UpsertEnv) (request : SubscriptionRequest) (shm_dir : string)
    (ring_capacity : Z) (fuel : nat) st :
    option (Res (ShmSlotProvision K) * MState Q B K) :=
  let '(existing, st) :=
    match req_slot_token request with
    | Some token => lookup_by_token (ue_seen env) token st
    | None => (None, st)
    end in
  match existing with
  | Some ptr =>
      let st := update_entry ptr (λ c, set_last_seen c (ue_now env)) st in
      let st := update_entry ptr (apply_request (ue_seed env) request) st in
      match heap st !! ptr with
      | Some c => Some (Ok (Existing (slot_token c)), st)
      | None => Some (Panic, st)
      end
  | None =>
      let filter := from_request (ue_seed env) request in
      let id := next_connection_id st in
      let st := mkMState (connections st) (wrap64 (id + 1)) (heap st) (next_ptr st) (shm st) in
      upsert_loop env shm_dir ring_capacity filter id fuel 0 st
  end.
End manager.
