(* ===== verification/ManagerInv.v ===== *)
(** * The connection manager's invariant

    [view] is a slot as its owner sees it: the pointer, the connection and the
    contents of its ring.  [mgr_ok] is the representation invariant; the lemmas
    below show that the two ways in which handlers change an occupied slot,
    writing its cells ([put]) and evicting it ([evict]), preserve the invariant and
    leave every other slot's view as it was. *)

From stdpp Require Import prelude gmap strings pretty.
From S2P Require Import Prelude Errors WireCodec DataFrames ControlFrames Metrics EventFd Ring Transport.
From S2P Require Import Filter Manager.

Section inv.
Context {Q : Type} {BQ : ByteQueue Q} {BQL : ByteQueueLaws Q}.
Context {B : Type} {BF : BloomFilter B}.
Context {K : Type} {EK : EventKernel K}.
Context (shm_dir : string) (pid : Z).
Implicit Types (st : MState Q B K) (c : ManagedConnection B K) (ptr i j : nat) (q : Q).

Definition view st i : option (nat * ManagedConnection B K * Q) :=
  ptr ← load st i; '(c, q) ← deref st ptr; Some (ptr, c, q).

Definition conn_path i (id : Z) : string := path_join shm_dir (ring_file_name pid i id).

(** What holds of an occupied slot. *)
Record conn_ok st i c q : Prop := mkConnOk {
  co_index : mc_slot_index c = i;
  co_id : 1 ≤ connection_id c < next_connection_id st;
  co_path : p_path (mc_ring c) = conn_path i (connection_id c);
  co_file : files (shm st) !! p_path (mc_ring c) = Some (p_inode (mc_ring c));
  co_owns : owns_file (mc_ring c) = true;
  co_cap : p_capacity (mc_ring c) = bq_capacity q;
}.

Record mgr_ok st : Prop := mkMgrOk {
  ok_len : length (connections st) = MAX_CONNECTION_SLOTS;
  ok_load i ptr : load st i = Some ptr → ∃ c q, view st i = Some (ptr, c, q) ∧ conn_ok st i c q;
  ok_inode i j pi pj ci cj qi qj :
    view st i = Some (pi, ci, qi) → view st j = Some (pj, cj, qj) →
    p_inode (mc_ring ci) = p_inode (mc_ring cj) → i = j;
  ok_ids i j pi pj ci cj qi qj :
    view st i = Some (pi, ci, qi) → view st j = Some (pj, cj, qj) →
    connection_id ci = connection_id cj → i = j;
  ok_heap ptr c : heap st !! ptr = Some c → (ptr < next_ptr st)%nat ∧ ∃ i, load st i = Some ptr;
  ok_files path ino : files (shm st) !! path = Some ino →
    ∃ i ptr c q, view st i = Some (ptr, c, q) ∧ p_path (mc_ring c) = path;
  ok_shm : shm_wf (shm st);
  ok_next : 1 ≤ next_connection_id st;
}.

(** ** Views *)
Lemma view_Some st i ptr c q :
  view st i = Some (ptr, c, q) ↔
  load st i = Some ptr ∧ heap st !! ptr = Some c ∧
  queues (shm st) !! p_inode (mc_ring c) = Some q.
Proof.
  unfold view, deref. split.
  - intros H. destruct (load st i) as [p|] eqn:E1; [|done]. cbn in H.
    destruct (heap st !! p) as [c0|] eqn:E2; [|done]. cbn in H.
    destruct (queues (shm st) !! p_inode (mc_ring c0)) as [q0|] eqn:E3; [|done].
    cbn in H. by simplify_eq.
  - intros (-> & E2 & E3). cbn. rewrite E2. cbn. rewrite E3. done.
Qed.

Lemma view_deref st i ptr c q : view st i = Some (ptr, c, q) → deref st ptr = Some (c, q).
Proof. intros (_ & E2 & E3)%view_Some. unfold deref. rewrite E2. cbn. by rewrite E3. Qed.

Lemma ok_view st i ptr c q :
  mgr_ok st → view st i = Some (ptr, c, q) → conn_ok st i c q.
Proof.
  intros Hok Hv. pose proof Hv as (Hl & _)%view_Some.
  destruct (ok_load _ Hok _ _ Hl) as (c' & q' & Hv' & Hc). by simplify_eq.
Qed.

Lemma ok_empty st i : mgr_ok st → load st i = None ↔ view st i = None.
Proof.
  intros Hok. destruct (load st i) as [ptr|] eqn:E.
  - destruct (ok_load _ Hok _ _ E) as (c & q & -> & _). done.
  - unfold view. by rewrite E.
Qed.

Lemma load_lt st i ptr : load st i = Some ptr → (i < length (connections st))%nat.
Proof.
  unfold load. destruct (connections st !! i) eqn:E; [|done]. intros _.
  by apply lookup_lt_Some in E.
Qed.

(** Distinct slots hold distinct pointers. *)
Lemma ok_ptr st i j ptr :
  mgr_ok st → load st i = Some ptr → load st j = Some ptr → i = j.
Proof.
  intros Hok Hi Hj.
  destruct (ok_load _ Hok _ _ Hi) as (c & q & Hv & Hc).
  destruct (ok_load _ Hok _ _ Hj) as (c' & q' & Hv' & Hc').
  apply view_Some in Hv as (_ & E & _), Hv' as (_ & E' & _). simplify_eq.
  by rewrite <-(co_index _ _ _ _ Hc), <-(co_index _ _ _ _ Hc').
Qed.

Lemma manager_new_ok : mgr_ok manager_new.
Proof.
  assert (∀ i, load (manager_new (Q:=Q) (B:=B) (K:=K)) i = None) as Hl.
  { intros i. unfold load, manager_new. cbn [connections].
    destruct (replicate _ _ !! i) as [o|] eqn:E; [|done].
    by apply lookup_replicate in E as [-> _]. }
  assert (∀ i, view (manager_new (Q:=Q) (B:=B) (K:=K)) i = None) as Hv.
  { intros i. unfold view. by rewrite Hl. }
  split; try done.
  - intros i ptr H. by rewrite Hl in H.
  - intros i j pi pj ci cj qi qj H. by rewrite Hv in H.
  - intros i j pi pj ci cj qi qj H. by rewrite Hv in H.
Qed.

(** ** Writing the cells of a connection *)
Definition same_conn c c' : Prop :=
  mc_slot_index c' = mc_slot_index c ∧ connection_id c' = connection_id c ∧
  same_ring (mc_ring c) (mc_ring c').

Lemma same_ring_refl r : same_ring r r.
Proof. done. Qed.

Section put.
Context (st : MState Q B K) (i ptr : nat) (c c' : ManagedConnection B K) (q q' : Q).
Context (Hok : mgr_ok st) (Hv : view st i = Some (ptr, c, q)).
Context (Hc : same_conn c c') (Hq : bq_capacity q' = bq_capacity q).

Lemma put_view_same : view (put ptr c' q' st) i = Some (ptr, c', q').
Proof.
  apply view_Some in Hv as (Hl & _). apply view_Some. split; [done|]. cbn.
  by rewrite !lookup_insert_eq.
Qed.

Lemma put_view_other j : j ≠ i → view (put ptr c' q' st) j = view st j.
Proof.
  intros Hj. unfold view. change (load (put ptr c' q' st) j) with (load st j).
  destruct (load st j) as [pj|] eqn:E; [|done]. cbn.
  destruct (ok_load _ Hok _ _ E) as (cj & qj & Hvj & _).
  pose proof Hvj as (_ & Hh & Hqj)%view_Some.
  apply view_Some in Hv as Hv'. destruct Hv' as (Hl & Hh' & _).
  assert (pj ≠ ptr) by (intros ->; by eapply Hj, (ok_ptr st)).
  assert (p_inode (mc_ring c') ≠ p_inode (mc_ring cj)).
  { destruct Hc as (_ & _ & (-> & _)). intros Heq. apply Hj. symmetry.
    by eapply (ok_inode _ Hok). }
  unfold deref, put. cbn. rewrite lookup_insert_ne by done. rewrite Hh. cbn.
  by rewrite lookup_insert_ne by done.
Qed.

(** Every view of the new state comes from one of the old state. *)
Lemma put_view_inv j pj cj qj :
  view (put ptr c' q' st) j = Some (pj, cj, qj) →
  ∃ c0 q0, view st j = Some (pj, c0, q0) ∧ same_conn c0 cj ∧ bq_capacity qj = bq_capacity q0.
Proof.
  destruct (decide (j = i)) as [->|Hj].
  - rewrite put_view_same. intros [= <- <- <-]. eauto.
  - rewrite put_view_other by done. intros H. exists cj, qj. done.
Qed.

Lemma conn_ok_transfer st' j c0 cj q0 qj :
  next_connection_id st' = next_connection_id st →
  (∀ path ino, files (shm st) !! path = Some ino → path = p_path (mc_ring c0) →
     files (shm st') !! path = Some ino) →
  same_conn c0 cj → bq_capacity qj = bq_capacity q0 → conn_ok st j c0 q0 → conn_ok st' j cj qj.
Proof.
  intros Hn Hf (E1 & E2 & (E3 & E4 & E5 & E6)) Hcap [H1 H2 H3 H4 H5 H6].
  split; [by rewrite E1|by rewrite E2, Hn|by rewrite E5, E2| |by rewrite E6|congruence].
  rewrite E5, E3. by apply Hf.
Qed.

Lemma put_ok : mgr_ok (put ptr c' q' st).
Proof.
  split.
  - apply (ok_len _ Hok).
  - intros j pj Hl. change (load st j = Some pj) in Hl.
    destruct (ok_load _ Hok _ _ Hl) as (cj & qj & Hvj & Hcj).
    destruct (decide (j = i)) as [->|Hj].
    + exists c', q'. rewrite put_view_same. simplify_eq. split; [done|].
      by eapply conn_ok_transfer.
    + exists cj, qj. rewrite put_view_other by done. split; [done|].
      by eapply conn_ok_transfer.
  - intros a b pa pb ca cb qa qb (c1 & q1 & Ha & (_ & _ & (E1 & _)) & _)%put_view_inv
      (c2 & q2 & Hb & (_ & _ & (E2 & _)) & _)%put_view_inv Heq.
    eapply (ok_inode _ Hok); [done..|congruence].
  - intros a b pa pb ca cb qa qb (c1 & q1 & Ha & (_ & E1 & _) & _)%put_view_inv
      (c2 & q2 & Hb & (_ & E2 & _) & _)%put_view_inv Heq.
    eapply (ok_ids _ Hok); [done..|congruence].
  - intros p0 c0 H. cbn in H. apply lookup_insert_Some in H as [[<- <-]|[_ H]].
    + apply view_Some in Hv as (Hl & Hh & _). by apply (ok_heap _ Hok) in Hh.
    + by apply (ok_heap _ Hok) in H.
  - intros path ino H. destruct (ok_files _ Hok _ _ H) as (j & pj & cj & qj & Hvj & Hp).
    destruct (decide (j = i)) as [->|Hj].
    + exists i, ptr, c', q'. rewrite put_view_same. simplify_eq.
      by destruct Hc as (_ & _ & (_ & _ & -> & _)).
    + exists j, pj, cj, qj. by rewrite put_view_other.
  - destruct (ok_shm _ Hok) as [H1 H2]. split; [done|]. cbn.
    apply map_Forall_insert_2; [|done].
    apply view_Some in Hv as (_ & _ & E). apply H2 in E. cbn in E.
    by destruct Hc as (_ & _ & (-> & _)).
  - apply (ok_next _ Hok).
Qed.
End put.

(** ** Evicting a connection *)
Definition evict i ptr st : MState Q B K :=
  release ptr (compare_and_swap i (Some ptr) None (close_entry ptr st)).2.

Lemma load_insert_same st i v :
  (i < length (connections st))%nat →
  load (set_connections st (<[i := v]> (connections st))) i = v.
Proof. intros H. unfold load. cbn. by rewrite list_lookup_insert_eq. Qed.

Lemma load_insert_other st i j v :
  i ≠ j → load (set_connections st (<[i := v]> (connections st))) j = load st j.
Proof. intros H. unfold load. cbn. by rewrite list_lookup_insert_ne. Qed.

Section evict.
Context (st : MState Q B K) (i ptr : nat) (c : ManagedConnection B K) (q : Q).
Context (Hok : mgr_ok st) (Hv : view st i = Some (ptr, c, q)).

Lemma not_held_after : Some ptr ∉ <[i := None]> (connections st).
Proof.
  intros [j Hj]%list_elem_of_lookup. pose proof Hv as (Hl & _)%view_Some.
  destruct (decide (j = i)) as [->|Hne].
  - rewrite list_lookup_insert_eq in Hj; [done|]. by eapply load_lt.
  - rewrite list_lookup_insert_ne in Hj by done. apply Hne.
    apply (ok_ptr st j i ptr Hok); [|done]. unfold load. by rewrite Hj.
Qed.

(** Closing, swapping and releasing, as one state. *)
Lemma evict_eq :
  evict i ptr st =
    mkMState (<[i := None]> (connections st)) (next_connection_id st)
      (delete ptr (heap st)) (next_ptr st)
      (mkShm (delete (p_path (mc_ring c)) (files (shm st)))
         (<[p_inode (mc_ring c) := ring_close q]> (queues (shm st))) (next_inode (shm st))).
Proof.
  pose proof Hv as (Hl & Hh & Hq)%view_Some. pose proof (ok_view _ _ _ _ _ Hok Hv) as Hc.
  unfold evict, close_entry. rewrite (view_deref _ _ _ _ _ Hv). cbn [sink_close].
  unfold compare_and_swap. set (st1 := put _ _ _ _).
  change (load st1 i) with (load st i). rewrite Hl, bool_decide_true by done. cbn [snd].
  unfold release. rewrite bool_decide_false by apply not_held_after.
  unfold set_connections, st1, put. cbn. rewrite lookup_insert_eq. cbn.
  pose proof (co_owns _ _ _ _ Hc) as Ho. unfold drop_producer, mc_ring in *.
  cbn. rewrite Ho. unfold remove_file. cbn. by rewrite delete_insert_eq.
Qed.

Lemma evict_view_same : view (evict i ptr st) i = None.
Proof.
  pose proof Hv as (Hl & _)%view_Some. rewrite evict_eq. unfold view, load. cbn.
  rewrite list_lookup_insert_eq; [done|]. by eapply load_lt.
Qed.

Lemma evict_view_other j : j ≠ i → view (evict i ptr st) j = view st j.
Proof.
  intros Hj. rewrite evict_eq. unfold view.
  assert (load (mkMState (<[i := None]> (connections st)) (next_connection_id st)
      (delete ptr (heap st)) (next_ptr st)
      (mkShm (delete (p_path (mc_ring c)) (files (shm st)))
         (<[p_inode (mc_ring c) := ring_close q]> (queues (shm st)))
         (next_inode (shm st)))) j = load st j) as ->.
  { unfold load. cbn. by rewrite list_lookup_insert_ne. }
  destruct (load st j) as [pj|] eqn:E; [|done]. cbn.
  destruct (ok_load _ Hok _ _ E) as (cj & qj & Hvj & _).
  pose proof Hvj as (_ & Hh & Hqj)%view_Some. pose proof Hv as (Hl & _)%view_Some.
  assert (ptr ≠ pj) by (intros ->; by eapply Hj, (ok_ptr st)).
  assert (p_inode (mc_ring c) ≠ p_inode (mc_ring cj)).
  { intros Heq. apply Hj. symmetry. by eapply (ok_inode _ Hok). }
  unfold deref. cbn. rewrite lookup_delete_ne by done. rewrite Hh. cbn.
  by rewrite lookup_insert_ne.
Qed.

Lemma evict_view_inv j v : view (evict i ptr st) j = Some v → j ≠ i ∧ view st j = Some v.
Proof.
  intros H. destruct (decide (j = i)) as [->|Hj].
  - by rewrite evict_view_same in H.
  - by rewrite evict_view_other in H.
Qed.

Lemma conn_path_other j pj cj qj :
  view st j = Some (pj, cj, qj) → j ≠ i → p_path (mc_ring cj) ≠ p_path (mc_ring c).
Proof.
  intros Hvj Hj Heq. apply Hj.
  pose proof (co_file _ _ _ _ (ok_view _ _ _ _ _ Hok Hv)) as H1.
  pose proof (co_file _ _ _ _ (ok_view _ _ _ _ _ Hok Hvj)) as H2.
  rewrite Heq, H1 in H2. injection H2 as H2. by eapply (ok_inode _ Hok).
Qed.

Lemma evict_ok : mgr_ok (evict i ptr st).
Proof.
  assert (∀ j pj, load (evict i ptr st) j = Some pj → j ≠ i ∧ load st j = Some pj) as Hload.
  { rewrite evict_eq. unfold load. cbn. intros j pj. destruct (decide (j = i)) as [->|Hj].
    - destruct (decide (i < length (connections st))%nat).
      + by rewrite list_lookup_insert_eq.
      + by rewrite lookup_ge_None_2 by (rewrite length_insert; lia).
    - by rewrite list_lookup_insert_ne. }
  split.
  - rewrite evict_eq. cbn. rewrite length_insert. apply (ok_len _ Hok).
  - intros j pj [Hj Hl]%Hload. destruct (ok_load _ Hok _ _ Hl) as (cj & qj & Hvj & Hcj).
    exists cj, qj. rewrite evict_view_other by done. split; [done|].
    eapply (conn_ok_transfer st); [by rewrite evict_eq| |done|done|done].
    rewrite evict_eq. cbn. intros path ino Hf ->. rewrite lookup_delete_ne; [done|].
    intros Heq. symmetry in Heq. revert Heq. by eapply conn_path_other.
  - intros a b pa pb ca cb qa qb [_ Ha]%evict_view_inv [_ Hb]%evict_view_inv.
    by apply (ok_inode _ Hok _ _ _ _ _ _ _ _ Ha Hb).
  - intros a b pa pb ca cb qa qb [_ Ha]%evict_view_inv [_ Hb]%evict_view_inv.
    by apply (ok_ids _ Hok _ _ _ _ _ _ _ _ Ha Hb).
  - pose proof Hv as (Hl & _)%view_Some. rewrite evict_eq. cbn. intros p0 c0 H.
    apply lookup_delete_Some in H as [Hp H]. apply (ok_heap _ Hok) in H as [H1 [j H2]].
    split; [done|]. exists j. unfold load in *. cbn.
    rewrite list_lookup_insert_ne; [done|]. intros ->. congruence.
  - intros path ino. rewrite evict_eq at 1. cbn. intros [Hp H]%lookup_delete_Some.
    destruct (ok_files _ Hok _ _ H) as (j & pj & cj & qj & Hvj & Hpj).
    exists j, pj, cj, qj. split; [|done]. rewrite evict_view_other; [done|].
    intros ->. simplify_eq.
  - rewrite evict_eq. destruct (ok_shm _ Hok) as [H1 H2]. split; cbn.
    + by apply map_Forall_delete.
    + apply map_Forall_insert_2; [|done]. apply view_Some in Hv as (_ & _ & E).
      by apply H2 in E.
  - rewrite evict_eq. apply (ok_next _ Hok).
Qed.
End evict.

(** ** Local changes

    [local st st' i v]: the handler step from [st] to [st'] left slot [i] with view
    [v] and did not touch anything else. *)
Record local st st' i (v : option (nat * ManagedConnection B K * Q)) : Prop := mkLocal {
  lo_ok : mgr_ok st';
  lo_same : view st' i = v;
  lo_other j : j ≠ i → view st' j = view st j;
  lo_next : next_connection_id st' = next_connection_id st;
  lo_len : length (connections st') = length (connections st);
}.

Lemma local_refl st i : mgr_ok st → local st st i (view st i).
Proof. done. Qed.

Lemma local_trans st1 st2 st3 i v w : local st1 st2 i v → local st2 st3 i w → local st1 st3 i w.
Proof.
  intros [A1 A2 A3 A4 A5] [B1 B2 B3 B4 B5]. split; try done; try congruence.
  intros j Hj. by rewrite B3, A3.
Qed.

Lemma put_local st i ptr c q c' q' :
  mgr_ok st → view st i = Some (ptr, c, q) → same_conn c c' →
  bq_capacity q' = bq_capacity q → local st (put ptr c' q' st) i (Some (ptr, c', q')).
Proof.
  intros Hok Hv Hc Hq. split; try done.
  - by eapply put_ok.
  - by eapply put_view_same.
  - intros j Hj. by eapply put_view_other.
Qed.

Lemma evict_local st i ptr c q :
  mgr_ok st → view st i = Some (ptr, c, q) → local st (evict i ptr st) i None.
Proof.
  intros Hok Hv. split.
  - by eapply evict_ok.
  - by eapply evict_view_same.
  - intros j Hj. by eapply evict_view_other.
  - by erewrite evict_eq.
  - erewrite evict_eq by done. cbn. apply length_insert.
Qed.

Lemma release_held st i ptr : load st i = Some ptr → release ptr st = st.
Proof.
  intros H. unfold release. rewrite bool_decide_true; [done|]. unfold load in H.
  destruct (connections st !! i) as [o|] eqn:E; [|done]. cbn in H. subst o.
  by eapply list_elem_of_lookup_2.
Qed.

Lemma same_conn_refl c : same_conn c c.
Proof. done. Qed.

Lemma set_sink_same c s : same_ring (mc_ring c) (sink_ring s) → same_conn c (set_sink c s).
Proof. done. Qed.

(** A write to a live entry. *)
Lemma update_entry_local st i ptr c q f :
  mgr_ok st → view st i = Some (ptr, c, q) → same_conn c (f c) →
  local st (update_entry ptr f st) i (Some (ptr, f c, q)).
Proof.
  intros Hok Hv Hc. unfold update_entry. rewrite (view_deref _ _ _ _ _ Hv).
  by eapply put_local.
Qed.

(** The staleness check, with the reference it was given dropped afterwards. *)
Lemma maybe_cleanup_spec now st i ptr c q :
  mgr_ok st → view st i = Some (ptr, c, q) →
  let '(b, st') := maybe_cleanup_stale_slot now i ptr st in
  b = is_stale now c ∧
  (if is_stale now c then release ptr st' = evict i ptr st ∧ load st' i = None
   else st' = st).
Proof.
  intros Hok Hv. pose proof Hv as (Hl & Hh & _)%view_Some.
  unfold maybe_cleanup_stale_slot. rewrite Hh.
  destruct (is_stale now c); cbn; [|done]. split_and!; [done|done|].
  assert (load (close_entry ptr st) i = Some ptr) as Hl'.
  { unfold close_entry. rewrite (view_deref _ _ _ _ _ Hv). done. }
  rewrite Hl', bool_decide_true by done. apply load_insert_same. by eapply load_lt.
Qed.

(** ** Pushing to an entry *)
Definition slot_push (frame : OutboundFrame) ptr c q :
    option (nat * ManagedConnection B K * Q) :=
  match sink_try_push (mc_sink c) frame q with
  | (Ok _, s, q') => Some (ptr, set_sink c s, q')
  | _ => None
  end.

Lemma push_to_entry_local us st i ptr c q frame m :
  mgr_ok st → view st i = Some (ptr, c, q) →
  let '(st', m') := push_to_entry us ptr frame st m in
  local st (release ptr st') i (slot_push frame ptr c q) ∧
  m' = match slot_push frame ptr c q with
       | Some _ => record_send m us | None => inc_ring_full m end.
Proof.
  intros Hok Hv. pose proof Hv as (Hl & Hh & _)%view_Some.
  unfold push_to_entry, push_entry, slot_push. rewrite (view_deref _ _ _ _ _ Hv).
  pose proof (sink_try_push_same (mc_sink c) frame q) as Hs.
  destruct (sink_try_push (mc_sink c) frame q) as [[r s] q']. destruct Hs as (Hr & Hring & Hcap).
  set (c' := set_sink c s).
  assert (local st (put ptr c' q' st) i (Some (ptr, c', q'))) as Hlo by (by eapply put_local).
  assert (heap (put ptr c' q' st) !! ptr = Some c') as Hh' by (cbn; by rewrite lookup_insert_eq).
  destruct r as [[]|f|]; [| |done].
  - split; [|done]. rewrite (release_held _ i); [done|]. exact Hl.
  - rewrite Hh'. split; [|done]. eapply local_trans; [exact Hlo|].
    destruct Hlo as [Hok' Hv' _ _ _].
    assert (release ptr (cleanup_if_same (mc_slot_index c') (connection_id c') (put ptr c' q' st))
      = evict i ptr (put ptr c' q' st)) as ->; [|by eapply evict_local].
    rewrite (co_index _ _ _ _ (ok_view _ _ _ _ _ Hok' Hv')).
    unfold cleanup_if_same. change (load (put ptr c' q' st) i) with (load st i).
    rewrite Hl, Hh', bool_decide_true by done. done.
Qed.

(** ** Dispatch *)

(** What a dispatch does to one slot, independently of the others. *)
Definition slot_dispatch (now : Z) (wants : SubscriptionFilter B → bool)
    (frame : OutboundFrame) (v : option (nat * ManagedConnection B K * Q)) :
    option (nat * ManagedConnection B K * Q) :=
  match v with
  | None => None
  | Some (ptr, c, q) =>
      if is_stale now c then None
      else if negb (wants (mc_filter c)) then v
      else slot_push frame ptr c q
  end.

(** A slot that only the staleness check may have touched. *)
Definition slot_swept (now : Z) (v v' : option (nat * ManagedConnection B K * Q)) : Prop :=
  v' = v ∨ ∃ ptr c q, v = Some (ptr, c, q) ∧ is_stale now c = true ∧ v' = None.

(** What a dispatch records for one slot. *)
Definition slot_metrics (env : DispatchEnv) (wants : SubscriptionFilter B → bool)
    (frame : OutboundFrame) st (m : QlasterSenderMetrics) (i : nat) : QlasterSenderMetrics :=
  match view st i with
  | None => m
  | Some (ptr, c, q) =>
      if is_stale (de_now env i) c then m
      else if negb (wants (mc_filter c)) then m
      else match slot_push frame ptr c q with
           | Some _ => record_send m (de_send_us env i)
           | None => inc_ring_full m
           end
  end.

Lemma slot_metrics_local env wants frame st st1 idx v l m :
  local st st1 idx v → idx ∉ l →
  foldl (slot_metrics env wants frame st1) m l = foldl (slot_metrics env wants frame st) m l.
Proof.
  intros [_ _ L3 _ _]. revert m. induction l as [|i l IH]; intros m Hl; [done|].
  apply not_elem_of_cons in Hl as [Hi Hl]. cbn [foldl]. rewrite IH by done.
  unfold slot_metrics at 2 4. by rewrite L3.
Qed.

Lemma dispatch_loop_views env wants frame n idx shared st m :
  mgr_ok st → shared = None ∨ shared = Some frame →
  let '(st', m') := dispatch_loop env wants (Ok frame) n idx shared st m in
  mgr_ok st' ∧ next_connection_id st' = next_connection_id st ∧
  (∀ i, view st' i = if bool_decide (idx ≤ i < idx + n)%nat
                    then slot_dispatch (de_now env i) wants frame (view st i) else view st i) ∧
  m' = foldl (slot_metrics env wants frame st) m (seq idx n).
Proof.
  intros Hok Hsh. revert idx shared st m Hok Hsh.
  induction n as [|n IH]; intros idx shared st m Hok Hsh; cbn [dispatch_loop].
  { split_and!; [done|done| |done]. intros i. by rewrite bool_decide_false by lia. }
  (* the rest of the loop after a local change of slot [idx] *)
  assert (∀ st1 shared1, local st st1 idx (slot_dispatch (de_now env idx) wants frame (view st idx)) →
    shared1 = None ∨ shared1 = Some frame →
    let '(st', m') := dispatch_loop env wants (Ok frame) n (S idx) shared1 st1
                        (slot_metrics env wants frame st m idx) in
    mgr_ok st' ∧ next_connection_id st' = next_connection_id st ∧
    (∀ i, view st' i = if bool_decide (idx ≤ i < idx + S n)%nat
                    then slot_dispatch (de_now env i) wants frame (view st i) else view st i) ∧
    m' = foldl (slot_metrics env wants frame st) m (seq idx (S n)))
    as Hrest.
  { intros st1 shared1 L Hs1. pose proof L as [L1 L2 L3 L4 L5].
    specialize (IH (S idx) shared1 st1 (slot_metrics env wants frame st m idx) L1 Hs1).
    destruct (dispatch_loop _ _ _ n _ _ _ _) as [st' m']. destruct IH as (I1 & I2 & I3 & ->).
    split_and!; [done|congruence| |].
    - intros i. rewrite I3. destruct (decide (i = idx)) as [->|Hi].
      + rewrite bool_decide_false, bool_decide_true by lia. done.
      + rewrite L3 by done. repeat case_bool_decide; done || lia.
    - cbn [seq foldl]. eapply slot_metrics_local; [done|]. rewrite elem_of_seq. lia. }
  unfold slot_metrics in Hrest at 1.
  destruct (load st idx) as [ptr|] eqn:Hl.
  2: { apply (ok_empty _ _ Hok) in Hl. rewrite Hl in Hrest. apply Hrest; [|done]. cbn.
       rewrite <-Hl. by apply local_refl. }
  destruct (ok_load _ Hok _ _ Hl) as (c & q & Hv & _). rewrite Hv in Hrest.
  pose proof (maybe_cleanup_spec (de_now env idx) st idx ptr c q Hok Hv) as Hm.
  destruct (maybe_cleanup_stale_slot _ _ _ _) as [b st1]. destruct Hm as [-> Hm].
  cbn [slot_dispatch] in Hrest.
  destruct (is_stale (de_now env idx) c).
  { destruct Hm as [-> _]. apply Hrest; [|done]. by eapply evict_local. }
  subst st1. pose proof Hv as (_ & Hh & _)%view_Some. rewrite Hh.
  destruct (negb (wants (mc_filter c))).
  { apply Hrest; [|done]. rewrite <-Hv. by apply local_refl. }
  replace (match shared with Some f => Ok f | None => Ok frame end) with (@Ok QlasterError _ frame)
    by (by destruct Hsh as [-> | ->]).
  pose proof (push_to_entry_local (de_send_us env idx) st idx ptr c q frame m Hok Hv) as Hp.
  destruct (push_to_entry _ _ _ _ _) as [st1 m1]. destruct Hp as [Hp ->].
  apply Hrest; [apply Hp|by right].
Qed.

(** When the update cannot be encoded the loop stops at the first match. *)
Lemma dispatch_loop_failed env wants (encode : Res OutboundFrame) n idx st m :
  mgr_ok st → (∀ frame, encode ≠ Ok frame) →
  let '(st', m') := dispatch_loop env wants encode n idx None st m in
  mgr_ok st' ∧ next_connection_id st' = next_connection_id st ∧
  (∀ i, slot_swept (de_now env i) (view st i) (view st' i)) ∧ m' = m.
Proof.
  intros Hok Henc. revert idx st m Hok.
  induction n as [|n IH]; intros idx st m Hok; cbn [dispatch_loop].
  { split_and!; [done|done| |done]. by left. }
  destruct (load st idx) as [ptr|] eqn:Hl; [|by apply IH].
  destruct (ok_load _ Hok _ _ Hl) as (c & q & Hv & _).
  pose proof (maybe_cleanup_spec (de_now env idx) st idx ptr c q Hok Hv) as Hm.
  destruct (maybe_cleanup_stale_slot _ _ _ _) as [b st1]. destruct Hm as [-> Hm].
  destruct (is_stale (de_now env idx) c) eqn:Hst.
  - destruct Hm as [-> _]. destruct (evict_local st idx ptr c q Hok Hv) as [L1 L2 L3 L4 L5].
    specialize (IH (S idx) (evict idx ptr st) m L1).
    destruct (dispatch_loop _ _ _ n _ _ _ _) as [st' m']. destruct IH as (I1 & I2 & I3 & I4).
    split_and!; [done|congruence| |done]. intros i. specialize (I3 i).
    destruct (decide (i = idx)) as [->|Hi]; [|by rewrite L3 in I3].
    rewrite L2 in I3. right. exists ptr, c, q. split_and!; [done|done|].
    destruct I3 as [->|(? & ? & ? & ? & _)]; done.
  - subst st1. pose proof Hv as (_ & Hh & _)%view_Some. rewrite Hh.
    destruct (negb (wants (mc_filter c))); [by apply IH|].
    destruct encode as [f|e|]; [by destruct (Henc f)| |];
      (split_and!; [done|done|by left|done]).
Qed.

(** ** Lookups *)
Lemma lookup_by_token_eq now tok st :
  mgr_ok st →
  lookup_by_token now tok st =
    match view st (Z.to_nat (slot_index tok)) with
    | None => (None, st)
    | Some (ptr, c, q) =>
        if bool_decide (connection_id c ≠ generation tok) then (None, st)
        else if is_stale now c then (None, evict (Z.to_nat (slot_index tok)) ptr st)
        else (Some ptr, st)
    end.
Proof.
  intros Hok. unfold lookup_by_token. set (i := Z.to_nat _). case_bool_decide as Hi.
  - assert (load st i = None) as Hl.
    { unfold load. rewrite lookup_ge_None_2; [done|]. by rewrite (ok_len _ Hok). }
    apply (ok_empty _ _ Hok) in Hl. by rewrite Hl.
  - destruct (load st i) as [ptr|] eqn:Hl.
    2: { apply (ok_empty _ _ Hok) in Hl. by rewrite Hl. }
    destruct (ok_load _ Hok _ _ Hl) as (c & q & Hv & _). rewrite Hv.
    pose proof Hv as (_ & Hh & _)%view_Some. rewrite Hh.
    case_bool_decide; [done|].
    pose proof (maybe_cleanup_spec now st i ptr c q Hok Hv) as Hm.
    destruct (maybe_cleanup_stale_slot _ _ _ _) as [b st1]. destruct Hm as [-> Hm].
    destruct (is_stale now c); [by destruct Hm as [-> _]|by subst].
Qed.

(** A slot whose connection is alive. *)
Definition busy (now : nat → Z) st i : Prop :=
  ∃ ptr c q, view st i = Some (ptr, c, q) ∧ is_stale (now i) c = false.

Lemma find_free_from_spec now n idx st :
  mgr_ok st →
  match find_free_from now n idx st with
  | (Some i, st') => (idx ≤ i < idx + n)%nat ∧ local st st' i None ∧ ¬ busy now st i ∧
      ∀ j, (idx ≤ j < i)%nat → busy now st j
  | (None, st') => st' = st ∧ ∀ j, (idx ≤ j < idx + n)%nat → busy now st j
  end.
Proof.
  intros Hok. revert idx. induction n as [|n IH]; intros idx; cbn [find_free_from].
  { split; [done|]. lia. }
  destruct (load st idx) as [ptr|] eqn:Hl.
  2: { apply (ok_empty _ _ Hok) in Hl. split_and!; [lia|lia| | |lia].
       - rewrite <-Hl. by apply local_refl.
       - intros (? & ? & ? & H & _). congruence. }
  destruct (ok_load _ Hok _ _ Hl) as (c & q & Hv & _).
  pose proof (maybe_cleanup_spec (now idx) st idx ptr c q Hok Hv) as Hm.
  destruct (maybe_cleanup_stale_slot _ _ _ _) as [b st1]. destruct Hm as [-> Hm].
  destruct (is_stale (now idx) c) eqn:Hs.
  - destruct Hm as [-> Hl1]. rewrite bool_decide_true by done.
    split_and!; [lia|lia|by eapply evict_local| |lia].
    intros (? & ? & ? & H & Hs'). rewrite Hv in H. simplify_eq. congruence.
  - subst st1. specialize (IH (S idx)).
    assert (busy now st idx) as Hb by (by exists ptr, c, q).
    destruct (find_free_from now n (S idx) st) as [[i|] st'].
    + destruct IH as (I1 & I2 & I3 & I4). split_and!; [lia|lia|done|done|].
      intros j Hj. destruct (decide (j = idx)) as [->|]; [done|]. apply I4. lia.
    + destruct IH as (-> & I2). split; [done|]. intros j Hj.
      destruct (decide (j = idx)) as [->|]; [done|]. apply I2. lia.
Qed.

(** ** The ring store *)

(** Growing the store without touching a ring in use. *)
Lemma set_shm_ok st s :
  mgr_ok st → files s = files (shm st) → queues (shm st) ⊆ queues s → shm_wf s →
  mgr_ok (set_shm st s) ∧ ∀ i, view (set_shm st s) i = view st i.
Proof.
  intros Hok Hf Hq Hwf.
  assert (∀ i, view (set_shm st s) i = view st i) as Hview.
  { intros i. destruct (load st i) as [ptr|] eqn:Hl.
    - destruct (ok_load _ Hok _ _ Hl) as (c & q & Hv & _). rewrite Hv.
      apply view_Some. apply view_Some in Hv as (_ & H1 & H2).
      split_and!; [done|done|]. by eapply lookup_weaken.
    - unfold view. change (load (set_shm st s) i) with (load st i). by rewrite Hl. }
  split; [|done]. split; try apply Hok; try done.
  - intros i ptr Hl. destruct (ok_load _ Hok _ _ Hl) as (c & q & Hv & Hc).
    exists c, q. rewrite Hview. split; [done|].
    eapply (conn_ok_transfer st); try done. cbn. by rewrite Hf.
  - intros *. rewrite !Hview. apply (ok_inode _ Hok).
  - intros *. rewrite !Hview. apply (ok_ids _ Hok).
  - intros path ino. cbn. rewrite Hf. intros H. destruct (ok_files _ Hok _ _ H) as (i & H').
    exists i. by setoid_rewrite Hview.
Qed.

(** Consuming a connection id. *)
Definition bump st : MState Q B K :=
  mkMState (connections st) (next_connection_id st + 1) (heap st) (next_ptr st) (shm st).

Lemma bump_ok st : mgr_ok st → mgr_ok (bump st) ∧ ∀ i, view (bump st) i = view st i.
Proof.
  intros Hok. split; [|done]. destruct Hok as [H1 H2 H3 H4 H5 H6 H7 H8].
  split; try done; [|cbn; lia]. intros i ptr Hl. destruct (H2 i ptr Hl) as (c & q & Hv & Hc).
  exists c, q. split; [done|]. destruct Hc. split; try done. cbn. lia.
Qed.

Lemma pretty_digit i :
  (i < MAX_CONNECTION_SLOTS)%nat → ∃ a, pretty i = String a "".
Proof.
  unfold MAX_CONNECTION_SLOTS. intros H.
  do 10 (destruct i as [|i]; [eexists; vm_compute; reflexivity|]). lia.
Qed.

Lemma conn_path_inj i j id id' :
  (i < MAX_CONNECTION_SLOTS)%nat → (j < MAX_CONNECTION_SLOTS)%nat →
  conn_path i id = conn_path j id' → id = id'.
Proof.
  intros Hi Hj H. unfold conn_path, path_join in H.
  assert (ring_file_name pid i id = ring_file_name pid j id') as H'.
  { destruct (String.get _ _) as [a|]; [|done]. case_bool_decide.
    - by apply (inj (String.append shm_dir)) in H.
    - by apply (inj (String.append shm_dir)), (inj (String.append "/")) in H. }
  unfold ring_file_name in H'. apply (inj (String.append (pretty pid))) in H'.
  apply (inj (String.append "-")) in H'. apply (inj pretty).
  destruct (pretty_digit i Hi) as [a Ha], (pretty_digit j Hj) as [a' Ha'].
  rewrite Ha, Ha' in H'. by injection H'.
Qed.

(** ** Installing a connection *)
Section install.
Context (st : MState Q B K) (i : nat) (id cap now : Z) (env : CreateEnv).
Context (ring : ShmRingProducer) (s : Shm Q) (filter : SubscriptionFilter B) (efd : K).
Context (Hok : mgr_ok st) (Hi : (i < MAX_CONNECTION_SLOTS)%nat) (Hfree : view st i = None).
Context (Hid : 1 ≤ id < next_connection_id st).
Context (Hnew : ∀ j p c q, view st j = Some (p, c, q) → connection_id c ≠ id).
Context (Hcr : create env (conn_path i id) cap (shm st) = (Ok ring, s)).

Definition managed : ManagedConnection B K := mkManaged i id filter (mkSink ring efd) now.
Definition installed : MState Q B K :=
  mkMState (<[i := Some (next_ptr st)]> (connections st)) (next_connection_id st)
    (<[next_ptr st := managed]> (heap st)) (S (next_ptr st)) s.

(** The queue [create] mapped. *)
Lemma created_queue : ∃ q, queues s !! p_inode ring = Some q ∧ bq_data q = [] ∧
  bq_capacity q = p_capacity ring ∧ p_capacity ring = next_power_of_two cap ∧
  64 ≤ cap ≤ 2 ^ 63 ∧ files (shm st) !! conn_path i id = None ∧
  ring = mkProducer (next_inode (shm st)) (p_capacity ring) (conn_path i id) 0 true ∧
  s = mkShm (<[conn_path i id := p_inode ring]> (files (shm st)))
        (<[p_inode ring := q]> (queues (shm st))) (S (next_inode (shm st))).
Proof.
  pose proof (create_cases env (conn_path i id) cap (shm st)) as H. rewrite Hcr in H.
  destruct H as (Hc & Hp & q & Hq & -> & ->). exists q.
  destruct (bq_create_spec _ _ (next_power_of_two_is _) Hq) as [Hd Hk].
  split_and!; try done; try lia. cbn. by rewrite lookup_insert_eq.
Qed.

Lemma installed_view_same : ∃ q, view installed i = Some (next_ptr st, managed, q) ∧
  bq_data q = [] ∧ conn_ok installed i managed q.
Proof.
  destruct created_queue as (q & Hq & Hd & Hk & _ & _ & _ & Hr & Hs). exists q.
  split_and!; [|done|].
  - apply view_Some. split_and!; [|cbn; by rewrite lookup_insert_eq|exact Hq].
    unfold load. cbn. rewrite list_lookup_insert_eq; [done|]. by rewrite (ok_len _ Hok).
  - split; try done; unfold mc_ring; cbn.
    + by rewrite Hr.
    + rewrite Hs, Hr. cbn. by rewrite lookup_insert_eq.
    + by rewrite Hr.
Qed.

Lemma installed_view_other j : j ≠ i → view installed j = view st j.
Proof.
  destruct created_queue as (q & _ & _ & _ & _ & _ & _ & Hr & Hs).
  intros Hj. unfold view.
  assert (load installed j = load st j) as ->.
  { unfold load. cbn. by rewrite list_lookup_insert_ne. }
  destruct (load st j) as [pj|] eqn:E; [|done]. cbn.
  destruct (ok_load _ Hok _ _ E) as (cj & qj & Hvj & _).
  pose proof Hvj as (_ & Hh & Hqj)%view_Some.
  destruct (ok_heap _ Hok _ _ Hh) as [Hp _]. destruct (ok_shm _ Hok) as [_ Hw].
  pose proof (Hw _ _ Hqj) as Hino. cbn in Hino.
  unfold deref, installed. cbn. rewrite lookup_insert_ne by lia. rewrite Hh. cbn.
  rewrite Hs. cbn. rewrite lookup_insert_ne; [done|]. rewrite Hr. cbn. lia.
Qed.

Lemma old_inode j pj cj qj :
  view st j = Some (pj, cj, qj) → p_inode (mc_ring cj) ≠ p_inode ring.
Proof.
  intros (_ & _ & Hqj)%view_Some. destruct created_queue as (q & _ & _ & _ & _ & _ & _ & -> & _).
  destruct (ok_shm _ Hok) as [_ Hw]. apply Hw in Hqj. cbn in *. lia.
Qed.

Lemma installed_ok : mgr_ok installed.
Proof.
  destruct installed_view_same as (q & Hv & _ & Hc).
  destruct created_queue as (q' & _ & _ & _ & _ & Hcap & Hnone & Hr & Hs).
  split.
  - cbn. rewrite length_insert. apply (ok_len _ Hok).
  - intros j pj Hl. destruct (decide (j = i)) as [->|Hj].
    + exists managed, q. pose proof Hv as (Hl' & _)%view_Some. by simplify_eq.
    + assert (load st j = Some pj) as Hl'.
      { revert Hl. unfold load. cbn. by rewrite list_lookup_insert_ne. }
      destruct (ok_load _ Hok _ _ Hl') as (cj & qj & Hvj & Hcj). exists cj, qj.
      rewrite installed_view_other by done. split; [done|].
      eapply (conn_ok_transfer st); try done. cbn. rewrite Hs. cbn. intros path ino Hf _.
      rewrite lookup_insert_ne; [done|]. intros <-. congruence.
  - intros a b pa pb ca cb qa qb Ha Hb Heq.
    destruct (decide (a = i)) as [->|Ha'], (decide (b = i)) as [->|Hb']; try done.
    + rewrite Hv in Ha. rewrite installed_view_other in Hb by done. simplify_eq.
      by destruct (old_inode _ _ _ _ Hb).
    + rewrite Hv in Hb. rewrite installed_view_other in Ha by done. simplify_eq.
      by destruct (old_inode _ _ _ _ Ha).
    + rewrite installed_view_other in Ha, Hb by done. by eapply (ok_inode _ Hok).
  - intros a b pa pb ca cb qa qb Ha Hb Heq.
    destruct (decide (a = i)) as [->|Ha'], (decide (b = i)) as [->|Hb']; try done.
    + rewrite Hv in Ha. rewrite installed_view_other in Hb by done. simplify_eq.
      by destruct (Hnew _ _ _ _ Hb).
    + rewrite Hv in Hb. rewrite installed_view_other in Ha by done. simplify_eq.
      by destruct (Hnew _ _ _ _ Ha).
    + rewrite installed_view_other in Ha, Hb by done. by eapply (ok_ids _ Hok).
  - intros p0 c0 H. cbn in H |- *. apply lookup_insert_Some in H as [[<- _]|[_ H]].
    + split; [lia|]. exists i. by apply view_Some in Hv as (Hl & _).
    + apply (ok_heap _ Hok) in H as [H1 [j H2]]. split; [lia|]. exists j.
      unfold load in *. cbn. rewrite list_lookup_insert_ne; [done|]. intros <-.
      apply (ok_empty _ _ Hok) in Hfree. unfold load in Hfree. congruence.
  - intros path ino. cbn. rewrite Hs. cbn. intros [[<- _]|[_ H]]%lookup_insert_Some.
    + exists i, (next_ptr st), managed, q. split; [done|]. unfold mc_ring. cbn. by rewrite Hr.
    + destruct (ok_files _ Hok _ _ H) as (j & pj & cj & qj & Hvj & Hp).
      exists j, pj, cj, qj. split; [|done]. rewrite installed_view_other; [done|].
      intros ->. congruence.
  - pose proof (create_wf env (conn_path i id) cap (shm st) (ok_shm _ Hok) ltac:(lia)) as Hwf.
    rewrite Hcr in Hwf. exact Hwf.
  - apply (ok_next _ Hok).
Qed.
End install.

(** The path of a fresh connection is never taken. *)
Lemma fresh_path st i id :
  mgr_ok st → (i < MAX_CONNECTION_SLOTS)%nat →
  (∀ j p c q, view st j = Some (p, c, q) → connection_id c ≠ id) →
  files (shm st) !! conn_path i id = None.
Proof.
  intros Hok Hi Hnew. destruct (files (shm st) !! conn_path i id) as [ino|] eqn:E; [|done].
  destruct (ok_files _ Hok _ _ E) as (j & p & c & q & Hv & Hp). exfalso.
  pose proof (ok_view _ _ _ _ _ Hok Hv) as Hc. rewrite (co_path _ _ _ _ Hc) in Hp.
  apply (Hnew _ _ _ _ Hv). eapply conn_path_inj; [|exact Hi|exact Hp].
  apply view_Some in Hv as (Hl & _). apply load_lt in Hl. by rewrite (ok_len _ Hok) in Hl.
Qed.
End inv.
