(* ===== verification/ManagerSpec.v ===== *)
(** * What the connection manager guarantees

    The handlers' results on every branch, stated on slot views, and the
    properties of every reachable state. *)

From stdpp Require Import prelude gmap strings pretty relations.
From Stdlib Require Import Strings.Byte.
From S2P Require Import Prelude Errors WireCodec DataFrames ControlFrames Metrics EventFd Ring Transport.
From S2P Require Import Filter Manager ManagerInv.

Section spec.
Context {Q : Type} {BQ : ByteQueue Q} {BQL : ByteQueueLaws Q}.
Context {B : Type} {BF : BloomFilter B}.
Context {K : Type} {EK : EventKernel K}.
Context (shm_dir : string) (pid : Z).
Implicit Types (st : MState Q B K) (c : ManagedConnection B K) (ptr i j : nat) (q : Q).
Abbreviation ok := (mgr_ok shm_dir pid).

(** Other tasks do not interfere: the handler runs alone. *)
Definition quiet (env : UpsertEnv (Q:=Q) (B:=B) (K:=K)) : Prop :=
  ue_pid env = pid ∧ ∀ n st, ue_rely env n st = st.

(** ** New connections *)

(** The outcomes of a subscription that creates a slot. *)
Definition upsert_outcome (env : UpsertEnv (Q:=Q) (B:=B) (K:=K)) (cap : Z)
    (filter : SubscriptionFilter B) (st : MState Q B K) (r : Res (ShmSlotProvision K))
    (st' : MState Q B K) : Prop :=
  let id := next_connection_id st in
  match r with
  | Ok (Created tok path cap' efd) =>
      ∃ i q ring, tok = mkSlotToken (Z.of_nat i) id ∧ path = conn_path shm_dir pid i id ∧
        cap' = cap ∧ (i < MAX_CONNECTION_SLOTS)%nat ∧
        ¬ busy (ue_scan env 0) st i ∧ (∀ j, (j < i)%nat → busy (ue_scan env 0) st j) ∧
        view st' i = Some (next_ptr st, mkManaged i id filter (mkSink ring efd)
                                           (ue_installed env 0), q) ∧
        bq_data q = [] ∧ p_capacity ring = next_power_of_two cap ∧
        files (shm st') !! path = Some (p_inode ring) ∧
        (∀ j, j ≠ i → view st' j = view st j)
  | Ok (Existing _) => False
  | Err (ConfigError _) =>
      (∀ j, (j < MAX_CONNECTION_SLOTS)%nat → busy (ue_scan env 0) st j) ∧
      ∀ j, view st' j = view st j
  | Err e =>
      (∃ msg, e = ShmError msg) ∧
      ∃ i, (i < MAX_CONNECTION_SLOTS)%nat ∧ ¬ busy (ue_scan env 0) st i ∧ view st' i = None ∧
        ∀ j, j ≠ i → view st' j = view st j
  | Panic => False
  end.

Lemma find_free_next_ptr now n idx st : next_ptr (find_free_from now n idx st).2 = next_ptr st.
Proof.
  assert (∀ p (s : MState Q B K), next_ptr (release p s) = next_ptr s) as Hr.
  { intros p s. unfold release. case_bool_decide; [done|]. by destruct (heap s !! p). }
  assert (∀ t i p (s : MState Q B K), next_ptr (maybe_cleanup_stale_slot t i p s).2 = next_ptr s) as Hm.
  { intros t i p s. unfold maybe_cleanup_stale_slot. destruct (heap s !! p); [|done].
    destruct (negb _); [done|]. unfold compare_and_swap. cbn. case_bool_decide; cbn;
      unfold close_entry; by destruct (deref s p) as [[? ?]|]. }
  revert idx st. induction n as [|n IH]; intros idx st; [done|]. cbn [find_free_from].
  destruct (load st idx) as [p|]; [|done]. specialize (Hm (now idx) idx p st).
  destruct (maybe_cleanup_stale_slot (now idx) idx p st) as [[] st1]; cbn in Hm.
  - case_bool_decide; cbn; rewrite ?IH, Hr; done.
  - by rewrite IH.
Qed.

(** An attempt that found slot [i] free in [st1], from the creation of the ring on. *)
Definition attempt (env : UpsertEnv (Q:=Q) (B:=B) (K:=K)) (cap : Z)
    (filter : SubscriptionFilter B) (id : Z) (n i : nat) st1 :
    option (Res (ShmSlotProvision K) * MState Q B K) :=
  match create (ue_create env n) (conn_path shm_dir pid i id) cap (shm st1) with
  | (Err e, s) => Some (Err e, set_shm st1 s)
  | (Panic, s) => Some (Panic, set_shm st1 s)
  | (Ok ring, s) =>
      match ue_eventfd env n with
      | inr e => Some (Err (ShmError ("eventfd: " +:+ e)), set_shm st1 (drop_producer ring s))
      | inl efd =>
          Some (Ok (Created (mkSlotToken (Z.of_nat i) id) (conn_path shm_dir pid i id) cap efd),
                installed st1 i id (ue_installed env n) ring s filter efd)
      end
  end.

(** The ring of an attempt that failed afterwards leaves no file. *)
Lemma drop_created_ok env path cap st ring s :
  ok st → create env path cap (shm st) = (Ok ring, s) →
  ok (set_shm st (drop_producer ring s)) ∧
  ∀ i, view (set_shm st (drop_producer ring s)) i = view st i.
Proof.
  intros Hok Hcr. pose proof (create_cases env path cap (shm st)) as H.
  pose proof (create_wf env path cap (shm st) (ok_shm _ _ _ Hok)) as Hwf.
  rewrite Hcr in *. destruct H as (Hc & Hf & q & Hq & -> & ->). cbn in *.
  apply set_shm_ok; [done| | |].
  - cbn. by rewrite delete_insert_id.
  - cbn. apply insert_subseteq. destruct (queues (shm st) !! next_inode (shm st)) eqn:E; [|done].
    destruct (ok_shm _ _ _ Hok) as [_ H2]. apply H2 in E. cbn in E. lia.
  - apply (remove_file_wf path). apply Hwf. lia.
Qed.

Lemma attempt_outcome env cap filter n i st1 id :
  ok st1 → cap ≤ 2 ^ 63 → (i < MAX_CONNECTION_SLOTS)%nat → view st1 i = None →
  1 ≤ id < next_connection_id st1 →
  (∀ j p c q, view st1 j = Some (p, c, q) → connection_id c ≠ id) →
  ∃ r st', attempt env cap filter id n i st1 = Some (r, st') ∧
    match r with
    | Ok (Created tok path cap' efd) =>
        tok = mkSlotToken (Z.of_nat i) id ∧ path = conn_path shm_dir pid i id ∧ cap' = cap ∧
        ∃ q ring, view st' i
            = Some (next_ptr st1, mkManaged i id filter (mkSink ring efd) (ue_installed env n), q) ∧
          bq_data q = [] ∧ p_capacity ring = next_power_of_two cap ∧
          files (shm st') !! path = Some (p_inode ring)
    | Ok (Existing _) => False
    | Err e => (∃ msg, e = ShmError msg) ∧ view st' i = None
    | Panic => False
    end ∧
    (∀ j, j ≠ i → view st' j = view st1 j) ∧
    ok st' ∧ next_connection_id st' = next_connection_id st1.
Proof.
  intros Hok Hcap Hi Hfree Hid Hids. unfold attempt. set (path := conn_path _ _ _ _).
  pose proof (create_cases (ue_create env n) path cap (shm st1)) as Hcr.
  pose proof (create_wf (ue_create env n) path cap (shm st1) (ok_shm _ _ _ Hok)) as Hwf.
  destruct (create _ _ _ _) as [[ring|e|] s] eqn:Ecr.
  - destruct (ue_eventfd env n) as [efd|e].
    + eexists _, _. split; [done|].
      destruct (installed_view_same _ _ st1 i id cap (ue_installed env n) (ue_create env n) ring s
        filter efd Hok Hi Hid Ecr) as (q & Hv & Hd & Hc).
      destruct Hcr as (_ & _ & _ & _ & Hring & _).
      split_and!; try done.
      * exists q, ring. split_and!; [done|done|by rewrite Hring|].
        pose proof (co_file _ _ _ _ _ _ Hc) as Hf. unfold mc_ring in Hf. cbn in Hf.
        pose proof (co_path _ _ _ _ _ _ Hc) as Hp. unfold mc_ring in Hp. cbn in Hp.
        by rewrite Hp in Hf.
      * intros j Hj. by eapply installed_view_other.
      * by eapply installed_ok.
    + destruct (drop_created_ok _ _ _ _ _ _ Hok Ecr) as [Ho Hview].
      eexists _, _. split; [done|]. split_and!; [by eexists|by rewrite Hview|by intros|done|done].
  - destruct Hcr as (He & Hf & Hqs & Hn).
    destruct (set_shm_ok _ _ st1 s Hok Hf) as [Ho Hview]; [by rewrite Hqs|by apply Hwf|].
    eexists _, _. split; [done|]. split_and!; [done|by rewrite Hview|by intros|done|done].
  - lia.
Qed.

(** One iteration of the loop when nothing interferes. *)
Lemma upsert_loop_quiet env cap filter id fuel n st :
  ok st → quiet env →
  upsert_loop env shm_dir cap filter id (S fuel) n st =
    match find_free_slot (ue_scan env n) st with
    | (None, st1) => Some (Err (ConfigError ("connection slots exhausted (max " +:+
                       pretty MAX_CONNECTION_SLOTS +:+ ")")), st1)
    | (Some i, st1) => attempt env cap filter id n i st1
    end.
Proof.
  intros Hok [Hpid Hrely]. cbn [upsert_loop]. unfold find_free_slot.
  pose proof (find_free_from_spec _ _ (ue_scan env n) (length (connections st)) 0 st Hok) as Hf.
  destruct (find_free_from _ _ _ _) as [[i|] st1]; [|done].
  destruct Hf as (Hi & [L1 L2 _ _ _] & _ & _). rewrite (ok_len _ _ _ Hok) in Hi.
  apply (ok_empty _ _ _ _ L1) in L2. rewrite Hpid. unfold attempt, conn_path.
  destruct (create _ _ _ _) as [[ring|e|] s]; [|done|done].
  destruct (ue_eventfd env n) as [efd|e]; [|done].
  rewrite Hrely. unfold compare_and_swap. set (st2 := mkMState _ _ _ _ _).
  change (load st2 i) with (load st1 i). rewrite L2, bool_decide_true by done.
  rewrite Z.mod_small by (unfold MAX_CONNECTION_SLOTS in *; lia). done.
Qed.

Lemma upsert_loop_outcome env cap filter fuel st :
  ok st → quiet env → cap ≤ 2 ^ 63 →
  ∃ r st', upsert_loop env shm_dir cap filter (next_connection_id st) (S fuel) 0 (bump st)
      = Some (r, st') ∧
    upsert_outcome env cap filter st r st' ∧
    ok st' ∧ next_connection_id st' = next_connection_id st + 1.
Proof.
  intros Hok Hq Hcap. destruct (bump_ok _ _ st Hok) as [Hbok Hbv].
  rewrite upsert_loop_quiet by done. set (id := next_connection_id st). unfold find_free_slot.
  pose proof (find_free_from_spec _ _ (ue_scan env 0) (length (connections (bump st))) 0
    (bump st) Hbok) as Hfind.
  pose proof (find_free_next_ptr (ue_scan env 0) (length (connections (bump st))) 0 (bump st))
    as Hptr.
  rewrite (ok_len _ _ _ Hbok) in *.
  destruct (find_free_from _ _ _ _) as [[i|] st1].
  2: { destruct Hfind as [-> Hb]. eexists _, _. split; [done|]. split; [|done].
       cbn. split; [|done]. intros j Hj. apply Hb. lia. }
  destruct Hfind as (Hi & [L1 L2 L3 L4 L5] & Hnb & Hb).
  assert (∀ j p c q, view st1 j = Some (p, c, q) → connection_id c ≠ id) as Hids.
  { intros j p c q Hv. destruct (decide (j = i)) as [->|Hj]; [congruence|].
    rewrite L3, Hbv in Hv by done.
    destruct (co_id _ _ _ _ _ _ (ok_view _ _ _ _ _ _ _ Hok Hv)). unfold id. lia. }
  destruct (attempt_outcome env cap filter 0 i st1 id L1 Hcap) as
    (r & st' & -> & Hr & Hv & Hok' & Hn); [lia|done| |done|].
  { rewrite L4. cbn. pose proof (ok_next _ _ _ Hok). unfold id. lia. }
  exists r, st'. split; [done|]. split_and!; [|done|by rewrite Hn, L4].
  assert (∀ j, j ≠ i → view st' j = view st j) as Hothers.
  { intros j Hj. by rewrite Hv, L3, Hbv. }
  destruct r as [[tok|tok path cap' efd]|e|]; cbn in Hr |- *; [done| | |done].
  - destruct Hr as (-> & -> & -> & q & ring & Hr). cbn in Hptr. rewrite Hptr in Hr.
    exists i, q, ring. destruct Hr as (H1 & H2 & H3 & H4).
    split_and!; try done; [lia|]. intros j Hj. apply Hb. lia.
  - destruct Hr as [[msg ->] Hr]. split; [by eexists|]. exists i. split_and!; [lia|done..].
Qed.

(** ** Subscribing *)
Definition upsert_existing (env : UpsertEnv (Q:=Q) (B:=B) (K:=K)) (request : SubscriptionRequest)
    c : ManagedConnection B K :=
  apply_request (ue_seed env) request (set_last_seen c (ue_now env)).

(** The connection a token designates, when it is alive. *)
Definition live_token (now : Z) (tok : option SlotToken) st ptr c q : Prop :=
  ∃ t, tok = Some t ∧ view st (Z.to_nat (slot_index t)) = Some (ptr, c, q) ∧
    connection_id c = generation t ∧ is_stale now c = false.

Lemma upsert_existing_spec env request cap fuel st ptr c q :
  ok st → live_token (ue_seen env) (req_slot_token request) st ptr c q →
  ∃ st', upsert_shm env request shm_dir cap fuel st = Some (Ok (Existing (slot_token c)), st') ∧
    local shm_dir pid st st' (mc_slot_index c) (Some (ptr, upsert_existing env request c, q)).
Proof.
  intros Hok (t & Ht & Hv & Hid & Hst). unfold upsert_shm. rewrite Ht.
  rewrite (lookup_by_token_eq _ _ _ _ _ Hok), Hv, bool_decide_false by tauto. rewrite Hst.
  rewrite (co_index _ _ _ _ _ _ (ok_view _ _ _ _ _ _ _ Hok Hv)).
  set (i := Z.to_nat (slot_index t)) in *.
  pose proof (update_entry_local _ _ st i ptr c q (λ c, set_last_seen c (ue_now env)) Hok Hv
    ltac:(done)) as L1.
  set (st1 := update_entry ptr _ st) in *.
  pose proof (update_entry_local _ _ st1 i ptr _ q (apply_request (ue_seed env) request)
    (lo_ok _ _ _ _ _ _ L1) (lo_same _ _ _ _ _ _ L1) ltac:(done)) as L2.
  set (st2 := update_entry ptr (apply_request _ _) st1) in *.
  pose proof (lo_same _ _ _ _ _ _ L2) as Hv2. pose proof Hv2 as (_ & Hh & _)%view_Some.
  rewrite Hh. exists st2. split; [done|]. by eapply local_trans.
Qed.

(** No connection of the table answers to this token, now or later. *)
Definition token_gone (tok : option SlotToken) st : Prop :=
  ∀ now ptr c q, ¬ live_token now tok st ptr c q.

(** The look-up of a token that is not live: its slot may turn out to be stale and
    be swept, and the token then designates nothing. *)
Lemma lookup_dead now tok st :
  ok st → (∀ ptr c q, ¬ live_token now tok st ptr c q) →
  ∃ st0, (match tok with
      | Some token => lookup_by_token now token st | None => (None, st) end) = (None, st0) ∧
    (∀ i, slot_swept now (view st i) (view st0 i)) ∧ ok st0 ∧
    next_connection_id st0 = next_connection_id st ∧ token_gone tok st0.
Proof.
  intros Hok Hdead. destruct tok as [t|].
  2: { exists st. split_and!; [done|by left|done|done|]. by intros ???? (? & ? & _). }
  rewrite (lookup_by_token_eq _ _ _ _ _ Hok).
  remember (Z.to_nat (slot_index t)) as i eqn:Hi.
  destruct (view st i) as [[[ptr c] q]|] eqn:Hv.
  2: { exists st. split_and!; [done|by left|done|done|].
       intros ???? (t' & [= <-] & H & _). congruence. }
  case_bool_decide as Hg.
  { exists st. split_and!; [done|by left|done|done|].
    intros ???? (t' & [= <-] & H & Hg' & _).
    rewrite <-Hi, Hv in H. by simplify_eq. }
  destruct (is_stale now c) eqn:Hs.
  - destruct (evict_local _ _ st i ptr c q Hok Hv) as [L1 L2 L3 L4 L5].
    exists (evict i ptr st). split_and!; [done| |done|done|].
    + intros j. destruct (decide (j = i)) as [->|Hj]; [|left; by apply L3].
      rewrite L2, Hv. right. by exists ptr, c, q.
    + intros ???? (t' & [= <-] & H & _). congruence.
  - exfalso. apply (Hdead ptr c q). exists t. split_and!; [done|by rewrite <-Hi| |done].
    apply dec_stable. tauto.
Qed.

(** A request without a live token: first the token's own slot may turn out to
    be stale and be swept, then a slot is created. *)
Lemma upsert_new_spec env request cap fuel st :
  ok st → quiet env → cap ≤ 2 ^ 63 → next_connection_id st < u64_max →
  (∀ ptr c q, ¬ live_token (ue_seen env) (req_slot_token request) st ptr c q) →
  ∃ st0 r st', upsert_shm env request shm_dir cap (S fuel) st = Some (r, st') ∧
    (∀ i, slot_swept (ue_seen env) (view st i) (view st0 i)) ∧
    token_gone (req_slot_token request) st0 ∧
    next_connection_id st0 = next_connection_id st ∧
    upsert_outcome env cap (from_request (ue_seed env) request) st0 r st' ∧
    ok st' ∧ next_connection_id st' = next_connection_id st + 1.
Proof.
  intros Hok Hq Hcap Hnext Hdead.
  destruct (lookup_dead _ _ _ Hok Hdead) as (st0 & E & Hsw & Hok0 & Hn0 & Hgone).
  unfold upsert_shm. rewrite E.
  assert (is_u64 (next_connection_id st0 + 1)) as Hu.
  { pose proof (ok_next _ _ _ Hok0). unfold is_u64. lia. }
  rewrite wrap64_id by done. fold (bump st0).
  destruct (upsert_loop_outcome env cap (from_request (ue_seed env) request) fuel st0 Hok0 Hq
    Hcap) as (r & st' & -> & Hr & Hok' & Hn).
  exists st0, r, st'. split_and!; try done. by rewrite Hn, Hn0.
Qed.

(** Without a token nothing is swept first. *)
Lemma upsert_fresh_outcome env request cap fuel st :
  ok st → quiet env → cap ≤ 2 ^ 63 → next_connection_id st < u64_max →
  req_slot_token request = None →
  ∃ r st', upsert_shm env request shm_dir cap (S fuel) st = Some (r, st') ∧ ok st' ∧
    upsert_outcome env cap (from_request (ue_seed env) request) st r st'.
Proof.
  intros Hok Hq Hcap Hn Htok. pose proof (ok_next _ _ _ Hok) as H1.
  destruct (upsert_loop_outcome env cap (from_request (ue_seed env) request) fuel st
    Hok Hq Hcap) as (r & st' & E & Hr & Hok' & _).
  exists r, st'. split_and!; [|done|done].
  unfold upsert_shm. rewrite Htok, wrap64_id by (unfold is_u64; lia). exact E.
Qed.

(** ** Steps that only lose connections *)
Definition shrinks st st' : Prop :=
  ∀ i p c' q', view st' i = Some (p, c', q') →
    ∃ c q, view st i = Some (p, c, q) ∧ same_conn c c'.

Lemma swept_shrinks (now : nat → Z) st st' :
  (∀ i, slot_swept (now i) (view st i) (view st' i)) → shrinks st st'.
Proof.
  intros H i p c q Hv. destruct (H i) as [Heq|(? & ? & ? & _ & _ & Heq)]; [|congruence].
  rewrite Heq in Hv. by exists c, q.
Qed.

Lemma local_shrinks st st' i v :
  local shm_dir pid st st' i v →
  (∀ p c' q', v = Some (p, c', q') → ∃ c q, view st i = Some (p, c, q) ∧ same_conn c c') →
  shrinks st st'.
Proof.
  intros [L1 L2 L3 L4 L5] H j p c' q' Hv. destruct (decide (j = i)) as [->|Hj].
  - rewrite L2 in Hv. by eapply H.
  - rewrite L3 in Hv by done. by exists c', q'.
Qed.

Lemma slot_dispatch_same now wants frame v p c' q' :
  slot_dispatch now wants frame v = Some (p, c', q') →
  ∃ c q, v = Some (p, c, q) ∧ same_conn c c'.
Proof.
  destruct v as [[[p0 c] q]|]; [|done]. cbn. destruct (is_stale now c); [done|].
  destruct (negb _).
  - intros [= <- <- <-]. by exists c, q.
  - unfold slot_push. pose proof (sink_try_push_same (mc_sink c) frame q) as H.
    destruct (sink_try_push _ _ _) as [[[] s] q1]; [|done..]. destruct H as (_ & H & _).
    intros [= <- <- <-]. by exists c, q.
Qed.

Lemma dispatch_with_shrinks env wants encode st m :
  ok st →
  let '(st', _) := dispatch_with env wants encode st m in
  ok st' ∧ next_connection_id st' = next_connection_id st ∧ shrinks st st'.
Proof.
  intros Hok. unfold dispatch_with.
  destruct encode as [frame|e|].
  - pose proof (dispatch_loop_views _ _ env wants frame (length (connections st)) 0 None st m
      Hok ltac:(by left)) as H.
    destruct (dispatch_loop _ _ _ _ _ _ _ _) as [st' m']. destruct H as (H1 & H2 & H3 & _).
    split_and!; [done|done|]. intros i p c' q' Hv. rewrite H3 in Hv.
    case_bool_decide; [by eapply slot_dispatch_same|]. by exists c', q'.
  - pose proof (dispatch_loop_failed _ _ env wants (Err e) (length (connections st)) 0 st m
      Hok ltac:(done)) as H.
    destruct (dispatch_loop _ _ _ _ _ _ _ _) as [st' m']. destruct H as (H1 & H2 & H3 & _).
    split_and!; [done|done|]. by apply (swept_shrinks (de_now env)).
  - pose proof (dispatch_loop_failed _ _ env wants Panic (length (connections st)) 0 st m
      Hok ltac:(done)) as H.
    destruct (dispatch_loop _ _ _ _ _ _ _ _) as [st' m']. destruct H as (H1 & H2 & H3 & _).
    split_and!; [done|done|]. by apply (swept_shrinks (de_now env)).
Qed.

(** Pings. *)
Lemma touch_ping_eq seen now ping st :
  ok st →
  let i := Z.to_nat (slot_index (ping_slot_token ping)) in
  match view st i with
  | Some (ptr, c, q) =>
      if bool_decide (connection_id c ≠ generation (ping_slot_token ping))
      then touch_ping seen now ping st = (false, st)
      else if is_stale seen c
      then (touch_ping seen now ping st).1 = false ∧
           local shm_dir pid st (touch_ping seen now ping st).2 i None
      else (touch_ping seen now ping st).1 = true ∧
           local shm_dir pid st (touch_ping seen now ping st).2 i
             (Some (ptr, set_last_seen c now, q))
  | None => touch_ping seen now ping st = (false, st)
  end.
Proof.
  intros Hok i. unfold touch_ping. rewrite (lookup_by_token_eq _ _ _ _ _ Hok). fold i.
  destruct (view st i) as [[[ptr c] q]|] eqn:Hv; [|done].
  case_bool_decide; [done|]. destruct (is_stale seen c); cbn; (split; [done|]).
  - by eapply evict_local.
  - by apply (update_entry_local _ _ st i ptr c q (λ c, set_last_seen c now)).
Qed.

Lemma touch_ping_shrinks seen now ping st :
  ok st →
  ok (touch_ping seen now ping st).2 ∧
  next_connection_id (touch_ping seen now ping st).2 = next_connection_id st ∧
  shrinks st (touch_ping seen now ping st).2.
Proof.
  intros Hok. pose proof (touch_ping_eq seen now ping st Hok) as H. cbv zeta in H.
  assert (shrinks st st) as Hrefl by (intros i p c q Hv; by exists c, q).
  destruct (view st _) as [[[ptr c] q]|] eqn:Hv; [|by rewrite H].
  case_bool_decide; [by rewrite H|].
  destruct (is_stale seen c); destruct H as [_ H]; (split_and!; [apply H|apply H|]);
    (eapply local_shrinks; [exact H|]); intros p c' q' [= <- <- <-]. by exists c, q.
Qed.

(** ** Reachable states *)
Section reachable.
Context {LZ : Lz4} (cap : Z) (Hcap : cap ≤ 2 ^ 63).

(** One handler of the sender runs: a dispatch of each kind, a ping, or a
    subscription (until the id counter would wrap). *)
Inductive mstep : MState Q B K → MState Q B K → Prop :=
| step_account env u m st : mstep st (dispatch_account_update env u st m).1
| step_transaction env u m st : mstep st (dispatch_transaction_update env u st m).1
| step_slot env u m st : mstep st (dispatch_slot_update env u st m).1
| step_ping seen now ping st : mstep st (touch_ping seen now ping st).2
| step_upsert env request fuel st r st' :
    quiet env → next_connection_id st < u64_max →
    upsert_shm env request shm_dir cap (S fuel) st = Some (r, st') → mstep st st'.

Lemma live_token_dec now tok st :
  (∃ ptr c q, live_token now tok st ptr c q) ∨ (∀ ptr c q, ¬ live_token now tok st ptr c q).
Proof.
  destruct tok as [t|]; [|right; by intros ??? (? & ? & _)].
  destruct (view st (Z.to_nat (slot_index t))) as [[[ptr c] q]|] eqn:Hv.
  2: { right. intros ??? (? & [= <-] & H & _). congruence. }
  destruct (decide (connection_id c = generation t)) as [Hg|Hg].
  2: { right. intros ??? (? & [= <-] & H & Hg' & _). rewrite Hv in H. by simplify_eq. }
  destruct (is_stale now c) eqn:Hs.
  - right. intros ??? (? & [= <-] & H & _ & Hs'). rewrite Hv in H. simplify_eq. congruence.
  - left. exists ptr, c, q. by exists t.
Qed.

Lemma upsert_ok env request fuel st r st' :
  ok st → quiet env → next_connection_id st < u64_max →
  upsert_shm env request shm_dir cap (S fuel) st = Some (r, st') → ok st'.
Proof.
  intros Hok Hq Hn Hu.
  destruct (live_token_dec (ue_seen env) (req_slot_token request) st) as [(ptr & c & q & Hl)|Hdead].
  - destruct (upsert_existing_spec env request cap (S fuel) st ptr c q Hok Hl) as (st1 & E & L).
    rewrite E in Hu. injection Hu as <- <-. apply L.
  - destruct (upsert_new_spec env request cap fuel st Hok Hq Hcap Hn Hdead)
      as (st0 & r0 & st1 & E & _ & _ & _ & _ & Hok1 & _).
    rewrite E in Hu. by injection Hu as <- <-.
Qed.

(** Every handler keeps the invariant. *)
Lemma mstep_ok st st' : ok st → mstep st st' → ok st'.
Proof.
  intros Hok Hs. destruct Hs.
  - pose proof (dispatch_with_shrinks env (λ f, matches_account f u)
      (encode_account_frame env u) st m Hok) as H. unfold dispatch_account_update.
    destruct (dispatch_with _ _ _ _ _). apply H.
  - pose proof (dispatch_with_shrinks env matches_transaction
      (encode_transaction_frame env u) st m Hok) as H. unfold dispatch_transaction_update.
    destruct (dispatch_with _ _ _ _ _). apply H.
  - pose proof (dispatch_with_shrinks env (λ _, true)
      (encode_slot_frame env u) st m Hok) as H. unfold dispatch_slot_update.
    destruct (dispatch_with _ _ _ _ _). apply H.
  - by apply touch_ping_shrinks.
  - by eapply upsert_ok.
Qed.

Lemma rtc_mstep_ok st st' : ok st → rtc mstep st st' → ok st'.
Proof. intros Hok H. induction H; eauto using mstep_ok. Qed.
End reachable.
End spec.

(** ** A healthy environment *)
Section healthy.
Context {Q : Type} {BQ : ByteQueue Q} {BQL : ByteQueueLaws Q}.
Context {B : Type} {BF : BloomFilter B}.
Context {K : Type} {EK : EventKernel K}.
Context (shm_dir : string) (pid cap : Z).

(** The file system, [shaq] and [eventfd] give what is asked of them. *)
Definition healthy (env : UpsertEnv (Q:=Q) (B:=B) (K:=K)) : Prop :=
  64 ≤ cap ≤ 2 ^ 63 ∧
  (∀ n, mkdir_error (ue_create env n) = None ∧ open_error (ue_create env n) = None) ∧
  (∀ n, ∃ efd, ue_eventfd env n = inl efd) ∧
  ∃ q : Q, bq_create (minimum_file_size (next_power_of_two cap)) = inl q.

Lemma attempt_healthy env filter id n i (st1 : MState Q B K) :
  mgr_ok shm_dir pid st1 → (i < MAX_CONNECTION_SLOTS)%nat →
  (∀ j p c q, view st1 j = Some (p, c, q) → connection_id c ≠ id) → healthy env →
  ∃ efd st', attempt shm_dir pid env cap filter id n i st1
    = Some (Ok (Created (mkSlotToken (Z.of_nat i) id) (conn_path shm_dir pid i id) cap efd), st').
Proof.
  intros Hok Hi Hids (Hcap & Hc & He & q & Hq).
  destruct (Hc n) as [H1 H2], (He n) as [efd Hefd].
  unfold attempt, create. rewrite bool_decide_false by lia. rewrite H1.
  rewrite (fresh_path _ _ st1 i id Hok Hi Hids), H2. rewrite bool_decide_false by lia.
  rewrite Hq, Hefd. eauto.
Qed.

Lemma upsert_loop_healthy env filter fuel (st : MState Q B K) :
  mgr_ok shm_dir pid st → quiet pid env → healthy env →
  (∃ i, (i < MAX_CONNECTION_SLOTS)%nat ∧ ¬ busy (ue_scan env 0) st i) →
  ∃ tok path efd st',
    upsert_loop env shm_dir cap filter (next_connection_id st) (S fuel) 0 (bump st)
      = Some (Ok (Created tok path cap efd), st').
Proof.
  intros Hok Hq Hh (i0 & Hi0 & Hfree).
  destruct (bump_ok _ _ st Hok) as [Hbok Hbv].
  rewrite (upsert_loop_quiet shm_dir pid) by done. unfold find_free_slot.
  pose proof (find_free_from_spec _ _ (ue_scan env 0) (length (connections (bump st))) 0
    (bump st) Hbok) as Hfind.
  rewrite (ok_len _ _ _ Hbok) in *. destruct (find_free_from _ _ _ _) as [[i|] st1].
  - destruct Hfind as (Hi & [L1 L2 L3 L4 L5] & _).
    destruct (attempt_healthy env filter
      (next_connection_id st) 0 i st1 L1) as (efd & st' & ->); [lia| |done|eauto].
    intros j p c q Hv. destruct (decide (j = i)) as [->|Hj]; [congruence|].
    rewrite L3, Hbv in Hv by done.
    destruct (co_id _ _ _ _ _ _ (ok_view _ _ _ _ _ _ _ Hok Hv)). lia.
  - destruct Hfind as [-> Hb]. destruct Hfree. apply Hb. lia.
Qed.

Lemma upsert_healthy_dead env request fuel (st : MState Q B K) :
  mgr_ok shm_dir pid st → quiet pid env → next_connection_id st < u64_max → healthy env →
  (∀ ptr c q, ¬ live_token (ue_seen env) (req_slot_token request) st ptr c q) →
  (∃ i, (i < MAX_CONNECTION_SLOTS)%nat ∧ ¬ busy (ue_scan env 0) st i) →
  ∃ tok path efd st', upsert_shm env request shm_dir cap (S fuel) st
    = Some (Ok (Created tok path cap efd), st').
Proof.
  intros Hok Hq Hn Hh Hdead (i0 & Hi0 & Hfree).
  destruct (lookup_dead _ _ _ _ _ Hok Hdead) as (st0 & E & Hsw & Hok0 & Hn0 & _).
  unfold upsert_shm. rewrite E. pose proof (ok_next _ _ _ Hok0).
  rewrite wrap64_id by (unfold is_u64; lia). fold (bump st0).
  apply upsert_loop_healthy; [done..|]. exists i0. split; [done|].
  intros (p & c & q & Hv & Hs). apply Hfree.
  destruct (Hsw i0) as [Heq|(? & ? & ? & _ & _ & Heq)]; [|congruence].
  rewrite Heq in Hv. by exists p, c, q.
Qed.

Lemma upsert_healthy env request fuel (st : MState Q B K) :
  mgr_ok shm_dir pid st → quiet pid env → next_connection_id st < u64_max → healthy env →
  req_slot_token request = None →
  (∃ i, (i < MAX_CONNECTION_SLOTS)%nat ∧ ¬ busy (ue_scan env 0) st i) →
  ∃ tok path efd st', upsert_shm env request shm_dir cap (S fuel) st
    = Some (Ok (Created tok path cap efd), st').
Proof.
  intros Hok Hq Hn Hh Htok Hfree. apply upsert_healthy_dead; try done.
  rewrite Htok. by intros ??? (? & ? & _).
Qed.
End healthy.

(** ** Concrete states, for the witnesses *)
Module Demo.
#[global] Existing Instance list_byte_queue.
#[global] Existing Instance list_byte_queue_laws.
#[global] Existing Instance exact_bloom.
#[global] Existing Instance exact_bloom_laws.
#[global] Existing Instance sim_event_kernel.
#[global] Existing Instance sim_event_laws.

Definition State : Type := MState list_queue (gset pubkey) sim_event.
Definition dir : string := "/dev/shm/q".

Definition env (now : Z) : UpsertEnv (Q:=list_queue) (B:=gset pubkey) (K:=sim_event) :=
  {| ue_seen := now; ue_now := now; ue_scan _ _ := now; ue_installed _ := now; ue_pid := 7; ue_seed := 0; ue_create _ := sample_env;
     ue_eventfd _ := inl (mkSimEvent 0 0); ue_rely _ st := st |}.

Definition request : SubscriptionRequest := SubscriptionRequest_new [sample_key x01] [].

(** One consumer subscribed at time 1000, in general and with a ring of 256 bytes. *)
Definition started (d : string) (cap : Z) : State :=
  match upsert_shm (env 1000) request d cap 1 manager_new with
  | Some (_, st) => st
  | None => manager_new
  end.
Definition one : State := started dir 256.

Lemma quiet_env now : quiet 7 (env now).
Proof. done. Qed.

Lemma healthy_env now cap : 64 ≤ cap ≤ 2 ^ 63 → healthy cap (env now).
Proof. intros H. split_and!; [lia|lia|done|eauto|by eexists]. Qed.

Lemma started_reached d cap : 64 ≤ cap ≤ 2 ^ 63 →
  ∃ tok path efd, upsert_shm (env 1000) request d cap 1 manager_new
    = Some (Ok (Created tok path cap efd), started d cap).
Proof.
  intros Hcap.
  destruct (upsert_healthy d 7 cap (env 1000) request 0 manager_new (manager_new_ok d 7)
    (quiet_env 1000) ltac:(done) (healthy_env 1000 cap Hcap) eq_refl)
    as (tok & path & efd & st' & E).
  - exists 0%nat. split; [unfold MAX_CONNECTION_SLOTS; lia|]. by intros (? & ? & ? & H & _).
  - exists tok, path, efd. unfold started. by rewrite E.
Qed.

(** The state it leads to, without evaluating it. *)
Lemma started_view d cap : 64 ≤ cap ≤ 2 ^ 63 →
  mgr_ok d 7 (started d cap) ∧ ∃ ring efd q,
  view (started d cap) 0 = Some (0%nat, mkManaged 0 1 (from_request 0 request)
                                   (mkSink ring efd) 1000, q) ∧
  bq_data q = [] ∧ p_capacity ring = next_power_of_two cap.
Proof.
  intros Hcap. assert (∀ j, ¬ busy (λ _, 1000) (manager_new : State) j) as Hnb.
  { intros j (p & c & q & Hv & _). apply view_Some in Hv as (_ & Hh & _).
    cbn in Hh. by rewrite lookup_empty in Hh. }
  destruct (started_reached d cap Hcap) as (tok & path & efd & E).
  destruct (upsert_fresh_outcome d 7 (env 1000) request cap 0 manager_new
    (manager_new_ok d 7) (quiet_env 1000) ltac:(lia) ltac:(done) eq_refl)
    as (r0 & st0 & E0 & Hok & Ho).
  rewrite E in E0. injection E0 as <- <-. split; [done|].
  destruct Ho as (i & q & ring & _ & _ & _ & _ & _ & Hb & Hv & Hd & Hp & _).
  destruct i as [|i]; [|destruct (Hnb 0%nat); apply Hb; lia].
  by exists ring, efd, q.
Qed.

Lemma one_reached : ∃ r, upsert_shm (env 1000) request dir 256 1 manager_new = Some (r, one).
Proof. destruct (started_reached dir 256 ltac:(lia)) as (tok & path & efd & E). by eexists. Qed.

Lemma one_view : ∃ ring efd q,
  view one 0 = Some (0%nat, mkManaged 0 1 (from_request 0 request)
                       (mkSink ring efd) 1000, q) ∧
  bq_data q = [] ∧ p_capacity ring = 256.
Proof. apply (started_view dir 256). lia. Qed.

Lemma one_ok : mgr_ok dir 7 one.
Proof. apply started_view. lia. Qed.
End Demo.

(** ** Properties *)

(** In every state the sender can reach, whatever mix of dispatches, pings
    and subscriptions ran before: there are ten slots, an occupied slot holds a
    connection that knows its own index and has its own id and its own ring, every
    connection in memory is in a slot, and the ring files on disk are exactly those
    of the connections in the slots (none is leaked, none is missing). *)
Theorem manager_reachable_invariant {Q} {BQ : ByteQueue Q} {BQL : ByteQueueLaws Q}
    {B} {BF : BloomFilter B} {K} {EK : EventKernel K} {LZ : Lz4} shm_dir pid cap
    (st : MState Q B K) :
  cap ≤ 2 ^ 63 → rtc (mstep shm_dir pid cap) manager_new st →
  length (connections st) = MAX_CONNECTION_SLOTS ∧
  (∀ i ptr c q, view st i = Some (ptr, c, q) →
     mc_slot_index c = i ∧ 1 ≤ connection_id c < next_connection_id st ∧
     p_capacity (mc_ring c) = bq_capacity q) ∧
  (∀ i j pi pj ci cj qi qj, view st i = Some (pi, ci, qi) → view st j = Some (pj, cj, qj) →
     connection_id ci = connection_id cj ∨ p_inode (mc_ring ci) = p_inode (mc_ring cj) → i = j) ∧
  (∀ ptr, is_Some (heap st !! ptr) ↔ ∃ i, load st i = Some ptr) ∧
  (∀ path, is_Some (files (shm st) !! path) ↔
     ∃ i ptr c q, view st i = Some (ptr, c, q) ∧ p_path (mc_ring c) = path).
Proof.
  intros Hcap H. pose proof (rtc_mstep_ok _ _ _ Hcap _ _ (manager_new_ok shm_dir pid) H) as Hok.
  split_and!.
  - apply Hok.
  - intros i ptr c q Hv. by destruct (ok_view _ _ _ _ _ _ _ Hok Hv).
  - intros i j pi pj ci cj qi qj Hi Hj [Heq|Heq].
    + by eapply (ok_ids _ _ _ Hok).
    + by eapply (ok_inode _ _ _ Hok).
  - intros ptr. split.
    + intros [c Hc]. by apply (ok_heap _ _ _ Hok) in Hc as [_ Hc].
    + intros [i Hi]. destruct (ok_load _ _ _ Hok _ _ Hi) as (c & q & Hv & _).
      apply view_Some in Hv as (_ & -> & _). eauto.
  - intros path. split.
    + intros [ino Hf]. by apply (ok_files _ _ _ Hok) in Hf.
    + intros (i & ptr & c & q & Hv & <-).
      rewrite (co_file _ _ _ _ _ _ (ok_view _ _ _ _ _ _ _ Hok Hv)). eauto.
Qed.

Lemma manager_reachable_invariant_witness :
  length (connections Demo.one) = MAX_CONNECTION_SLOTS ∧
  (∀ ptr, is_Some (heap Demo.one !! ptr) ↔ ∃ i, load Demo.one i = Some ptr).
Proof.
  destruct Demo.one_reached as [r Hr].
  assert (rtc (@mstep _ list_byte_queue _ exact_bloom _ sim_event_kernel Demo.dir 7 rle_lz4 256)
    manager_new Demo.one) as H.
  { apply rtc_once. eapply step_upsert; [apply (Demo.quiet_env 1000)|done|exact Hr]. }
  destruct (@manager_reachable_invariant _ list_byte_queue list_byte_queue_laws _ exact_bloom
    _ sim_event_kernel rle_lz4 Demo.dir 7 256 Demo.one ltac:(lia) H)
    as (H1 & _ & _ & H4 & _).
  split; [exact H1|exact H4].
Defined.

(** C13: A subscription without a slot token, with the sender otherwise idle:
    it gets the first slot that is free or stale (evicting the stale one), a fresh
    generation, and an empty ring of at least the configured capacity whose file
    exists under the path in the reply; every other slot is untouched.  It is
    refused exactly when all ten slots are alive, and a failure to create the ring or
    the eventfd changes no other slot; a healthy system never fails while a slot is
    free. *)
Theorem subscribe_provisions {Q} {BQ : ByteQueue Q} {BQL : ByteQueueLaws Q}
    {B} {BF : BloomFilter B} {K} {EK : EventKernel K} shm_dir pid cap env request fuel
    (st : MState Q B K) :
  mgr_ok shm_dir pid st → quiet pid env → cap ≤ 2 ^ 63 → next_connection_id st < u64_max →
  req_slot_token request = None →
  ∃ r st', upsert_shm env request shm_dir cap (S fuel) st = Some (r, st') ∧
    mgr_ok shm_dir pid st' ∧
    upsert_outcome shm_dir pid env cap (from_request (ue_seed env) request) st r st' ∧
    (healthy cap env →
       ((∃ i, (i < MAX_CONNECTION_SLOTS)%nat ∧ ¬ busy (ue_scan env 0) st i) ↔
        ∃ tok path efd, r = Ok (Created tok path cap efd))).
Proof.
  intros Hok Hq Hcap Hn Htok.
  destruct (upsert_fresh_outcome _ _ env request cap fuel st Hok Hq Hcap Hn Htok)
    as (r & st' & Hu & Hok' & Hr). exists r, st'.
  split_and!; [done|done|done|]. intros Hh. split.
  - intros Hfree. destruct (upsert_healthy _ _ _ _ request fuel st Hok Hq Hn Hh Htok Hfree)
      as (tok & path & efd & st2 & E2). rewrite Hu in E2. injection E2 as -> _. eauto.
  - intros (tok & path & efd & ->). destruct Hr as (i & q & ring & _ & _ & _ & Hi & Hb & _).
    by exists i.
Qed.

Lemma subscribe_provisions_witness :
  ∃ r st', upsert_shm (Demo.env 2000) Demo.request Demo.dir 256 1 Demo.one = Some (r, st') ∧
    mgr_ok Demo.dir 7 st' ∧
    upsert_outcome Demo.dir 7 (Demo.env 2000) 256 (from_request 0 Demo.request) Demo.one r st'.
Proof.
  destruct (@subscribe_provisions _ list_byte_queue list_byte_queue_laws _ exact_bloom
    _ sim_event_kernel Demo.dir 7 256 (Demo.env 2000) Demo.request 0 Demo.one Demo.one_ok
    (Demo.quiet_env 2000) ltac:(lia) ltac:(vm_compute; reflexivity) ltac:(reflexivity))
    as (r & st' & H1 & H2 & H3 & _).
  exists r, st'. split; [exact H1|]. split; [exact H2|exact H3].
Defined.

(** A re-subscription with a live token is answered with the same token and
    widens that slot's filter by exactly the request (keys, owners and the
    transaction flag accumulate, nothing is ever unsubscribed), renews its lease, and
    leaves its ring and every other slot untouched. *)
Theorem resubscribe_accumulates {Q} {BQ : ByteQueue Q} {BQL : ByteQueueLaws Q}
    {B} {BF : BloomFilter B} {BL : BloomLaws B} {K} {EK : EventKernel K} shm_dir pid cap env
    request fuel (st : MState Q B K) ptr c q rs :
  mgr_ok shm_dir pid st → live_token (ue_seen env) (req_slot_token request) st ptr c q →
  (∀ t, req_slot_token request = Some t → is_u8 (slot_index t)) →
  holds_requests (mc_filter c) rs →
  ∃ st' c', upsert_shm env request shm_dir cap fuel st
      = Some (Ok (Existing (slot_token c)), st') ∧
    mgr_ok shm_dir pid st' ∧ Some (slot_token c) = req_slot_token request ∧
    view st' (mc_slot_index c) = Some (ptr, c', q) ∧ holds_requests (mc_filter c') (rs ++ [request]) ∧
    last_seen_ms c' = ue_now env ∧ mc_sink c' = mc_sink c ∧
    (∀ j, j ≠ mc_slot_index c → view st' j = view st j).
Proof.
  intros Hok Hl Hu Hf.
  destruct (upsert_existing_spec _ _ env request cap fuel st ptr c q Hok Hl)
    as (st' & E & [L1 L2 L3 L4 L5]).
  exists st', (upsert_existing env request c). split_and!; try done.
  - destruct Hl as ([i g] & Ht & Hv & Hg & _). specialize (Hu _ Ht). rewrite Ht.
    f_equal. unfold slot_token. cbn in *.
    pose proof Hv as (Hlt & _)%view_Some. apply load_lt in Hlt.
    rewrite (co_index _ _ _ _ _ _ (ok_view _ _ _ _ _ _ _ Hok Hv)), Hg.
    rewrite (ok_len _ _ _ Hok) in Hlt. unfold MAX_CONNECTION_SLOTS in Hlt.
    rewrite Z.mod_small by lia. rewrite Z2Nat.id; [done|apply Hu].
  - by apply with_request_holds.
Qed.

Lemma resubscribe_accumulates_witness :
  let r := with_slot_token (SubscriptionRequest_transactions) (Some (mkSlotToken 0 1)) in
  ∃ st', upsert_shm (Demo.env 2000) r Demo.dir 256 0 Demo.one
      = Some (Ok (Existing (mkSlotToken 0 1)), st') ∧
    ∃ c' q, view st' 0 = Some (0%nat, c', q) ∧ matches_transaction (mc_filter c') = true.
Proof.
  intros r. destruct Demo.one_view as (ring & efd & q & Hv & _).
  destruct (@resubscribe_accumulates _ list_byte_queue list_byte_queue_laws _ exact_bloom
    exact_bloom_laws _ sim_event_kernel Demo.dir 7 256 (Demo.env 2000) r 0 Demo.one 0
    (mkManaged 0 1 (from_request 0 Demo.request) (mkSink ring efd) 1000) q [Demo.request] Demo.one_ok) as (st' & c' & H1 & _ & _ & H4 & H5 & _).
  - exists (mkSlotToken 0 1). split_and!; [reflexivity|exact Hv|reflexivity|vm_compute; reflexivity].
  - intros t [= <-]. vm_compute. split; discriminate.
  - apply from_request_holds.
  - exists st'. split; [exact H1|]. exists c', q. split; [exact H4|].
    apply (holds_requests_matches _ _ (sample_account [] []) H5).
    right. left. reflexivity.
Defined.

(** C19: A ping is honoured exactly when its token names a connection that is
    installed and has been heard from in the last thirty seconds; it then renews that
    lease and nothing else.  A ping from an expired connection evicts it, and any
    other ping changes nothing. *)
Theorem ping_renews_only_live {Q} {BQ : ByteQueue Q} {BQL : ByteQueueLaws Q}
    {B} {BF : BloomFilter B} {K} {EK : EventKernel K} shm_dir pid seen now ping
    (st : MState Q B K) :
  mgr_ok shm_dir pid st →
  let tok := ping_slot_token ping in let i := Z.to_nat (slot_index tok) in
  let '(b, st') := touch_ping seen now ping st in
  mgr_ok shm_dir pid st' ∧ (∀ j, j ≠ i → view st' j = view st j) ∧
  match view st i with
  | Some (ptr, c, q) =>
      if bool_decide (connection_id c ≠ generation tok) then b = false ∧ st' = st
      else if bool_decide (last_seen_ms c + SLOT_IDLE_TIMEOUT_ms < seen)
      then b = false ∧ view st' i = None
      else b = true ∧ view st' i = Some (ptr, set_last_seen c now, q)
  | None => b = false ∧ st' = st
  end.
Proof.
  intros Hok. pose proof (touch_ping_eq _ _ seen now ping st Hok) as H. cbv zeta in H |- *.
  destruct (view st (Z.to_nat _)) as [[[ptr c] q]|].
  2: { rewrite H. done. }
  assert (is_stale seen c = bool_decide (last_seen_ms c + SLOT_IDLE_TIMEOUT_ms < seen)) as Hs.
  { unfold is_stale, saturating_sub, SLOT_IDLE_TIMEOUT_ms. apply bool_decide_ext. lia. }
  rewrite <-Hs.
  destruct (bool_decide (connection_id c ≠ generation (ping_slot_token ping))).
  { by rewrite H. }
  destruct (touch_ping seen now ping st) as [b st']. cbn in H.
  destruct (is_stale seen c); destruct H as [-> [L1 L2 L3 L4 L5]]; done.
Qed.

Lemma ping_renews_only_live_witness :
  (touch_ping 31000 31000 (mkPingRequest (mkSlotToken 0 1)) Demo.one).1 = true ∧
  (touch_ping 31001 31001 (mkPingRequest (mkSlotToken 0 1)) Demo.one).1 = false.
Proof.
  destruct Demo.one_view as (ring & efd & q & Hv & _).
  pose proof (@ping_renews_only_live _ list_byte_queue list_byte_queue_laws _ exact_bloom
    _ sim_event_kernel Demo.dir 7 31000 31000 (mkPingRequest (mkSlotToken 0 1)) Demo.one
    Demo.one_ok) as H1.
  pose proof (@ping_renews_only_live _ list_byte_queue list_byte_queue_laws _ exact_bloom
    _ sim_event_kernel Demo.dir 7 31001 31001 (mkPingRequest (mkSlotToken 0 1)) Demo.one
    Demo.one_ok) as H2.
  cbv zeta in H1, H2. cbn [ping_slot_token slot_index] in H1, H2.
  change (Z.to_nat 0) with 0%nat in H1, H2. rewrite Hv in H1, H2.
  cbn [connection_id generation last_seen_ms] in H1, H2.
  destruct (touch_ping 31000 _ _ _) as [b1 s1], (touch_ping 31001 _ _ _) as [b2 s2].
  rewrite bool_decide_false, bool_decide_false in H1 by (vm_compute; tauto || discriminate).
  rewrite bool_decide_false, bool_decide_true in H2 by (vm_compute; tauto || reflexivity).
  cbn. split; [apply H1|apply H2].
Defined.
