(* ===== verification/Races.v ===== *)
(** * Races on the connection table

    In the program the handlers of [src/src/sender/mod.rs] run on several tasks at
    once.  Here every access they make to a slot or to a connection is a step of its own
    and the steps of different tasks interleave freely: loading a slot (which takes a
    reference), closing or pushing to a connection one holds, writing its cells, the
    two compare-and-swaps, and dropping a reference, which frees the connection and
    unlinks its ring file only when it was the last.  A consumer process that has a
    ring mapped may pop from it at any time, also after its file is gone.  A push or a
    close is one step with the notification that follows it, and a pop is one step with
    its two reads: the notification touches nothing else here, and [Wakeup.v] takes it
    apart.  The steps are the memory operations of [Manager.v]; each handler of that
    file, run alone, is a sequence of them. *)

From stdpp Require Import prelude gmap strings pretty relations.
From S2P Require Import Prelude Errors WireCodec DataFrames ControlFrames Metrics EventFd Ring Transport.
From S2P Require Import Filter Manager ManagerInv ManagerSpec.

Section races.
Context {Q : Type} {BQ : ByteQueue Q} {BQL : ByteQueueLaws Q}.
Context {B : Type} {BF : BloomFilter B}.
Context {K : Type} {EK : EventKernel K}.
Context (shm_dir : string) (pid cap : Z) (Hcap : cap ≤ 2 ^ 63).
Implicit Types (st : MState Q B K) (c : ManagedConnection B K) (ptr i : nat) (q : Q).

(** The shared state with what the tasks hold: references to connections taken
    from slots, connections allocated and not yet installed, and the connection ids
    drawn by subscriptions that have no connection at the moment. *)
Record RaceState := mkRace {
  ra_st : MState Q B K; held : list nat; pending : list nat; drawn : list Z }.

(** The end of a local [Arc] when other tasks hold [others]. *)
Definition drop_arc (others : list nat) ptr st : MState Q B K :=
  if bool_decide (ptr ∈ others) then st else release ptr st.

(** Memory after [upsert_shm] has allocated [managed] for slot [i]. *)
Definition allocated st i (id now : Z) (ring : ShmRingProducer) (s : Shm Q)
    (filter : SubscriptionFilter B) (efd : K) : MState Q B K :=
  mkMState (connections st) (next_connection_id st)
    (<[next_ptr st := mkManaged i id filter (mkSink ring efd) now]> (heap st))
    (S (next_ptr st)) s.

Inductive astep : RaceState → RaceState → Prop :=
| a_load i ptr st h p d :
    load st i = Some ptr → astep (mkRace st h p d) (mkRace st (ptr :: h) p d)
| a_close ptr st h p d :
    ptr ∈ h → astep (mkRace st h p d) (mkRace (close_entry ptr st) h p d)
| a_push ptr frame st h p d :
    ptr ∈ h → astep (mkRace st h p d) (mkRace (push_entry ptr frame st).2 h p d)
| a_renew ptr now st h p d :
    ptr ∈ h →
    astep (mkRace st h p d) (mkRace (update_entry ptr (λ c, set_last_seen c now) st) h p d)
| a_store_filter ptr f st h p d :
    ptr ∈ h →
    astep (mkRace st h p d) (mkRace (update_entry ptr (λ c, set_filter c f) st) h p d)
| a_swap_out i ptr st h p d :
    ptr ∈ h →
    astep (mkRace st h p d) (mkRace (compare_and_swap i (Some ptr) None st).2 h p d)
| a_drop ptr st h h' p d :
    h ≡ₚ ptr :: h' → astep (mkRace st h p d) (mkRace (drop_arc h' ptr st) h' p d)
| a_draw st h p d :
    next_connection_id st < u64_max →
    astep (mkRace st h p d) (mkRace (bump st) h p (next_connection_id st :: d))
| a_alloc i id now env ring s filter efd st h p d d' :
    (i < MAX_CONNECTION_SLOTS)%nat → d ≡ₚ id :: d' →
    create env (conn_path shm_dir pid i id) cap (shm st) = (Ok ring, s) →
    astep (mkRace st h p d)
      (mkRace (allocated st i id now ring s filter efd) h (next_ptr st :: p) d')
| a_create_failed i id env e s st h p d :
    id ∈ d → create env (conn_path shm_dir pid i id) cap (shm st) = (Err e, s) →
    astep (mkRace st h p d) (mkRace (set_shm st s) h p d)
| a_eventfd_failed i id env ring s st h p d :
    id ∈ d → create env (conn_path shm_dir pid i id) cap (shm st) = (Ok ring, s) →
    astep (mkRace st h p d) (mkRace (set_shm st (drop_producer ring s)) h p d)
| a_install ptr c st h p p' d :
    p ≡ₚ ptr :: p' → heap st !! ptr = Some c → load st (mc_slot_index c) = None →
    astep (mkRace st h p d)
      (mkRace (compare_and_swap (mc_slot_index c) None (Some ptr) st).2 (ptr :: h) p' d)
| a_lost ptr c st h p p' d :
    p ≡ₚ ptr :: p' → heap st !! ptr = Some c → load st (mc_slot_index c) ≠ None →
    astep (mkRace st h p d) (mkRace (release ptr st) h p' (connection_id c :: d))
| a_give_up id st h p d d' :
    d ≡ₚ id :: d' → astep (mkRace st h p d) (mkRace st h p d')
| a_pop ino (cr : ShmRingConsumer) q st h p d :
    queues (shm st) !! ino = Some q →
    astep (mkRace st h p d)
      (mkRace (set_shm st (mkShm (files (shm st)) (<[ino := (try_pop cr q).2]> (queues (shm st)))
                 (next_inode (shm st)))) h p d).

(** ** The invariant of every interleaving *)

(** A connection in memory, in a slot or not. *)
Record live st c q : Prop := mkLive {
  lv_index : (mc_slot_index c < MAX_CONNECTION_SLOTS)%nat;
  lv_id : 1 ≤ connection_id c < next_connection_id st;
  lv_path : p_path (mc_ring c) = conn_path shm_dir pid (mc_slot_index c) (connection_id c);
  lv_file : files (shm st) !! p_path (mc_ring c) = Some (p_inode (mc_ring c));
  lv_owns : owns_file (mc_ring c) = true;
  lv_queue : queues (shm st) !! p_inode (mc_ring c) = Some q;
  lv_cap : p_capacity (mc_ring c) = bq_capacity q;
}.

Record race_ok (r : RaceState) : Prop := mkRaceOk {
  ra_len : length (connections (ra_st r)) = MAX_CONNECTION_SLOTS;
  ra_live ptr c : heap (ra_st r) !! ptr = Some c →
    (ptr < next_ptr (ra_st r))%nat ∧ ∃ q, live (ra_st r) c q;
  ra_slot i ptr : load (ra_st r) i = Some ptr →
    ∃ c, heap (ra_st r) !! ptr = Some c ∧ mc_slot_index c = i;
  ra_local ptr : ptr ∈ held r ∨ ptr ∈ pending r → is_Some (heap (ra_st r) !! ptr);
  ra_reach ptr c : heap (ra_st r) !! ptr = Some c →
    (∃ i, load (ra_st r) i = Some ptr) ∨ ptr ∈ held r ∨ ptr ∈ pending r;
  ra_pending : NoDup (pending r) ∧ ∀ ptr, ptr ∈ pending r →
    (ptr ∉ held r) ∧ ∀ i, load (ra_st r) i ≠ Some ptr;
  ra_ids ptr ptr' c c' : heap (ra_st r) !! ptr = Some c → heap (ra_st r) !! ptr' = Some c' →
    connection_id c = connection_id c' → ptr = ptr';
  ra_inodes ptr ptr' c c' : heap (ra_st r) !! ptr = Some c → heap (ra_st r) !! ptr' = Some c' →
    p_inode (mc_ring c) = p_inode (mc_ring c') → ptr = ptr';
  ra_drawn : NoDup (drawn r) ∧ ∀ id, id ∈ drawn r → 1 ≤ id < next_connection_id (ra_st r) ∧
    ∀ ptr c, heap (ra_st r) !! ptr = Some c → connection_id c ≠ id;
  ra_files path ino : files (shm (ra_st r)) !! path = Some ino →
    ∃ ptr c, heap (ra_st r) !! ptr = Some c ∧ p_path (mc_ring c) = path;
  ra_shm : shm_wf (shm (ra_st r));
  ra_next : 1 ≤ next_connection_id (ra_st r);
}.

(** With nothing held or pending this is the manager's own invariant. *)
Lemma race_ok_quiescent st d : race_ok (mkRace st [] [] d) → mgr_ok shm_dir pid st.
Proof.
  intros [H1 H2 H3 _ H5 _ H7 H8 _ H10 H11 H12]. cbn in *.
  assert (∀ i ptr, load st i = Some ptr → ∃ c q, view st i = Some (ptr, c, q) ∧
    heap st !! ptr = Some c ∧ mc_slot_index c = i ∧ live st c q) as Hview.
  { intros i ptr Hl. destruct (H3 _ _ Hl) as (c & Hc & Hi). destruct (H2 _ _ Hc) as (_ & q & Hq).
    exists c, q. split; [|done]. apply view_Some. split_and!; [done|done|apply Hq]. }
  assert (∀ i p c q, view st i = Some (p, c, q) → load st i = Some p ∧ heap st !! p = Some c) as Hinv.
  { intros i p c q (? & ? & _)%view_Some. done. }
  split; [done| | | | | |done|done].
  - intros i ptr (c & q & Hv & _ & <- & [? ? ? ? ? ? ?])%Hview. exists c, q. done.
  - intros i j pi pj ci cj qi qj [Li Hi]%Hinv [Lj Hj]%Hinv Heq.
    assert (pi = pj) as -> by (by eapply H8). destruct (H3 _ _ Li) as (c1 & E1 & <-).
    destruct (H3 _ _ Lj) as (c2 & E2 & <-). congruence.
  - intros i j pi pj ci cj qi qj [Li Hi]%Hinv [Lj Hj]%Hinv Heq.
    assert (pi = pj) as -> by (by eapply H7). destruct (H3 _ _ Li) as (c1 & E1 & <-).
    destruct (H3 _ _ Lj) as (c2 & E2 & <-). congruence.
  - intros ptr c Hc. split; [by apply (H2 _ _ Hc)|].
    destruct (H5 _ _ Hc) as [?|[[]%not_elem_of_nil|[]%not_elem_of_nil]]. done.
  - intros path ino (ptr & c & Hc & Hp)%H10.
    destruct (H5 _ _ Hc) as [[i Hl]|[[]%not_elem_of_nil|[]%not_elem_of_nil]].
    destruct (Hview _ _ Hl) as (c' & q & Hv & Hc' & _). simplify_eq. by exists i, ptr, c, q.
Qed.

(** ** Every step preserves it *)
Lemma live_transfer st st' c c' q q' :
  next_connection_id st ≤ next_connection_id st' →
  files (shm st') !! p_path (mc_ring c) = files (shm st) !! p_path (mc_ring c) →
  queues (shm st') !! p_inode (mc_ring c) = Some q' → same_conn c c' →
  bq_capacity q' = bq_capacity q → live st c q → live st' c' q'.
Proof.
  intros Hn Hf Hq (E1 & E2 & (E3 & E4 & E5 & E6)) Hk [H1 H2 H3 H4 H5 H6 H7].
  split; rewrite ?E1, ?E2, ?E3, ?E5, ?E6; [done|lia|done|congruence|done|done|congruence].
Qed.

Lemma put_race ptr c c' q q' st h p d :
  race_ok (mkRace st h p d) → heap st !! ptr = Some c →
  queues (shm st) !! p_inode (mc_ring c) = Some q →
  same_conn c c' → bq_capacity q' = bq_capacity q →
  race_ok (mkRace (put ptr c' q' st) h p d).
Proof.
  intros [H1 H2 H3 H4 H5 H6 H7 H8 H9 H10 H11 H12] Hc Hq Hs Hk. cbn in *.
  assert (∀ x cx, <[ptr:=c']> (heap st) !! x = Some cx →
    ∃ c0, heap st !! x = Some c0 ∧ same_conn c0 cx) as Hinv.
  { intros x cx [[<- <-]|[_ Hx]]%lookup_insert_Some; eauto. by exists cx. }
  assert (∀ x cx, heap st !! x = Some cx →
    ∃ c0, <[ptr:=c']> (heap st) !! x = Some c0 ∧ same_conn cx c0) as Hfwd.
  { intros x cx Hx. destruct (decide (ptr = x)) as [<-|Hne].
    - exists c'. rewrite lookup_insert_eq. by simplify_eq.
    - exists cx. by rewrite lookup_insert_ne. }
  split; cbn; try done.
  - intros x cx [[<- <-]|[Hne Hx]]%lookup_insert_Some.
    + destruct (H2 _ _ Hc) as (Hlt & q0 & Hl). split; [done|]. exists q'.
      eapply (live_transfer st); [done|done| |done| |exact Hl]; cbn.
      * destruct Hs as (_ & _ & (-> & _)). by rewrite lookup_insert_eq.
      * rewrite (lv_queue _ _ _ Hl) in Hq. by simplify_eq.
    + destruct (H2 _ _ Hx) as (Hlt & qx & Hl). split; [done|]. exists qx.
      eapply (live_transfer st); [done|done| |done|done|exact Hl]; cbn.
      rewrite lookup_insert_ne; [apply Hl|]. destruct Hs as (_ & _ & (-> & _)).
      intros Heq. by eapply Hne, H8.
  - intros i x Hl. destruct (H3 _ _ Hl) as (cx & Hx & <-).
    destruct (Hfwd _ _ Hx) as (c0 & ? & (? & _)). by exists c0.
  - intros x Hx. destruct (H4 _ Hx) as [cx Hcx]. destruct (Hfwd _ _ Hcx) as (c0 & -> & _). eauto.
  - intros x cx (c0 & Hx & _)%Hinv. by eapply H5.
  - intros x y cx cy (c1 & E1 & (_ & F1 & _))%Hinv (c2 & E2 & (_ & F2 & _))%Hinv Heq.
    eapply H7; [done..|congruence].
  - intros x y cx cy (c1 & E1 & (_ & _ & (F1 & _)))%Hinv (c2 & E2 & (_ & _ & (F2 & _)))%Hinv Heq.
    eapply H8; [done..|congruence].
  - split; [apply H9|]. intros id Hid. destruct H9 as [_ H9]. destruct (H9 _ Hid) as [? Hne].
    split; [done|]. intros x cx (c0 & Hx & (_ & -> & _))%Hinv. by eapply Hne.
  - intros path ino (x & cx & Hx & Hp)%H10. destruct (Hfwd _ _ Hx) as (c0 & ? & (_ & _ & Hr)).
    exists x, c0. split; [done|]. by destruct Hr as (_ & _ & -> & _).
  - destruct H11 as [F1 F2]. split; [done|]. cbn. apply map_Forall_insert_2; [|done].
    destruct Hs as (_ & _ & (-> & _)). by apply F2 in Hq.
Qed.

(** A write through a reference one holds never dangles. *)
Lemma deref_race ptr st h p d :
  race_ok (mkRace st h p d) → ptr ∈ h →
  ∃ c q, deref st ptr = Some (c, q) ∧ heap st !! ptr = Some c ∧
    queues (shm st) !! p_inode (mc_ring c) = Some q.
Proof.
  intros Hok Hh. destruct (ra_local _ Hok ptr (or_introl Hh)) as [c Hc]. cbn in Hc.
  destruct (ra_live _ Hok _ _ Hc) as (_ & q & Hl). pose proof (lv_queue _ _ _ Hl) as Hq.
  exists c, q. split_and!; [|done|done]. unfold deref. rewrite Hc. cbn in *. by rewrite Hq.
Qed.

Lemma update_race ptr f st h p d :
  race_ok (mkRace st h p d) → ptr ∈ h → (∀ c, same_conn c (f c)) →
  race_ok (mkRace (update_entry ptr f st) h p d).
Proof.
  intros Hok Hh Hf. destruct (deref_race _ _ _ _ _ Hok Hh) as (c & q & E & Hc & Hq).
  unfold update_entry. rewrite E. by eapply put_race.
Qed.

Lemma close_race ptr st h p d :
  race_ok (mkRace st h p d) → ptr ∈ h → race_ok (mkRace (close_entry ptr st) h p d).
Proof.
  intros Hok Hh. destruct (deref_race _ _ _ _ _ Hok Hh) as (c & q & E & Hc & Hq).
  unfold close_entry. rewrite E. cbn. eapply put_race; [done..|].
  apply (bq_write_capacity (u32_le CLOSE_SENTINEL) q).
Qed.

Lemma push_race ptr frame st h p d :
  race_ok (mkRace st h p d) → ptr ∈ h →
  race_ok (mkRace (push_entry ptr frame st).2 h p d).
Proof.
  intros Hok Hh. destruct (deref_race _ _ _ _ _ Hok Hh) as (c & q & E & Hc & Hq).
  unfold push_entry. rewrite E. pose proof (sink_try_push_same (mc_sink c) frame q) as Hs.
  destruct (sink_try_push _ _ _) as [[r s] q']. destruct Hs as (_ & Hr & Hk). cbn.
  by eapply put_race.
Qed.

(** Swaps of a slot. *)
Lemma swap_out_race i ptr st h p d :
  race_ok (mkRace st h p d) → ptr ∈ h →
  race_ok (mkRace (compare_and_swap i (Some ptr) None st).2 h p d).
Proof.
  intros Hok Hh. unfold compare_and_swap. cbn. case_bool_decide as Hl; [|done].
  destruct Hok as [H1 H2 H3 H4 H5 H6 H7 H8 H9 H10 H11 H12]. cbn in *.
  assert (∀ j x, load (set_connections st (<[i:=None]> (connections st))) j = Some x →
    load st j = Some x) as Hload.
  { intros j x. destruct (decide (i = j)) as [<-|Hne]; [|by rewrite load_insert_other].
    by rewrite load_insert_same by (by eapply load_lt). }
  split; cbn; try done.
  - by rewrite length_insert.
  - intros x c Hx. destruct (H2 _ _ Hx) as (? & q & [? ? ? ? ? ? ?]). split; [done|]. by exists q.
  - intros j x Hx%Hload. by apply H3.
  - intros x c Hx. destruct (H5 _ _ Hx) as [[j Hj]|?]; [|by right].
    destruct (decide (i = j)) as [<-|Hne].
    + right. left. by simplify_eq.
    + left. exists j. by rewrite load_insert_other.
  - split; [apply H6|]. intros x Hx. destruct H6 as [_ H6]. destruct (H6 _ Hx) as [? Hn].
    split; [done|]. intros j Hj%Hload. by eapply Hn.
Qed.

Lemma install_race ptr c st h p p' d :
  race_ok (mkRace st h p d) → p ≡ₚ ptr :: p' → heap st !! ptr = Some c →
  load st (mc_slot_index c) = None →
  race_ok (mkRace (compare_and_swap (mc_slot_index c) None (Some ptr) st).2 (ptr :: h) p' d).
Proof.
  intros [H1 H2 H3 H4 H5 H6 H7 H8 H9 H10 H11 H12] Hp Hc Hfree. cbn in *.
  unfold compare_and_swap. rewrite Hfree, bool_decide_true by done. cbn.
  set (i := mc_slot_index c) in *. destruct (H2 _ _ Hc) as (_ & q0 & Hlv).
  pose proof (lv_index _ _ _ Hlv) as Hi. fold i in Hi. rewrite <-H1 in Hi.
  destruct H6 as [Hnd H6]. rewrite Hp in Hnd. apply NoDup_cons in Hnd as [Hnin Hnd].
  assert (∀ x, x ∈ p ↔ x = ptr ∨ x ∈ p') as Hin by (intros x; rewrite Hp; apply elem_of_cons).
  assert (∀ j x, load (set_connections st (<[i:=Some ptr]> (connections st))) j = Some x →
    (j = i ∧ x = ptr) ∨ load st j = Some x) as Hload.
  { intros j x. destruct (decide (i = j)) as [<-|Hne].
    - rewrite load_insert_same by done. naive_solver.
    - rewrite load_insert_other by done. by right. }
  split; cbn; try done.
  - by rewrite length_insert.
  - intros x cx Hx. destruct (H2 _ _ Hx) as (? & q & [? ? ? ? ? ? ?]). split; [done|]. by exists q.
  - intros j x [[-> ->]|Hx]%Hload; [by exists c|by apply H3].
  - intros x Hx. apply H4. rewrite Hin. rewrite elem_of_cons in Hx. tauto.
  - intros x cx Hx. destruct (decide (x = ptr)) as [->|Hne]; [by right; left; left|].
    destruct (H5 _ _ Hx) as [[j Hj]|Hx'].
    + left. exists j. rewrite load_insert_other; [done|]. intros <-. congruence.
    + right. rewrite Hin in Hx'. rewrite elem_of_cons. tauto.
  - split; [done|]. intros x Hx. destruct (H6 x) as [A1 A2]; [by rewrite Hin; right|].
    assert (x ≠ ptr) by (by intros ->). split; [rewrite elem_of_cons; tauto|].
    intros j [[-> ->]|Hj]%Hload; [done|by eapply A2].
Qed.

(** Freeing a connection that no slot and no other task refers to. *)
Lemma free_race ptr c st h p d h' p' d' :
  race_ok (mkRace st h p d) → heap st !! ptr = Some c → (∀ i, load st i ≠ Some ptr) →
  (∀ x, x ∈ h' ↔ x ∈ h ∧ x ≠ ptr) → (∀ x, x ∈ p' ↔ x ∈ p ∧ x ≠ ptr) → NoDup p' →
  d' = d ∨ d' = connection_id c :: d →
  race_ok (mkRace (release ptr st) h' p' d').
Proof.
  intros [H1 H2 H3 H4 H5 H6 H7 H8 H9 H10 H11 H12] Hc Hfree Hh Hp Hnd Hd. cbn in *.
  destruct (H2 _ _ Hc) as (_ & q0 & Hl).
  assert (Some ptr ∉ connections st) as Hnot.
  { intros [i Hi]%list_elem_of_lookup. apply (Hfree i). unfold load. by rewrite Hi. }
  unfold release. rewrite bool_decide_false, Hc by done.
  unfold drop_producer. rewrite (lv_owns _ _ _ Hl).
  assert (∀ x cx, delete ptr (heap st) !! x = Some cx → x ≠ ptr ∧ heap st !! x = Some cx) as Hinv.
  { intros x cx [? ?]%lookup_delete_Some. done. }
  assert (∀ x cx, x ≠ ptr → heap st !! x = Some cx → p_path (mc_ring cx) ≠ p_path (mc_ring c)) as Hpath.
  { intros x cx Hne Hx Heq. destruct (H2 _ _ Hx) as (_ & qx & Hlx). apply Hne.
    pose proof (lv_file _ _ _ Hl) as F1. pose proof (lv_file _ _ _ Hlx) as F2.
    rewrite Heq, F1 in F2. injection F2 as F2. by eapply H8. }
  split; cbn; try done.
  - intros x cx [Hne Hx]%Hinv. destruct (H2 _ _ Hx) as (? & q & Hlx). split; [done|]. exists q.
    eapply (live_transfer st); [done| |apply Hlx|done|done|done]. cbn.
    apply lookup_delete_ne. intros Heq. by eapply Hpath.
  - intros i x Hx. destruct (H3 _ _ Hx) as (cx & Hcx & <-). exists cx. split; [|done].
    rewrite lookup_delete_ne; [done|]. intros ->. by eapply Hfree.
  - intros x Hx. rewrite Hh, Hp in Hx. rewrite lookup_delete_ne by naive_solver.
    apply H4. tauto.
  - intros x cx [Hne Hx]%Hinv. rewrite Hh, Hp. destruct (H5 _ _ Hx) as [?|[?|?]]; tauto.
  - split; [done|]. intros x [Hx _]%Hp. destruct H6 as [_ H6]. destruct (H6 _ Hx) as [A1 A2].
    split; [rewrite Hh; tauto|done].
  - intros x y cx cy [_ Hx]%Hinv [_ Hy]%Hinv. by apply H7.
  - intros x y cx cy [_ Hx]%Hinv [_ Hy]%Hinv. by apply H8.
  - destruct H9 as [N1 N2]. split.
    + destruct Hd as [->| ->]; [done|]. apply NoDup_cons. split; [|done].
      intros Hin. by apply (N2 _ Hin) in Hc.
    + intros id Hid. assert (id ∈ d ∨ id = connection_id c) as [Hi| ->].
      { destruct Hd as [->| ->]; [by left|]. apply elem_of_cons in Hid. tauto. }
      * destruct (N2 _ Hi) as [? Hn]. split; [done|]. intros x cx [_ Hx]%Hinv. by eapply Hn.
      * split; [apply Hl|]. intros x cx [Hne Hx]%Hinv Heq. by eapply Hne, H7.
  - intros path ino [Hne (x & cx & Hx & <-)%H10]%lookup_delete_Some. exists x, cx.
    split; [|done]. rewrite lookup_delete_ne; [done|]. intros ->. congruence.
  - by apply remove_file_wf.
Qed.

Lemma drop_race ptr st h h' p d :
  race_ok (mkRace st h p d) → h ≡ₚ ptr :: h' → race_ok (mkRace (drop_arc h' ptr st) h' p d).
Proof.
  intros Hok Hh.
  assert (∀ x, x ∈ h ↔ x = ptr ∨ x ∈ h') as Hin by (intros x; rewrite Hh; apply elem_of_cons).
  destruct (ra_local _ Hok ptr) as [c Hc]; [left; apply Hin; by left|]. cbn in Hc.
  (* the reference was not the last one *)
  assert ((∃ i, load st i = Some ptr) ∨ ptr ∈ h' → race_ok (mkRace st h' p d)) as Hkeep.
  { intros Hother. destruct Hok as [H1 H2 H3 H4 H5 [H6 H6'] H7 H8 H9 H10 H11 H12]. cbn in *.
    split; cbn; try done.
    - intros x Hx. apply H4. rewrite Hin. tauto.
    - intros x cx Hx. destruct (H5 _ _ Hx) as [?|[Hx'|?]]; [tauto| |tauto].
      apply Hin in Hx' as [->|?]; [|tauto]. destruct Hother; tauto.
    - split; [done|]. intros x Hx. destruct (H6' _ Hx) as [A1 A2]. rewrite Hin in A1.
      split; [tauto|done]. }
  unfold drop_arc. case_bool_decide as Hd; [by apply Hkeep; right|].
  destruct (decide (Some ptr ∈ connections st)) as [[i Hi]%list_elem_of_lookup|Hnot].
  - assert (load st i = Some ptr) as Hl by (unfold load; by rewrite Hi).
    rewrite (release_held st i ptr Hl). apply Hkeep. eauto.
  - assert (ptr ∉ p) as Hp.
    { intros Hp. destruct (ra_pending _ Hok) as [_ Hpend]. destruct (Hpend _ Hp) as [A _].
      apply A. cbn. apply Hin. by left. }
    apply (free_race ptr c st h p d); try done.
    + intros i Hl. apply Hnot. unfold load in Hl. destruct (connections st !! i) eqn:E; [|done].
      cbn in Hl. subst. by eapply list_elem_of_lookup_2.
    + intros x. rewrite Hin. split; [intros Hx; split; [tauto|congruence]|tauto].
    + intros x. split; [intros Hx; split; [done|congruence]|tauto].
    + apply (ra_pending _ Hok).
    + by left.
Qed.

Lemma lost_race ptr c st h p p' d :
  race_ok (mkRace st h p d) → p ≡ₚ ptr :: p' → heap st !! ptr = Some c →
  race_ok (mkRace (release ptr st) h p' (connection_id c :: d)).
Proof.
  intros Hok Hp Hc. destruct (ra_pending _ Hok) as [Hnd Hpend]. cbn in *.
  assert (∀ x, x ∈ p ↔ x = ptr ∨ x ∈ p') as Hin by (intros x; rewrite Hp; apply elem_of_cons).
  rewrite Hp in Hnd. apply NoDup_cons in Hnd as [Hnin Hnd].
  destruct (Hpend ptr) as [A1 A2]; [apply Hin; by left|].
  apply (free_race ptr c st h p d); try done.
  - intros x. split; [intros Hx; split; [done|congruence]|tauto].
  - intros x. rewrite Hin. split; [intros Hx; split; [tauto|congruence]|tauto].
  - by right.
Qed.

(** Changes of the store that keep its files. *)
Lemma set_shm_race s st h p d :
  race_ok (mkRace st h p d) → files s = files (shm st) → queues (shm st) ⊆ queues s → shm_wf s →
  race_ok (mkRace (set_shm st s) h p d).
Proof.
  intros [H1 H2 H3 H4 H5 H6 H7 H8 H9 H10 H11 H12] Hf Hq Hwf. cbn in *.
  split; cbn; try done.
  - intros x cx Hx. destruct (H2 _ _ Hx) as (? & q & Hl). split; [done|]. exists q.
    eapply (live_transfer st); [done|cbn; by rewrite Hf| |done|done|done].
    eapply lookup_weaken; [apply Hl|done].
  - intros path ino. rewrite Hf. apply H10.
Qed.

Lemma create_failed_race env path e s st h p d :
  race_ok (mkRace st h p d) → create env path cap (shm st) = (Err e, s) →
  race_ok (mkRace (set_shm st s) h p d).
Proof.
  intros Hok E. pose proof (create_cases env path cap (shm st)) as Hc.
  pose proof (create_wf env path cap (shm st) (ra_shm _ Hok) Hcap) as Hwf. rewrite E in *.
  destruct Hc as (_ & Hf & Hq & _). apply set_shm_race; [done|done|by rewrite Hq|done].
Qed.

Lemma eventfd_failed_race env path ring s st h p d :
  race_ok (mkRace st h p d) → create env path cap (shm st) = (Ok ring, s) →
  race_ok (mkRace (set_shm st (drop_producer ring s)) h p d).
Proof.
  intros Hok E. pose proof (create_cases env path cap (shm st)) as Hc.
  pose proof (create_wf env path cap (shm st) (ra_shm _ Hok) Hcap) as Hwf. rewrite E in *.
  destruct Hc as (_ & Hf & q & Hq & -> & ->). cbn in *. apply set_shm_race; [done| | |].
  - cbn. by rewrite delete_insert_id.
  - cbn. apply insert_subseteq. destruct (queues (shm st) !! next_inode (shm st)) eqn:Eq; [|done].
    destruct (ra_shm _ Hok) as [_ H2]. apply H2 in Eq. cbn in Eq. lia.
  - by apply (remove_file_wf path).
Qed.

Lemma draw_race st h p d :
  race_ok (mkRace st h p d) → race_ok (mkRace (bump st) h p (next_connection_id st :: d)).
Proof.
  intros [H1 H2 H3 H4 H5 H6 H7 H8 [H9 H9'] H10 H11 H12]. cbn in *.
  split; cbn; try done; [| |lia].
  - intros x cx Hx. destruct (H2 _ _ Hx) as (? & q & Hl). split; [done|]. exists q.
    eapply (live_transfer st); [cbn; lia|done|apply Hl|done|done|done].
  - split.
    + apply NoDup_cons. split; [|done]. intros Hin. apply H9' in Hin as [? _]. lia.
    + intros id [->|Hid]%elem_of_cons.
      * split; [lia|]. intros x cx Hx Heq. destruct (H2 _ _ Hx) as (_ & q & Hl).
        pose proof (lv_id _ _ _ Hl). lia.
      * destruct (H9' _ Hid) as [? ?]. split; [lia|done].
Qed.

(** A key that stays unique when a connection with a new one is added. *)
Lemma insert_unique {A} (f : ManagedConnection B K → A) (m : gmap nat (ManagedConnection B K)) x c :
  (∀ y cy, m !! y = Some cy → f cy ≠ f c) →
  (∀ y z cy cz, m !! y = Some cy → m !! z = Some cz → f cy = f cz → y = z) →
  ∀ y z cy cz, <[x:=c]> m !! y = Some cy → <[x:=c]> m !! z = Some cz → f cy = f cz → y = z.
Proof.
  intros Hnew Hm y z cy cz [[<- <-]|[_ Hy]]%lookup_insert_Some
    [[<- <-]|[_ Hz]]%lookup_insert_Some Heq; [done| | |by eapply Hm].
  - by destruct (Hnew _ _ Hz).
  - by destruct (Hnew _ _ Hy).
Qed.

(** The other connections are as alive as before. *)
Lemma alloc_live i id now q filter efd st x cx :
  (∃ qx, live st cx qx) → files (shm st) !! conn_path shm_dir pid i id = None →
  p_inode (mc_ring cx) ≠ next_inode (shm st) → heap st !! x = Some cx →
  let s := mkShm (<[conn_path shm_dir pid i id := next_inode (shm st)]> (files (shm st)))
             (<[next_inode (shm st) := q]> (queues (shm st))) (S (next_inode (shm st))) in
  let ring := mkProducer (next_inode (shm st)) (next_power_of_two cap)
                (conn_path shm_dir pid i id) 0 true in
  ∃ qx, live (allocated st i id now ring s filter efd) cx qx.
Proof.
  intros (qx & Hl) Hnone Hino Hx s ring. exists qx.
  eapply (live_transfer st); [done| | |done|done|exact Hl]; cbn.
  - rewrite lookup_insert_ne; [done|]. intros Heq.
    pose proof (lv_file _ _ _ Hl) as Hf. by rewrite <-Heq, Hnone in Hf.
  - rewrite lookup_insert_ne; [apply Hl|done].
Qed.

Lemma alloc_race i id now env ring s filter efd st h p d d' :
  race_ok (mkRace st h p d) → (i < MAX_CONNECTION_SLOTS)%nat → d ≡ₚ id :: d' →
  create env (conn_path shm_dir pid i id) cap (shm st) = (Ok ring, s) →
  race_ok (mkRace (allocated st i id now ring s filter efd) h (next_ptr st :: p) d').
Proof.
  intros Hok Hi Hd E. pose proof (create_cases env (conn_path shm_dir pid i id) cap (shm st)) as Hc.
  pose proof (create_wf env (conn_path shm_dir pid i id) cap (shm st) (ra_shm _ Hok) Hcap) as Hwf.
  rewrite E in *. destruct Hc as (_ & Hnone & q & Hq & -> & ->). cbn in Hwf.
  destruct (bq_create_spec _ _ (next_power_of_two_is _) Hq) as [_ Hk].
  destruct Hok as [H1 H2 H3 H4 H5 [H6 H6'] H7 H8 [H9 H9'] H10 [H11 H11'] H12]. cbn in *.
  assert (∀ x, x ∈ d ↔ x = id ∨ x ∈ d') as Hin by (intros x; rewrite Hd; apply elem_of_cons).
  rewrite Hd in H9. apply NoDup_cons in H9 as [Hnin H9].
  destruct (H9' id) as [Hid Hnew]; [apply Hin; by left|].
  assert (heap st !! next_ptr st = None) as Hfresh.
  { destruct (heap st !! next_ptr st) eqn:Ex; [|done]. apply H2 in Ex as [? _]. lia. }
  assert (∀ x cx, heap st !! x = Some cx → p_inode (mc_ring cx) ≠ next_inode (shm st)) as Hino.
  { intros x cx Hx. destruct (H2 _ _ Hx) as (_ & qx & Hl). pose proof (lv_queue _ _ _ Hl) as Hqx.
    apply H11' in Hqx. cbn in Hqx. lia. }
  split; cbn; try done.
  - intros x cx [[<- <-]|[Hne Hx]]%lookup_insert_Some.
    + split; [lia|]. exists q. split; cbn; try done; by rewrite lookup_insert_eq.
    + destruct (H2 _ _ Hx) as (? & Hl). split; [lia|]. apply (alloc_live _ _ _ _ _ _ _ x); auto.
      by eapply Hino.
  - intros j x Hx. destruct (H3 _ _ Hx) as (cx & Hcx & Hj). exists cx. split; [|done].
    rewrite lookup_insert_ne; [done|]. intros <-. congruence.
  - intros x Hx. rewrite elem_of_cons in Hx. destruct (decide (x = next_ptr st)) as [->|Hne].
    + rewrite lookup_insert_eq. eauto.
    + rewrite lookup_insert_ne by done. apply H4. tauto.
  - intros x cx [[<- _]|[_ Hx]]%lookup_insert_Some.
    + right. right. by left.
    + rewrite elem_of_cons. destruct (H5 _ _ Hx) as [?|[?|?]]; tauto.
  - split.
    + apply NoDup_cons. split; [|done]. intros Hp. destruct (H4 (next_ptr st)) as [? ?]; [by right|].
      congruence.
    + intros x [->|Hx]%elem_of_cons; [|by apply H6']. split.
      * intros Hh. destruct (H4 (next_ptr st)) as [? ?]; [by left|]. congruence.
      * intros j Hj. destruct (H3 _ _ Hj) as (? & ? & _). congruence.
  - apply insert_unique; [|done]. cbn. intros y cy Hy. by eapply Hnew.
  - apply (insert_unique (λ c, p_inode (mc_ring c))); [|done]. intros y cy Hy. by eapply Hino.
  - split; [done|]. intros id' Hid'. destruct (H9' id') as [? Hn]; [apply Hin; by right|].
    split; [done|]. intros x cx [[<- <-]|[_ Hx]]%lookup_insert_Some; [|by eapply Hn].
    cbn. intros ->. done.
  - intros path ino [[<- _]|[Hne Hx]]%lookup_insert_Some.
    + eexists _, _. split; [apply lookup_insert_eq|done].
    + destruct (H10 _ _ Hx) as (x & cx & Hcx & <-). exists x, cx. split; [|done].
      rewrite lookup_insert_ne; [done|]. intros <-. congruence.
Qed.

(** A consumer takes a message out of a queue. *)
Lemma pop_race ino (cr : ShmRingConsumer) q st h p d :
  race_ok (mkRace st h p d) → queues (shm st) !! ino = Some q →
  race_ok (mkRace (set_shm st (mkShm (files (shm st)) (<[ino := (try_pop cr q).2]> (queues (shm st)))
             (next_inode (shm st)))) h p d).
Proof.
  intros [H1 H2 H3 H4 H5 H6 H7 H8 H9 H10 [F1 F2] H12] Hq. cbn in *.
  pose proof (try_pop_any cr q) as Hp. destruct (try_pop cr q) as [[r c'] q']. cbn.
  destruct Hp as (_ & _ & Hk & _). split; cbn; try done.
  - intros x cx Hx. destruct (H2 _ _ Hx) as (? & qx & Hl). split; [done|].
    destruct (decide (ino = p_inode (mc_ring cx))) as [->|Hne].
    + exists q'. eapply (live_transfer st); [done|done| |done| |exact Hl]; cbn.
      * by rewrite lookup_insert_eq.
      * rewrite (lv_queue _ _ _ Hl) in Hq. by simplify_eq.
    + exists qx. eapply (live_transfer st); [done|done| |done|done|exact Hl]; cbn.
      rewrite lookup_insert_ne; [apply Hl|done].
  - split; [done|]. cbn. apply map_Forall_insert_2; [|done]. by apply F2 in Hq.
Qed.

Lemma astep_ok r r' : race_ok r → astep r r' → race_ok r'.
Proof.
  intros Hok Hs. destruct Hs.
  - destruct Hok as [H1 H2 H3 H4 H5 [H6 H6'] H7 H8 H9 H10 H11 H12]. cbn in *.
    split; cbn; try done.
    + intros x. rewrite elem_of_cons. intros [[->|?]|?]; [|apply H4; tauto..].
      destruct (H3 _ _ H) as (c & -> & _). eauto.
    + intros x c Hx. rewrite elem_of_cons. destruct (H5 _ _ Hx) as [?|[?|?]]; tauto.
    + split; [done|]. intros x Hx. destruct (H6' _ Hx) as [A1 A2]. split; [|done].
      intros [->|?]%elem_of_cons; [by eapply A2|done].
  - by apply close_race.
  - by apply push_race.
  - by apply update_race.
  - by apply update_race.
  - by apply swap_out_race.
  - by eapply drop_race.
  - by apply draw_race.
  - by eapply alloc_race.
  - by eapply create_failed_race.
  - by eapply eventfd_failed_race.
  - by eapply install_race.
  - by eapply lost_race.
  - destruct Hok as [H1 H2 H3 H4 H5 H6 H7 H8 [H9 H9'] H10 H11 H12]. cbn in *.
    split; cbn; try done. rewrite H in H9. apply NoDup_cons in H9 as [_ H9]. split; [done|].
    intros x Hx. apply H9'. rewrite H. by right.
  - by apply pop_race.
Qed.

Lemma rtc_astep_ok r r' : race_ok r → rtc astep r r' → race_ok r'.
Proof. intros Hok H. induction H; eauto using astep_ok. Qed.

(** Conversely, the manager's invariant is the one of a state where no task is
    inside a handler. *)
Lemma quiescent_race_ok st : mgr_ok shm_dir pid st → race_ok (mkRace st [] [] []).
Proof.
  intros Hok.
  assert (∀ ptr c, heap st !! ptr = Some c → ∃ i q, load st i = Some ptr ∧
    view st i = Some (ptr, c, q) ∧ conn_ok shm_dir pid st i c q) as Hview.
  { intros ptr c Hc. destruct (ok_heap _ _ _ Hok _ _ Hc) as [_ [i Hl]].
    destruct (ok_load _ _ _ Hok _ _ Hl) as (c' & q & Hv & Hco). exists i, q.
    pose proof Hv as (_ & Hc' & _)%view_Some. by simplify_eq. }
  split; cbn.
  - apply Hok.
  - intros ptr c Hc. split; [by apply (ok_heap _ _ _ Hok _ _ Hc)|].
    destruct (Hview _ _ Hc) as (i & q & Hl & Hv & [C1 C2 C3 C4 C5 C6]). exists q.
    split; try done; [|by rewrite C1|by apply view_Some in Hv as (_ & _ & ?)].
    rewrite C1, <-(ok_len _ _ _ Hok). by eapply load_lt.
  - intros i ptr Hl. destruct (ok_load _ _ _ Hok _ _ Hl) as (c & q & Hv & Hco). exists c.
    split; [by apply view_Some in Hv as (_ & ? & _)|apply Hco].
  - intros ptr [[]%not_elem_of_nil|[]%not_elem_of_nil].
  - intros ptr c Hc. left. by apply (ok_heap _ _ _ Hok _ _ Hc).
  - split; [apply NoDup_nil_2|]. by intros ptr ?%not_elem_of_nil.
  - intros x y cx cy Hx Hy Heq. destruct (Hview _ _ Hx) as (i & q & Hl & Hv & _).
    destruct (Hview _ _ Hy) as (j & q' & Hl' & Hv' & _).
    assert (i = j) as -> by (by eapply (ok_ids _ _ _ Hok)). congruence.
  - intros x y cx cy Hx Hy Heq. destruct (Hview _ _ Hx) as (i & q & Hl & Hv & _).
    destruct (Hview _ _ Hy) as (j & q' & Hl' & Hv' & _).
    assert (i = j) as -> by (by eapply (ok_inode _ _ _ Hok)). congruence.
  - split; [apply NoDup_nil_2|]. by intros ptr ?%not_elem_of_nil.
  - intros path ino Hf. destruct (ok_files _ _ _ Hok _ _ Hf) as (i & ptr & c & q & Hv & Hp).
    exists ptr, c. split; [|done]. by apply view_Some in Hv as (_ & ? & _).
  - apply Hok.
  - apply Hok.
Qed.

(** ** Handlers are sequences of steps *)
Abbreviation task := (λ st h d, mkRace st h [] d).

Lemma drop_only ptr st d : rtc astep (task st [ptr] d) (task (release ptr st) [] d).
Proof.
  apply rtc_once. replace (release ptr st) with (drop_arc [] ptr st); [by apply a_drop|].
  unfold drop_arc. by rewrite bool_decide_false by apply not_elem_of_nil.
Qed.

(** Dropping a reference to a connection that is still installed changes nothing. *)
Lemma drop_installed i ptr st d :
  load st i = Some ptr → rtc astep (task st [ptr] d) (task st [] d).
Proof. intros Hl. rewrite <-(release_held st i ptr Hl) at 2. apply drop_only. Qed.

Lemma cleanup_steps now i ptr st d :
  rtc astep (task st [ptr] d) (task (maybe_cleanup_stale_slot now i ptr st).2 [ptr] d).
Proof.
  unfold maybe_cleanup_stale_slot. destruct (heap st !! ptr); [|done].
  destruct (negb _); [done|]. cbn. eapply rtc_l; [apply (a_close ptr); by left|].
  apply rtc_once. apply (a_swap_out i ptr). by left.
Qed.

Lemma loaded_conn i ptr st h p d :
  race_ok (mkRace st h p d) → load st i = Some ptr →
  ∃ c, heap st !! ptr = Some c ∧ mc_slot_index c = i.
Proof. intros Hok. apply (ra_slot _ Hok). Qed.

Lemma maybe_cleanup_false now i ptr st st' :
  maybe_cleanup_stale_slot now i ptr st = (false, st') → st' = st.
Proof.
  unfold maybe_cleanup_stale_slot. destruct (heap st !! ptr); [|by intros [= <-]].
  destruct (negb _); [by intros [= <-]|done].
Qed.

Lemma lookup_steps now tok st d :
  race_ok (task st [] d) →
  rtc astep (task st [] d)
    (task (lookup_by_token now tok st).2
       (match (lookup_by_token now tok st).1 with Some ptr => [ptr] | None => [] end) d) ∧
  ∀ ptr, (lookup_by_token now tok st).1 = Some ptr →
    load (lookup_by_token now tok st).2 (Z.to_nat (slot_index tok)) = Some ptr.
Proof.
  intros Hok. unfold lookup_by_token. case_bool_decide; [done|].
  set (i := Z.to_nat _). destruct (load st i) as [ptr|] eqn:Hl; [|done].
  destruct (loaded_conn _ _ _ _ _ _ Hok Hl) as (c & Hc & _). rewrite Hc.
  assert (rtc astep (task st [] d) (task st [ptr] d)) as H1 by (by eapply rtc_once, a_load).
  case_bool_decide; cbn.
  { split; [|done]. etrans; [exact H1|]. by eapply drop_installed. }
  pose proof (cleanup_steps now i ptr st d) as H2.
  destruct (maybe_cleanup_stale_slot now i ptr st) as [[] st1] eqn:E; cbn in *.
  - split; [|done]. etrans; [exact H1|]. etrans; [exact H2|]. apply drop_only.
  - apply maybe_cleanup_false in E as ->. split; [done|]. by intros ? [= <-].
Qed.

Lemma update_entry_load ptr f st i : load (update_entry ptr f st) i = load st i.
Proof. unfold update_entry. by destruct (deref st ptr) as [[? ?]|]. Qed.

Lemma touch_ping_steps seen now ping st d :
  race_ok (task st [] d) →
  rtc astep (task st [] d) (task (touch_ping seen now ping st).2 [] d).
Proof.
  intros Hok. unfold touch_ping.
  destruct (lookup_steps seen (ping_slot_token ping) st d Hok) as [H1 H2].
  destruct (lookup_by_token _ _ _) as [[ptr|] st1]; cbn in *; [|done].
  etrans; [exact H1|]. eapply rtc_l; [apply (a_renew ptr now); by left|].
  eapply drop_installed. rewrite update_entry_load. by apply H2.
Qed.

(** The eviction after a refused push goes through the slot again. *)
Lemma cleanup_if_same_steps ptr c st d :
  race_ok (task st [ptr] d) → heap st !! ptr = Some c →
  rtc astep (task st [ptr] d)
    (task (cleanup_if_same (mc_slot_index c) (connection_id c) st) [ptr] d).
Proof.
  intros Hok Hc. unfold cleanup_if_same. set (i := mc_slot_index c).
  destruct (load st i) as [ptr2|] eqn:Hl; [|done].
  destruct (loaded_conn _ _ _ _ _ _ Hok Hl) as (c2 & Hc2 & _). rewrite Hc2.
  case_bool_decide as Hid; [|done].
  assert (ptr2 = ptr) as -> by (by eapply (ra_ids _ Hok)).
  eapply rtc_l; [by apply (a_load i ptr)|]. eapply rtc_l; [apply (a_close ptr); by left|].
  eapply rtc_l; [apply (a_swap_out i ptr); by left|]. apply rtc_once.
  set (st' := (compare_and_swap _ _ _ _).2).
  replace (task st' [ptr] d) with (task (drop_arc [ptr] ptr st') [ptr] d); [by apply a_drop|].
  unfold drop_arc. by rewrite bool_decide_true by (by left).
Qed.

Lemma push_to_entry_steps us ptr frame st m d :
  race_ok (task st [ptr] d) →
  rtc astep (task st [ptr] d) (task (push_to_entry us ptr frame st m).1 [ptr] d).
Proof.
  intros Hok. unfold push_to_entry.
  assert (rtc astep (task st [ptr] d) (task (push_entry ptr frame st).2 [ptr] d)) as H1.
  { apply rtc_once, a_push. by left. }
  pose proof (rtc_astep_ok _ _ Hok H1) as Hok1.
  destruct (push_entry ptr frame st) as [r st1]. cbn in *.
  assert (rtc astep (task st [ptr] d) (task (match heap st1 !! ptr with
    | Some c => cleanup_if_same (mc_slot_index c) (connection_id c) st1 | None => st1 end)
    [ptr] d)) as H2.
  { etrans; [exact H1|]. destruct (heap st1 !! ptr) eqn:Hc; [|done].
    by apply cleanup_if_same_steps. }
  destruct r; [done|by destruct (heap st1 !! ptr)..].
Qed.

Lemma dispatch_loop_steps env wants encode n idx shared st m d :
  race_ok (task st [] d) →
  rtc astep (task st [] d) (task (dispatch_loop env wants encode n idx shared st m).1 [] d).
Proof.
  revert idx shared st m. induction n as [|n IH]; intros idx shared st m Hok; [done|].
  cbn [dispatch_loop]. destruct (load st idx) as [ptr|] eqn:Hl; [|by apply IH].
  assert (∀ st1 sh m1, rtc astep (task st [] d) (task st1 [] d) →
    rtc astep (task st [] d) (task (dispatch_loop env wants encode n (S idx) sh st1 m1).1 [] d))
    as Hnext.
  { intros st1 sh m1 H. etrans; [exact H|]. apply IH. by eapply rtc_astep_ok. }
  assert (rtc astep (task st [] d) (task st [ptr] d)) as H1 by (by eapply rtc_once, a_load).
  pose proof (cleanup_steps (de_now env idx) idx ptr st d) as H2.
  destruct (maybe_cleanup_stale_slot _ _ _ _) as [[] st1] eqn:E; cbn in H2.
  { apply Hnext. etrans; [exact H1|]. etrans; [exact H2|]. apply drop_only. }
  apply maybe_cleanup_false in E as ->. destruct (heap st !! ptr) as [c|]; [|by apply Hnext].
  destruct (negb _); [by apply Hnext|].
  destruct (match shared with Some _ => _ | None => _ end) as [frame|e|]; [|done..].
  pose proof (push_to_entry_steps (de_send_us env idx) ptr frame st m d
    (rtc_astep_ok _ _ Hok H1)) as H3.
  destruct (push_to_entry _ _ _ _ _) as [st2 m2]. apply Hnext.
  etrans; [exact H1|]. etrans; [exact H3|]. apply drop_only.
Qed.

Lemma dispatch_steps env wants encode st m d :
  race_ok (task st [] d) →
  rtc astep (task st [] d) (task (dispatch_with env wants encode st m).1 [] d).
Proof.
  intros Hok. unfold dispatch_with.
  pose proof (dispatch_loop_steps env wants encode (length (connections st)) 0 None st m d Hok).
  by destruct (dispatch_loop _ _ _ _ _ _ _ _).
Qed.

Lemma find_free_steps now n idx st d :
  race_ok (task st [] d) →
  rtc astep (task st [] d) (task (find_free_from now n idx st).2 [] d).
Proof.
  revert idx st. induction n as [|n IH]; intros idx st Hok; [done|]. cbn [find_free_from].
  destruct (load st idx) as [ptr|] eqn:Hl; [|done].
  pose proof (cleanup_steps (now idx) idx ptr st d) as H2.
  destruct (maybe_cleanup_stale_slot _ _ _ _) as [[] st1] eqn:E; cbn in H2.
  - assert (rtc astep (task st [] d) (task (release ptr st1) [] d)) as H3.
    { eapply rtc_l; [by eapply a_load|]. etrans; [exact H2|]. apply drop_only. }
    case_bool_decide; [done|]. etrans; [exact H3|]. apply IH. by eapply rtc_astep_ok.
  - apply maybe_cleanup_false in E as ->. by apply IH.
Qed.

Lemma find_free_range now n idx st i st' :
  find_free_from now n idx st = (Some i, st') → (i < idx + n)%nat.
Proof.
  revert idx st. induction n as [|n IH]; intros idx st; cbn; [done|].
  destruct (load st idx); [|intros [= <- _]; lia].
  destruct (maybe_cleanup_stale_slot _ _ _ _) as [[] st1];
    [case_bool_decide; [intros [= <- _]; lia|]|]; intros Hf%IH; lia.
Qed.

Lemma upsert_loop_steps env filter id fuel n st r st' :
  quiet pid env → race_ok (task st [] [id]) →
  upsert_loop env shm_dir cap filter id fuel n st = Some (r, st') →
  rtc astep (task st [] [id]) (task st' [] []).
Proof.
  intros [Hpid Hrely]. revert n st. induction fuel as [|fuel IH]; intros n st Hok H; [done|].
  cbn [upsert_loop] in H. unfold find_free_slot in H. rewrite Hpid in H.
  pose proof (find_free_steps (ue_scan env n) (length (connections st)) 0 st [id] Hok) as H1.
  assert (∀ st0, rtc astep (task st0 [] [id]) (task st0 [] [])) as Hgive.
  { intros st0. by apply rtc_once, (a_give_up id). }
  destruct (find_free_from _ _ _ _) as [[i|] st1] eqn:Ef; cbn in H1.
  2: { injection H as _ <-. etrans; [exact H1|]. apply Hgive. }
  apply find_free_range in Ef. pose proof (ra_len _ Hok) as Hlen. cbn in Hlen.
  rewrite Hlen in Ef. cbn [Nat.add] in Ef.
  pose proof (rtc_astep_ok _ _ Hok H1) as Hok1.
  etrans; [exact H1|]. fold (conn_path shm_dir pid i id) in H.
  pose proof (create_cases (ue_create env n) (conn_path shm_dir pid i id) cap (shm st1)) as Hcr.
  destruct (create _ _ _ _) as [[ring|e|] s] eqn:Ec; [| |lia].
  2: { injection H as _ <-. eapply rtc_l; [|apply Hgive].
       eapply a_create_failed; [|exact Ec]. by left. }
  destruct (ue_eventfd env n) as [efd|e].
  2: { injection H as _ <-. eapply rtc_l; [|apply Hgive].
       eapply a_eventfd_failed; [|exact Ec]. by left. }
  assert (astep (task st1 [] [id]) (mkRace (allocated st1 i id (ue_installed env n) ring s filter efd)
    [] [next_ptr st1] [])) as Ha by (by eapply a_alloc).
  eapply rtc_l; [exact Ha|]. pose proof (astep_ok _ _ Hok1 Ha) as Hok2.
  rewrite Hrely in H. fold (allocated st1 i id (ue_installed env n) ring s filter efd) in H.
  set (st2 := allocated _ _ _ _ _ _ _ _) in *.
  assert (heap st2 !! next_ptr st1 = Some (mkManaged i id filter (mkSink ring efd)
    (ue_installed env n))) as Hh by apply lookup_insert_eq.
  assert (i < length (connections st2))%nat as Hi
    by (pose proof (ra_len _ Hok2) as Hlen2; cbn [ra_st] in Hlen2; by rewrite Hlen2).
  unfold compare_and_swap in H. destruct (load st2 i) as [other|] eqn:Hl.
  - rewrite bool_decide_false in H by done.
    assert (astep (mkRace st2 [] [next_ptr st1] []) (task (release (next_ptr st1) st2) [] [id])) as Hs.
    { eapply (a_lost _ _ _ _ _ [] _ ltac:(done) Hh). cbn. by rewrite Hl. }
    eapply rtc_l; [exact Hs|]. eapply IH; [|exact H]. by eapply astep_ok.
  - rewrite bool_decide_true in H by done. injection H as _ <-. eapply rtc_l.
    + by eapply (a_install (next_ptr st1) _ _ _ _ [] _ ltac:(done) Hh).
    + unfold compare_and_swap. cbn. rewrite Hl, bool_decide_true by done.
      apply (drop_installed i). exact (load_insert_same st2 i (Some (next_ptr st1)) Hi).
Qed.

Lemma release_next ptr st : next_connection_id (release ptr st) = next_connection_id st.
Proof. unfold release. case_bool_decide; [done|]. by destruct (heap st !! ptr). Qed.

Lemma lookup_next now tok st :
  next_connection_id (lookup_by_token now tok st).2 = next_connection_id st.
Proof.
  unfold lookup_by_token. case_bool_decide; [done|]. destruct (load st _) as [ptr|]; [|done].
  destruct (heap st !! ptr) as [c|] eqn:Hc; [|done]. case_bool_decide; [done|].
  unfold maybe_cleanup_stale_slot. rewrite Hc. destruct (negb _); [done|]. cbn.
  rewrite release_next. unfold close_entry.
  destruct (deref st ptr) as [[c' q]|]; cbn; by case_bool_decide.
Qed.

Lemma upsert_steps env request fuel st r st' :
  quiet pid env → next_connection_id st < u64_max → race_ok (task st [] []) →
  upsert_shm env request shm_dir cap fuel st = Some (r, st') →
  rtc astep (task st [] []) (task st' [] []).
Proof.
  intros Hq Hn Hok H. unfold upsert_shm in H.
  destruct (match req_slot_token request with Some _ => _ | None => _ end) as [e st1] eqn:El.
  assert (rtc astep (task st [] []) (task st1 (match e with Some p => [p] | None => [] end) []) ∧
    ∀ ptr, e = Some ptr → ∃ i, load st1 i = Some ptr) as [H1 H2].
  { destruct (req_slot_token request) as [tok|]; [|by simplify_eq].
    destruct (lookup_steps (ue_seen env) tok st [] Hok) as [L1 L2].
    rewrite El in L1, L2. split; [done|]. intros ptr ->. eexists. by apply L2. }
  assert (next_connection_id st1 = next_connection_id st) as El_next.
  { destruct (req_slot_token request) as [tok|]; [|by simplify_eq].
    pose proof (lookup_next (ue_seen env) tok st) as Hx. by rewrite El in Hx. }
  pose proof (rtc_astep_ok _ _ Hok H1) as Hok1. etrans; [exact H1|].
  destruct e as [ptr|].
  - destruct (H2 ptr eq_refl) as [i Hl]. eapply rtc_l; [apply (a_renew ptr (ue_now env)); by left|].
    set (st2 := update_entry ptr _ st1) in *.
    assert (race_ok (task st2 [ptr] [])) as Hok2 by (apply update_race; [done|by left|done]).
    destruct (deref_race ptr st2 [ptr] [] [] Hok2 ltac:(by left)) as (c & q & Ed & _).
    assert (update_entry ptr (apply_request (ue_seed env) request) st2
      = update_entry ptr (λ c0, set_filter c0 (with_request (ue_seed env) (mc_filter c) request)) st2)
      as Hst by (unfold update_entry; by rewrite Ed).
    rewrite Hst in H. eapply rtc_l; [eapply (a_store_filter ptr); by left|].
    set (st3 := update_entry ptr (λ c0, set_filter c0 _) st2) in *.
    assert (st' = st3) as -> by (by destruct (heap st3 !! ptr); simplify_eq).
    eapply (drop_installed i). unfold st3, st2. by rewrite !update_entry_load.
  - rewrite <-El_next in Hn. pose proof (ra_next _ Hok1) as Hpos. cbn in Hpos.
    rewrite wrap64_id in H by (unfold is_u64; lia). fold (bump st1) in H.
    eapply rtc_l; [by apply a_draw|]. eapply upsert_loop_steps; [done| |exact H].
    by apply draw_race.
Qed.

(** ** Generations *)

(** Nobody has this connection id and nobody can get it. *)
Definition gone (id : Z) (r : RaceState) : Prop :=
  id < next_connection_id (ra_st r) ∧ (id ∉ drawn r) ∧
  ∀ ptr c, heap (ra_st r) !! ptr = Some c → connection_id c ≠ id.

Lemma put_gone id ptr c c' q h p d st :
  heap st !! ptr = Some c → same_conn c c' →
  gone id (mkRace st h p d) → gone id (mkRace (put ptr c' q st) h p d).
Proof.
  intros Hc (_ & Hid & _) (G1 & G2 & G3). split_and!; [done|done|]. cbn in *.
  intros x cx [[<- <-]|[_ Hx]]%lookup_insert_Some; [|by eapply G3].
  rewrite Hid. by eapply G3.
Qed.

Lemma release_gone id ptr h p d h' p' d' st :
  (∀ x, x ∈ d' → x ∈ d ∨ x ≠ id) →
  gone id (mkRace st h p d) → gone id (mkRace (release ptr st) h' p' d').
Proof.
  intros Hd (G1 & G2 & G3). cbn in *. split_and!; cbn.
  - by rewrite release_next.
  - intros Hin. by destruct (Hd _ Hin).
  - intros x cx. unfold release. case_bool_decide; [by apply G3|].
    destruct (heap st !! ptr); [|by apply G3]. cbn. intros [_ Hx]%lookup_delete_Some. by eapply G3.
Qed.

Lemma astep_gone id r r' : race_ok r → astep r r' → gone id r → gone id r'.
Proof.
  intros Hok Hs G. destruct Hs; cbn in *; try done;
    try (match goal with Hin : ?ptr ∈ ?h |- _ =>
      destruct (deref_race ptr _ _ _ _ Hok Hin) as (c & q & E & Hc & Hq) end).
  - unfold close_entry. rewrite E. cbn. by eapply put_gone.
  - unfold push_entry. rewrite E. pose proof (sink_try_push_same (mc_sink c) frame q) as Hr.
    destruct (sink_try_push _ _ _) as [[r s] q']. destruct Hr as (_ & Hr & _). cbn.
    by eapply put_gone.
  - unfold update_entry. rewrite E. by eapply put_gone.
  - unfold update_entry. rewrite E. by eapply put_gone.
  - unfold compare_and_swap. cbn. by case_bool_decide.
  - unfold drop_arc. case_bool_decide; [done|]. eapply release_gone; [|exact G]. auto.
  - destruct G as (G1 & G2 & G3). cbn in *. split_and!; cbn; [lia| |done].
    rewrite elem_of_cons. intros [->|?]; [lia|done].
  - destruct G as (G1 & G2 & G3). cbn in *. split_and!; cbn; [done| |].
    + intros Hin. apply G2. rewrite H0. by right.
    + intros x cx [[<- <-]|[_ Hx]]%lookup_insert_Some; [|by eapply G3]. cbn. intros ->.
      apply G2. rewrite H0. by left.
  - unfold compare_and_swap. cbn. by case_bool_decide.
  - eapply release_gone; [|exact G]. intros x [->|?]%elem_of_cons; [|by left]. right.
    destruct G as (_ & _ & G3). by eapply G3.
  - destruct G as (G1 & G2 & G3). split_and!; cbn in *; [done| |done].
    intros Hin. apply G2. rewrite H. by right.
Qed.

Lemma rtc_astep_gone id r r' : race_ok r → rtc astep r r' → gone id r → gone id r'.
Proof. intros Hok H. induction H; eauto using astep_ok, astep_gone. Qed.

(** A token whose generation is gone is refused. *)
Lemma gone_lookup now tok r :
  race_ok r → gone (generation tok) r →
  lookup_by_token now tok (ra_st r) = (None, ra_st r).
Proof.
  intros Hok (_ & _ & G3). unfold lookup_by_token. case_bool_decide; [done|].
  destruct (load (ra_st r) _) as [ptr|] eqn:Hl; [|done].
  destruct (ra_slot _ Hok _ _ Hl) as (c & Hc & _). rewrite Hc.
  by rewrite bool_decide_true by (by eapply G3).
Qed.
End races.

(** ** A race, for the witnesses

    Two subscriptions find slot 0 free at the same time; the first one installs its
    connection, the second one loses, drops its connection and gives up. *)
Module RaceDemo.
Abbreviation State := (RaceState (Q:=list_queue) (B:=gset pubkey) (K:=sim_event)).
Definition filter : SubscriptionFilter (gset pubkey) := from_request 0 Demo.request.
Definition path (id : Z) : string := conn_path Demo.dir 7 0 id.
Definition ring (id : Z) (s : Shm list_queue) : ShmRingProducer * Shm list_queue :=
  match create sample_env (path id) 256 s with
  | (Ok r, s') => (r, s')
  | (_, s') => (mkProducer 0 0 (path id) 0 false, s')
  end.
Definition with_conn (id : Z) (st : MState list_queue (gset pubkey) sim_event) :=
  allocated st 0 id 1000 (ring id (shm st)).1 (ring id (shm st)).2 filter (mkSimEvent 0 0).

Definition start : State := mkRace manager_new [] [] [].
Definition both_drawn : State := mkRace (bump (bump manager_new)) [] [] [2; 1].
Definition both_allocated : State :=
  mkRace (with_conn 2 (with_conn 1 (ra_st both_drawn))) [] [1%nat; 0%nat] [].
Definition one_won : State :=
  mkRace (compare_and_swap 0 None (Some 0%nat) (ra_st both_allocated)).2 [0%nat] [1%nat] [].
Definition other_lost : State := mkRace (release 1 (ra_st one_won)) [0%nat] [] [].

Definition conn (id : Z) (s : Shm list_queue) : ManagedConnection (gset pubkey) sim_event :=
  mkManaged 0 id filter (mkSink (ring id s).1 (mkSimEvent 0 0)) 1000.

Lemma ring_created id s :
  files s !! path id = None → create sample_env (path id) 256 s = (Ok (ring id s).1, (ring id s).2).
Proof. intros H. unfold ring, create. cbn -[path]. by rewrite H. Qed.

(** The second subscription's ring is created beside the first one's. *)
Lemma path_free : files (shm (with_conn 1 (ra_st both_drawn))) !! path 2 = None.
Proof.
  change (files (ring 1 shm_empty).2 !! path 2 = None).
  pose proof (create_cases sample_env (path 1) 256 shm_empty) as H.
  rewrite ring_created in H by done. destruct H as (_ & _ & q & _ & _ & ->). cbn [files].
  rewrite lookup_insert_ne; [done|]. intros Heq.
  apply (conn_path_inj Demo.dir 7 0 0) in Heq; [done|unfold MAX_CONNECTION_SLOTS; lia..].
Qed.

Lemma run : rtc (astep Demo.dir 7 256) start other_lost.
Proof.
  eapply rtc_l; [by apply a_draw|]. eapply rtc_l; [by apply a_draw|].
  eapply rtc_l.
  { eapply (a_alloc _ _ _ 0 1 1000 sample_env _ _ filter (mkSimEvent 0 0) _ _ _ _ [2]);
      [unfold MAX_CONNECTION_SLOTS; lia|apply Permutation_swap|by apply ring_created]. }
  eapply rtc_l.
  { eapply (a_alloc _ _ _ 0 2 1000 sample_env _ _ filter (mkSimEvent 0 0) _ _ _ _ []);
      [unfold MAX_CONNECTION_SLOTS; lia|done|apply ring_created, path_free]. }
  eapply rtc_l.
  { eapply (a_install _ _ _ 0 (conn 1 shm_empty) _ _ _ [1%nat]); [apply Permutation_swap| |done].
    cbn. rewrite lookup_insert_ne by done. apply lookup_insert_eq. }
  eapply rtc_l.
  { eapply (a_lost _ _ _ 1 (conn 2 _) _ _ _ []); [done|apply lookup_insert_eq|done]. }
  apply rtc_once. by apply (a_give_up _ _ _ 2).
Qed.
End RaceDemo.

(** ** Properties *)

(** C5: The connection table survives every interleaving of its tasks.  Starting
    from an empty table, in every state that any number of tasks can reach by loading
    slots, pushing, closing, renewing, swapping, provisioning and dropping references
    in any order: no slot and no task holds a dangling connection and each
    connection's ring is mapped; a slot's connection knows its slot; ids and rings are
    never shared; the ring files on disk are exactly those of the connections in
    memory, and each of these is in a slot or in some task's hands, so none is leaked;
    and whenever no task is inside a handler the manager's invariant holds. *)
Theorem table_survives_races {Q} {BQ : ByteQueue Q} {BQL : ByteQueueLaws Q}
    {B} {BF : BloomFilter B} {K} {EK : EventKernel K} shm_dir pid cap
    (r : RaceState (Q:=Q) (B:=B) (K:=K)) :
  cap ≤ 2 ^ 63 → rtc (astep shm_dir pid cap) (mkRace manager_new [] [] []) r →
  let st := ra_st r in
  (∀ ptr, (∃ i, load st i = Some ptr) ∨ ptr ∈ held r ∨ ptr ∈ pending r →
     ∃ c q, deref st ptr = Some (c, q) ∧ p_capacity (mc_ring c) = bq_capacity q ∧
       ∀ i, load st i = Some ptr → mc_slot_index c = i) ∧
  (∀ ptr ptr' c c', heap st !! ptr = Some c → heap st !! ptr' = Some c' →
     connection_id c = connection_id c' ∨ p_inode (mc_ring c) = p_inode (mc_ring c') →
     ptr = ptr') ∧
  (∀ path, is_Some (files (shm st) !! path) ↔
     ∃ ptr c, heap st !! ptr = Some c ∧ p_path (mc_ring c) = path) ∧
  (∀ ptr, is_Some (heap st !! ptr) →
     (∃ i, load st i = Some ptr) ∨ ptr ∈ held r ∨ ptr ∈ pending r) ∧
  (held r = [] → pending r = [] → mgr_ok shm_dir pid st).
Proof.
  intros Hcap Hr st.
  pose proof (rtc_astep_ok _ _ _ Hcap _ _ (quiescent_race_ok _ _ _ (manager_new_ok shm_dir pid))
    Hr) as Hok. split_and!.
  - intros ptr Hptr. assert (is_Some (heap st !! ptr)) as [c Hc].
    { destruct Hptr as [[i Hl]|Hptr]; [|by apply (ra_local _ _ _ Hok)].
      destruct (ra_slot _ _ _ Hok _ _ Hl) as (c & Hc & _). by exists c. }
    destruct (ra_live _ _ _ Hok _ _ Hc) as (_ & q & Hl). exists c, q. split_and!.
    + unfold deref. rewrite Hc. cbn. unfold st. by rewrite (lv_queue _ _ _ _ _ Hl).
    + apply Hl.
    + intros i (c' & Hc' & Hi)%(ra_slot _ _ _ Hok). unfold st in Hc. by simplify_eq.
  - intros ptr ptr' c c' H1 H2 [Heq|Heq].
    + by eapply (ra_ids _ _ _ Hok).
    + by eapply (ra_inodes _ _ _ Hok).
  - intros path. split.
    + intros [ino Hf]. by apply (ra_files _ _ _ Hok) in Hf.
    + intros (ptr & c & Hc & <-). destruct (ra_live _ _ _ Hok _ _ Hc) as (_ & q & Hl).
      unfold st. rewrite (lv_file _ _ _ _ _ Hl). eauto.
  - intros ptr [c Hc]. by apply (ra_reach _ _ _ Hok) in Hc.
  - intros Hh Hp. destruct r as [st' h p d]. cbn in *. subst. by eapply race_ok_quiescent.
Qed.

(** After the race one connection is installed, and one ring file exists. *)
Lemma table_survives_races_witness :
  ∃ c q, deref (ra_st RaceDemo.other_lost) 0 = Some (c, q) ∧ mc_slot_index c = 0%nat ∧
    is_Some (files (shm (ra_st RaceDemo.other_lost)) !! p_path (mc_ring c)).
Proof.
  destruct (@table_survives_races _ list_byte_queue list_byte_queue_laws _ exact_bloom _
    sim_event_kernel Demo.dir 7 256 RaceDemo.other_lost ltac:(lia) RaceDemo.run)
    as (H1 & _ & H3 & _).
  destruct (H1 0%nat) as (c & q & E & _ & Hi); [right; left; by left|].
  exists c, q. split; [exact E|]. split.
  - apply Hi. reflexivity.
  - apply H3. exists 0%nat, c. split; [|reflexivity]. unfold deref in E.
    destruct (heap _ !! 0%nat) as [c0|]; [|discriminate]. cbn in E.
    destruct (queues _ !! _); [|discriminate]. cbn in E. congruence.
Defined.

(** C6: The handlers of the manager, run alone, are sequences of those steps: a
    dispatch of any kind, a ping and a subscription, with all their early returns and
    failures, perform exactly the loads, swaps, writes, allocations and drops of the
    interleaving model, and hold nothing when they return. *)
Theorem handlers_are_race_steps {Q} {BQ : ByteQueue Q} {BQL : ByteQueueLaws Q}
    {B} {BF : BloomFilter B} {K} {EK : EventKernel K} {LZ : Lz4} shm_dir pid cap
    (st st' : MState Q B K) :
  cap ≤ 2 ^ 63 → mgr_ok shm_dir pid st → mstep shm_dir pid cap st st' →
  rtc (astep shm_dir pid cap) (mkRace st [] [] []) (mkRace st' [] [] []).
Proof.
  intros Hcap Hok%quiescent_race_ok Hs. destruct Hs.
  - by apply dispatch_steps.
  - by apply dispatch_steps.
  - by apply dispatch_steps.
  - by apply touch_ping_steps.
  - by eapply upsert_steps.
Qed.

Lemma handlers_are_race_steps_witness :
  rtc (@astep _ list_byte_queue _ _ sim_event_kernel Demo.dir 7 256)
    (mkRace manager_new [] [] []) (mkRace Demo.one [] [] []).
Proof.
  destruct Demo.one_reached as [r Hr].
  apply (@handlers_are_race_steps _ list_byte_queue list_byte_queue_laws _ exact_bloom _
    sim_event_kernel rle_lz4 Demo.dir 7 256 manager_new Demo.one ltac:(lia)
    (manager_new_ok Demo.dir 7)).
  eapply step_upsert; [apply (Demo.quiet_env 1000)|done|exact Hr].
Defined.

(** C12: A token never designates another connection than the one it was given
    out for, whatever the tasks do: once a generation is gone (its connection is out
    of memory and no subscription still holds the id), no later state of any
    interleaving resolves a token of that generation, so a ping or a re-subscription
    with it never reaches somebody else's slot. *)
Theorem dead_generation_stays_dead {Q} {BQ : ByteQueue Q} {BQL : ByteQueueLaws Q}
    {B} {BF : BloomFilter B} {K} {EK : EventKernel K} shm_dir pid cap
    (r r' : RaceState (Q:=Q) (B:=B) (K:=K)) tok seen now :
  cap ≤ 2 ^ 63 → rtc (astep shm_dir pid cap) (mkRace manager_new [] [] []) r →
  gone (generation tok) r → rtc (astep shm_dir pid cap) r r' →
  lookup_by_token seen tok (ra_st r') = (None, ra_st r') ∧
  touch_ping seen now (mkPingRequest tok) (ra_st r') = (false, ra_st r').
Proof.
  intros Hcap Hr G Hr'.
  pose proof (rtc_astep_ok _ _ _ Hcap _ _ (quiescent_race_ok _ _ _ (manager_new_ok shm_dir pid))
    Hr) as Hok.
  pose proof (rtc_astep_gone _ _ _ Hcap _ _ _ Hok Hr' G) as G'.
  pose proof (rtc_astep_ok _ _ _ Hcap _ _ Hok Hr') as Hok'.
  pose proof (gone_lookup _ _ seen tok _ Hok' G') as E.
  split; [exact E|]. unfold touch_ping. cbn. by rewrite E.
Qed.

(** The id of the subscription that lost the race is gone. *)
Lemma dead_generation_stays_dead_witness :
  (touch_ping 1500 1500 (mkPingRequest (mkSlotToken 0 2)) (ra_st RaceDemo.other_lost)).1 = false.
Proof.
  destruct (@dead_generation_stays_dead _ list_byte_queue list_byte_queue_laws _ exact_bloom _
    sim_event_kernel Demo.dir 7 256 RaceDemo.other_lost RaceDemo.other_lost (mkSlotToken 0 2)
    1500 1500 ltac:(lia) RaceDemo.run) as [_ H].
  - split; [vm_compute; reflexivity|]. split; [apply not_elem_of_nil|].
    intros ptr c Hc. change (generation (mkSlotToken 0 2)) with 2.
    change (heap (ra_st RaceDemo.other_lost))
      with (delete 1%nat (heap (ra_st RaceDemo.one_won))) in Hc.
    apply lookup_delete_Some in Hc as [Hne Hc].
    change (heap (ra_st RaceDemo.one_won)) with
      (<[1%nat := RaceDemo.conn 2 (shm (RaceDemo.with_conn 1 (ra_st RaceDemo.both_drawn)))]>
        (<[0%nat := RaceDemo.conn 1 shm_empty]>
          (∅ : gmap nat (ManagedConnection (gset pubkey) sim_event)))) in Hc.
    apply lookup_insert_Some in Hc as [[<- _]|[_ Hc]]; [done|].
    apply lookup_insert_Some in Hc as [[_ <-]|[_ Hc]]; [done|].
    by rewrite lookup_empty in Hc.
  - apply rtc_refl.
  - by rewrite H.
Defined.
