(* ===== verification/RaceRings.v ===== *)
(** * The rings under interleaving

    [Races.v] interleaves the tasks of the sender and the consumers' pops step by
    step.  Here every step also leaves in a log what it put into which ring and what
    it took out, so that what a ring delivers can be compared with what it accepted
    over a whole run: whatever the interleaving, a ring is a FIFO of whole messages. *)

From stdpp Require Import prelude gmap strings relations.
From Stdlib Require Import Strings.Byte.
From S2P Require Import Prelude Errors WireCodec DataFrames ControlFrames Metrics EventFd Ring Transport.
From S2P Require Import Filter Manager ManagerInv ManagerSpec Races.

(** What happens to a ring. *)
Inductive io := In (e : entry) | Out (e : entry).

Definition log : Type := list (nat * io).

Definition at_ring {A} (ino : nat) (x : nat * A) : option A :=
  if decide (x.1 = ino) then Some x.2 else None.
Definition ins (ino : nat) (l : log) : list entry :=
  omap (λ x, match at_ring ino x with Some (In e) => Some e | _ => None end) l.
Definition outs (ino : nat) (l : log) : list entry :=
  omap (λ x, match at_ring ino x with Some (Out e) => Some e | _ => None end) l.

Section logged.
Context {Q : Type} {BQ : ByteQueue Q} {BQL : ByteQueueLaws Q}.
Context {B : Type} {BF : BloomFilter B}.
Context {K : Type} {EK : EventKernel K}.
Context (shm_dir : string) (pid cap : Z) (Hcap : cap ≤ 2 ^ 32).
Implicit Types (st : MState Q B K) (r : RaceState (Q:=Q) (B:=B) (K:=K)) (q : Q).

(** A push that was accepted puts the frame in. *)
Definition push_io (frame : OutboundFrame) (res : result OutboundFrame unit) : list io :=
  match res with Ok _ => [In (Frame (of_header frame ++ of_payload frame))] | _ => [] end.

(** A close puts the sentinel in if the write, whose answer the code ignores,
    succeeds. *)
Definition close_io q : list io :=
  if (try_write_slice (u32_le CLOSE_SENTINEL) q).1 then [In Closed] else [].

(** A pop takes out the frame it returns; one that consumes bytes and returns
    nothing has met the sentinel. *)
Definition pop_io (cr : ShmRingConsumer) q : list io :=
  match try_pop cr q with
  | (Some body, _, _) => [Out (Frame body)]
  | (None, _, q') => if bool_decide (bq_data q' = bq_data q) then [] else [Out Closed]
  end.

Abbreviation rqueues r := (queues (shm (ra_st r))).

(** The steps of [astep] with what they log. *)
Inductive lstep : RaceState → log → RaceState → Prop :=
| l_push ptr frame c q st h p d :
    ptr ∈ h → deref st ptr = Some (c, q) →
    lstep (mkRace st h p d)
      (pair (p_inode (mc_ring c)) <$> push_io frame (push_entry ptr frame st).1)
      (mkRace (push_entry ptr frame st).2 h p d)
| l_close ptr c q st h p d :
    ptr ∈ h → deref st ptr = Some (c, q) →
    lstep (mkRace st h p d) (pair (p_inode (mc_ring c)) <$> close_io q)
      (mkRace (close_entry ptr st) h p d)
| l_pop ino cr q st h p d :
    queues (shm st) !! ino = Some q →
    lstep (mkRace st h p d) (pair ino <$> pop_io cr q)
      (mkRace (set_shm st (mkShm (files (shm st)) (<[ino := (try_pop cr q).2]> (queues (shm st)))
                 (next_inode (shm st)))) h p d)
| l_quiet r r' :
    astep shm_dir pid cap r r' → rqueues r ⊆ rqueues r' → lstep r [] r'.

Inductive lsteps r : log → RaceState → Prop :=
| ls_refl : lsteps r [] r
| ls_step l r' l' r'' : lsteps r l r' → lstep r' l' r'' → lsteps r (l ++ l') r''.

(** ** Every run has a log *)
Lemma lstep_astep r l r' : lstep r l r' → astep shm_dir pid cap r r'.
Proof. intros []; [by apply a_push|by apply a_close|by apply a_pop|done]. Qed.

Lemma lsteps_rtc r l r' : lsteps r l r' → rtc (astep shm_dir pid cap) r r'.
Proof. induction 1; [done|]. eapply rtc_r; [done|by eapply lstep_astep]. Qed.

Lemma update_queues ptr f st : (∀ c, same_conn c (f c)) →
  queues (shm (update_entry ptr f st)) = queues (shm st).
Proof.
  intros Hf. unfold update_entry, deref. destruct (heap st !! ptr) as [c|]; [|done]. cbn.
  destruct (queues (shm st) !! p_inode (mc_ring c)) as [q|] eqn:E; [|done]. cbn.
  destruct (Hf c) as (_ & _ & (-> & _)). by apply insert_id.
Qed.

Lemma release_queues ptr st : queues (shm (release ptr st)) = queues (shm st).
Proof.
  unfold release. case_bool_decide; [done|]. destruct (heap st !! ptr) as [c|]; [|done].
  cbn. unfold drop_producer. by destruct (owns_file (mc_ring c)).
Qed.

Lemma cas_queues i e n st : queues (shm (compare_and_swap i e n st).2) = queues (shm st).
Proof. unfold compare_and_swap. cbn. by case_bool_decide. Qed.

(** Provisioning adds at most an empty queue. *)
Lemma create_queues env path st res s :
  shm_wf (shm st) → create env path cap (shm st) = (res, s) →
  queues (shm st) ⊆ queues s ∧ ∀ ino q, queues s !! ino = Some q →
    queues (shm st) !! ino = Some q ∨ bq_data q = [] ∧ 0 ≤ bq_capacity q ≤ 2 ^ 32.
Proof.
  intros [_ Hwf] E. pose proof (create_cases env path cap (shm st)) as Hc. rewrite E in Hc.
  destruct res as [ring|e|].
  - destruct Hc as (Hr & _ & q0 & Hq0 & _ & ->). cbn. split.
    + apply insert_subseteq. destruct (queues (shm st) !! next_inode (shm st)) eqn:Eq; [|done].
      apply Hwf in Eq. cbn in Eq. lia.
    + intros ino q [[_ <-]|[_ Hq]]%lookup_insert_Some; [right|by left].
      destruct (bq_create_spec _ _ (next_power_of_two_is _) Hq0) as [-> ->]. split; [done|].
      pose proof (next_power_of_two_ge cap). split; [lia|]. by apply next_power_of_two_le_pow2.
  - destruct Hc as (_ & _ & -> & _). auto.
  - lia.
Qed.

Lemma drop_producer_queues ring (s : Shm Q) : queues (drop_producer ring s) = queues s.
Proof. unfold drop_producer. by destruct (owns_file ring). Qed.

(** A step pushes, closes or pops, or it leaves every queue as it is. *)
Lemma astep_logged r r' :
  race_ok shm_dir pid r → astep shm_dir pid cap r r' → ∃ l, lstep r l r'.
Proof.
  intros Hok Hs. pose proof (ra_shm _ _ _ Hok) as Hwf.
  assert (rqueues r ⊆ rqueues r' → ∃ l, lstep r l r') as Hquiet by (eauto using l_quiet).
  destruct Hs; cbn in *.
  - by apply Hquiet.
  - destruct (deref_race _ _ _ _ _ _ _ Hok H) as (c & q & E & _). eauto using l_close.
  - destruct (deref_race _ _ _ _ _ _ _ Hok H) as (c & q & E & _). eauto using l_push.
  - apply Hquiet. by rewrite update_queues.
  - apply Hquiet. by rewrite update_queues.
  - apply Hquiet. by case_bool_decide.
  - apply Hquiet. unfold drop_arc. case_bool_decide; [done|]. by rewrite release_queues.
  - by apply Hquiet.
  - apply Hquiet. by eapply create_queues.
  - apply Hquiet. by eapply create_queues.
  - apply Hquiet. rewrite drop_producer_queues. by eapply create_queues.
  - apply Hquiet. by case_bool_decide.
  - apply Hquiet. by rewrite release_queues.
  - by apply Hquiet.
  - eauto using l_pop.
Qed.

Lemma put_dom ptr c c' q q' st ino x :
  deref st ptr = Some (c, q) → same_conn c c' →
  queues (shm (put ptr c' q' st)) !! ino = Some x → is_Some (queues (shm st) !! ino).
Proof.
  unfold deref. intros E (_ & _ & (Hi & _)). destruct (heap st !! ptr) as [c0|]; [|done].
  cbn in E. destruct (queues (shm st) !! _) eqn:Eq; [|done]. cbn in *. simplify_eq.
  rewrite Hi. intros [[<- _]|[_ Hx]]%lookup_insert_Some; eauto.
Qed.

(** The queues a step adds are empty. *)
Lemma astep_new_queue r r' ino q :
  race_ok shm_dir pid r → astep shm_dir pid cap r r' →
  rqueues r !! ino = None → rqueues r' !! ino = Some q →
  bq_data q = [] ∧ 0 ≤ bq_capacity q ≤ 2 ^ 32.
Proof.
  intros Hok Hs Hnone Hsome. pose proof (ra_shm _ _ _ Hok) as Hwf.
  assert (is_Some (rqueues r !! ino) → bq_data q = [] ∧ 0 ≤ bq_capacity q ≤ 2 ^ 32) as Hold
    by (rewrite Hnone; intros [? [=]]).
  assert (rqueues r' = rqueues r → bq_data q = [] ∧ 0 ≤ bq_capacity q ≤ 2 ^ 32) as Hsame
    by (intros Heq; congruence).
  assert (∀ st env path res s, create env path cap (shm st) = (res, s) → shm st = shm (ra_st r) →
    queues s !! ino = Some q → bq_data q = [] ∧ 0 ≤ bq_capacity q ≤ 2 ^ 32) as Hnew.
  { intros st env path res s E Est Hq. rewrite <-Est in Hwf.
    destruct (create_queues _ _ _ _ _ Hwf E) as [_ Hc].
    destruct (Hc _ _ Hq) as [Hq'|?]; [|done]. rewrite Est in Hq'. congruence. }
  destruct Hs; cbn in *.
  - by apply Hsame.
  - apply Hold. destruct (deref_race _ _ _ _ _ _ _ Hok H) as (c & q0 & E & _).
    unfold close_entry in Hsome. rewrite E in Hsome. by eapply (put_dom _ _ _ _ _ _ _ _ E), Hsome.
  - apply Hold. destruct (deref_race _ _ _ _ _ _ _ Hok H) as (c & q0 & E & _).
    unfold push_entry in Hsome. rewrite E in Hsome.
    pose proof (sink_try_push_same (mc_sink c) frame q0) as Hr.
    destruct (sink_try_push (mc_sink c) frame q0) as [[x s] q1].
    by eapply (put_dom _ _ _ _ _ _ _ _ E), Hsome; split_and!; try apply Hr.
  - apply Hsame. by rewrite update_queues.
  - apply Hsame. by rewrite update_queues.
  - apply Hsame. by case_bool_decide.
  - apply Hsame. unfold drop_arc. case_bool_decide; [done|]. by rewrite release_queues.
  - by apply Hsame.
  - by eapply Hnew.
  - by eapply Hnew.
  - rewrite drop_producer_queues in Hsome. by eapply Hnew.
  - apply Hsame. by case_bool_decide.
  - apply Hsame. by rewrite release_queues.
  - by apply Hsame.
  - apply Hold. apply lookup_insert_Some in Hsome as [[<- _]|[_ ?]]; eauto.
Qed.

(** ** One queue, one operation *)

(** A queue that holds whole messages within its capacity. *)
Record holds q (es : list entry) : Prop := mkHolds {
  hd_data : bq_data q = stream es;
  hd_ok : Forall entry_ok es;
  hd_fits : zlen (bq_data q) ≤ bq_capacity q;
  hd_cap : bq_capacity q ≤ 2 ^ 32;
}.

Inductive io_step : list entry → list io → list entry → Prop :=
| io_none es : io_step es [] es
| io_in es e : io_step es [In e] (es ++ [e])
| io_out e es : io_step (e :: es) [Out e] es.

Lemma holds_snoc q q' es e :
  holds q es → entry_ok e → bq_data q' = bq_data q ++ entry_bytes e →
  bq_capacity q' = bq_capacity q → zlen (bq_data q) + zlen (entry_bytes e) ≤ bq_capacity q →
  holds q' (es ++ [e]).
Proof.
  intros [H1 H2 H3 H4] He Hd Hk Hf. split.
  - by rewrite Hd, H1, stream_app, stream_one.
  - by apply Forall_app, conj, Forall_singleton.
  - rewrite Hd, Hk. len.
  - by rewrite Hk.
Qed.

Lemma holds_tail q q' e es :
  holds q (e :: es) → bq_data q' = stream es → bq_capacity q' = bq_capacity q → holds q' es.
Proof.
  intros [H1 H2 H3 H4] Hd Hk. rewrite H1, stream_cons in H3. split.
  - done.
  - by apply Forall_cons in H2 as [_ ?].
  - rewrite Hd, Hk. rewrite zlen_app in H3. pose proof (zlen_nonneg (entry_bytes e)). lia.
  - by rewrite Hk.
Qed.

Lemma holds_same q q' es :
  holds q es → bq_data q' = bq_data q → bq_capacity q' = bq_capacity q → holds q' es.
Proof. intros [H1 H2 H3 H4] Hd Hk. split; rewrite ?Hd, ?Hk; done. Qed.

Lemma push_holds (s : SlotSink K) frame q es :
  p_capacity (sink_ring s) = bq_capacity q → holds q es →
  let '(res, _, q') := sink_try_push s frame q in
  ∃ es', io_step es (push_io frame res) es' ∧ holds q' es'.
Proof.
  intros Hk Hh. unfold sink_try_push. set (body := of_header frame ++ of_payload frame).
  pose proof (ring_try_push_spec (sink_ring s) [of_header frame; of_payload frame] q Hk) as Hp.
  cbv zeta in Hp. cbn [concat] in Hp. rewrite app_nil_r in Hp. fold body in Hp.
  repeat case_bool_decide; try destruct Hp as (q' & Hp & Hd & Hk'); rewrite Hp; cbn.
  - exists es. split; [constructor|done].
  - exists es. split; [constructor|done].
  - exists es. split; [constructor|by eapply holds_same].
  - exists (es ++ [Frame body]). split; [constructor|].
    pose proof (hd_cap _ _ Hh). eapply holds_snoc; try done; cbn.
    + unfold CLOSE_SENTINEL, u32_max. lia.
    + rewrite zlen_app, zlen_u32_le. lia.
Qed.

Lemma close_holds q es :
  holds q es → ∃ es', io_step es (close_io q) es' ∧ holds (ring_close q) es'.
Proof.
  intros Hh. unfold close_io, ring_close. set (x := u32_le CLOSE_SENTINEL).
  assert (zlen x = 4) as Hx by apply zlen_u32_le. pose proof (bq_write_capacity x q) as Hk.
  destruct (decide (zlen (bq_data q) + zlen x ≤ bq_capacity q)) as [Hf|Hf].
  - destruct (bq_write_fits x q Hf) as [-> Hd]. exists (es ++ [Closed]).
    split; [constructor|]. by eapply holds_snoc.
  - destruct (bq_write_full x q) as [-> Hd]; [lia|]. exists es.
    split; [constructor|]. by eapply holds_same.
Qed.

Lemma pop_holds cr q es :
  holds q es → ∃ es', io_step es (pop_io cr q) es' ∧ holds (try_pop cr q).2 es'.
Proof.
  intros Hh. unfold pop_io. pose proof Hh as [H1 H2 _ _]. destruct H2 as [|[body|] es Hb Hes].
  - destruct (try_pop_empty cr q H1) as (q' & -> & Hd & Hk). cbn. exists [].
    assert (bq_data q' = bq_data q) as Hs by (by rewrite Hd, H1).
    rewrite bool_decide_true by done. split; [constructor|]. by eapply holds_same.
  - rewrite stream_cons in H1. cbn in H1. rewrite <-app_assoc in H1.
    destruct (try_pop_frame cr q body _ H1 Hb) as (q' & -> & Hd & Hk). cbn. exists es.
    split; [constructor|]. by eapply holds_tail.
  - rewrite stream_cons in H1.
    destruct (try_pop_closed cr q _ H1) as (q' & -> & Hd & Hk). cbn. exists es.
    rewrite bool_decide_false; [split; [constructor|by eapply holds_tail]|].
    intros Heq%(f_equal zlen). rewrite Hd, H1, zlen_app in Heq. cbn [entry_bytes] in Heq.
    rewrite zlen_u32_le in Heq. lia.
Qed.
(** ** The log of a run *)

(** What a ring has accepted is what was taken from it followed by what it holds. *)
Definition log_ok (l : log) r : Prop :=
  ∀ ino, match rqueues r !! ino with
         | Some q => ∃ es, ins ino l = outs ino l ++ es ∧ holds q es
         | None => ins ino l = [] ∧ outs ino l = []
         end.

Lemma ins_app ino l l' : ins ino (l ++ l') = ins ino l ++ ins ino l'.
Proof. apply omap_app. Qed.
Lemma outs_app ino l l' : outs ino (l ++ l') = outs ino l ++ outs ino l'.
Proof. apply omap_app. Qed.

Lemma io_step_balance ino es evs es' :
  io_step es evs es' →
  es ++ ins ino (pair ino <$> evs) = outs ino (pair ino <$> evs) ++ es'.
Proof.
  intros []; unfold ins, outs, at_ring; cbn; rewrite ?decide_True by done; cbn;
    by rewrite ?app_nil_r.
Qed.

Lemma other_ring ino ino' evs : ino ≠ ino' →
  ins ino' (pair ino <$> evs) = [] ∧ outs ino' (pair ino <$> evs) = [].
Proof.
  intros Hne. induction evs as [|e evs [IH1 IH2]]; [done|]. unfold ins, outs, at_ring in *. cbn.
  by rewrite !decide_False by done.
Qed.

(** An operation on one queue extends the log of that queue only. *)
Lemma log_ok_insert l r r' ino q q' evs :
  log_ok l r → rqueues r !! ino = Some q → rqueues r' = <[ino := q']> (rqueues r) →
  (∀ es, holds q es → ∃ es', io_step es evs es' ∧ holds q' es') →
  log_ok (l ++ (pair ino <$> evs)) r'.
Proof.
  intros Hl Hq Hr Hop ino'. specialize (Hl ino'). rewrite Hr, ins_app, outs_app.
  destruct (decide (ino = ino')) as [<-|Hne].
  - rewrite lookup_insert_eq. rewrite Hq in Hl. destruct Hl as (es & He & Hh).
    destruct (Hop _ Hh) as (es' & Hs & Hh'). exists es'. split; [|done].
    rewrite He, <-!app_assoc. f_equal. by apply io_step_balance.
  - rewrite lookup_insert_ne by done. destruct (other_ring ino ino' evs Hne) as [-> ->].
    by rewrite !app_nil_r.
Qed.

Lemma lstep_log l r l' r' :
  race_ok shm_dir pid r → log_ok l r → lstep r l' r' → log_ok (l ++ l') r'.
Proof.
  intros Hok Hl Hs. destruct Hs as [ptr frame c q st h p d Hh E|ptr c q st h p d Hh E| |].
  - destruct (deref_race _ _ _ _ _ _ _ Hok Hh) as (c' & q0 & E' & Hc & Hq).
    rewrite E in E'. injection E' as <- <-.
    destruct (ra_live _ _ _ Hok _ _ Hc) as (_ & q' & Hv). cbn in *.
    pose proof (lv_queue _ _ _ _ _ Hv) as Hq'. rewrite Hq in Hq'. injection Hq' as <-.
    pose proof (push_holds (mc_sink c) frame q) as Hp.
    pose proof (sink_try_push_same (mc_sink c) frame q) as Hr. unfold push_entry. rewrite E.
    destruct (sink_try_push (mc_sink c) frame q) as [[x s] q1]. cbn.
    eapply (log_ok_insert l); [exact Hl|exact Hq| |].
    + destruct Hr as (_ & (Hi & _) & _). cbn. unfold mc_ring at 1. cbn. rewrite Hi. reflexivity.
    + intros es Hes. apply Hp; [apply Hv|done].
  - destruct (deref_race _ _ _ _ _ _ _ Hok Hh) as (c' & q0 & E' & Hc & Hq).
    rewrite E in E'. injection E' as <- <-. unfold close_entry. rewrite E.
    eapply (log_ok_insert l); [exact Hl|exact Hq|done|apply close_holds].
  - eapply (log_ok_insert l); [exact Hl|eassumption|done|apply pop_holds].
  - rewrite app_nil_r. intros ino. specialize (Hl ino).
    destruct (rqueues r !! ino) as [q|] eqn:E.
    + by erewrite lookup_weaken by done.
    + destruct (rqueues r' !! ino) as [q|] eqn:E'; [|done].
      destruct (astep_new_queue _ _ _ _ Hok H E E') as [Hd Hk]. exists [].
      rewrite app_nil_r. split; [by destruct Hl as [-> ->]|]. split; [done|done| |lia].
      rewrite Hd, zlen_nil. lia.
Qed.
Lemma start_ok : race_ok shm_dir pid (mkRace (manager_new (Q:=Q) (B:=B) (K:=K)) [] [] []).
Proof. apply quiescent_race_ok, manager_new_ok. Qed.

Lemma rtc_logged r r' :
  race_ok shm_dir pid r → rtc (astep shm_dir pid cap) r r' → ∃ l, lsteps r l r'.
Proof.
  intros Hok. revert r'. apply rtc_ind_r; [exists []; constructor|]. intros x y Hr Hs [l IH].
  assert (race_ok shm_dir pid x) as Hx by (by eapply (rtc_astep_ok _ _ cap ltac:(lia))).
  destruct (astep_logged _ _ Hx Hs) as [l' Hl']. exists (l ++ l'). by econstructor.
Qed.

Lemma lsteps_log r l r' :
  race_ok shm_dir pid r → log_ok [] r → lsteps r l r' → log_ok l r'.
Proof.
  intros Hok H0 Hl. induction Hl as [|l r' l' r'' Hl IH Hs]; [done|].
  eapply lstep_log; [|exact IH|exact Hs].
  eapply (rtc_astep_ok _ _ cap ltac:(lia)); [exact Hok|by eapply lsteps_rtc].
Qed.
End logged.

(** ** A run, for the witness

    A subscription is provisioned, a task pushes a frame, the consumer pops it, and
    the connection is closed. *)
Module RingDemo.
Abbreviation step := (lstep (BQ:=list_byte_queue) (EK:=sim_event_kernel) Demo.dir 7 256).
Definition frame : OutboundFrame := mkOutboundFrame [x01; x02] [x03] 0.
Definition drawn1 : RaceDemo.State := mkRace (bump manager_new) [] [] [1].
Definition made : RaceDemo.State :=
  mkRace (RaceDemo.with_conn 1 (ra_st drawn1)) [] [0%nat] [].
Definition installed : RaceDemo.State :=
  mkRace (compare_and_swap 0 None (Some 0%nat) (ra_st made)).2 [0%nat] [] [].
Definition pushed : RaceDemo.State :=
  mkRace (push_entry 0 frame (ra_st installed)).2 [0%nat] [] [].
Definition queue (r : RaceDemo.State) : list_queue :=
  default (mkListQueue [] 0) (queues (shm (ra_st r)) !! 0%nat).
Definition default_conn (r : RaceDemo.State) : ManagedConnection (gset pubkey) sim_event :=
  default (RaceDemo.conn 1 shm_empty) (heap (ra_st r) !! 0%nat).
Definition popped : RaceDemo.State :=
  mkRace (set_shm (ra_st pushed) (mkShm (files (shm (ra_st pushed)))
    (<[0%nat := (try_pop sample_consumer (queue pushed)).2]> (queues (shm (ra_st pushed))))
    (next_inode (shm (ra_st pushed))))) [0%nat] [] [].
Definition closed : RaceDemo.State := mkRace (close_entry 0 (ra_st popped)) [0%nat] [] [].

Definition events : log :=
  [(0%nat, In (Frame [x01; x02; x03])); (0%nat, Out (Frame [x01; x02; x03])); (0%nat, In Closed)].

Lemma relabel (r r' : RaceDemo.State) l l' : l = l' → step r l r' → step r l' r'.
Proof. by intros ->. Qed.

Lemma logged_run : lsteps (BQ:=list_byte_queue) (EK:=sim_event_kernel) Demo.dir 7 256
  RaceDemo.start events closed.
Proof.
  apply (ls_step _ _ _ _ [(0%nat, In (Frame [x01; x02; x03])); (0%nat, Out (Frame [x01; x02; x03]))]
    popped [(0%nat, In Closed)]).
  2: { eapply relabel; [|apply (l_close _ _ _ 0 (default_conn popped) (queue popped)
         (ra_st popped) [0%nat] [] []); [by left|reflexivity]].
       vm_compute. reflexivity. }
  apply (ls_step _ _ _ _ [(0%nat, In (Frame [x01; x02; x03]))]
    pushed [(0%nat, Out (Frame [x01; x02; x03]))]).
  2: { eapply relabel; [|apply (l_pop _ _ _ 0 sample_consumer (queue pushed)
         (ra_st pushed) [0%nat] [] []); reflexivity].
       vm_compute. reflexivity. }
  apply (ls_step _ _ _ _ [] installed [(0%nat, In (Frame [x01; x02; x03]))]).
  2: { eapply relabel; [|apply (l_push _ _ _ 0 frame (default_conn installed) (queue installed)
         (ra_st installed) [0%nat] [] []); [by left|reflexivity]].
       vm_compute. reflexivity. }
  apply (ls_step _ _ _ _ [] made []).
  2: { apply l_quiet; [|done].
       apply (a_install _ _ _ 0 (default_conn made) (ra_st made) [] [0%nat] []); [done|reflexivity|done]. }
  apply (ls_step _ _ _ _ [] drawn1 []).
  2: { apply l_quiet; [|apply map_empty_subseteq].
       apply (a_alloc _ _ _ 0 1 1000 sample_env (RaceDemo.ring 1 shm_empty).1
           (RaceDemo.ring 1 shm_empty).2 RaceDemo.filter (mkSimEvent 0 0) (bump manager_new)
           [] [] [1] []);
         [unfold MAX_CONNECTION_SLOTS; lia|done|by apply RaceDemo.ring_created]. }
  apply (ls_step _ _ _ _ [] RaceDemo.start []); [constructor|].
  apply l_quiet; [by apply a_draw|done].
Qed.
End RingDemo.

(** ** Properties *)

(** C7: Whatever the sender's tasks and the consumers do and in whatever order,
    every ring is a FIFO of whole messages.  Every run from an empty table has a log
    of what each step put into a ring and took out of one, and for every such log and
    every ring of the last state, also one whose file is gone: the frames and close
    marks it accepted are, in order, those taken out of it followed by those its bytes
    still encode, every one readable, and it never holds more than its capacity.  So
    nothing accepted is lost, duplicated, torn or reordered, and no refused frame
    leaves a trace. *)
Theorem interleaved_rings_are_fifos {Q} {BQ : ByteQueue Q} {BQL : ByteQueueLaws Q}
    {B} {BF : BloomFilter B} {K} {EK : EventKernel K} shm_dir pid cap
    (r : RaceState (Q:=Q) (B:=B) (K:=K)) :
  cap ≤ 2 ^ 32 → rtc (astep shm_dir pid cap) (mkRace manager_new [] [] []) r →
  (∃ l, lsteps shm_dir pid cap (mkRace manager_new [] [] []) l r) ∧
  ∀ l, lsteps shm_dir pid cap (mkRace manager_new [] [] []) l r →
  ∀ ino q, queues (shm (ra_st r)) !! ino = Some q →
  ∃ es, ins ino l = outs ino l ++ es ∧ bq_data q = stream es ∧ Forall entry_ok es ∧
    zlen (bq_data q) ≤ bq_capacity q.
Proof.
  intros Hcap Hr. pose proof (start_ok (Q:=Q) (B:=B) (K:=K) shm_dir pid) as Hok. split.
  - by apply rtc_logged.
  - intros l Hl ino q Hq.
    pose proof (lsteps_log _ _ _ Hcap _ _ _ Hok (λ _, conj eq_refl eq_refl) Hl ino) as H.
    rewrite Hq in H.
    destruct H as (es & He & [H1 H2 H3 _]). by exists es.
Qed.

(** The frame was taken, the close mark is still there. *)
Lemma interleaved_rings_are_fifos_witness :
  lq_data (RingDemo.queue RingDemo.closed) = u32_le CLOSE_SENTINEL ∧
  ∃ es, ins 0 RingDemo.events = outs 0 RingDemo.events ++ es ∧
    stream es = u32_le CLOSE_SENTINEL.
Proof.
  assert (lq_data (RingDemo.queue RingDemo.closed) = u32_le CLOSE_SENTINEL) as Hd
    by (vm_compute; reflexivity).
  split; [exact Hd|].
  destruct (@interleaved_rings_are_fifos _ list_byte_queue list_byte_queue_laws _ exact_bloom _
    sim_event_kernel Demo.dir 7 256 RingDemo.closed ltac:(lia)
    (lsteps_rtc _ _ _ _ _ _ RingDemo.logged_run)) as [_ H].
  destruct (H RingDemo.events RingDemo.logged_run 0%nat (RingDemo.queue RingDemo.closed))
    as (es & He & Hs & _); [vm_compute; reflexivity|].
  exists es. split; [exact He|]. rewrite <-Hs. exact Hd.
Defined.
