(* ===== verification/Delivery.v ===== *)
(** * Delivery: what a dispatch does to every consumer

    The dispatch loop of the connection manager, composed with the frame
    encoders, the ring and the wakeup: which consumers get the update, what bytes
    land in their rings, and what happens to the ones that cannot take it. *)

From stdpp Require Import prelude gmap strings.
From Stdlib Require Import Strings.Byte.
From S2P Require Import Prelude Errors WireCodec DataFrames ControlFrames Metrics EventFd Ring Transport.
From S2P Require Import Filter Manager ManagerInv ManagerSpec.

Section delivery.
Context {Q : Type} {BQ : ByteQueue Q} {BQL : ByteQueueLaws Q}.
Context {B : Type} {BF : BloomFilter B}.
Context {K : Type} {EK : EventKernel K} {EKL : EventKernelLaws K}.
Context (shm_dir : string) (pid : Z).
Implicit Types (st : MState Q B K) (c : ManagedConnection B K).

(** The connection of slot [i] is gone and so is its ring file. *)
Definition evicted st' i c : Prop :=
  view st' i = None ∧ files (shm st') !! p_path (mc_ring c) = None.

(** The fate of slot [i] when [bytes] are dispatched to the filters [wants] holds
    of: stale slots go, uninterested ones are left alone, and an interested one gets
    the whole frame and a pending wakeup if its ring has room, and is disconnected
    otherwise. *)
Definition delivery (now : Z) (wants : SubscriptionFilter B → bool) (bytes : list byte)
    st st' i : Prop :=
  match view st i with
  | None => view st' i = None
  | Some (ptr, c, q) =>
      if is_stale now c then evicted st' i c
      else if negb (wants (mc_filter c)) then view st' i = Some (ptr, c, q)
      else if bool_decide (zlen (bq_data q) + (4 + zlen bytes) ≤ bq_capacity q)
      then ∃ s q', view st' i = Some (ptr, set_sink c s, q') ∧
             bq_data q' = bq_data q ++ entry_bytes (Frame bytes) ∧ 0 < ek_count (sink_wakeup s)
      else evicted st' i c
  end.

(** A ring file disappears with its connection. *)
Lemma files_gone st st' i ptr c q :
  mgr_ok shm_dir pid st → mgr_ok shm_dir pid st' → shrinks st st' →
  view st i = Some (ptr, c, q) → view st' i = None → evicted st' i c.
Proof.
  intros Hok Hok' Hsh Hv Hn. split; [done|].
  destruct (files (shm st') !! p_path (mc_ring c)) as [ino|] eqn:E; [|done].
  destruct (ok_files _ _ _ Hok' _ _ E) as (j & pj & cj & qj & Hvj & Hp). exfalso.
  destruct (Hsh _ _ _ _ Hvj) as (c0 & q0 & Hv0 & (_ & _ & (_ & _ & Hpath & _))).
  destruct (decide (j = i)) as [->|Hj]; [congruence|].
  destruct (conn_path_other _ _ st i ptr c q Hok Hv j pj c0 q0 Hv0 Hj). congruence.
Qed.

Lemma dispatch_with_delivers env wants frame st m :
  mgr_ok shm_dir pid st → total_len frame ≤ u32_max →
  let '(st', _) := dispatch_with env wants (Ok frame) st m in
  mgr_ok shm_dir pid st' ∧ next_connection_id st' = next_connection_id st ∧
  ∀ i, delivery (de_now env i) wants (of_header frame ++ of_payload frame) st st' i.
Proof.
  intros Hok Hlen. pose proof (dispatch_with_shrinks _ _ env wants (Ok frame) st m Hok) as Hsh.
  pose proof (dispatch_loop_views _ _ env wants frame (length (connections st)) 0 None st m Hok
    ltac:(by left)) as H.
  unfold dispatch_with in *.
  destruct (dispatch_loop _ _ _ _ _ _ _ _) as [st' m']. destruct H as (Hok' & Hn & Hv' & _).
  destruct Hsh as (_ & _ & Hsh). split_and!; [done|done|]. intros i. specialize (Hv' i).
  unfold delivery. destruct (view st i) as [[[ptr c] q]|] eqn:Hv.
  2: { by case_bool_decide. }
  pose proof Hv as (Hl & _)%view_Some. apply load_lt in Hl.
  rewrite bool_decide_true in Hv' by lia. cbn [slot_dispatch] in Hv'.
  destruct (is_stale (de_now env i) c); [by apply (files_gone st st' i ptr c q)|].
  destruct (negb (wants (mc_filter c))); [done|].
  pose proof (co_cap _ _ _ _ _ _ (ok_view _ _ _ _ _ _ _ Hok Hv)) as Hcap.
  pose proof (sink_push_cases (mc_sink c) frame q Hcap Hlen) as Hpush.
  unfold slot_push in Hv'. unfold total_len in *. rewrite zlen_app.
  destruct (sink_try_push (mc_sink c) frame q) as [[r s] q'].
  case_bool_decide.
  - destruct Hpush as (-> & Hk & Hd). exists s, q'. split_and!; [done| |done].
    rewrite Hd. cbn. by rewrite zlen_app.
  - destruct Hpush as (-> & _). by apply (files_gone st st' i ptr c q).
Qed.
End delivery.

(** The stamp a frame carries. *)
Lemma stamp_u64 t : is_u64 (unix_time_nanos t).
Proof. unfold is_u64, unix_time_nanos, since_epoch_nanos, u64_max. lia. Qed.

Lemma account_delivery {Q} {BQ : ByteQueue Q} {BQL : ByteQueueLaws Q}
    {B} {BF : BloomFilter B} {K} {EK : EventKernel K} {EKL : EventKernelLaws K}
    {LZ : Lz4} {LZL : Lz4Laws} {CC : ControlCodecs} shm_dir pid env u (st : MState Q B K) m :
  mgr_ok shm_dir pid st → AccountUpdate_wf u →
  ∃ bytes,
    decode_server_frame_owned_with_meta bytes
      = Ok (SFM_AccountUpdate u (mkWireMeta (unix_time_nanos (de_systime env)))) ∧
    zlen bytes ≤ ACCOUNT_UPDATE_FIXED_BYTES
                 + zlen (account_payload_bytes (account_payload u)) ∧
    let st' := (dispatch_account_update env u st m).1 in
    mgr_ok shm_dir pid st' ∧
    ∀ i, delivery (de_now env i) (λ f, matches_account f u) bytes st st' i.
Proof.
  intros Hok Hu.
  destruct (route_account u (unix_time_nanos (de_systime env)) Hu (stamp_u64 _))
    as (h & p & He & Hh & Hp & Hd).
  exists (h ++ p). split; [done|]. split; [rewrite zlen_app; lia|].
  unfold dispatch_account_update, encode_account_frame, outbound. rewrite He. cbn [rbind].
  pose proof (dispatch_with_delivers shm_dir pid env (λ f, matches_account f u)
    (mkOutboundFrame h p (de_instant env)) st m Hok) as H.
  destruct (dispatch_with _ _ _ _ _) as [st' m']. cbn in H |- *.
  destruct H as (H1 & _ & H2); [|done].
  unfold total_len. cbn. destruct Hu as (_ & _ & _ & _ & _ & _ & Hpl). rewrite Hh.
  unfold ACCOUNT_UPDATE_FIXED_BYTES, MAX_ACCOUNT_PAYLOAD_BYTES, u32_max in *. lia.
Qed.

Lemma transaction_delivery {Q} {BQ : ByteQueue Q} {BQL : ByteQueueLaws Q}
    {B} {BF : BloomFilter B} {K} {EK : EventKernel K} {EKL : EventKernelLaws K}
    {LZ : Lz4} {CC : ControlCodecs} shm_dir pid env t (st : MState Q B K) m :
  mgr_ok shm_dir pid st → TransactionUpdate_wf t →
  ∃ bytes,
    decode_server_frame_owned_with_meta bytes
      = Ok (SFM_TransactionUpdate t (mkWireMeta (unix_time_nanos (de_systime env)))) ∧
    zlen bytes = TRANSACTION_UPDATE_FIXED_BYTES
                 + zlen (transaction_payload_bytes (tx_payload t)) ∧
    let st' := (dispatch_transaction_update env t st m).1 in
    mgr_ok shm_dir pid st' ∧
    ∀ i, delivery (de_now env i) matches_transaction bytes st st' i.
Proof.
  intros Hok Ht.
  destruct (route_transaction t (unix_time_nanos (de_systime env)) Ht (stamp_u64 _))
    as (h & p & He & Hh & Hp & Hd).
  exists (h ++ p). split; [done|]. split; [rewrite zlen_app; congruence|].
  unfold dispatch_transaction_update, encode_transaction_frame, outbound. rewrite He.
  pose proof (dispatch_with_delivers shm_dir pid env matches_transaction
    (mkOutboundFrame h p (de_instant env)) st m Hok) as H. cbn [rbind].
  destruct (dispatch_with _ _ _ _ _) as [st' m']. cbn in H |- *.
  destruct H as (H1 & _ & H2); [|done].
  unfold total_len. cbn. destruct Ht as (_ & _ & _ & Hpl). rewrite Hh, Hp.
  unfold TRANSACTION_UPDATE_FIXED_BYTES, MAX_TRANSACTION_PAYLOAD_BYTES, u32_max in *. lia.
Qed.

Lemma slot_delivery {Q} {BQ : ByteQueue Q} {BQL : ByteQueueLaws Q}
    {B} {BF : BloomFilter B} {K} {EK : EventKernel K} {EKL : EventKernelLaws K}
    {LZ : Lz4} {CC : ControlCodecs} shm_dir pid env u (st : MState Q B K) m :
  mgr_ok shm_dir pid st → SlotUpdate_wf u →
  ∃ bytes,
    decode_server_frame_owned_with_meta bytes
      = Ok (SFM_SlotUpdate u (mkWireMeta (unix_time_nanos (de_systime env)))) ∧
    zlen bytes = SLOT_UPDATE_FIXED_BYTES ∧
    let st' := (dispatch_slot_update env u st m).1 in
    mgr_ok shm_dir pid st' ∧
    ∀ i, delivery (de_now env i) (λ _, true) bytes st st' i.
Proof.
  intros Hok Hu.
  destruct (route_slot u (unix_time_nanos (de_systime env)) Hu (stamp_u64 _))
    as (h & p & He & Hh & -> & Hd).
  exists (h ++ []). split; [done|]. split; [by rewrite app_nil_r|].
  unfold dispatch_slot_update, encode_slot_frame, outbound. rewrite He.
  pose proof (dispatch_with_delivers shm_dir pid env (λ _, true)
    (mkOutboundFrame h [] (de_instant env)) st m Hok) as H. cbn [rbind].
  destruct (dispatch_with _ _ _ _ _) as [st' m']. cbn in H |- *.
  destruct H as (H1 & _ & H2); [|done].
  unfold total_len. cbn. rewrite Hh, zlen_nil. vm_compute. discriminate.
Qed.

(** ** Properties *)

(** C2: Dispatching an account update: every consumer that is alive and
    subscribed to the account's key or owner finds in its ring, after whatever was
    there, one frame that its decoder turns back into exactly this update with the
    sender's time stamp, and has a wakeup pending; a subscribed consumer without room
    is disconnected and its ring file removed; a consumer silent for more than thirty
    seconds is disconnected; everyone else is untouched. *)
Theorem dispatch_account_delivers {Q} {BQ : ByteQueue Q} {BQL : ByteQueueLaws Q}
    {B} {BF : BloomFilter B} {K} {EK : EventKernel K} {EKL : EventKernelLaws K}
    {LZ : Lz4} {LZL : Lz4Laws} {CC : ControlCodecs} shm_dir pid env u (st : MState Q B K) m :
  mgr_ok shm_dir pid st → AccountUpdate_wf u →
  ∃ bytes,
    decode_server_frame_owned_with_meta bytes
      = Ok (SFM_AccountUpdate u (mkWireMeta (unix_time_nanos (de_systime env)))) ∧
    zlen bytes ≤ ACCOUNT_UPDATE_FIXED_BYTES
                 + zlen (account_payload_bytes (account_payload u)) ∧
    let st' := (dispatch_account_update env u st m).1 in
    mgr_ok shm_dir pid st' ∧
    ∀ i, delivery (de_now env i) (λ f, matches_account f u) bytes st st' i.
Proof. intros Hok Hu. by apply account_delivery. Qed.

Definition demo_dispatch : DispatchEnv := mkDispatchEnv (λ _, 2000) 5000000 0 (λ _, 1) 1.
Definition demo_account : AccountUpdate := sample_account (sample_key x01) (sample_key x09).
Definition demo_metrics : QlasterSenderMetrics := QlasterSenderMetrics_new.

Lemma dispatch_account_delivers_witness :
  ∃ bytes,
    @decode_server_frame_owned_with_meta Bincode.codecs rle_lz4 bytes
      = Ok (SFM_AccountUpdate demo_account (mkWireMeta 5000000)) ∧
    ∃ c q, view (@dispatch_account_update _ _ _ _ _ _ rle_lz4 demo_dispatch demo_account
                    Demo.one demo_metrics).1 0
      = Some (0%nat, c, q) ∧ bq_data q = entry_bytes (Frame bytes).
Proof.
  destruct Demo.one_view as (ring & efd & q & Hv & Hd & Hp).
  assert (AccountUpdate_wf demo_account) as Hu by decide_now.
  destruct (@dispatch_account_delivers _ list_byte_queue list_byte_queue_laws _ exact_bloom _
    sim_event_kernel sim_event_laws rle_lz4 rle_lz4_laws Bincode.codecs Demo.dir 7 demo_dispatch
    demo_account Demo.one demo_metrics Demo.one_ok Hu) as (bytes & H1 & Hlen & _ & H2).
  exists bytes. split; [exact H1|]. specialize (H2 0%nat). unfold delivery in H2.
  pose proof (co_cap _ _ _ _ _ _ (ok_view _ _ _ _ _ _ _ Demo.one_ok Hv)) as Hcap.
  rewrite Hv in H2. cbn in Hcap. rewrite Hp in Hcap.
  change (zlen bytes ≤ 117) in Hlen.
  replace (is_stale _ _) with false in H2 by (vm_compute; reflexivity).
  cbn [mc_filter] in H2.
  replace (matches_account (from_request 0 Demo.request) demo_account) with true in H2
    by (vm_compute; reflexivity).
  cbn [negb] in H2. rewrite Hd, bool_decide_true in H2 by (cbn; rewrite <-Hcap, zlen_nil; lia).
  destruct H2 as (s & q' & H3 & H4 & _). eexists _, q'. split; [exact H3|exact H4].
Defined.

(** C16: Dispatching a transaction or a slot update: the same, with transactions
    going to the consumers that asked for them and slot updates to every live
    consumer, whatever its filter. *)
Theorem dispatch_transaction_slot_delivers {Q} {BQ : ByteQueue Q} {BQL : ByteQueueLaws Q}
    {B} {BF : BloomFilter B} {K} {EK : EventKernel K} {EKL : EventKernelLaws K}
    {LZ : Lz4} {CC : ControlCodecs} shm_dir pid env t u (st : MState Q B K) m :
  mgr_ok shm_dir pid st → TransactionUpdate_wf t → SlotUpdate_wf u →
  let stamp := mkWireMeta (unix_time_nanos (de_systime env)) in
  (∃ bytes,
    decode_server_frame_owned_with_meta bytes = Ok (SFM_TransactionUpdate t stamp) ∧
    zlen bytes = TRANSACTION_UPDATE_FIXED_BYTES
                 + zlen (transaction_payload_bytes (tx_payload t)) ∧
    let st' := (dispatch_transaction_update env t st m).1 in
    mgr_ok shm_dir pid st' ∧
    ∀ i, delivery (de_now env i) matches_transaction bytes st st' i) ∧
  (∃ bytes,
    decode_server_frame_owned_with_meta bytes = Ok (SFM_SlotUpdate u stamp) ∧
    zlen bytes = SLOT_UPDATE_FIXED_BYTES ∧
    let st' := (dispatch_slot_update env u st m).1 in
    mgr_ok shm_dir pid st' ∧
    ∀ i, delivery (de_now env i) (λ _, true) bytes st st' i).
Proof.
  intros Hok Ht Hu stamp. split; [|by apply slot_delivery].
  by apply transaction_delivery.
Qed.

Definition demo_tx : TransactionUpdate :=
  mkTransactionUpdate 9 1 (replicate 64 x07) false (mkTransactionPayload [x2a]).

Lemma dispatch_transaction_slot_delivers_witness :
  ∃ bytes c q,
    @decode_server_frame_owned_with_meta Bincode.codecs rle_lz4 bytes
      = Ok (SFM_SlotUpdate (mkSlotUpdate 9) (mkWireMeta 5000000)) ∧
    view (dispatch_slot_update demo_dispatch (mkSlotUpdate 9)
            Demo.one demo_metrics).1 0 = Some (0%nat, c, q) ∧
    bq_data q = entry_bytes (Frame bytes).
Proof.
  destruct Demo.one_view as (ring & efd & q & Hv & Hd & Hp).
  destruct (@dispatch_transaction_slot_delivers _ list_byte_queue list_byte_queue_laws _
    exact_bloom _ sim_event_kernel sim_event_laws rle_lz4 Bincode.codecs Demo.dir 7
    demo_dispatch demo_tx (mkSlotUpdate 9) Demo.one demo_metrics Demo.one_ok
    ltac:(decide_now) ltac:(decide_now)) as [_ (bytes & H1 & Hlen & _ & H2)].
  exists bytes. specialize (H2 0%nat). unfold delivery in H2.
  pose proof (co_cap _ _ _ _ _ _ (ok_view _ _ _ _ _ _ _ Demo.one_ok Hv)) as Hcap.
  rewrite Hv in H2. cbn in Hcap. rewrite Hp in Hcap. change (zlen bytes = 18) in Hlen.
  replace (is_stale _ _) with false in H2 by (vm_compute; reflexivity).
  cbn [negb] in H2. rewrite Hd, bool_decide_true in H2 by (cbn; rewrite <-Hcap, zlen_nil; lia).
  destruct H2 as (s & q' & H3 & H4 & _). eexists _, q'.
  split; [exact H1|]. split; [exact H3|exact H4].
Defined.

(** ** What a dispatch counts *)
Section counting.
Context {Q : Type} {BQ : ByteQueue Q} {BQL : ByteQueueLaws Q}.
Context {B : Type} {BF : BloomFilter B}.
Context {K : Type} {EK : EventKernel K} {EKL : EventKernelLaws K}.
Context (shm_dir : string) (pid : Z).
Implicit Types (st : MState Q B K).

(** Slot [i] holds a live connection that wants the update. *)
Definition interested (env : DispatchEnv) (wants : SubscriptionFilter B → bool) st i : bool :=
  match view st i with
  | Some (_, c, _) => negb (is_stale (de_now env i) c) && wants (mc_filter c)
  | None => false
  end.

(** Its ring has room for a frame of [size] bytes. *)
Definition has_room (size : Z) st i : bool :=
  match view st i with
  | Some (_, _, q) => bool_decide (zlen (bq_data q) + (4 + size) ≤ bq_capacity q)
  | None => false
  end.

(** The slots the frame is pushed to, and those that are too full for it. *)
Definition served env wants size st : list nat :=
  filter (λ i, interested env wants st i = true ∧ has_room size st i = true)
    (seq 0 MAX_CONNECTION_SLOTS).
Definition refused env wants size st : list nat :=
  filter (λ i, interested env wants st i = true ∧ has_room size st i = false)
    (seq 0 MAX_CONNECTION_SLOTS).

Lemma slot_metrics_eq env wants frame st m i :
  mgr_ok shm_dir pid st → total_len frame ≤ u32_max →
  slot_metrics env wants frame st m i =
    if interested env wants st i then
      if has_room (total_len frame) st i then record_send m (de_send_us env i) else inc_ring_full m
    else m.
Proof.
  intros Hok Hlen. unfold slot_metrics, interested, has_room.
  destruct (view st i) as [[[ptr c] q]|] eqn:Hv; [|done].
  destruct (is_stale _ c); [done|]. destruct (wants (mc_filter c)); [|done]. cbn.
  pose proof (co_cap _ _ _ _ _ _ (ok_view _ _ _ _ _ _ _ Hok Hv)) as Hcap.
  pose proof (sink_push_cases (mc_sink c) frame q Hcap Hlen) as Hpush.
  unfold slot_push. destruct (sink_try_push (mc_sink c) frame q) as [[r s] q'].
  case_bool_decide; by destruct Hpush as [-> _].
Qed.

Lemma slot_metrics_all env wants frame st m l :
  mgr_ok shm_dir pid st → total_len frame ≤ u32_max → is_u64 (shm_ring_full m) →
  foldl (slot_metrics env wants frame st) m l =
    mkSenderMetrics (dispatch m)
      (foldl record (shm_send m) (map (de_send_us env)
         (filter (λ i, interested env wants st i = true ∧ has_room (total_len frame) st i = true) l)))
      (wrap64 (shm_ring_full m + zlen
         (filter (λ i, interested env wants st i = true ∧ has_room (total_len frame) st i = false) l))).
Proof.
  intros Hok Hlen. revert m. induction l as [|i l IH]; intros m Hm.
  { cbn. rewrite zlen_nil, Z.add_0_r, wrap64_id by done. by destruct m. }
  cbn [foldl]. rewrite (slot_metrics_eq env wants frame st m i Hok Hlen), !filter_cons.
  destruct (interested env wants st i) eqn:E1;
    [destruct (has_room (total_len frame) st i) eqn:E2|].
  - rewrite decide_True, decide_False by naive_solver. by rewrite IH.
  - rewrite decide_False, decide_True by naive_solver. rewrite IH by apply wrap64_range.
    cbn [dispatch shm_send shm_ring_full inc_ring_full counter_inc]. unfold counter_inc.
    rewrite zlen_cons. f_equal. rewrite wrap64_add_l. f_equal. lia.
  - rewrite !decide_False by naive_solver. by apply IH.
Qed.

Lemma slot_metrics_dispatch env wants frame st m l :
  dispatch (foldl (slot_metrics env wants frame st) m l) = dispatch m.
Proof.
  revert m. induction l as [|i l IH]; intros m; [done|]. cbn [foldl]. rewrite IH.
  unfold slot_metrics. destruct (view st i) as [[[ptr c] q]|]; [|done].
  destruct (is_stale _ c); [done|]. destruct (wants (mc_filter c)); [|done]. cbn.
  by destruct (slot_push frame ptr c q).
Qed.

Lemma served_refused env wants size st l :
  (length (filter (λ i, interested env wants st i = true ∧ has_room size st i = true) l)
   + length (filter (λ i, interested env wants st i = true ∧ has_room size st i = false) l))%nat
  = length (filter (λ i, interested env wants st i = true) l).
Proof.
  induction l as [|i l IH]; [done|]. rewrite !filter_cons.
  destruct (interested env wants st i); [destruct (has_room size st i)|];
    repeat case_decide; cbn; solve [lia|tauto|intuition congruence].
Qed.
End counting.

(** C18: The sender's metrics account for every consumer: one dispatch records its
    own duration exactly once, on every path; one send time for each live interested
    consumer whose ring has room and nothing else; and raises the ring-full counter
    (modulo 2^64) by the number of live interested consumers whose ring has not.  An
    update that cannot be encoded records its duration only. *)
Theorem dispatch_counts_everyone {Q} {BQ : ByteQueue Q} {BQL : ByteQueueLaws Q}
    {B} {BF : BloomFilter B} {K} {EK : EventKernel K} {EKL : EventKernelLaws K}
    shm_dir pid env wants encode (st : MState Q B K) m :
  mgr_ok shm_dir pid st → is_u64 (shm_ring_full m) →
  let m' := (dispatch_with env wants encode st m).2 in
  dispatch m' = record (dispatch m) (de_dispatch_us env) ∧
  match encode with
  | Ok frame =>
      total_len frame ≤ u32_max →
      let taken := served env wants (total_len frame) st in
      let full := refused env wants (total_len frame) st in
      shm_send m' = foldl record (shm_send m) (map (de_send_us env) taken) ∧
      shm_ring_full m' = (shm_ring_full m + zlen full) mod 2 ^ 64 ∧
      (length taken + length full)%nat
        = length (filter (λ i, interested env wants st i = true) (seq 0 MAX_CONNECTION_SLOTS))
  | _ => shm_send m' = shm_send m ∧ shm_ring_full m' = shm_ring_full m
  end.
Proof.
  intros Hok Hm. unfold dispatch_with. destruct encode as [frame|e|].
  - pose proof (dispatch_loop_views _ _ env wants frame (length (connections st)) 0 None st m Hok
      ltac:(by left)) as H.
    destruct (dispatch_loop _ _ _ _ _ _ _ _) as [st' m']. destruct H as (_ & _ & _ & Hm').
    rewrite (ok_len _ _ _ Hok) in Hm'. subst m'. cbn [snd]. unfold record_dispatch. cbn [dispatch].
    split; [by rewrite slot_metrics_dispatch|]. cbv zeta iota. intros Hlen.
    rewrite (slot_metrics_all shm_dir pid) by done. split_and!; [done|done|apply served_refused].
  - pose proof (dispatch_loop_failed _ _ env wants (Err e) (length (connections st)) 0 st m
      Hok ltac:(done)) as H.
    destruct (dispatch_loop _ _ _ _ _ _ _ _) as [st' m']. by destruct H as (_ & _ & _ & ->).
  - pose proof (dispatch_loop_failed _ _ env wants Panic (length (connections st)) 0 st m
      Hok ltac:(done)) as H.
    destruct (dispatch_loop _ _ _ _ _ _ _ _) as [st' m']. by destruct H as (_ & _ & _ & ->).
Qed.

Lemma dispatch_counts_everyone_witness :
  let frame := mkOutboundFrame [x01; x02] [x03] 0 in
  let m' := (dispatch_with demo_dispatch (λ _, true) (Ok frame) Demo.one demo_metrics).2 in
  la_count (shm_send m') = 1 ∧ la_count (dispatch m') = 1 ∧ shm_ring_full m' = 0.
Proof.
  intros frame m'.
  destruct (@dispatch_counts_everyone _ list_byte_queue list_byte_queue_laws _ exact_bloom _
    sim_event_kernel sim_event_laws Demo.dir 7 demo_dispatch (λ _, true) (Ok frame) Demo.one
    demo_metrics Demo.one_ok ltac:(decide_now)) as (H1 & H2).
  destruct (H2 ltac:(vm_compute; discriminate)) as (H3 & H4 & _).
  change (dispatch_with _ _ _ _ _).2 with m' in H1, H3, H4.
  rewrite H1, H3, H4. split_and!; vm_compute; reflexivity.
Defined.
