(* ===== verification/SenderShm.v ===== *)
(** * Sender control plane ([src/src/sender/shm.rs])

    Binding the control socket, the accept loop and the per-connection loop
    that serves subscribe and ping frames.  System calls are arguments; between
    two frames of a connection other tasks of the sender may run, which is the
    argument [ce_between]. *)

From stdpp Require Import prelude gmap strings pretty.
From Stdlib Require Import Strings.Byte Strings.Ascii.
From S2P Require Import Prelude Errors WireCodec DataFrames ControlFrames Wire Uds Metrics EventFd.
From S2P Require Import Ring Transport Filter Manager ManagerInv ManagerSpec.

Record ShmTransportConfig := mkConfig {
  uds_path : string; shm_dir : string; ring_capacity_bytes : Z }.

(** [ShmTransportConfig::defaults] *)
Definition config_defaults (plat : platform) (temp_dir : string) (pid : Z) (uds : string) :
    ShmTransportConfig :=
  {| uds_path := uds;
     shm_dir := match plat with
                | Linux => "/dev/shm/qlaster-" +:+ pretty pid
                | OtherUnix => path_join temp_dir ("qlaster-" +:+ pretty pid)
                end;
     ring_capacity_bytes := DEFAULT_SHM_RING_CAPACITY |}.

(** ** Binding *)
Inductive fs_action :=
| CreateDirAll (path : string) | RemoveFile (path : string) | BindSocket (path : string).

(** Outcomes of the calls; [be_parent] is [uds_path.parent()]. *)
Record BindEnv := mkBindEnv {
  be_parent : option string;
  be_mkdir_parent : option string;   (** the error, if any *)
  be_bind : option string;
  be_mkdir_shm : option string }.

(** The result and the file-system calls made. *)
Definition bind_listener (env : BindEnv) (cfg : ShmTransportConfig) :
    Res ShmTransportConfig * list fs_action :=
  if negb (is_power_of_two (ring_capacity_bytes cfg))
  then (Err (ConfigError ("ring_capacity_bytes " +:+ pretty (ring_capacity_bytes cfg)
                          +:+ " must be a power of two")), [])
  else
    let '(r, log) :=
      match be_parent env with
      | Some parent =>
          if negb (bool_decide (parent = "")) then
            (match be_mkdir_parent env with
             | Some e => Err (UdsError ("create uds parent: " +:+ e))
             | None => Ok tt
             end, [CreateDirAll parent])
          else (Ok tt, [])
      | None => (Ok tt, [])
      end in
    match r with
    | Err e => (Err e, log)
    | Panic => (Panic, log)
    | Ok _ =>
        let log := log ++ [RemoveFile (uds_path cfg); BindSocket (uds_path cfg)] in
        match be_bind env with
        | Some e => (Err (UdsError ("bind " +:+ uds_path cfg +:+ ": " +:+ e)), log)
        | None =>
            let log := log ++ [CreateDirAll (shm_dir cfg)] in
            match be_mkdir_shm env with
            | Some e => (Err (ShmError ("create shm dir: " +:+ e)), log)
            | None => (Ok cfg, log)
            end
        end
    end.

(** ** The accept loop

    One entry per [accept]: an error, or a stream with the outcome of
    [set_nosigpipe] on it.  Gives the streams handed to connection tasks and the
    error the loop ended with; it has no other way to end. *)
Fixpoint run_listener {S} (plat : platform) (accepts : list ((S * sysret) + string)) :
    list S * option QlasterError :=
  match accepts with
  | [] => ([], None)
  | inr e :: _ => ([], Some (UdsError ("accept: " +:+ e)))
  | inl (stream, sockopt) :: accepts =>
      match set_nosigpipe plat sockopt with
      | Ok _ => let '(served, r) := run_listener plat accepts in (stream :: served, r)
      | _ => run_listener plat accepts
      end
  end.

(** ** One connection *)
Record ConnState (Q B K : Type) := mkConnState {
  cs_mgr : MState Q B K;
  cs_writer : Writer;                (** bytes sent on the socket *)
  cs_fds : list Z;                   (** descriptors passed with them *)
  cs_forwarded : list SubscriptionRequest;  (** handed to [bloom_updates_tx] *)
}.
Arguments mkConnState {Q B K}.
Arguments cs_mgr {Q B K}.
Arguments cs_writer {Q B K}.
Arguments cs_fds {Q B K}.
Arguments cs_forwarded {Q B K}.

Section connection.
Context {Q : Type} {BQ : ByteQueue Q}.
Context {B : Type} {BF : BloomFilter B}.
Context {K : Type} {EK : EventKernel K}.
Context {CC : ControlCodecs}.

(** What the environment does while one frame is served. *)
Record ConnEnv := mkConnEnv {
  ce_upsert : UpsertEnv (Q:=Q) (B:=B) (K:=K);
  ce_fuel : nat;                     (** attempts of [upsert_shm] *)
  ce_sendmsg : sysret;
  ce_pass_fd : K → Z;
  ce_forward : option bool;          (** [bloom_updates_tx]: present? receiver alive? *)
  ce_between : MState Q B K → MState Q B K;
}.

Definition forward (env : ConnEnv) (request : SubscriptionRequest) (s : ConnState Q B K) :
    ConnState Q B K :=
  match ce_forward env with
  | Some true =>
      mkConnState (cs_mgr s) (cs_writer s) (cs_fds s) (cs_forwarded s ++ [request])
  | _ => s
  end.

(** The body of the loop after [read_framed]. [None]: [upsert_shm] still running. *)
Definition serve_frame (env : ConnEnv) (cfg : ShmTransportConfig) (payload : list byte)
    (s : ConnState Q B K) : option (Res unit * ConnState Q B K) :=
  match decode_client_frame payload with
  | Ok (Subscription request) =>
      match upsert_shm (ce_upsert env) request (shm_dir cfg) (ring_capacity_bytes cfg)
              (ce_fuel env) (cs_mgr s) with
      | None => None
      | Some (r, m) =>
          let s := mkConnState m (cs_writer s) (cs_fds s) (cs_forwarded s) in
          match r with
          | Err e => Some (Err e, s)
          | Panic => Some (Panic, s)
          | Ok (Created slot_token ring_path ring_capacity eventfd) =>
              match ConnectionReadyShm_encode
                      (mkConnectionReadyShm slot_token ring_path ring_capacity) with
              | Ok encoded =>
                  let raw_fd := ce_pass_fd env eventfd in
                  let '(r, (bytes, fds)) :=
                    send_frame_with_fd encoded raw_fd (ce_sendmsg env) in
                  let s := mkConnState m
                             (mkWriter (sent (cs_writer s) ++ bytes) (breaks_after (cs_writer s)))
                             (cs_fds s ++ fds) (cs_forwarded s) in
                  match r with
                  | Ok _ => Some (Ok tt, forward env request s)
                  | Err e => Some (Err e, s)
                  | Panic => Some (Panic, s)
                  end
              | _ => Some (Panic, s)
              end
          | Ok (Existing slot_token) =>
              match ConnectionReady_encode (mkConnectionReady slot_token) with
              | Ok encoded =>
                  match write_framed (cs_writer s) encoded with
                  | (Ok _, w) =>
                      Some (Ok tt, forward env request
                              (mkConnState m w (cs_fds s) (cs_forwarded s)))
                  | (Err e, w) => Some (Err e, mkConnState m w (cs_fds s) (cs_forwarded s))
                  | (Panic, w) => Some (Panic, mkConnState m w (cs_fds s) (cs_forwarded s))
                  end
              | _ => Some (Panic, s)
              end
          end
      end
  | Ok (Ping ping) =>
      let '(_, m) := touch_ping (ue_seen (ce_upsert env)) (ue_now (ce_upsert env)) ping
                      (cs_mgr s) in
      Some (Ok tt, mkConnState m (cs_writer s) (cs_fds s) (cs_forwarded s))
  | Err e => Some (Err e, s)
  | Panic => Some (Panic, s)
  end.

(** The loop; [envs n] is the environment of the [n]-th frame. *)
Fixpoint handle_uds_connection (fuel : nat) (envs : nat → ConnEnv) (cfg : ShmTransportConfig)
    (n : nat) (rd : Reader) (s : ConnState Q B K) : option (Res unit * ConnState Q B K) :=
  match fuel with
  | O => None
  | S fuel =>
      let s := mkConnState (ce_between (envs n) (cs_mgr s)) (cs_writer s) (cs_fds s)
                 (cs_forwarded s) in
      match read_framed rd with
      | (Ok payload, rd) =>
          match serve_frame (envs n) cfg payload s with
          | Some (Ok _, s) => handle_uds_connection fuel envs cfg (S n) rd s
          | r => r
          end
      | (Err (Io e), _) =>
          if bool_decide (io_kind e = UnexpectedEof) then Some (Ok tt, s)
          else Some (Err (Io e), s)
      | (Err e, _) => Some (Err e, s)
      | (Panic, _) => Some (Panic, s)
      end
  end.
End connection.

(** ** Lemmas *)
Lemma read_framed_consumes rd p rd' :
  read_framed rd = (Ok p, rd') →
  (length (unread rd') + 4 ≤ length (unread rd))%nat ∧ unread rd' `suffix_of` unread rd.
Proof.
  unfold read_framed, read_exact. case_bool_decide as H1; [|done].
  case_bool_decide; [done|]. cbn [unread read_failure]. case_bool_decide as H2; [|done].
  intros [= <- <-]. cbn. unfold zlen in *. rewrite !length_drop in *. split; [lia|].
  rewrite drop_drop. apply suffix_drop.
Qed.

Lemma read_framed_no_panic rd : (read_framed rd).1 ≠ Panic.
Proof.
  unfold read_framed, read_exact. case_bool_decide; [|done]. by repeat case_bool_decide.
Qed.

Lemma write_framed_no_panic w p : (write_framed w p).1 ≠ Panic.
Proof.
  assert (∀ w b, (write_all w b).1 ≠ Panic) as H.
  { intros w0 b. unfold write_all. destruct (breaks_after w0) as [[room e]|]; [|done].
    by case_bool_decide. }
  unfold write_framed. destruct (u32_try_from _) as [n|]; [|done].
  pose proof (H w (u32_le n)). destruct (write_all w (u32_le n)) as [[| |] w1]; [|done|done].
  apply H.
Qed.

Lemma send_frame_no_panic p fd ret : (send_frame_with_fd p fd ret).1 ≠ Panic.
Proof.
  unfold send_frame_with_fd, sendmsg_with_fd. case_bool_decide; [done|].
  destruct ret; [|done]. by destruct (negb _).
Qed.

Section connection_lemmas.
Context {Q : Type} {BQ : ByteQueue Q} {BQL : ByteQueueLaws Q}.
Context {B : Type} {BF : BloomFilter B}.
Context {K : Type} {EK : EventKernel K}.
Context {CC : ControlCodecs} {CCL : ControlCodecsLaws}.
Context (cfg : ShmTransportConfig) (pid : Z).
Context (Hcap : ring_capacity_bytes cfg ≤ 2 ^ 63).
Abbreviation ok := (mgr_ok (shm_dir cfg) pid).

(** The frame is served by a handler that runs alone. *)
Definition alone (env : ConnEnv (Q:=Q) (B:=B) (K:=K)) : Prop :=
  quiet pid (ce_upsert env) ∧ (0 < ce_fuel env)%nat.

(** Between two frames other tasks may do anything that keeps the manager's
    invariant, such as any sequence of its own handlers ([rtc_mstep_ok]), with at most
    [d] new connections. *)
Definition tame (d : Z) (env : ConnEnv (Q:=Q) (B:=B) (K:=K)) : Prop :=
  ∀ st, ok st → ok (ce_between env st) ∧
    next_connection_id (ce_between env st) ≤ next_connection_id st + d.

(** The replies for connection ids below [N] are within the limits of the codec. *)
Definition replies_fit (N : Z) : Prop :=
  ∀ i id, (i < MAX_CONNECTION_SLOTS)%nat → 1 ≤ id < N →
  let tok := mkSlotToken (Z.of_nat i) id in
  wincode_fits (ConnectionReady_wire (mkConnectionReady tok)) ∧
  wincode_fits (ConnectionReadyShm_wire
    (mkConnectionReadyShm tok (conn_path (shm_dir cfg) pid i id) (ring_capacity_bytes cfg))).

(** Why a frame ends its connection. *)
Inductive refused (env : ConnEnv (Q:=Q) (B:=B) (K:=K)) (payload : list byte) (s : ConnState Q B K) :
    QlasterError → Prop :=
| refused_malformed e : decode_client_frame payload = Err e → refused env payload s e
| refused_provision request e m :
    decode_client_frame payload = Ok (Subscription request) →
    upsert_shm (ce_upsert env) request (shm_dir cfg) (ring_capacity_bytes cfg) (ce_fuel env)
      (cs_mgr s) = Some (Err e, m) → refused env payload s e
| refused_descriptor request reply fd e out :
    decode_client_frame payload = Ok (Subscription request) →
    send_frame_with_fd reply fd (ce_sendmsg env) = (Err e, out) → refused env payload s e
| refused_reply request reply e w :
    decode_client_frame payload = Ok (Subscription request) →
    write_framed (cs_writer s) reply = (Err e, w) → refused env payload s e.

(** How the connection ended: [rd] is what was left of the stream when the loop read
    from it for the last time, [s] the state before that frame. *)
Definition ended_by (env : ConnEnv (Q:=Q) (B:=B) (K:=K)) (rd : Reader) (s : ConnState Q B K)
    (r : Res unit) : Prop :=
  match (read_framed rd).1 with
  | Ok payload => ∃ e, r = Err e ∧ refused env payload s e
  | Err (Io e) => r = if bool_decide (io_kind e = UnexpectedEof) then Ok tt else Err (Io e)
  | Err e => r = Err e
  | Panic => False
  end.

Definition provision_ok (st : MState Q B K) (r : Res (ShmSlotProvision K)) : Prop :=
  match r with
  | Ok (Existing tok) =>
      ∃ i id, tok = mkSlotToken (Z.of_nat i) id ∧ (i < MAX_CONNECTION_SLOTS)%nat ∧
        1 ≤ id < next_connection_id st + 1
  | Ok (Created tok path cap _) =>
      ∃ i id, tok = mkSlotToken (Z.of_nat i) id ∧ (i < MAX_CONNECTION_SLOTS)%nat ∧
        1 ≤ id < next_connection_id st + 1 ∧ path = conn_path (shm_dir cfg) pid i id ∧
        cap = ring_capacity_bytes cfg
  | Err _ => True
  | Panic => False
  end.

Lemma upsert_total env request fuel (st : MState Q B K) :
  ok st → quiet pid env → next_connection_id st < u64_max → (0 < fuel)%nat →
  ∃ r st', upsert_shm env request (shm_dir cfg) (ring_capacity_bytes cfg) fuel st = Some (r, st') ∧
    ok st' ∧ next_connection_id st ≤ next_connection_id st' ≤ next_connection_id st + 1 ∧
    provision_ok st r.
Proof.
  intros Hok Hq Hn Hf. destruct fuel as [|fuel]; [lia|].
  destruct (live_token_dec (ue_seen env) (req_slot_token request) st) as [(ptr & c & q & Hl)|Hdead].
  - destruct (upsert_existing_spec _ _ env request (ring_capacity_bytes cfg) (S fuel) st ptr c q
      Hok Hl) as (st' & E & L). eexists _, st'. split; [exact E|].
    split; [apply L|]. rewrite (lo_next _ _ _ _ _ _ L). split; [lia|].
    destruct Hl as (t & _ & Hv & _). pose proof (ok_view _ _ _ _ _ _ _ Hok Hv) as Hc.
    pose proof Hv as (Hlt%load_lt & _)%view_Some. rewrite (ok_len _ _ _ Hok) in Hlt.
    pose proof (co_id _ _ _ _ _ _ Hc).
    exists (Z.to_nat (slot_index t)), (connection_id c). split_and!; [|done|lia|lia].
    unfold slot_token. rewrite (co_index _ _ _ _ _ _ Hc). unfold MAX_CONNECTION_SLOTS in Hlt.
    by rewrite Z.mod_small by lia.
  - destruct (upsert_new_spec _ _ env request (ring_capacity_bytes cfg) fuel st Hok Hq Hcap Hn
      Hdead) as (st0 & r & st' & E & _ & _ & Hn0 & Ho & Hok' & Hn').
    exists r, st'. split_and!; [done|done|lia|lia|]. pose proof (ok_next _ _ _ Hok).
    unfold upsert_outcome in Ho. rewrite Hn0 in Ho.
    destruct r as [[tok|tok path cap efd]|e|]; [done| |done|done].
    destruct Ho as (i & q & ring & -> & -> & -> & Hi & _).
    eexists i, _. split_and!; [done|done|lia|lia|done|done].
Qed.

Lemma forward_mgr env request (s : ConnState Q B K) : cs_mgr (forward env request s) = cs_mgr s.
Proof. unfold forward. by destruct (ce_forward env) as [[]|]. Qed.

(** One frame: it is served, or refused for a reason that ends the connection. *)
Lemma serve_frame_ok env payload (s : ConnState Q B K) N :
  ok (cs_mgr s) → alone env → next_connection_id (cs_mgr s) < u64_max →
  next_connection_id (cs_mgr s) < N → replies_fit N →
  ∃ r s', serve_frame env cfg payload s = Some (r, s') ∧ ok (cs_mgr s') ∧
    next_connection_id (cs_mgr s) ≤ next_connection_id (cs_mgr s')
      ≤ next_connection_id (cs_mgr s) + 1 ∧
    (r = Ok tt ∨ ∃ e, r = Err e ∧ refused env payload s e).
Proof.
  intros Hok (Hq & Hf) Hn HN Hfit. unfold serve_frame.
  pose proof (client_frame_no_panic payload) as Hnp.
  destruct (decode_client_frame payload) as [[request|ping]|e|] eqn:Ed; [| | |done].
  - destruct (upsert_total (ce_upsert env) request (ce_fuel env) (cs_mgr s) Hok Hq Hn Hf)
      as (r & m & Eu & Hok' & Hn' & Hp). rewrite Eu.
    destruct r as [[tok|tok path cap efd]|e|]; [| | |done].
    + destruct Hp as (i & id & -> & Hi & Hid). destruct (Hfit i id Hi ltac:(lia)) as [F _].
      destruct (wincode_roundtrip _ F) as (reply & Hs & _).
      unfold ConnectionReady_encode, serialize_wire. rewrite Hs. cbn [cs_writer].
      pose proof (write_framed_no_panic (cs_writer s) reply) as Hw.
      destruct (write_framed (cs_writer s) reply) as [[u|e|] w] eqn:Ew; [| |done];
        eexists _, _; (split; [reflexivity|]); rewrite ?forward_mgr;
        (split; [exact Hok'|split; [exact Hn'|]]); [left; by destruct u|].
      right. eexists. split; [done|]. by eapply refused_reply.
    + destruct Hp as (i & id & -> & Hi & Hid & -> & ->).
      destruct (Hfit i id Hi ltac:(lia)) as [_ F].
      destruct (wincode_roundtrip _ F) as (reply & Hs & _).
      unfold ConnectionReadyShm_encode, serialize_wire. rewrite Hs.
      pose proof (send_frame_no_panic reply (ce_pass_fd env efd) (ce_sendmsg env)) as Hw.
      destruct (send_frame_with_fd _ _ _) as [[u|e|] [bs fds]] eqn:Ew; [| |done];
        eexists _, _; (split; [reflexivity|]); rewrite ?forward_mgr;
        (split; [exact Hok'|split; [exact Hn'|]]); [left; by destruct u|].
      right. eexists. split; [done|]. by eapply refused_descriptor.
    + eexists _, _. split; [reflexivity|]. split; [exact Hok'|split; [exact Hn'|]].
      right. eexists. split; [done|]. by eapply refused_provision.
  - destruct (touch_ping_shrinks _ _ (ue_seen (ce_upsert env)) (ue_now (ce_upsert env)) ping
      (cs_mgr s) Hok) as (H1 & H2 & _).
    destruct (touch_ping _ _ _) as [b m]. eexists _, _. split; [done|]. cbn in *.
    split; [done|]. split; [lia|by left].
  - eexists _, _. split_and!; [done|done|lia|lia|]. right. eexists. split; [done|].
    by apply refused_malformed.
Qed.

Lemma connection_total d fuel envs n rd (s : ConnState Q B K) N :
  ok (cs_mgr s) → (∀ n, alone (envs n) ∧ tame d (envs n)) → (length (unread rd) < fuel)%nat →
  0 ≤ d → next_connection_id (cs_mgr s) + (d + 1) * Z.of_nat fuel ≤ N → N ≤ u64_max →
  replies_fit N →
  ∃ r s', handle_uds_connection fuel envs cfg n rd s = Some (r, s') ∧ ok (cs_mgr s') ∧
    ∃ k rd' sk, unread rd' `suffix_of` unread rd ∧ ok (cs_mgr sk) ∧ ended_by (envs k) rd' sk r.
Proof.
  intros Hok Henv. revert n rd s Hok.
  induction fuel as [|fuel IH]; intros n rd s Hok Hf Hd Hn HN Hfit; [lia|].
  cbn [handle_uds_connection]. destruct (Henv n) as [Ha Hb].
  destruct (Hb _ Hok) as [Hok0 Hn0].
  set (s0 := mkConnState _ _ _ _).
  pose proof (read_framed_no_panic rd) as Hnp.
  destruct (read_framed rd) as [[p|e|] rd'] eqn:E; [| |done].
  - destruct (serve_frame_ok (envs n) p s0 N Hok0 Ha) as (r & s' & -> & Hok' & Hn' & Hr);
      [cbn; lia|cbn; lia|done|].
    destruct Hr as [->|(e & -> & Hr)].
    + destruct (read_framed_consumes _ _ _ E) as [Hc Hsuf].
      destruct (IH (S n) rd' s') as (r & s'' & -> & Ho & k & rd2 & sk & Hs2 & Hk & He);
        [done|lia|done|cbn in Hn'; lia|done|done|].
      exists r, s''. split_and!; [done|done|]. exists k, rd2, sk. split; [by etrans|done].
    + exists (Err e), s'. split_and!; [done|done|]. exists n, rd, s0. split_and!; [done|done|].
      unfold ended_by. rewrite E. by exists e.
  - assert (∃ r, match e with
        | Io e => if bool_decide (io_kind e = UnexpectedEof) then Some (Ok tt, s0)
                  else Some (Err (Io e), s0)
        | e => Some (Err e, s0) end = Some (r, s0) ∧ ended_by (envs n) rd s0 r) as (r & Er & He).
    { unfold ended_by. rewrite E. cbn [fst].
      destruct e; try case_bool_decide; eexists; split; reflexivity. }
    exists r, s0. split; [|split; [done|by exists n, rd, s0]].
    rewrite <-Er. by destruct e.
Qed.
End connection_lemmas.

(** ** Properties *)


Definition demo_cfg : ShmTransportConfig := mkConfig "/run/q.sock" Demo.dir 256.
Definition demo_conn_env : ConnEnv (Q:=list_queue) (B:=gset pubkey) (K:=sim_event) :=
  {| ce_upsert := Demo.env 1000; ce_fuel := 1; ce_sendmsg := SysOk 47; ce_pass_fd _ := 5;
     ce_forward := Some true; ce_between st := st |}.
Definition demo_conn : ConnState list_queue (gset pubkey) sim_event :=
  mkConnState manager_new (mkWriter [] None) [] [].

Lemma demo_alone : alone 7 demo_conn_env.
Proof. split; [apply (Demo.quiet_env 1000)|cbn; lia]. Qed.

Definition short_path (path : string) : bool :=
  bool_decide (zlen (String.list_byte_of_string path) ≤ u64_max).

Lemma short_path_spec path :
  short_path path = true → zlen (String.list_byte_of_string path) ≤ u64_max.
Proof. apply bool_decide_eq_true. Qed.

Definition demo_paths : list (nat * Z) :=
  i ← seq 0 MAX_CONNECTION_SLOTS; id ← seqZ 1 55; [(i, id)].

Lemma demo_paths_short i id :
  (i < MAX_CONNECTION_SLOTS)%nat → 1 ≤ id < 56 →
  short_path (conn_path (shm_dir demo_cfg) 7 i id) = true.
Proof.
  intros Hi Hid.
  assert (forallb (λ p, short_path (conn_path (shm_dir demo_cfg) 7 p.1 p.2)) demo_paths = true)
    as H by (vm_compute; reflexivity).
  rewrite forallb_forall in H. apply (H (i, id)), list_elem_of_In.
  unfold demo_paths. apply list_elem_of_bind. exists i. rewrite elem_of_seq. split; [|lia].
  apply list_elem_of_bind. exists id. rewrite elem_of_seqZ, list_elem_of_singleton. split; [done|lia].
Qed.

(** The replies of one connection whose path is short. *)
Lemma replies_encodable i id path :
  (i < MAX_CONNECTION_SLOTS)%nat → 1 ≤ id < 56 →
  zlen (String.list_byte_of_string path) ≤ u64_max →
  let tok := mkSlotToken (Z.of_nat i) id in
  @wincode_fits _ Bincode.codecs.(cc_ready) (ConnectionReady_wire (mkConnectionReady tok)) ∧
  @wincode_fits _ Bincode.codecs.(cc_ready_shm)
    (ConnectionReadyShm_wire
      (mkConnectionReadyShm tok path (ring_capacity_bytes demo_cfg))).
Proof.
  intros Hi Hid Hp. pose proof (zlen_nonneg (String.list_byte_of_string path)).
  assert (∀ t, is_u8 t → Bincode.head_fits WIRE_VERSION t (Z.of_nat i) id) as Hh.
  { intros t Ht. unfold MAX_CONNECTION_SLOTS in Hi.
    unfold Bincode.head_fits, is_u8, is_u64, u64_max, u8_max, WIRE_VERSION in *. split_and!; lia. }
  split; [by apply Hh|]. split; [by apply Hh|]. by split.
Qed.

Lemma demo_replies_fit : @replies_fit Bincode.codecs demo_cfg 7 56.
Proof.
  intros i id Hi Hid. apply replies_encodable; [exact Hi|exact Hid|].
  by apply short_path_spec, demo_paths_short.
Qed.

(** A subscription, a ping with the token it was given, and a frame that is not one. *)
Definition demo_stream : list byte :=
  match @SubscriptionRequest_encode Bincode.codecs (SubscriptionRequest_new [] []),
        @PingRequest_encode Bincode.codecs (mkPingRequest (mkSlotToken 0 1)) with
  | Ok a, Ok b => frame_bytes a ++ frame_bytes b ++ frame_bytes [x09; x00]
  | _, _ => []
  end.

(** The slot is taken, the reply and its descriptor are sent, the request is forwarded,
    and the last frame is refused. *)
Definition demo_served (o : option (Res unit * ConnState list_queue (gset pubkey) sim_event)) :
    bool :=
  match o with
  | Some (Err (InvalidMessageTag _ _), s) =>
      bool_decide (load (cs_mgr s) 0 = Some 0%nat) && bool_decide (zlen (sent (cs_writer s)) = 47)
      && bool_decide (cs_fds s = [5]) && bool_decide (length (cs_forwarded s) = 1%nat)
  | _ => false
  end.


(** Binding refuses a ring capacity that is not a power of two before it
    touches the file system, and otherwise removes a stale socket before it binds.
    The documented condition is not enough, though: a power of two below 64 is
    accepted here, and then no subscription can ever be provisioned. *)
Theorem bind_accepts_unusable_capacity {Q} {BQ : ByteQueue Q} {BQL : ByteQueueLaws Q}
    {B} {BF : BloomFilter B} {K} {EK : EventKernel K} cfg parent :
  (is_power_of_two (ring_capacity_bytes cfg) = false →
     ∀ env, ∃ msg, bind_listener env cfg = (Err (ConfigError msg), [])) ∧
  (is_power_of_two (ring_capacity_bytes cfg) = true → parent ≠ "" →
     bind_listener (mkBindEnv (Some parent) None None None) cfg
       = (Ok cfg, [CreateDirAll parent; RemoveFile (uds_path cfg); BindSocket (uds_path cfg);
                   CreateDirAll (shm_dir cfg)]) ∧
     (ring_capacity_bytes cfg < 64 →
        ∀ pid env request fuel (st : MState Q B K),
          mgr_ok (shm_dir cfg) pid st → quiet pid env → next_connection_id st < u64_max →
          req_slot_token request = None →
          ∃ e st', upsert_shm env request (shm_dir cfg) (ring_capacity_bytes cfg) (S fuel) st
                     = Some (Err e, st'))).
Proof.
  split.
  - intros Hp env. unfold bind_listener. rewrite Hp. by eexists.
  - intros Hp Hpar. split.
    + unfold bind_listener. rewrite Hp. cbn. by rewrite bool_decide_false.
    + intros Hsmall pid env request fuel st Hok Hq Hn Htok. unfold upsert_shm. rewrite Htok.
      pose proof (ok_next _ _ _ Hok). rewrite wrap64_id by (unfold is_u64; lia). fold (bump st).
      destruct (bump_ok _ _ st Hok) as [Hbok _].
      rewrite (upsert_loop_quiet _ pid) by done.
      destruct (find_free_slot _ _) as [[i|] st1]; [|by eexists _, _].
      unfold attempt, create. rewrite bool_decide_true by lia. by eexists _, _.
Qed.

Lemma bind_accepts_unusable_capacity_witness :
  bind_listener (mkBindEnv (Some "/run") None None None) (mkConfig "/run/q.sock" "/dev/shm/q" 32)
    = (Ok (mkConfig "/run/q.sock" "/dev/shm/q" 32),
       [CreateDirAll "/run"; RemoveFile "/run/q.sock"; BindSocket "/run/q.sock";
        CreateDirAll "/dev/shm/q"]) ∧
  ∃ e st', upsert_shm (Demo.env 1) Demo.request "/dev/shm/q" 32 1 manager_new
             = Some (Err e, st').
Proof.
  destruct (@bind_accepts_unusable_capacity _ list_byte_queue list_byte_queue_laws _ exact_bloom
    _ sim_event_kernel (mkConfig "/run/q.sock" "/dev/shm/q" 32) "/run") as [_ H].
  destruct H as [H1 H2]; [vm_compute; reflexivity|discriminate|].
  split; [exact H1|].
  apply (H2 ltac:(cbn; lia) 7); [apply manager_new_ok|apply Demo.quiet_env|done|reflexivity].
Defined.
