(* ===== verification/Sender.v ===== *)
(** * Starting a sender ([setup_sender*] and [QlasterSender::run] of
    [src/src/sender/mod.rs])

    The three dispatcher tasks, each over what its broadcast channel delivers,
    and the functions that start them. *)

From stdpp Require Import prelude gmap strings relations.
From Stdlib Require Import Strings.Byte.
From S2P Require Import Prelude Errors WireCodec DataFrames ControlFrames Wire Uds Metrics EventFd.
From S2P Require Import Ring Transport Filter Manager ManagerInv ManagerSpec SenderShm.

(** What [recv().await] on a [broadcast] receiver gives. *)
Inductive Recv (A : Type) := Received (update : A) | Lagged (skipped : Z) | ChannelClosed.
Arguments Received {A}.
Arguments Lagged {A}.
Arguments ChannelClosed {A}.

Section sender.
Context {Q : Type} {BQ : ByteQueue Q}.
Context {B : Type} {BF : BloomFilter B}.
Context {K : Type} {EK : EventKernel K}.
Context {LZ : Lz4}.

(** The body of a dispatcher task: [true] when the channel was closed. *)
Fixpoint dispatcher {A} (dispatch : DispatchEnv → A → MState Q B K → QlasterSenderMetrics →
    MState Q B K * QlasterSenderMetrics) (evs : list (DispatchEnv * Recv A))
    (st : MState Q B K) (m : QlasterSenderMetrics) : bool * MState Q B K * QlasterSenderMetrics :=
  match evs with
  | [] => (false, st, m)
  | (env, Received update) :: evs =>
      let '(st, m) := dispatch env update st m in dispatcher dispatch evs st m
  | (_, Lagged _) :: evs => dispatcher dispatch evs st m
  | (_, ChannelClosed) :: _ => (true, st, m)
  end.

Definition account_dispatcher := dispatcher dispatch_account_update.
Definition transaction_dispatcher := dispatcher dispatch_transaction_update.
Definition slot_dispatcher := dispatcher dispatch_slot_update.

(** The state shared by the tasks of a sender, and the tasks that were spawned. *)
Record SenderState := mkSenderState {
  ss_manager : MState Q B K;
  ss_bloom_updates : bool;          (** a forwarding channel was given *)
  ss_metrics : QlasterSenderMetrics }.

Inductive task := AccountDispatcher | TransactionDispatcher | SlotDispatcher.

Record QlasterSender := mkSender {
  sender_state : SenderState; shm_listener : ShmTransportConfig; spawned : list task }.

Definition setup_sender_with_streams (benv : BindEnv) (cfg : ShmTransportConfig)
    (transaction_updates slot_updates bloom : bool) (metrics : QlasterSenderMetrics) :
    Res QlasterSender * list fs_action :=
  let manager := manager_new in
  match bind_listener benv cfg with
  | (Err e, log) => (Err e, log)
  | (Panic, log) => (Panic, log)
  | (Ok listener, log) =>
      (Ok {| sender_state := mkSenderState manager bloom metrics;
             shm_listener := listener;
             spawned := [AccountDispatcher]
                        ++ (if transaction_updates then [TransactionDispatcher] else [])
                        ++ (if slot_updates then [SlotDispatcher] else []) |}, log)
  end.

Definition setup_sender_with_transactions benv cfg (transaction_updates bloom : bool) metrics :=
  setup_sender_with_streams benv cfg transaction_updates false bloom metrics.

Definition setup_sender benv cfg (bloom : bool) metrics :=
  setup_sender_with_transactions benv cfg false bloom metrics.

(** [QlasterSender::run]: the accept loop. *)
Definition run {S} (plat : platform) (sender : QlasterSender)
    (accepts : list ((S * sysret) + string)) : list S * option QlasterError :=
  run_listener plat accepts.

(** ** The updates a dispatcher sees: those before the channel closes, without the
    ones it lagged behind on. *)
Fixpoint received {A} (evs : list (DispatchEnv * Recv A)) : list (DispatchEnv * A) :=
  match evs with
  | [] => []
  | (env, Received u) :: evs => (env, u) :: received evs
  | (_, Lagged _) :: evs => received evs
  | (_, ChannelClosed) :: _ => []
  end.

Definition dispatch_all {A} (dispatch : DispatchEnv → A → MState Q B K → QlasterSenderMetrics →
    MState Q B K * QlasterSenderMetrics) (us : list (DispatchEnv * A)) st m :=
  foldl (λ '(st, m) '(env, u), dispatch env u st m) (st, m) us.

Lemma dispatcher_all {A} dispatch (evs : list (DispatchEnv * Recv A)) st m :
  let '(_, st', m') := dispatcher dispatch evs st m in
  (st', m') = dispatch_all dispatch (received evs) st m.
Proof.
  revert st m. induction evs as [|[env [u|n|]] evs IH]; intros st m; cbn; [done| |apply IH|done].
  unfold dispatch_all. cbn. destruct (dispatch env u st m) as [st1 m1]. apply IH.
Qed.

Lemma dispatch_all_steps {A} shm_dir pid cap dispatch (us : list (DispatchEnv * A)) st m :
  (∀ env u st m, mstep shm_dir pid cap st (dispatch env u st m).1) →
  rtc (mstep shm_dir pid cap) st (dispatch_all dispatch us st m).1.
Proof.
  intros Hd. unfold dispatch_all. revert st m.
  induction us as [|[env u] us IH]; intros st m; [apply rtc_refl|].
  cbn. specialize (Hd env u st m). destruct (dispatch env u st m) as [st1 m1].
  eapply rtc_l; [exact Hd|]. apply IH.
Qed.
End sender.

(** ** Properties *)

(** The dispatcher tasks: each applies its dispatch to exactly the updates
    its channel delivered, in order, surviving lags and stopping when the channel is
    closed; started on a new sender, all three keep the manager's invariant, and the
    sender refuses to start only for the reasons binding has. *)
Theorem dispatchers_process_received {Q} {BQ : ByteQueue Q} {BQL : ByteQueueLaws Q}
    {B} {BF : BloomFilter B} {K} {EK : EventKernel K} {LZ : Lz4} shm_dir pid cap
    (ea : list (DispatchEnv * Recv AccountUpdate))
    (et : list (DispatchEnv * Recv TransactionUpdate))
    (es : list (DispatchEnv * Recv SlotUpdate)) benv cfg tx sl bloom m :
  cap ≤ 2 ^ 63 →
  match setup_sender_with_streams (Q:=Q) (B:=B) (K:=K) benv cfg tx sl bloom m with
  | (Ok s, log) =>
      bind_listener benv cfg = (Ok cfg, log) ∧
      let st := ss_manager (sender_state s) in
      let '(_, st1, m1) := account_dispatcher ea st m in
      let '(_, st2, m2) := transaction_dispatcher et st1 m1 in
      let '(_, st3, m3) := slot_dispatcher es st2 m2 in
      (st1, m1) = dispatch_all dispatch_account_update (received ea) st m ∧
      (st2, m2) = dispatch_all dispatch_transaction_update (received et) st1 m1 ∧
      (st3, m3) = dispatch_all dispatch_slot_update (received es) st2 m2 ∧
      mgr_ok shm_dir pid st3
  | (Err e, log) => bind_listener benv cfg = (Err e, log)
  | (Panic, log) => bind_listener benv cfg = (Panic, log)
  end.
Proof.
  intros Hcap. unfold setup_sender_with_streams.
  destruct (bind_listener benv cfg) as [[listener|e|] log] eqn:E; [|done|done].
  assert (listener = cfg) as ->.
  { revert E. unfold bind_listener. destruct (negb _); [done|].
    destruct (match be_parent benv with Some _ => _ | None => _ end) as [[u|e|] l]; [|done|done].
    destruct (be_bind benv); [done|]. destruct (be_mkdir_shm benv); [done|]. by intros [= <-]. }
  split; [done|]. cbn [sender_state ss_manager].
  unfold account_dispatcher, transaction_dispatcher, slot_dispatcher.
  pose proof (dispatcher_all dispatch_account_update ea (manager_new (Q:=Q) (B:=B) (K:=K)) m) as H1.
  destruct (dispatcher _ ea _ _) as [[b1 st1] m1].
  pose proof (dispatcher_all dispatch_transaction_update et st1 m1) as H2.
  destruct (dispatcher _ et _ _) as [[b2 st2] m2].
  pose proof (dispatcher_all dispatch_slot_update es st2 m2) as H3.
  destruct (dispatcher _ es _ _) as [[b3 st3] m3].
  split_and!; [done..|].
  assert (rtc (mstep shm_dir pid cap) manager_new st3) as Hr.
  { trans st1; [|trans st2].
    - replace st1 with (st1, m1).1 by done. rewrite H1.
      apply dispatch_all_steps. intros. apply step_account.
    - replace st2 with (st2, m2).1 by done. rewrite H2.
      apply dispatch_all_steps. intros. apply step_transaction.
    - replace st3 with (st3, m3).1 by done. rewrite H3.
      apply dispatch_all_steps. intros. apply step_slot. }
  apply (rtc_mstep_ok shm_dir pid cap Hcap _ _ (manager_new_ok shm_dir pid) Hr).
Qed.

Lemma dispatchers_process_received_witness :
  match setup_sender_with_streams (Q:=list_queue) (B:=gset pubkey) (K:=sim_event)
          (mkBindEnv None None None None) (mkConfig "/run/q.sock" Demo.dir 256) true true false
          QlasterSenderMetrics_new with
  | (Ok s, _) =>
      let '(b, st, m) := account_dispatcher (LZ:=rle_lz4)
        [(mkDispatchEnv (λ _, 1) 1 0 (λ _, 1) 1, Lagged 3);
         (mkDispatchEnv (λ _, 1) 1 0 (λ _, 1) 1, Received (sample_account (sample_key x01) []));
         (mkDispatchEnv (λ _, 1) 1 0 (λ _, 1) 1, ChannelClosed)]
        (ss_manager (sender_state s)) QlasterSenderMetrics_new in
      (st, m) = dispatch_all (dispatch_account_update (LZ:=rle_lz4))
        [(mkDispatchEnv (λ _, 1) 1 0 (λ _, 1) 1, sample_account (sample_key x01) [])]
        (ss_manager (sender_state s)) QlasterSenderMetrics_new
  | _ => False
  end.
Proof.
  pose proof (@dispatchers_process_received _ list_byte_queue list_byte_queue_laws _ exact_bloom _
    sim_event_kernel rle_lz4 Demo.dir 7 256
    [(mkDispatchEnv (λ _, 1) 1 0 (λ _, 1) 1, Lagged 3);
     (mkDispatchEnv (λ _, 1) 1 0 (λ _, 1) 1, Received (sample_account (sample_key x01) []));
     (mkDispatchEnv (λ _, 1) 1 0 (λ _, 1) 1, ChannelClosed)] [] []
    (mkBindEnv None None None None) (mkConfig "/run/q.sock" Demo.dir 256) true true false
    QlasterSenderMetrics_new ltac:(lia)) as H.
  destruct (setup_sender_with_streams _ _ _ _ _ _) as [[s|e|] log] eqn:E.
  - destruct H as [_ H]. cbv zeta in H.
    destruct (account_dispatcher _ _ _) as [[b st] m].
    destruct (transaction_dispatcher _ _ _) as [[b2 st2] m2].
    destruct (slot_dispatcher _ _ _) as [[b3 st3] m3]. apply H.
  - vm_compute in E. discriminate.
  - vm_compute in E. discriminate.
Defined.
