(* ===== verification/Consumer.v ===== *)
(** * Consumer ([src/src/consumer/shm.rs])

    The handshake, the control requests and the reader task.  The bounded
    queues of the [crossbeam_queue] crate are the class [BoundedQueue].  The reader
    runs against a ring store that others change at any time: before each of its
    accesses, a pop or the check for the ring file, an argument [rely] says what the
    store has become. *)

From stdpp Require Import prelude gmap strings.
From Stdlib Require Import Strings.Byte.
From S2P Require Import Prelude Errors WireCodec DataFrames ControlFrames Wire Uds Metrics EventFd.
From S2P Require Import Ring.

Definition CONSUMER_UPDATE_QUEUE_CAPACITY : nat := 2048.

(** [ArrayQueue]: [force_push] makes room by removing the oldest element. *)
Class BoundedQueue (AQ : Type → Type) := {
  aq_items : ∀ {A}, AQ A → list A;      (** oldest first *)
  aq_capacity : ∀ {A}, AQ A → nat;
  aq_new : ∀ {A}, nat → AQ A;
  force_push : ∀ {A}, A → AQ A → AQ A;
  aq_pop : ∀ {A}, AQ A → option A * AQ A;
}.

Class BoundedQueueLaws (AQ : Type → Type) `{!BoundedQueue AQ} := {
  aq_new_spec A n : (0 < n)%nat → aq_items (@aq_new AQ _ A n) = [] ∧ aq_capacity (@aq_new AQ _ A n) = n;
  aq_bound A (q : AQ A) : (length (aq_items q) ≤ aq_capacity q)%nat;
  force_push_spec A (x : A) q : (0 < aq_capacity q)%nat →
    aq_items (force_push x q) =
      (if bool_decide (length (aq_items q) < aq_capacity q)%nat
       then aq_items q else drop 1 (aq_items q)) ++ [x] ∧
    aq_capacity (force_push x q) = aq_capacity q;
  aq_pop_spec A (q : AQ A) :
    (aq_pop q).1 = head (aq_items q) ∧ aq_items (aq_pop q).2 = tail (aq_items q) ∧
    aq_capacity (aq_pop q).2 = aq_capacity q;
}.

Section consumer.
Context {Q : Type} {BQ : ByteQueue Q}.
Context {AQ : Type → Type} {BoQ : BoundedQueue AQ}.
Context {LZ : Lz4} {CC : ControlCodecs}.

Record QlasterShmConsumer := mkShmConsumer {
  slot_token_index : Z;
  slot_token_generation : Z;
  updates : AQ AccountUpdate;
  transactions : AQ TransactionUpdate;
  slots : AQ SlotUpdate;
  qc_metrics : QlasterConsumerMetrics;
  qc_ring : ShmRingConsumer;
  qc_eventfd : Z;                    (** the descriptor the reader sleeps on *)
}.

(** ** Handshake *)
Record SetupEnv := mkSetupEnv {
  se_connect : option string;        (** the error, if any *)
  se_sockopt : sysret;
  se_plat : platform;
  se_fcntl : Z → sysret;
  se_recv : recv_outcome;            (** what [recvmsg] delivers after the request *)
  se_open_err : option string;
  se_meta : option Z;
  se_debug : ServerFrame → string;   (** the [Debug] text of a frame *)
}.

Definition setup_shm_consumer_with_metrics (env : SetupEnv) (metrics : QlasterConsumerMetrics)
    (w : Writer) (fds : gset Z) (shm : Shm Q) : Res QlasterShmConsumer * Writer * gset Z :=
  match se_connect env with
  | Some e => (Err (UdsError ("connect: " +:+ e)), w, fds)
  | None =>
  match set_nosigpipe (se_plat env) (se_sockopt env) with
  | Err e => (Err (UdsError ("set SO_NOSIGPIPE: " +:+ io_display e)), w, fds)
  | Panic => (Panic, w, fds)
  | Ok _ =>
  match SubscriptionRequest_encode (SubscriptionRequest_new [] []) with
  | Err e => (Err e, w, fds)
  | Panic => (Panic, w, fds)
  | Ok bootstrap =>
  match write_framed w bootstrap with
  | (Err e, w) => (Err e, w, fds)
  | (Panic, w) => (Panic, w, fds)
  | (Ok _, w) =>
  match recv_frame_with_fd (se_plat env) (se_fcntl env) (se_recv env) fds with
  | (Err e, fds) => (Err e, w, fds)
  | (Panic, fds) => (Panic, w, fds)
  | (Ok (ready_bytes, fd_opt), fds) =>
  match decode_server_frame ready_bytes with
  | Err e => (Err e, w, drop_fd fds fd_opt)
  | Panic => (Panic, w, drop_fd fds fd_opt)
  | Ok (SF_ConnectionReadyShm ready) =>
      match fd_opt with
      | None => (Err (UdsError "ConnectionReadyShm missing eventfd"), w, fds)
      | Some fd =>
          match ring_open (se_open_err env) (se_meta env) (rs_ring_path ready) shm with
          | Err e => (Err e, w, drop_fd fds (Some fd))
          | Panic => (Panic, w, drop_fd fds (Some fd))
          | Ok ring =>
              (Ok {| slot_token_index := slot_index (rs_slot_token ready);
                     slot_token_generation := generation (rs_slot_token ready);
                     updates := aq_new CONSUMER_UPDATE_QUEUE_CAPACITY;
                     transactions := aq_new CONSUMER_UPDATE_QUEUE_CAPACITY;
                     slots := aq_new CONSUMER_UPDATE_QUEUE_CAPACITY;
                     qc_metrics := metrics; qc_ring := ring; qc_eventfd := fd |}, w, fds)
          end
      end
  | Ok other =>
      (Err (UdsError ("expected ConnectionReadyShm, got " +:+ se_debug env other)),
       w, drop_fd fds fd_opt)
  end end end end end end.

(** [setup_shm_consumer]: with metrics of its own. *)
Definition setup_shm_consumer (env : SetupEnv) (w : Writer) (fds : gset Z) (shm : Shm Q) :
    Res QlasterShmConsumer * Writer * gset Z :=
  setup_shm_consumer_with_metrics env QlasterConsumerMetrics_new w fds shm.

(** ** Control requests *)
Definition consumer_slot_token (c : QlasterShmConsumer) : option SlotToken :=
  if bool_decide (slot_token_index c = UNSET_SLOT_INDEX) then None
  else Some (mkSlotToken (slot_token_index c) (slot_token_generation c)).

Definition set_token (c : QlasterShmConsumer) (t : SlotToken) : QlasterShmConsumer :=
  mkShmConsumer (slot_index t) (generation t) (updates c) (transactions c) (slots c)
    (qc_metrics c) (qc_ring c) (qc_eventfd c).

Definition send_subscription (c : QlasterShmConsumer) (request : SubscriptionRequest)
    (w : Writer) (rd : Reader) : Res unit * QlasterShmConsumer * Writer * Reader :=
  match SubscriptionRequest_encode request with
  | Err e => (Err e, c, w, rd)
  | Panic => (Panic, c, w, rd)
  | Ok encoded =>
      match write_framed w encoded with
      | (Err e, w) => (Err e, c, w, rd)
      | (Panic, w) => (Panic, c, w, rd)
      | (Ok _, w) =>
          match read_framed rd with
          | (Err e, rd) => (Err e, c, w, rd)
          | (Panic, rd) => (Panic, c, w, rd)
          | (Ok reply, rd) =>
              match decode_server_frame_owned reply with
              | Err e => (Err e, c, w, rd)
              | Panic => (Panic, c, w, rd)
              | Ok (SF_ConnectionReady r) =>
                  (Ok tt, set_token c (ready_slot_token r), w, rd)
              | Ok (SF_ConnectionReadyShm _) =>
                  (Err (UdsError "unexpected ConnectionReadyShm on re-subscribe"), c, w, rd)
              | Ok (SF_AccountUpdate _) =>
                  (Err (UdsError "AccountUpdate on UDS control channel"), c, w, rd)
              | Ok (SF_TransactionUpdate _) =>
                  (Err (UdsError "TransactionUpdate on UDS control channel"), c, w, rd)
              | Ok (SF_SlotUpdate _) =>
                  (Err (UdsError "SlotUpdate on UDS control channel"), c, w, rd)
              end
          end
      end
  end.

Definition subscribe (c : QlasterShmConsumer) (pks owners : list (list byte)) w rd :=
  send_subscription c
    (with_slot_token (SubscriptionRequest_new pks owners) (consumer_slot_token c)) w rd.

Definition subscribe_transactions (c : QlasterShmConsumer) w rd :=
  send_subscription c
    (with_slot_token SubscriptionRequest_transactions (consumer_slot_token c)) w rd.

Definition send_ping (c : QlasterShmConsumer) (w : Writer) : Res unit * Writer :=
  match consumer_slot_token c with
  | None => (Err (MalformedPayload "cannot send ping before slot token is assigned"), w)
  | Some token =>
      match PingRequest_encode (mkPingRequest token) with
      | Ok encoded => write_framed w encoded
      | Err e => (Err e, w)
      | Panic => (Panic, w)
      end
  end.

(** ** Reading updates *)
Definition set_updates (c : QlasterShmConsumer) u : QlasterShmConsumer :=
  mkShmConsumer (slot_token_index c) (slot_token_generation c) u (transactions c) (slots c)
    (qc_metrics c) (qc_ring c) (qc_eventfd c).
Definition set_transactions (c : QlasterShmConsumer) t : QlasterShmConsumer :=
  mkShmConsumer (slot_token_index c) (slot_token_generation c) (updates c) t (slots c)
    (qc_metrics c) (qc_ring c) (qc_eventfd c).
Definition set_slots (c : QlasterShmConsumer) s : QlasterShmConsumer :=
  mkShmConsumer (slot_token_index c) (slot_token_generation c) (updates c) (transactions c) s
    (qc_metrics c) (qc_ring c) (qc_eventfd c).

Definition try_next_update (c : QlasterShmConsumer) : option AccountUpdate * QlasterShmConsumer :=
  let '(u, q) := aq_pop (updates c) in (u, set_updates c q).
Definition try_next_transaction (c : QlasterShmConsumer) :
    option TransactionUpdate * QlasterShmConsumer :=
  let '(u, q) := aq_pop (transactions c) in (u, set_transactions c q).
Definition try_next_slot (c : QlasterShmConsumer) : option SlotUpdate * QlasterShmConsumer :=
  let '(u, q) := aq_pop (slots c) in (u, set_slots c q).

(** [QlasterShmConsumer::metrics] *)
Definition consumer_metrics (c : QlasterShmConsumer) : QlasterConsumerMetrics := qc_metrics c.

(** ** The reader task *)

(** The timers during the treatment of one frame. *)
Record FrameTimes := mkFrameTimes {
  ft_read_us : Z; ft_decode_us : Z; ft_enqueue_us : Z; ft_systime : Z }.

Definition record_decode_and_enqueue (t : FrameTimes) (m : QlasterConsumerMetrics)
    (sender_created_at_unix_nanos : Z) : QlasterConsumerMetrics :=
  mkConsumerMetrics (record (m_read m) (ft_read_us t)) (record (m_decode m) (ft_decode_us t))
    (record (m_enqueue m) (ft_enqueue_us t))
    (record (m_full_read m)
       (elapsed_since_unix_time_nanos_us (ft_systime t) sender_created_at_unix_nanos)).

(** What the reader task owns or shares with the consumer handle. *)
Record RState := mkRState {
  rs_ring : ShmRingConsumer;
  rs_updates : AQ AccountUpdate;
  rs_transactions : AQ TransactionUpdate;
  rs_slots : AQ SlotUpdate;
  rs_metrics : QlasterConsumerMetrics;
}.

(** One popped frame; a decoder that panics takes the task with it. *)
Definition handle_frame (t : FrameTimes) (bytes : list byte) (s : RState) : Res RState :=
  match decode_server_frame_owned_with_meta bytes with
  | Ok (SFM_AccountUpdate u meta) =>
      Ok (mkRState (rs_ring s) (force_push u (rs_updates s)) (rs_transactions s) (rs_slots s)
        (record_decode_and_enqueue t (rs_metrics s) (sender_created_at_unix_nanos meta)))
  | Ok (SFM_TransactionUpdate u meta) =>
      Ok (mkRState (rs_ring s) (rs_updates s) (force_push u (rs_transactions s)) (rs_slots s)
        (record_decode_and_enqueue t (rs_metrics s) (sender_created_at_unix_nanos meta)))
  | Ok (SFM_SlotUpdate u meta) =>
      Ok (mkRState (rs_ring s) (rs_updates s) (rs_transactions s) (force_push u (rs_slots s))
        (record_decode_and_enqueue t (rs_metrics s) (sender_created_at_unix_nanos meta)))
  | Ok _ => Ok s
  | Err _ => Ok s
  | Panic => Panic
  end.

Definition set_ring (s : RState) (r : ShmRingConsumer) : RState :=
  mkRState r (rs_updates s) (rs_transactions s) (rs_slots s) (rs_metrics s).

Definition ring_queue (s : RState) (shm : Shm Q) : option Q := queues shm !! c_inode (rs_ring s).

Definition put_queue (s : RState) (q : Q) (shm : Shm Q) : Shm Q :=
  mkShm (files shm) (<[c_inode (rs_ring s) := q]> (queues shm)) (next_inode shm).

(** How far the task got: it returned, it sleeps, or a panic killed it. *)
Inductive reader_end := Returned | Asleep | Died.

(** How a sleep ends: [wait] returns, or the task is aborted there because the
    consumer handle was dropped. *)
Inductive wait_event := Waited (r : result IoError Z) | Aborted.

(** [Drop for QlasterShmConsumer]: the next sleep is the last. *)
Definition drop_consumer (waits : list wait_event) : list wait_event := waits ++ [Aborted].

Section reader.
(** [rely k] is what others have done to the store between the reader's accesses
    [k - 1] and [k]; [times k] are the timers around access [k]. *)
Context (rely : nat → Shm Q → Shm Q) (times : nat → FrameTimes).

(** The inner [loop]: pop until the ring gives nothing.  Also gives the number of the
    next access. *)
Fixpoint drain_ring (fuel k : nat) (s : RState) (shm : Shm Q) :
    option (Res unit * RState * Shm Q * nat) :=
  match fuel with
  | O => None
  | S fuel =>
      let shm := rely k shm in
      match ring_queue s shm with
      | None => None
      | Some q =>
          match try_pop (rs_ring s) q with
          | (Some bytes, r, q) =>
              let s := set_ring s r in
              let shm := put_queue s q shm in
              match handle_frame (times k) bytes s with
              | Ok s => drain_ring fuel (S k) s shm
              | _ => Some (Panic, s, shm, S k)
              end
          | (None, r, q) =>
              let s := set_ring s r in Some (Ok tt, s, put_queue s q shm, S k)
          end
      end
  end.

(** One iteration of the outer loop up to the sleep. *)
Definition reader_round (fuel k : nat) (s : RState) (shm : Shm Q) :
    option (reader_end * RState * Shm Q * nat) :=
  match drain_ring fuel k s shm with
  | None => None
  | Some (Ok _, s, shm, k) =>
      let shm := rely k shm in
      Some (if is_closed (rs_ring s) shm then Returned else Asleep, s, shm, S k)
  | Some (_, s, shm, k) => Some (Died, s, shm, k)
  end.

(** The outer [loop]; [waits] are the ends of its sleeps, and what happened to the
    store during a sleep is part of what precedes the next access. *)
Fixpoint reader_loop (fuel : nat) (waits : list wait_event) (k : nat) (s : RState)
    (shm : Shm Q) : option (reader_end * RState * Shm Q * nat) :=
  match reader_round fuel k s shm with
  | Some (Asleep, s, shm, k) =>
      match waits with
      | [] => Some (Asleep, s, shm, k)
      | Waited (Ok _) :: waits => reader_loop fuel waits k s shm
      | _ :: _ => Some (Returned, s, shm, k)
      end
  | r => r
  end.

(** The task; [async_efd] is the error of registering the descriptor, if any. *)
Definition run_reader (async_efd : option IoError) (fuel : nat) (waits : list wait_event)
    (s : RState) (shm : Shm Q) : option (reader_end * RState * Shm Q * nat) :=
  match async_efd with
  | Some _ => Some (Returned, s, shm, 0%nat)
  | None => reader_loop fuel waits 0 s shm
  end.
End reader.

(** Nobody else touches the store. *)
Definition no_rely (k : nat) (shm : Shm Q) : Shm Q := shm.
End consumer.

Arguments QlasterShmConsumer : clear implicits.
Arguments RState : clear implicits.

(** ** Specification of the reader's queues *)

(** The newest [n] elements. *)
Definition keep_last {A} (n : nat) (l : list A) : list A := drop (length l - n) l.

Section reader_lemmas.
Context {Q : Type} {BQ : ByteQueue Q} {BQL : ByteQueueLaws Q}.
Context {AQ : Type → Type} {BoQ : BoundedQueue AQ} {BoQL : BoundedQueueLaws AQ}.
Context {LZ : Lz4} {CC : ControlCodecs}.

Definition as_account (bytes : list byte) : option AccountUpdate :=
  match decode_server_frame_owned_with_meta bytes with
  | Ok (SFM_AccountUpdate u _) => Some u | _ => None end.
Definition as_transaction (bytes : list byte) : option TransactionUpdate :=
  match decode_server_frame_owned_with_meta bytes with
  | Ok (SFM_TransactionUpdate u _) => Some u | _ => None end.
Definition as_slot (bytes : list byte) : option SlotUpdate :=
  match decode_server_frame_owned_with_meta bytes with
  | Ok (SFM_SlotUpdate u _) => Some u | _ => None end.

Lemma keep_last_all {A} n (l : list A) : (length l ≤ n)%nat → keep_last n l = l.
Proof. intros H. unfold keep_last. replace (length l - n)%nat with 0%nat by lia. done. Qed.

Lemma keep_last_length {A} n (l : list A) : (length (keep_last n l) ≤ n)%nat.
Proof. unfold keep_last. rewrite length_drop. lia. Qed.

Lemma keep_last_app {A} n (l k : list A) :
  keep_last n (keep_last n l ++ k) = keep_last n (l ++ k).
Proof.
  unfold keep_last. rewrite !length_app, length_drop.
  destruct (decide (length l ≤ n)%nat) as [Hl|Hl].
  - replace (length l - n)%nat with 0%nat by lia. by rewrite Nat.sub_0_r.
  - replace (length l - (length l - n) + length k - n)%nat with (length k) by lia.
    replace (length l + length k - n)%nat with ((length l - n) + length k)%nat by lia.
    rewrite <-drop_drop. rewrite (drop_app_le l k) by lia. done.
Qed.

Lemma force_push_items {A} (x : A) (q : AQ A) :
  (0 < aq_capacity q)%nat →
  aq_items (force_push x q) = keep_last (aq_capacity q) (aq_items q ++ [x]).
Proof.
  intros H0. destruct (force_push_spec A x q H0) as [-> _]. pose proof (aq_bound A q).
  unfold keep_last. rewrite length_app. cbn [length]. case_bool_decide.
  - by replace (length (aq_items q) + 1 - aq_capacity q)%nat with 0%nat by lia.
  - replace (length (aq_items q) + 1 - aq_capacity q)%nat with 1%nat by lia.
    destruct (aq_items q); [cbn in *; lia|done].
Qed.

(** [s'] is [s] after the frames [bs]: every queue has received the updates of its
    kind in order and kept the newest that fit. *)
Record queues_after (s s' : RState AQ) (bs : list (list byte)) : Prop := mkQueuesAfter {
  qa_updates : aq_items (rs_updates s') = keep_last (aq_capacity (rs_updates s))
    (aq_items (rs_updates s) ++ omap as_account bs);
  qa_transactions : aq_items (rs_transactions s') = keep_last (aq_capacity (rs_transactions s))
    (aq_items (rs_transactions s) ++ omap as_transaction bs);
  qa_slots : aq_items (rs_slots s') = keep_last (aq_capacity (rs_slots s))
    (aq_items (rs_slots s) ++ omap as_slot bs);
  qa_capacity : aq_capacity (rs_updates s') = aq_capacity (rs_updates s) ∧
    aq_capacity (rs_transactions s') = aq_capacity (rs_transactions s) ∧
    aq_capacity (rs_slots s') = aq_capacity (rs_slots s);
}.

Definition roomy (s : RState AQ) : Prop :=
  (0 < aq_capacity (rs_updates s))%nat ∧ (0 < aq_capacity (rs_transactions s))%nat ∧
  (0 < aq_capacity (rs_slots s))%nat.

Lemma queues_after_nil s : queues_after s s [].
Proof. split; [..|done]; cbn; rewrite app_nil_r, keep_last_all; try done; apply aq_bound. Qed.

Lemma force_push_capacity {A} (x : A) (q : AQ A) :
  (0 < aq_capacity q)%nat → aq_capacity (force_push x q) = aq_capacity q.
Proof. intros H0. by destruct (force_push_spec A x q H0). Qed.

(** One frame: the task survives it and the queue of its kind takes it. *)
Lemma handle_frame_after t b s :
  zlen b ≤ u64_max → roomy s →
  ∃ s', handle_frame t b s = Ok s' ∧ rs_ring s' = rs_ring s ∧ queues_after s s' [b].
Proof.
  intros Hb (Hu & Ht & Hs). unfold handle_frame. pose proof (server_frame_no_panic b Hb) as Hnp.
  pose proof (queues_after_nil s) as [U T S _]. cbn in U, T, S. rewrite app_nil_r in U, T, S.
  destruct (decode_server_frame_owned_with_meta b) as [f|e|] eqn:E; [|eexists|done].
  - destruct f; (eexists; split; [reflexivity|]; split; [reflexivity|]);
      split; cbn; unfold as_account, as_transaction, as_slot; rewrite ?E; cbn;
      rewrite ?app_nil_r, ?force_push_items, ?force_push_capacity by done; done.
  - split; [reflexivity|]. split; [done|].
    split; cbn; unfold as_account, as_transaction, as_slot; rewrite ?E; cbn;
      rewrite ?app_nil_r; done.
Qed.

Lemma queues_after_trans s s1 s2 bs bs' :
  queues_after s s1 bs → queues_after s1 s2 bs' → queues_after s s2 (bs ++ bs').
Proof.
  intros [U1 T1 S1 (C1 & C2 & C3)] [U2 T2 S2 (D1 & D2 & D3)].
  split; rewrite ?omap_app, ?app_assoc.
  - by rewrite U2, C1, U1, keep_last_app.
  - by rewrite T2, C2, T1, keep_last_app.
  - by rewrite S2, C3, S1, keep_last_app.
  - split_and!; congruence.
Qed.

Lemma queues_after_roomy s s' bs : queues_after s s' bs → roomy s → roomy s'.
Proof. intros [_ _ _ (H1 & H2 & H3)] (? & ? & ?). unfold roomy. by rewrite H1, H2, H3. Qed.

Lemma set_ring_id (s : RState AQ) : set_ring s (rs_ring s) = s.
Proof. by destruct s. Qed.

(** *** The reader beside a sender *)

(** What a sender does to the ring of reader [r], seen between two of the reader's
    accesses: it appends whole entries, [app k] before access [k], and may remove the
    ring file. *)
Definition sender_like (r : ShmRingConsumer) (rely : nat → Shm Q → Shm Q)
    (app : nat → list entry) : Prop :=
  ∀ k shm q, queues shm !! c_inode r = Some q →
  Forall entry_ok (app k) ∧
  ∃ q', queues (rely k shm) !! c_inode r = Some q' ∧ bq_data q' = bq_data q ++ stream (app k).

(** All that was appended before the [n] accesses from [k] on. *)
Definition appended (app : nat → list entry) (k n : nat) : list entry :=
  concat (map app (seq k n)).

Lemma appended_S app k n : appended app k (S n) = app k ++ appended app (S k) n.
Proof. done. Qed.

Lemma appended_add app k n m : appended app k (n + m) = appended app k n ++ appended app (k + n) m.
Proof. unfold appended. by rewrite seq_app, map_app, concat_app. Qed.

Lemma appended_one app k : appended app k 1 = app k.
Proof. unfold appended. cbn. apply app_nil_r. Qed.

(** [r'] is the same handle, possibly with its close mark set. *)
Definition same_handle (r r' : ShmRingConsumer) : Prop :=
  c_inode r' = c_inode r ∧ c_path r' = c_path r.

(** Whether the close was met is recorded in the handle; until then the reader takes
    frames only. *)
Definition close_met (taken : list entry) (r : ShmRingConsumer) : Prop :=
  if c_closed r then ∃ before, taken = map Frame before ++ [Closed]
  else ∃ before, taken = map Frame before.

(** The invariant of the reader after the first [n] accesses from [k] on: what the ring
    held and was given is what was taken, followed by what it holds, and what was taken
    is in the queues. *)
Record reader_inv (app : nat → list entry) (k : nat) (es : list entry) (s : RState AQ) (n : nat)
    (taken rest : list entry) (s' : RState AQ) (shm' : Shm Q) : Prop := mkReaderInv {
  ri_balance : es ++ appended app k n = taken ++ rest;
  ri_ring : ∃ q', ring_queue s' shm' = Some q' ∧ bq_data q' = stream rest;
  ri_ok : Forall entry_ok rest;
  ri_queues : queues_after s s' (bodies taken);
  ri_handle : same_handle (rs_ring s) (rs_ring s');
  ri_close : close_met taken (rs_ring s');
}.

Lemma bodies_app es es' : bodies (es ++ es') = bodies es ++ bodies es'.
Proof. apply omap_app. Qed.
Lemma bodies_frames bs : bodies (map Frame bs) = bs.
Proof. induction bs as [|b bs IH]; [done|]. unfold bodies in *. cbn. by rewrite IH. Qed.

Lemma reader_inv_roomy app k es s n taken rest s' shm' :
  reader_inv app k es s n taken rest s' shm' → roomy s → roomy s'.
Proof. intros H. by eapply queues_after_roomy, ri_queues. Qed.

Section rely.
Context (rely : nat → Shm Q → Shm Q) (times : nat → FrameTimes) (app : nat → list entry).

(** The last pop of a drain, which takes nothing or the sentinel. *)
Lemma reader_inv_stop k es taken rest (s : RState AQ) r shm q :
  es ++ app k = taken ++ rest → bq_data q = stream rest → Forall entry_ok rest →
  bodies taken = [] → same_handle (rs_ring s) r → close_met taken r →
  reader_inv app k es s 1 taken rest (set_ring s r) (put_queue (set_ring s r) q shm).
Proof.
  intros Hb Hd Hok Ht Hr Hc. split; [|..|done| |done|done].
  - by rewrite appended_one.
  - exists q. split; [|done]. unfold ring_queue. cbn. apply lookup_insert_eq.
  - rewrite Ht. by destruct (queues_after_nil s).
Qed.

(** A pop that takes a frame, before the rest of the drain. *)
Lemma reader_inv_frame k es b es' (s s1 : RState AQ) n taken rest s' shm' :
  Frame b :: es' = es ++ app k → rs_ring s1 = rs_ring s → queues_after s s1 [b] →
  reader_inv app (S k) es' s1 n taken rest s' shm' →
  reader_inv app k es s (S n) (Frame b :: taken) rest s' shm'.
Proof.
  intros Hes Hr Hqa [I1 I2 I3 I4 [I5 I5'] I6]. split; [|done|done| | |].
  - rewrite appended_S, app_assoc, <-Hes, <-!app_comm_cons. by rewrite I1.
  - by apply (queues_after_trans _ _ _ [b] _ Hqa).
  - unfold same_handle. by rewrite I5, I5', Hr.
  - unfold close_met in *. destruct (c_closed (rs_ring s')); destruct I6 as [before ->];
      by exists (b :: before).
Qed.

Lemma drain_ring_rely fuel k (s : RState AQ) shm q es :
  sender_like (rs_ring s) rely app → ring_queue s shm = Some q → bq_data q = stream es →
  Forall entry_ok es → roomy s → c_closed (rs_ring s) = false →
  (∀ n, (length (es ++ appended app k n) < fuel)%nat) →
  ∃ n taken rest s' shm', drain_ring rely times fuel k s shm = Some (Ok tt, s', shm', k + S n)%nat ∧
    reader_inv app k es s (S n) taken rest s' shm' ∧
    (c_closed (rs_ring s') = false → rest = []).
Proof.
  revert k s shm q es. induction fuel as [|fuel IH]; intros k s shm q es Hrely Hq Hd Hok Hroom Hc Hf.
  { specialize (Hf 0%nat). lia. }
  cbn [drain_ring]. destruct (Hrely k shm q Hq) as (Hap & q1 & Hq1 & Hd1).
  unfold ring_queue at 1. rewrite Hq1. rewrite Hd, <-stream_app in Hd1.
  assert (Forall entry_ok (es ++ app k)) as Hok1 by (by apply Forall_app).
  remember (es ++ app k) as es1 eqn:Hes. destruct Hok1 as [|[b|] es2 Hb Hok2].
  - destruct (try_pop_empty (rs_ring s) q1 Hd1) as (q2 & -> & Hd2 & _).
    exists 0%nat, [], []. eexists _, _. rewrite Nat.add_1_r. split; [reflexivity|].
    split; [|done]. apply reader_inv_stop; try done. unfold close_met. rewrite Hc. by exists [].
  - rewrite stream_cons in Hd1. cbn [entry_bytes] in Hd1. rewrite <-app_assoc in Hd1.
    destruct (try_pop_frame (rs_ring s) q1 b _ Hd1 Hb) as (q2 & -> & Hd2 & _).
    rewrite set_ring_id.
    destruct (handle_frame_after (times k) b s) as (s1 & -> & Hr1 & Hqa);
      [cbn in Hb; unfold CLOSE_SENTINEL, u32_max, u64_max in *; lia|done|].
    destruct (IH (S k) s1 (put_queue s q2 (rely k shm)) q2 es2)
      as (n & taken & rest & s' & shm' & E & I & Hrest); rewrite ?Hr1; try done.
    + unfold ring_queue. cbn. rewrite Hr1. apply lookup_insert_eq.
    + by eapply queues_after_roomy.
    + intros n. specialize (Hf (S n)). rewrite appended_S, app_assoc, <-Hes in Hf. cbn in Hf. lia.
    + exists (S n), (Frame b :: taken), rest, s', shm'. rewrite E.
      split; [do 2 f_equal; lia|]. split; [by eapply reader_inv_frame|done].
  - rewrite stream_cons in Hd1. destruct (try_pop_closed (rs_ring s) q1 _ Hd1) as (q2 & -> & Hd2 & _).
    exists 0%nat, [Closed], es2. eexists _, _. rewrite Nat.add_1_r. split; [reflexivity|].
    split; [|done]. apply reader_inv_stop; try done. by exists [].
Qed.

(** What is known when the reader has returned or sleeps; [last] is what the sender
    appended between the last pop and the check that followed it. *)
Definition end_justified (how : reader_end) (waits : list wait_event) (rest last : list entry)
    (s' : RState AQ) (shm' : Shm Q) : Prop :=
  match how with
  | Asleep => c_closed (rs_ring s') = false ∧ rest = last ∧
      is_Some (files shm' !! c_path (rs_ring s')) ∧ Forall (λ w, ∃ n, w = Waited (Ok n)) waits
  | Returned => c_closed (rs_ring s') = true ∨ files shm' !! c_path (rs_ring s') = None ∨
      ¬ Forall (λ w, ∃ n, w = Waited (Ok n)) waits
  | Died => False
  end.

Lemma reader_round_rely fuel k (s : RState AQ) shm q es :
  sender_like (rs_ring s) rely app → ring_queue s shm = Some q → bq_data q = stream es →
  Forall entry_ok es → roomy s → c_closed (rs_ring s) = false →
  (∀ n, (length (es ++ appended app k n) < fuel)%nat) →
  ∃ n taken rest how s' shm',
    reader_round rely times fuel k s shm = Some (how, s', shm', k + S (S n))%nat ∧
    reader_inv app k es s (S (S n)) taken rest s' shm' ∧
    end_justified how [] rest (app (k + S n)%nat) s' shm'.
Proof.
  intros Hrely Hq Hd Hok Hroom Hc Hf.
  destruct (drain_ring_rely fuel k s shm q es Hrely Hq Hd Hok Hroom Hc Hf)
    as (n & taken & rest & s' & shm' & E & [I1 (q1 & I2 & I2') I3 I4 [I5 I5'] I6] & Hrest).
  unfold reader_round. rewrite E.
  destruct (Hrely (k + S n)%nat shm' q1) as (Hap & q2 & Hq2 & Hd2).
  { unfold ring_queue in I2. by rewrite <-I5. }
  exists n, taken, (rest ++ app (k + S n)%nat), (if is_closed (rs_ring s') (rely (k + S n) shm')
    then Returned else Asleep), s', (rely (k + S n) shm').
  split; [do 2 f_equal; lia|]. split.
  - split; [|..|done|done|done].
    + replace (S (S n)) with (S n + 1)%nat by lia. rewrite appended_add, appended_one.
      by rewrite !app_assoc, I1.
    + exists q2. unfold ring_queue. rewrite I5. split; [done|]. by rewrite Hd2, I2', stream_app.
    + by apply Forall_app.
  - unfold is_closed. destruct (c_closed (rs_ring s')) eqn:Ec; cbn; [by left|].
    rewrite (Hrest eq_refl). case_bool_decide as Hfile; cbn.
    + right. left. done.
    + split_and!; [done|done| |done]. by destruct (files _ !! _).
Qed.

(** Two stretches of the reader's life, the first without a close. *)
Lemma reader_inv_trans k es (s : RState AQ) n t1 r1 s1 shm1 m t2 r2 s2 shm2 :
  reader_inv app k es s n t1 r1 s1 shm1 → c_closed (rs_ring s1) = false →
  reader_inv app (k + n) r1 s1 m t2 r2 s2 shm2 →
  reader_inv app k es s (n + m) (t1 ++ t2) r2 s2 shm2.
Proof.
  intros [A1 _ _ A4 [A5 A5'] A6] Hc [B1 B2 B3 B4 [B5 B5'] B6]. split; [|done|done|..].
  - by rewrite appended_add, app_assoc, A1, <-!app_assoc, B1.
  - rewrite bodies_app. by eapply queues_after_trans.
  - unfold same_handle. by rewrite B5, B5'.
  - unfold close_met in *. rewrite Hc in A6. destruct A6 as [b1 ->].
    destruct (c_closed (rs_ring s2)); destruct B6 as [b2 ->]; exists (b1 ++ b2);
      by rewrite map_app, ?app_assoc.
Qed.

Lemma reader_loop_rely fuel waits k (s : RState AQ) shm q es :
  sender_like (rs_ring s) rely app → ring_queue s shm = Some q → bq_data q = stream es →
  Forall entry_ok es → roomy s → c_closed (rs_ring s) = false →
  (∀ n, (length (es ++ appended app k n) < fuel)%nat) →
  ∃ n taken rest how s' shm',
    reader_loop rely times fuel waits k s shm = Some (how, s', shm', k + S (S n))%nat ∧
    reader_inv app k es s (S (S n)) taken rest s' shm' ∧
    end_justified how waits rest (app (k + S n)%nat) s' shm' ∧
    (how = Asleep → (2 * length waits ≤ n)%nat).
Proof.
  revert k s shm q es. induction waits as [|w waits IH];
    intros k s shm q es Hrely Hq Hd Hok Hroom Hc Hf;
    destruct (reader_round_rely fuel k s shm q es Hrely Hq Hd Hok Hroom Hc Hf)
      as (n & taken & rest & how & s1 & shm1 & E & I & J); cbn [reader_loop]; rewrite E.
  { exists n, taken, rest, how, s1, shm1. split; [by destruct how|]. split_and!; [done|done|].
    intros _. cbn. lia. }
  destruct how; [| |done].
  { exists n, taken, rest, Returned, s1, shm1. split_and!; [done|done| |done].
    destruct J as [?|[?|Hn]]; [by left|by right; left|]. by destruct Hn. }
  destruct J as (Jc & Jr & Jf & _).
  assert (∀ w', w' = Aborted ∨ (∃ e, w' = Waited (Err e)) ∨ w' = Waited Panic →
    ¬ Forall (λ w, ∃ n, w = Waited (Ok n)) (w' :: waits)) as Hbad.
  { intros w' Hw' [[m ->] _]%Forall_cons. naive_solver. }
  destruct w as [[m|e|]|];
    [|exists n, taken, rest, Returned, s1, shm1; split_and!;
        [done|done|right; right; apply Hbad; eauto|done]..].
  pose proof I as [I1 (q1 & I2 & I2') I3 I4 [I5 I5'] _].
  destruct (IH (k + S (S n))%nat s1 shm1 q1 rest)
    as (n2 & t2 & r2 & how & s2 & shm2 & E2 & K & L & Hn2); try done.
  { intros j shm0 q0. rewrite I5. apply Hrely. }
  { by eapply reader_inv_roomy. }
  { intros m'. specialize (Hf (S (S n) + m')%nat). rewrite appended_add, app_assoc, I1 in Hf.
    rewrite !length_app in *. lia. }
  exists (S (S n) + n2)%nat, (taken ++ t2), r2, how, s2, shm2. rewrite E2.
  split; [do 2 f_equal; lia|]. split; [|split].
  - replace (S (S (S (S n) + n2)))%nat with (S (S n) + S (S n2))%nat by lia.
    by eapply reader_inv_trans.
  - replace (k + S (S (S n) + n2))%nat with (k + S (S n) + S n2)%nat by lia.
    destruct how; cbn in *.
    + destruct L as [?|[?|Hw]]; [by left|by right; left|]. right. right.
      contradict Hw. by apply Forall_cons in Hw as [_ ?].
    + destruct L as (? & ? & ? & ?). split_and!; [done..|]. constructor; [by exists m|done].
    + done.
  - intros Hh. specialize (Hn2 Hh). cbn. lia.
Qed.
End rely.

(** One round with nobody else at work, on a ring that holds messages. *)
Lemma drain_ring_files times fuel k (s : RState AQ) (shm : Shm Q) r s' shm' k' :
  drain_ring no_rely times fuel k s shm = Some (r, s', shm', k') → files shm' = files shm.
Proof.
  revert k s shm. induction fuel as [|fuel IH]; intros k s shm; [done|]. cbn [drain_ring].
  unfold no_rely at 1 2. destruct (ring_queue s shm) as [q|]; [|done].
  destruct (try_pop (rs_ring s) q) as [[[b|] rc] q1]; [|by intros [= <- <- <- <-]].
  destruct (handle_frame _ _ _) as [s1| |]; [by intros ->%IH|by intros [= <- <- <- <-]..].
Qed.

Lemma reader_round_alone times fuel k (s : RState AQ) (shm : Shm Q) q bs :
  ring_queue s shm = Some q → bq_data q = stream (map Frame bs) →
  Forall (λ b, zlen b < CLOSE_SENTINEL) bs → (length bs < fuel)%nat →
  c_closed (rs_ring s) = false → roomy s →
  ∃ s' shm' k', reader_round no_rely times fuel k s shm
      = Some (if bool_decide (files shm !! c_path (rs_ring s) = None) then Returned else Asleep,
              s', shm', k') ∧
    queues_after s s' bs.
Proof.
  intros Hq Hd Hb Hf Hc Hroom.
  assert (∀ n, appended (λ _, []) k n = []) as Happ.
  { intros n. unfold appended. revert k. induction n as [|n IH]; intros k; [done|apply IH]. }
  destruct (drain_ring_rely no_rely times (λ _, []) fuel k s shm q (map Frame bs))
    as (n & taken & rest & s' & shm' & E & [I1 _ _ I4 [_ I5] I6] & Hrest); try done.
  - intros j shm0 q0 Hq0. split; [done|]. exists q0. by rewrite app_nil_r.
  - by apply Forall_map.
  - intros n. by rewrite Happ, app_nil_r, length_map.
  - rewrite Happ, app_nil_r in I1. unfold close_met in I6.
    destruct (c_closed (rs_ring s')) eqn:Ec; destruct I6 as [before ->].
    { assert (Closed ∈ map Frame bs) as (b & ? & _)%list_elem_of_fmap; [|done].
      rewrite I1. set_solver. }
    rewrite (Hrest eq_refl), app_nil_r in I1.
    rewrite bodies_frames, <-(bodies_frames before), <-I1, bodies_frames in I4.
    unfold reader_round. rewrite E. unfold is_closed. rewrite Ec. cbn [orb]. unfold no_rely.
    rewrite I5, (drain_ring_files _ _ _ _ _ _ _ _ _ E). eexists s', shm', _. split; [|done].
    by case_bool_decide.
Qed.

(** *** Whatever the ring holds *)

(** Every queue holds well-formed updates only. *)
Definition rs_typed (s : RState AQ) : Prop :=
  roomy s ∧ Forall AccountUpdate_wf (aq_items (rs_updates s)) ∧
  Forall TransactionUpdate_wf (aq_items (rs_transactions s)) ∧
  Forall SlotUpdate_wf (aq_items (rs_slots s)).

Definition same_capacities (s s' : RState AQ) : Prop :=
  aq_capacity (rs_updates s') = aq_capacity (rs_updates s) ∧
  aq_capacity (rs_transactions s') = aq_capacity (rs_transactions s) ∧
  aq_capacity (rs_slots s') = aq_capacity (rs_slots s).

Lemma force_push_typed {A} (P : A → Prop) x (q : AQ A) :
  (0 < aq_capacity q)%nat → P x → Forall P (aq_items q) → Forall P (aq_items (force_push x q)).
Proof.
  intros H0 Hx Hq. rewrite force_push_items by done. unfold keep_last.
  apply Forall_drop, Forall_app. split; [done|]. by apply Forall_singleton.
Qed.

(** What a decoded update is. *)
Lemma decoded_update_wf bytes f :
  zlen bytes ≤ u64_max → decode_server_frame_owned_with_meta bytes = Ok f →
  match f with
  | SFM_AccountUpdate u _ => AccountUpdate_wf u
  | SFM_TransactionUpdate u _ => TransactionUpdate_wf u
  | SFM_SlotUpdate u _ => SlotUpdate_wf u
  | _ => True
  end.
Proof.
  intros Hl. unfold decode_server_frame_owned_with_meta.
  destruct (wire_tag bytes) as [tag| |]; [|done..]. cbn [rbind]. repeat case_bool_decide.
  - destruct (AccountUpdate_decode_owned_with_meta bytes) as [[u m]| |] eqn:E; [|done..].
    intros [= <-]. by eapply account_decode_inv.
  - destruct (TransactionUpdate_decode_owned_with_meta bytes) as [[u m]| |] eqn:E; [|done..].
    intros [= <-]. by eapply transaction_decode_inv.
  - destruct (SlotUpdate_decode_owned_with_meta bytes) as [[u m]| |] eqn:E; [|done..].
    intros [= <-]. by eapply slot_decode_inv.
  - by destruct (ConnectionReady_decode bytes) as [r| |]; [intros [= <-]|..].
  - by destruct (ConnectionReadyShm_decode bytes) as [r| |]; [intros [= <-]|..].
  - done.
Qed.

Lemma handle_frame_typed t bytes s :
  zlen bytes ≤ u64_max → rs_typed s →
  ∃ s', handle_frame t bytes s = Ok s' ∧ rs_ring s' = rs_ring s ∧ rs_typed s' ∧
    same_capacities s s'.
Proof.
  intros Hl (Hroom & T1 & T2 & T3). pose proof Hroom as (R1 & R2 & R3).
  destruct (handle_frame_after t bytes s Hl Hroom) as (s' & E & Hr & Hqa).
  exists s'. split; [done|]. split; [done|]. split; [|apply Hqa].
  split; [by eapply queues_after_roomy|]. split_and!.
  all: unfold handle_frame in E; pose proof (decoded_update_wf bytes) as Hwf;
    destruct (decode_server_frame_owned_with_meta bytes) as [f| |];
    [specialize (Hwf f Hl eq_refl); destruct f|..]; simplify_eq/=; try done;
    by apply force_push_typed.
Qed.

Lemma same_capacities_trans s s1 s2 :
  same_capacities s s1 → same_capacities s1 s2 → same_capacities s s2.
Proof. intros (? & ? & ?) (? & ? & ?). split_and!; (etrans; [eassumption|done]). Qed.

Lemma drain_ring_typed rely times fuel k s (shm : Shm Q) r s' shm' k' :
  rs_typed s → drain_ring rely times fuel k s shm = Some (r, s', shm', k') →
  r = Ok tt ∧ rs_typed s' ∧ same_capacities s s'.
Proof.
  revert k s shm. induction fuel as [|fuel IH]; intros k s shm Hs; [done|]. cbn [drain_ring].
  destruct (ring_queue s (rely k shm)) as [q|]; [|done].
  pose proof (try_pop_any (rs_ring s) q) as H.
  destruct (try_pop (rs_ring s) q) as [[[b|] rc] q1]; destruct H as (_ & _ & _ & _ & P5).
  - destruct (P5 b eq_refl) as [Hb _].
    destruct (handle_frame_typed (times k) b (set_ring s rc)) as (s1 & -> & _ & Ht & Hc);
      [unfold u32_max, u64_max in *; lia|exact Hs|].
    intros (-> & Hty & Hcap)%IH; [|done]. split_and!; [done|done|].
    by eapply same_capacities_trans.
  - intros [= <- <- <- <-]. by split_and!.
Qed.

(** Left alone, a drain ends: every pop consumes bytes. *)
Lemma drain_ring_ends times fuel k s (shm : Shm Q) q :
  rs_typed s → ring_queue s shm = Some q → (length (bq_data q) < fuel)%nat →
  is_Some (drain_ring no_rely times fuel k s shm).
Proof.
  revert k s shm q. induction fuel as [|fuel IH]; intros k s shm q Hs Hq Hf; [lia|].
  cbn [drain_ring]. unfold no_rely at 1. rewrite Hq.
  pose proof (try_pop_any (rs_ring s) q) as H.
  destruct (try_pop (rs_ring s) q) as [[[b|] rc] q1]; destruct H as (P1 & _ & _ & _ & P5); [|by eexists].
  destruct (P5 b eq_refl) as [Hb Hlt].
  destruct (handle_frame_typed (times k) b (set_ring s rc)) as (s1 & -> & Hr & Ht & _);
    [unfold u32_max, u64_max in *; lia|exact Hs|].
  apply (IH (S k) s1 _ q1); [done| |lia].
  unfold ring_queue, put_queue. cbn. rewrite Hr. apply lookup_insert_eq.
Qed.
End reader_lemmas.

(** ** A reference bounded queue *)
Record list_bq (A : Type) := mkListBq { lb_cap : nat; lb_items : list A }.
Arguments mkListBq {A}.
Arguments lb_cap {A}.
Arguments lb_items {A}.

Definition list_bounded_queue : BoundedQueue list_bq := {|
  aq_items A q := keep_last (lb_cap q) (lb_items q);
  aq_capacity A q := lb_cap q;
  aq_new A n := mkListBq n [];
  force_push A x q :=
    mkListBq (lb_cap q)
      ((if bool_decide (length (keep_last (lb_cap q) (lb_items q)) < lb_cap q)%nat
        then keep_last (lb_cap q) (lb_items q)
        else drop 1 (keep_last (lb_cap q) (lb_items q))) ++ [x]);
  aq_pop A q := (head (keep_last (lb_cap q) (lb_items q)),
                 mkListBq (lb_cap q) (tail (keep_last (lb_cap q) (lb_items q))));
|}.

Lemma list_bounded_queue_laws : @BoundedQueueLaws list_bq list_bounded_queue.
Proof.
  assert (∀ A n (l : list A), (length l ≤ n)%nat → keep_last n l = l) as Hk.
  { intros. by apply keep_last_all. }
  split; cbn -[keep_last].
  - intros A n _. split; [|done]. by apply Hk, Nat.le_0_l.
  - intros A q. apply keep_last_length.
  - intros A x q H0. split; [|done]. apply Hk. rewrite length_app. cbn [length].
    pose proof (keep_last_length (lb_cap q) (lb_items q)).
    case_bool_decide; [lia|]. rewrite length_drop. lia.
  - intros A q. split_and!; [done| |done]. apply Hk.
    pose proof (keep_last_length (lb_cap q) (lb_items q)).
    destruct (keep_last _ _); cbn in *; lia.
Qed.

(** ** Properties *)

Definition demo_rstate : RState list_bq :=
  mkRState sample_consumer (mkListBq 2 []) (mkListBq 2 []) (mkListBq 2 [])
    QlasterConsumerMetrics_new.
Definition demo_times : nat → FrameTimes := λ _, mkFrameTimes 1 1 1 0.
Definition slot_frame (n : Z) : list byte :=
  [byte_of WIRE_VERSION; byte_of SLOT_UPDATE_TAG] ++ u64_le 1 ++ u64_le n.
Definition demo_ring_store (bs : list (list byte)) : Shm list_queue :=
  mkShm {["/dev/shm/q/7-0-1" := 0%nat]}
    {[0%nat := mkListQueue (stream (map Frame bs)) 128]} 1.

(** C15: The reader survives any ring contents.  Whatever bytes the ring holds,
    truncated, corrupt or hostile, and whatever others write into it while the reader
    is at work, a round never kills the task: no frame makes a decoder panic.  Every
    update it has queued is well formed (32-byte keys, 64-byte signatures, integers
    within their width, payloads within their limits), and no queue exceeds its
    capacity, which stays what it was.  Left alone with the bytes in the ring, a round
    ends after at most one pop per byte and one more. *)
Theorem reader_survives_any_bytes {Q} {BQ : ByteQueue Q} {BQL : ByteQueueLaws Q}
    {AQ : Type → Type} {BoQ : BoundedQueue AQ} {BoQL : BoundedQueueLaws AQ}
    {LZ : Lz4} {CC : ControlCodecs} times (s : RState AQ) (shm : Shm Q) q k :
  ring_queue s shm = Some q → rs_typed s →
  is_Some (reader_round no_rely times (S (length (bq_data q))) k s shm) ∧
  ∀ rely fuel how s' shm' k', reader_round rely times fuel k s shm = Some (how, s', shm', k') →
    how ≠ Died ∧ rs_typed s' ∧ same_capacities s s' ∧
    (length (aq_items (rs_updates s')) ≤ aq_capacity (rs_updates s))%nat ∧
    (length (aq_items (rs_transactions s')) ≤ aq_capacity (rs_transactions s))%nat ∧
    (length (aq_items (rs_slots s')) ≤ aq_capacity (rs_slots s))%nat.
Proof.
  intros Hq Hs. split.
  - destruct (drain_ring_ends times (S (length (bq_data q))) k s shm q Hs Hq ltac:(lia))
      as [[[[[] ?] ?] ?] E]; unfold reader_round; rewrite E; by eexists.
  - intros rely fuel how s' shm' k'. unfold reader_round.
    destruct (drain_ring rely times fuel k s shm) as [[[[r s1] shm1] k1]|] eqn:E; [|done].
    destruct (drain_ring_typed _ _ _ _ _ _ _ _ _ _ Hs E) as (-> & T & C).
    intros [= <- <- <- <-]. split; [by destruct (is_closed _ _)|]. split; [exact T|].
    split; [exact C|]. destruct C as (<- & <- & <-). split_and!; apply aq_bound.
Qed.

(** A frame that claims more bytes than there are, and a corrupt one. *)
Lemma reader_survives_any_bytes_witness :
  let q := mkListQueue (u32_le 3 ++ [x09; x07; xff] ++ u32_le 200 ++ slot_frame 5) 128 in
  let shm := mkShm {["/dev/shm/q/7-0-1" := 0%nat]} {[0%nat := q]} 1 in
  ∃ how s' shm' k', @reader_round _ list_byte_queue _ list_bounded_queue rle_lz4 Bincode.codecs
      no_rely demo_times (S (length (lq_data q))) 0 demo_rstate shm
      = Some (how, s', shm', k') ∧ how ≠ Died ∧
    Forall SlotUpdate_wf (@aq_items _ list_bounded_queue _ (rs_slots s')).
Proof.
  intros q shm.
  destruct (@reader_survives_any_bytes _ list_byte_queue list_byte_queue_laws _ list_bounded_queue
    list_bounded_queue_laws rle_lz4 Bincode.codecs demo_times demo_rstate shm q 0)
    as [[[[[how s'] shm'] k'] E] H].
  - reflexivity.
  - split; [vm_compute; lia|]. split; [exact (List.Forall_nil _)|].
    split; exact (List.Forall_nil _).
  - destruct (H no_rely _ _ _ _ _ E) as (H1 & (_ & _ & _ & H2) & _).
    exists how, s', shm', k'. split; [exact E|]. split; [exact H1|exact H2].
Defined.

(** C26: The reader beside a running sender.  Between any two of its accesses to the
    ring (its pops and its checks for the ring file, and so also while it sleeps) the
    sender may append messages, append the close sentinel, and remove the file.  Then,
    whatever the ends of its sleeps, the task never dies, and when it has returned or
    sleeps: what the ring held and was given is, in order, what the reader took followed
    by what the ring still holds; every queue holds its previous contents followed by
    the updates of its kind among what was taken, cut to the newest that fit; it took
    nothing beyond a sentinel.  It returned only because it took the sentinel, found the
    file gone, or a wait failed or was aborted, and it sleeps only if the file is there
    and nothing was left when it last popped.  If the sentinel was written before the
    reader's last round it has returned.  (Whether a sleep ends is the subject of the
    wakeup protocol; what is written between the last pop and the check of a reader that
    then finds the file gone stays in the ring.) *)
Theorem reader_beside_sender {Q} {BQ : ByteQueue Q} {BQL : ByteQueueLaws Q}
    {AQ : Type → Type} {BoQ : BoundedQueue AQ} {BoQL : BoundedQueueLaws AQ}
    {LZ : Lz4} {CC : ControlCodecs} rely app times fuel waits (s : RState AQ) (shm : Shm Q) q es :
  sender_like (rs_ring s) rely app → ring_queue s shm = Some q → bq_data q = stream es →
  Forall entry_ok es → roomy s → c_closed (rs_ring s) = false →
  (∀ n, (length (es ++ appended app 0 n) < fuel)%nat) →
  ∃ n taken rest how s' shm' q',
    run_reader rely times None fuel waits s shm = Some (how, s', shm', S (S n)) ∧
    es ++ appended app 0 (S (S n)) = taken ++ rest ∧
    ring_queue s' shm' = Some q' ∧ bq_data q' = stream rest ∧
    queues_after s s' (bodies taken) ∧ close_met taken (rs_ring s') ∧
    end_justified how waits rest (app (S n)) s' shm' ∧
    (Closed ∈ es ++ appended app 0 (S (2 * length waits)) → how = Returned).
Proof.
  intros Hrely Hq Hd Hok Hroom Hc Hf.
  destruct (reader_loop_rely rely times app fuel waits 0 s shm q es Hrely Hq Hd Hok Hroom Hc Hf)
    as (n & taken & rest & how & s' & shm' & E & [I1 (q' & I2 & I2') _ I4 _ I6] & J & Hn).
  exists n, taken, rest, how, s', shm', q'. split_and!; try done.
  intros Hin. destruct how; [done| |done]. exfalso. specialize (Hn eq_refl).
  destruct J as (Jc & -> & _). unfold close_met in I6. rewrite Jc in I6. destruct I6 as [before ->].
  replace (S (S n)) with (S n + 1)%nat in I1 by lia.
  rewrite appended_add, appended_one, app_assoc in I1. apply app_inv_tail in I1.
  replace (S n) with (S (2 * length waits) + (n - 2 * length waits))%nat in I1 by lia.
  rewrite appended_add, app_assoc in I1.
  assert (Closed ∈ map Frame before) as (b & ? & _)%list_elem_of_fmap; [|done].
  rewrite <-I1. apply elem_of_app. by left.
Qed.

(** A message before the second pop; another and the close during the first sleep. *)
Definition demo_appends (k : nat) : list entry :=
  match k with
  | 1%nat => [Frame (slot_frame 6)]
  | 4%nat => [Frame (slot_frame 7); Closed]
  | _ => []
  end.
Definition demo_rely (k : nat) (shm : Shm list_queue) : Shm list_queue :=
  mkShm (files shm) (alter (λ q, mkListQueue (lq_data q ++ stream (demo_appends k)) (lq_cap q))
    0%nat (queues shm)) (next_inode shm).

Lemma demo_sender_like :
  @sender_like _ list_byte_queue sample_consumer demo_rely demo_appends.
Proof.
  intros k shm q Hq. split.
  - destruct k as [|[|[|[|[|k]]]]]; repeat constructor; vm_compute; reflexivity.
  - exists (mkListQueue (lq_data q ++ stream (demo_appends k)) (lq_cap q)).
    split; [|reflexivity]. cbn in *. by rewrite lookup_alter_eq, Hq.
Qed.

Lemma demo_appends_few n : (length (appended demo_appends 0 n) ≤ 3)%nat.
Proof.
  assert (∀ j m, length (appended demo_appends (5 + j) m) = 0%nat) as H.
  { intros j m. revert j. induction m as [|m IH]; intros j; [done|]. apply (IH (S j)). }
  destruct (decide (n ≤ 5)%nat) as [Hn|Hn].
  - do 6 (destruct n as [|n]; [cbn; lia|]). lia.
  - replace n with (5 + (n - 5))%nat by lia. rewrite appended_add, length_app.
    rewrite (H 0%nat). cbn. lia.
Qed.

Lemma reader_beside_sender_witness :
  ∃ n s' shm', @run_reader _ list_byte_queue _ list_bounded_queue rle_lz4 Bincode.codecs
      demo_rely demo_times None 5 [Waited (Ok 1); Waited (Ok 2)] demo_rstate
      (demo_ring_store [slot_frame 5]) = Some (Returned, s', shm', n) ∧
    @aq_items _ list_bounded_queue _ (rs_slots s') = [mkSlotUpdate 6; mkSlotUpdate 7].
Proof.
  destruct (@reader_beside_sender _ list_byte_queue list_byte_queue_laws _ list_bounded_queue
    list_bounded_queue_laws rle_lz4 Bincode.codecs demo_rely demo_appends demo_times 5
    [Waited (Ok 1); Waited (Ok 2)] demo_rstate (demo_ring_store [slot_frame 5])
    (mkListQueue (stream (map Frame [slot_frame 5])) 128) (map Frame [slot_frame 5]))
    as (n & taken & rest & how & s' & shm' & q' & E & _ & _ & _ & _ & _ & _ & Hret).
  - apply demo_sender_like.
  - reflexivity.
  - reflexivity.
  - repeat constructor; vm_compute; reflexivity.
  - vm_compute. lia.
  - reflexivity.
  - intros n. rewrite length_app. pose proof (demo_appends_few n). cbn in *. lia.
  - rewrite Hret in E; [|cbn -[slot_frame]; do 3 right; left].
    eexists _, s', shm'. split; [exact E|].
    assert (option_map (λ o, @aq_items _ list_bounded_queue _ (rs_slots o.1.1.2))
      (@run_reader _ list_byte_queue _ list_bounded_queue rle_lz4 Bincode.codecs
        demo_rely demo_times None 5 [Waited (Ok 1); Waited (Ok 2)] demo_rstate
        (demo_ring_store [slot_frame 5])) = Some [mkSlotUpdate 6; mkSlotUpdate 7]) as Hq
      by (vm_compute; reflexivity).
    rewrite E in Hq. cbn -[keep_last aq_items] in Hq. by injection Hq.
Defined.
