(* ===== verification/EndToEnd.v ===== *)
(** * Sender and consumer together

    The handshake across the control socket, and the path of an update from a
    dispatch on the sender to the queue the application reads. *)

From stdpp Require Import prelude gmap strings.
From Stdlib Require Import Strings.Byte.
From S2P Require Import Prelude Errors WireCodec DataFrames ControlFrames Wire Uds Metrics EventFd.
From S2P Require Import Ring Transport Filter Manager ManagerInv ManagerSpec Delivery SenderShm Consumer.

(** ** A stream of updates of all three kinds *)

(** What the three dispatcher tasks are handed. *)
Inductive Update :=
| AccountEvent (u : AccountUpdate)
| TransactionEvent (t : TransactionUpdate)
| SlotEvent (s : SlotUpdate).

Definition Update_wf (u : Update) : Prop :=
  match u with
  | AccountEvent u => AccountUpdate_wf u
  | TransactionEvent t => TransactionUpdate_wf t
  | SlotEvent s => SlotUpdate_wf s
  end.

(** The frame a consumer's decoder makes of an update. *)
Definition update_frame (u : Update) (meta : AccountUpdateWireMeta) : ServerFrameWithMeta :=
  match u with
  | AccountEvent u => SFM_AccountUpdate u meta
  | TransactionEvent t => SFM_TransactionUpdate t meta
  | SlotEvent s => SFM_SlotUpdate s meta
  end.

(** The most bytes the frame of an update has. *)
Definition frame_bound (u : Update) : Z :=
  match u with
  | AccountEvent u => ACCOUNT_UPDATE_FIXED_BYTES + zlen (account_payload_bytes (account_payload u))
  | TransactionEvent t => TRANSACTION_UPDATE_FIXED_BYTES
      + zlen (transaction_payload_bytes (tx_payload t))
  | SlotEvent _ => SLOT_UPDATE_FIXED_BYTES
  end.

Definition event_account (u : Update) : option AccountUpdate :=
  match u with AccountEvent u => Some u | _ => None end.
Definition event_transaction (u : Update) : option TransactionUpdate :=
  match u with TransactionEvent t => Some t | _ => None end.
Definition event_slot (u : Update) : option SlotUpdate :=
  match u with SlotEvent s => Some s | _ => None end.

Lemma frame_bound_range u : Update_wf u → 0 ≤ frame_bound u < CLOSE_SENTINEL.
Proof.
  unfold CLOSE_SENTINEL, u32_max. destruct u as [u|t|s]; cbn [Update_wf frame_bound].
  - intros (_ & _ & _ & _ & _ & _ & H).
    pose proof (zlen_nonneg (account_payload_bytes (account_payload u))).
    unfold ACCOUNT_UPDATE_FIXED_BYTES, MAX_ACCOUNT_PAYLOAD_BYTES in *. lia.
  - intros (_ & _ & _ & H).
    pose proof (zlen_nonneg (transaction_payload_bytes (tx_payload t))).
    unfold TRANSACTION_UPDATE_FIXED_BYTES, MAX_TRANSACTION_PAYLOAD_BYTES in *. lia.
  - unfold SLOT_UPDATE_FIXED_BYTES. lia.
Qed.

Section stream.
Context {Q : Type} {BQ : ByteQueue Q} {BQL : ByteQueueLaws Q}.
Context {B : Type} {BF : BloomFilter B}.
Context {K : Type} {EK : EventKernel K} {EKL : EventKernelLaws K}.
Context {LZ : Lz4} {LZL : Lz4Laws} {CC : ControlCodecs}.
Context (shm_dir : string) (pid : Z).

Definition wants_update (u : Update) (f : SubscriptionFilter B) : bool :=
  match u with
  | AccountEvent u => matches_account f u
  | TransactionEvent _ => matches_transaction f
  | SlotEvent _ => true
  end.

Definition dispatch_update (env : DispatchEnv) (u : Update) (st : MState Q B K)
    (m : QlasterSenderMetrics) : MState Q B K * QlasterSenderMetrics :=
  match u with
  | AccountEvent u => dispatch_account_update env u st m
  | TransactionEvent t => dispatch_transaction_update env t st m
  | SlotEvent s => dispatch_slot_update env s st m
  end.

(** The dispatcher tasks over a sequence of updates, in the order they are taken. *)
Fixpoint dispatch_updates (evs : list (DispatchEnv * Update)) (st : MState Q B K)
    (m : QlasterSenderMetrics) : MState Q B K * QlasterSenderMetrics :=
  match evs with
  | [] => (st, m)
  | (env, u) :: evs => let '(st, m) := dispatch_update env u st m in dispatch_updates evs st m
  end.

(** The updates a subscriber wants, and the bytes its ring needs for them. *)
Definition wanted (f : SubscriptionFilter B) (evs : list (DispatchEnv * Update)) : list Update :=
  filter (λ u, wants_update u f = true) (map snd evs).

Definition room_needed (us : list Update) : Z := foldr (λ u n, 4 + frame_bound u + n) 0 us.

Lemma wanted_cons f env u evs :
  wanted f ((env, u) :: evs) = (if wants_update u f then [u] else []) ++ wanted f evs.
Proof.
  unfold wanted. cbn [map snd]. rewrite filter_cons.
  destruct (wants_update u f); by case_decide.
Qed.

(** What a dispatch leaves as it is in a connection. *)
Definition same_lease (c c' : ManagedConnection B K) : Prop :=
  mc_filter c' = mc_filter c ∧ last_seen_ms c' = last_seen_ms c ∧
  p_inode (mc_ring c') = p_inode (mc_ring c) ∧ p_path (mc_ring c') = p_path (mc_ring c).

(** One dispatch, whatever the kind of update. *)
Lemma update_delivery env u st m :
  mgr_ok shm_dir pid st → Update_wf u →
  ∃ bytes,
    decode_server_frame_owned_with_meta bytes
      = Ok (update_frame u (mkWireMeta (unix_time_nanos (de_systime env)))) ∧
    zlen bytes ≤ frame_bound u ∧
    let st' := (dispatch_update env u st m).1 in
    mgr_ok shm_dir pid st' ∧ shrinks st st' ∧
    ∀ i, delivery (de_now env i) (wants_update u) bytes st st' i.
Proof.
  intros Hok Hu. destruct u as [u|t|s]; cbn [Update_wf dispatch_update] in *.
  - destruct (account_delivery shm_dir pid env u st m Hok Hu) as (b & ? & ? & ? & ?).
    exists b. split_and!; [done|done|done| |done].
    pose proof (dispatch_with_shrinks shm_dir pid env (λ f, matches_account f u)
      (encode_account_frame env u) st m Hok) as Hsh.
    fold (dispatch_account_update env u st m) in Hsh.
    by destruct (dispatch_account_update env u st m) as [st1 m1], Hsh as (_ & _ & ?).
  - destruct (transaction_delivery shm_dir pid env t st m Hok Hu) as (b & ? & Hl & ? & ?).
    exists b. split_and!; [done|by rewrite Hl|done| |done].
    pose proof (dispatch_with_shrinks shm_dir pid env matches_transaction
      (encode_transaction_frame env t) st m Hok) as Hsh.
    fold (dispatch_transaction_update env t st m) in Hsh.
    by destruct (dispatch_transaction_update env t st m) as [st1 m1], Hsh as (_ & _ & ?).
  - destruct (slot_delivery shm_dir pid env s st m Hok Hu) as (b & ? & Hl & ? & ?).
    exists b. split_and!; [done|by rewrite Hl|done| |done].
    pose proof (dispatch_with_shrinks shm_dir pid env (λ _, true)
      (encode_slot_frame env s) st m Hok) as Hsh.
    fold (dispatch_slot_update env s st m) in Hsh.
    by destruct (dispatch_slot_update env s st m) as [st1 m1], Hsh as (_ & _ & ?).
Qed.

(** Bytes that decode to an update. *)
Definition carries (b : list byte) (u : Update) : Prop :=
  ∃ meta, decode_server_frame_owned_with_meta b = Ok (update_frame u meta).

Lemma carries_events bs us :
  Forall2 carries bs us →
  omap as_account bs = omap event_account us ∧
  omap as_transaction bs = omap event_transaction us ∧
  omap as_slot bs = omap event_slot us.
Proof.
  induction 1 as [|b u bs us [meta Hb] _ (IH1 & IH2 & IH3)]; [done|].
  cbn [omap list_omap]. unfold as_account at 1, as_transaction at 1, as_slot at 1.
  rewrite Hb, IH1, IH2, IH3. by destruct u.
Qed.

(** A dispatch to a live subscriber: the update is appended if it is wanted. *)
Lemma dispatch_update_appends env u st m i ptr c q :
  mgr_ok shm_dir pid st → view st i = Some (ptr, c, q) → Update_wf u →
  is_stale (de_now env i) c = false →
  (wants_update u (mc_filter c) = true → zlen (bq_data q) + (4 + frame_bound u) ≤ bq_capacity q) →
  ∃ c' q' bs, view (dispatch_update env u st m).1 i = Some (ptr, c', q') ∧
    mgr_ok shm_dir pid (dispatch_update env u st m).1 ∧ same_lease c c' ∧
    bq_capacity q' = bq_capacity q ∧ bq_data q' = bq_data q ++ stream (map Frame bs) ∧
    Forall2 carries bs (if wants_update u (mc_filter c) then [u] else []) ∧
    Forall (λ b, zlen b < CLOSE_SENTINEL) bs ∧
    zlen (stream (map Frame bs))
      ≤ room_needed (if wants_update u (mc_filter c) then [u] else []).
Proof.
  intros Hok Hv Hu Hst Hroom.
  destruct (update_delivery env u st m Hok Hu) as (b & Hdec & Hlen & Hok1 & Hsh & Hdel).
  specialize (Hdel i). unfold delivery in Hdel. rewrite Hv, Hst in Hdel.
  destruct (wants_update u (mc_filter c)); cbn [negb] in Hdel.
  2: { exists c, q, []. cbn. rewrite app_nil_r. split_and!; try done. }
  specialize (Hroom eq_refl). rewrite bool_decide_true in Hdel by lia.
  destruct Hdel as (s & q1 & Hv1 & Hd1 & _).
  destruct (Hsh _ _ _ _ Hv1) as (c0 & q0 & Hv0 & (_ & _ & (R1 & R2 & R3 & _))).
  rewrite Hv in Hv0. injection Hv0 as <- <-.
  pose proof (co_cap _ _ _ _ _ _ (ok_view _ _ _ _ _ _ _ Hok Hv)) as C0.
  pose proof (co_cap _ _ _ _ _ _ (ok_view _ _ _ _ _ _ _ Hok1 Hv1)) as C1.
  exists (set_sink c s), q1, [b]. split_and!; [done|done|by split_and!|congruence| | | |].
  - rewrite Hd1. cbn [map]. by rewrite stream_one.
  - repeat constructor. by eexists.
  - repeat constructor. pose proof (frame_bound_range u Hu). lia.
  - cbn [map room_needed foldr]. rewrite stream_one. cbn [entry_bytes].
    rewrite zlen_app, zlen_u32_le. lia.
Qed.

Lemma room_needed_app us vs : room_needed (us ++ vs) = room_needed us + room_needed vs.
Proof. unfold room_needed. induction us as [|u us IH]; cbn; lia. Qed.

Lemma room_needed_nonneg f evs :
  Forall (λ e, Update_wf e.2) evs → 0 ≤ room_needed (wanted f evs).
Proof.
  induction 1 as [|[env u] evs Hu _ IH]; [done|]. rewrite wanted_cons, room_needed_app.
  destruct (wants_update u f); cbn [room_needed foldr]; [|lia].
  pose proof (frame_bound_range u Hu). lia.
Qed.

Lemma dispatch_updates_stream evs st m i ptr c q :
  mgr_ok shm_dir pid st → view st i = Some (ptr, c, q) →
  Forall (λ e, Update_wf e.2 ∧ is_stale (de_now e.1 i) c = false) evs →
  zlen (bq_data q) + room_needed (wanted (mc_filter c) evs) ≤ bq_capacity q →
  ∃ c' q' bs, view (dispatch_updates evs st m).1 i = Some (ptr, c', q') ∧
    mgr_ok shm_dir pid (dispatch_updates evs st m).1 ∧ same_lease c c' ∧
    bq_data q' = bq_data q ++ stream (map Frame bs) ∧
    Forall2 carries bs (wanted (mc_filter c) evs) ∧
    Forall (λ b, zlen b < CLOSE_SENTINEL) bs ∧
    zlen (stream (map Frame bs)) ≤ room_needed (wanted (mc_filter c) evs).
Proof.
  revert st m c q. induction evs as [|[env u] evs IH]; intros st m c q Hok Hv Hall Hroom.
  { exists c, q, []. cbn. rewrite app_nil_r. by split_and!. }
  apply Forall_cons in Hall as [[Hu Hst] Hall]. cbn [dispatch_updates fst snd] in *.
  rewrite wanted_cons, room_needed_app in Hroom. rewrite wanted_cons.
  assert (0 ≤ room_needed (wanted (mc_filter c) evs)).
  { apply room_needed_nonneg. eapply Forall_impl; [exact Hall|]. naive_solver. }
  destruct (dispatch_update_appends env u st m i ptr c q Hok Hv Hu Hst)
    as (c1 & q1 & bs1 & Hv1 & Hok1 & L1 & C1 & D1 & F1 & S1 & Z1).
  { intros E. rewrite E in Hroom. cbn [room_needed foldr] in Hroom. lia. }
  destruct (dispatch_update env u st m) as [st1 m1]. cbn [fst] in *.
  destruct L1 as (L1 & L2 & L3 & L4).
  destruct (IH st1 m1 c1 q1 Hok1 Hv1) as (c' & q' & bs & Hv' & Hok' & L' & D' & F' & S' & Z').
  { eapply Forall_impl; [exact Hall|]. intros e [? He]. split; [done|].
    revert He. unfold is_stale. by rewrite L2. }
  { rewrite C1, D1, zlen_app, L1. lia. }
  exists c', q', (bs1 ++ bs). split_and!; [done|done| | | | |].
  - destruct L' as (M1 & M2 & M3 & M4). split_and!; congruence.
  - by rewrite D', D1, map_app, stream_app, app_assoc.
  - rewrite L1 in F'. by apply Forall2_app.
  - by apply Forall_app.
  - rewrite L1 in Z'. rewrite map_app, stream_app, zlen_app, room_needed_app. lia.
Qed.

Lemma room_needed_count us n :
  Forall Update_wf us → (length us ≤ n)%nat →
  room_needed us ≤ Z.of_nat n * (4 + ACCOUNT_UPDATE_FIXED_BYTES + MAX_ACCOUNT_PAYLOAD_BYTES).
Proof.
  intros Hus. revert n. induction Hus as [|u us Hu _ IH]; intros n Hn; cbn [length] in Hn.
  - cbn. unfold ACCOUNT_UPDATE_FIXED_BYTES, MAX_ACCOUNT_PAYLOAD_BYTES. lia.
  - destruct n as [|n]; [lia|]. specialize (IH n ltac:(lia)).
    change (room_needed (u :: us)) with (4 + frame_bound u + room_needed us).
    assert (frame_bound u ≤ ACCOUNT_UPDATE_FIXED_BYTES + MAX_ACCOUNT_PAYLOAD_BYTES); [|lia].
    destruct u as [u|t|s]; cbn [Update_wf frame_bound] in *.
    + destruct Hu as (_ & _ & _ & _ & _ & _ & H). lia.
    + destruct Hu as (_ & _ & _ & H). unfold TRANSACTION_UPDATE_FIXED_BYTES,
        MAX_TRANSACTION_PAYLOAD_BYTES, ACCOUNT_UPDATE_FIXED_BYTES, MAX_ACCOUNT_PAYLOAD_BYTES in *. lia.
    + vm_compute. discriminate.
Qed.

Lemma wanted_wf f evs :
  Forall (λ e, Update_wf e.2) evs → Forall Update_wf (wanted f evs).
Proof.
  induction 1 as [|[env u] evs Hu _ IH]; [constructor|]. rewrite wanted_cons.
  apply Forall_app. split; [|done]. destruct (wants_update u f); by repeat constructor.
Qed.
End stream.

(** ** The handshake *)
Section handshake.
Context {Q : Type} {BQ : ByteQueue Q} {BQL : ByteQueueLaws Q}.
Context {B : Type} {BF : BloomFilter B}.
Context {K : Type} {EK : EventKernel K}.
Context {AQ : Type → Type} {BoQ : BoundedQueue AQ}.
Context {LZ : Lz4} {CC : ControlCodecs} {CCL : ControlCodecsLaws}.

Definition bootstrap_request : SubscriptionRequest := SubscriptionRequest_new [] [].

Lemma append_nonempty a b : b ≠ "" → a +:+ b ≠ "".
Proof. by destruct a. Qed.

Lemma conn_path_nonempty dir pid i id : conn_path dir pid i id ≠ "".
Proof.
  assert (ring_file_name pid i id ≠ "") as Hf.
  { unfold ring_file_name. apply append_nonempty. discriminate. }
  unfold conn_path, path_join. destruct (String.get _ _); [|done].
  case_bool_decide; apply append_nonempty; [exact Hf|discriminate].
Qed.

(** The descriptor travels with the reply and every [fcntl] on it succeeds. *)
Definition clean_setup (env : SetupEnv) : Prop :=
  se_connect env = None ∧ se_open_err env = None ∧
  (∃ n, se_sockopt env = SysOk n) ∧ ∀ fd, ∃ n, se_fcntl env fd = SysOk n.

(** The consumer's side, given a well-formed reply. *)
Lemma setup_with_reply env m fds (s : Shm Q) ready reply fd' ino q :
  clean_setup env → wincode_fits (SubscriptionRequest_wire bootstrap_request) →
  (∀ bytes, SubscriptionRequest_encode bootstrap_request = Ok bytes → zlen bytes ≤ MAX_FRAME_SIZE) →
  decode_server_frame reply = Ok (SF_ConnectionReadyShm ready) →
  zlen (fd_frame reply) ≤ ANCILLARY_RECV_BUF →
  se_recv env = RecvMsg (fd_frame reply) [mkCmsg ScmRights fd' []] →
  files s !! rs_ring_path ready = Some ino → queues s !! ino = Some q → bq_join q = None →
  ∃ bytes cons, SubscriptionRequest_encode bootstrap_request = Ok bytes ∧
    setup_shm_consumer_with_metrics env m (mkWriter [] None) fds s
      = (Ok cons, mkWriter (frame_bytes bytes) None, fds ∪ {[fd']}) ∧
    consumer_slot_token (AQ:=AQ) cons
      = (if bool_decide (slot_index (rs_slot_token ready) = UNSET_SLOT_INDEX) then None
         else Some (rs_slot_token ready)) ∧
    c_inode (qc_ring cons) = ino ∧ c_path (qc_ring cons) = rs_ring_path ready ∧
    c_closed (qc_ring cons) = false ∧ qc_eventfd cons = fd'.
Proof.
  intros (E1 & E2 & [n0 E3] & E4) Hfit Hsize Hdec Hlen Hrecv Hf Hq Hj.
  destruct (subscription_encode_decode bootstrap_request Hfit) as (bytes & He & _ & _).
  specialize (Hsize _ He). unfold setup_shm_consumer_with_metrics.
  fold bootstrap_request. rewrite E1, He, E3.
  assert (set_nosigpipe (se_plat env) (SysOk n0) = Ok tt) as -> by (by destruct (se_plat env)).
  rewrite write_framed_healthy by (unfold MAX_FRAME_SIZE, u32_max in *; lia).
  rewrite Hrecv, <-(app_nil_r (fd_frame reply)).
  rewrite (recv_frame_payload _ _ _ _ _ _ _ _ Hlen (take_fds_one _ _ fd' fds ltac:(done))).
  rewrite Hdec. unfold ring_open. rewrite E2, Hf, Hq, Hj.
  exists bytes. eexists. split_and!; [done|done| |done..].
  unfold consumer_slot_token. cbn. by destruct (rs_slot_token ready).
Qed.
End handshake.

(** The reply that announces slot [i] to a new consumer. *)
Definition ready_for {Q B K} (cfg : ShmTransportConfig) (pid : Z) (st : MState Q B K) (i : nat) :
    ConnectionReadyShm :=
  mkConnectionReadyShm (mkSlotToken (Z.of_nat i) (next_connection_id st))
    (conn_path (shm_dir cfg) pid i (next_connection_id st)) (ring_capacity_bytes cfg).

(** The sender's side: a request whose token designates no live connection is
    answered with a new slot, and its token designates nothing afterwards. *)
Lemma serve_new_slot {Q} {BQ : ByteQueue Q} {BQL : ByteQueueLaws Q} {B} {BF : BloomFilter B}
    {K} {EK : EventKernel K} {CC : ControlCodecs} {CCL : ControlCodecsLaws}
    cfg pid (env : ConnEnv (Q:=Q) (B:=B) (K:=K)) s0 request bytes :
  mgr_ok (shm_dir cfg) pid (cs_mgr s0) → alone pid env →
  next_connection_id (cs_mgr s0) < u64_max → healthy (ring_capacity_bytes cfg) (ce_upsert env) →
  (∃ i, (i < MAX_CONNECTION_SLOTS)%nat ∧ ¬ busy (ue_scan (ce_upsert env) 0) (cs_mgr s0) i) →
  (∀ ptr c q, ¬ live_token (ue_seen (ce_upsert env)) (req_slot_token request) (cs_mgr s0) ptr c q) →
  decode_client_frame bytes = Ok (Subscription request) →
  ∃ i ptr c q st1,
    let tok := mkSlotToken (Z.of_nat i) (next_connection_id (cs_mgr s0)) in
    let path := conn_path (shm_dir cfg) pid i (next_connection_id (cs_mgr s0)) in
    (i < MAX_CONNECTION_SLOTS)%nat ∧
    (∀ j, (j < i)%nat → busy (ue_scan (ce_upsert env) 0) (cs_mgr s0) j) ∧
    mgr_ok (shm_dir cfg) pid st1 ∧
    next_connection_id st1 = next_connection_id (cs_mgr s0) + 1 ∧
    view st1 i = Some (ptr, c, q) ∧ bq_data q = [] ∧ slot_token c = tok ∧
    p_path (mc_ring c) = path ∧ mc_filter c = from_request (ue_seed (ce_upsert env)) request ∧
    (∀ j, j ≠ i → slot_swept (ue_seen (ce_upsert env)) (view (cs_mgr s0) j) (view st1 j)) ∧
    ((∀ t, req_slot_token request = Some t → generation t < next_connection_id (cs_mgr s0)) →
       token_gone (req_slot_token request) st1) ∧
    ∀ reply, ConnectionReadyShm_encode (ready_for cfg pid (cs_mgr s0) i) = Ok reply →
      zlen reply ≤ u32_max → ce_sendmsg env = SysOk (zlen (fd_frame reply)) →
      serve_frame env cfg bytes s0
        = Some (Ok tt, forward env request
            (mkConnState st1 (mkWriter (sent (cs_writer s0) ++ fd_frame reply)
               (breaks_after (cs_writer s0))) (cs_fds s0 ++ [ce_pass_fd env (sink_wakeup (mc_sink c))])
               (cs_forwarded s0))).
Proof.
  intros Hok (Hq & Hfuel) Hn Hh Hfree Hdead Hdec.
  destruct (ce_fuel env) as [|fuel] eqn:Ef; [lia|].
  destruct (upsert_healthy_dead _ _ _ _ request fuel (cs_mgr s0) Hok Hq Hn Hh Hdead Hfree)
    as (tok & path & efd & st1 & E).
  destruct (upsert_new_spec _ _ (ce_upsert env) request _ fuel (cs_mgr s0) Hok Hq
    ltac:(apply Hh) Hn Hdead) as (st0 & r & st' & E' & Hsw & Hgone & Hn0 & Ho & Hok' & Hn').
  rewrite E in E'. injection E' as <- <-.
  destruct Ho as (i & q & ring & -> & -> & _ & Hi & _ & Hb & Hv & Hd & _ & _ & Hoth).
  rewrite Hn0 in *. eexists i, _, _, q, st1. cbv zeta.
  pose proof (co_path _ _ _ _ _ _ (ok_view _ _ _ _ _ _ _ Hok' Hv)) as Hp.
  split_and!; [done| |done|done|exact Hv|done| |exact Hp|done| | |].
  - intros j Hj. destruct (Hb j Hj) as (p & c & q0 & Hvj & Hs).
    destruct (Hsw j) as [Heq|(? & ? & ? & _ & _ & Heq)]; [|congruence].
    rewrite Heq in Hvj. by exists p, c, q0.
  - unfold slot_token. cbn. unfold MAX_CONNECTION_SLOTS in Hi. by rewrite Z.mod_small by lia.
  - intros j Hj. by rewrite Hoth.
  - intros Hgen now p c q0 (t & Ht & Hvt & Hid & Hs).
    destruct (decide (Z.to_nat (slot_index t) = i)) as [Hti|Hti].
    + rewrite Hti, Hv in Hvt. injection Hvt as _ <- _. cbn in Hid. specialize (Hgen t Ht). lia.
    + rewrite Hoth in Hvt by done. eapply (Hgone now p c q0). by exists t.
  - intros reply He Hlen Hsend. unfold serve_frame, ready_for in *. rewrite Hdec, Ef, E, He.
    by rewrite Hsend, send_frame_whole.
Qed.

(** ** Properties *)

(** C8: The handshake connects the two ends: on a sender with a free slot, the
    consumer's bootstrap request is served, and the reply with its descriptor makes
    the consumer open the very ring the sender's new connection writes to, with the
    token that designates that connection; the descriptor sent with it is that of
    the connection's own wakeup, and the only descriptor the consumer gained
    is the wakeup. *)
Theorem handshake_connects {Q} {BQ : ByteQueue Q} {BQL : ByteQueueLaws Q}
    {B} {BF : BloomFilter B} {K} {EK : EventKernel K} {AQ : Type → Type} {BoQ : BoundedQueue AQ}
    {LZ : Lz4} {CC : ControlCodecs} {CCL : ControlCodecsLaws}
    cfg pid (env : ConnEnv (Q:=Q) (B:=B) (K:=K)) s0 cenv m fds fd' :
  mgr_ok (shm_dir cfg) pid (cs_mgr s0) → alone pid env →
  next_connection_id (cs_mgr s0) < u64_max → healthy (ring_capacity_bytes cfg) (ce_upsert env) →
  (∃ i, (i < MAX_CONNECTION_SLOTS)%nat ∧ ¬ busy (ue_scan (ce_upsert env) 0) (cs_mgr s0) i) →
  wincode_fits (SubscriptionRequest_wire bootstrap_request) →
  (∀ bytes, SubscriptionRequest_encode bootstrap_request = Ok bytes →
     zlen bytes ≤ MAX_FRAME_SIZE) →
  (∀ i, (i < MAX_CONNECTION_SLOTS)%nat →
     wincode_fits (ConnectionReadyShm_wire (ready_for cfg pid (cs_mgr s0) i)) ∧
     ∀ reply, ConnectionReadyShm_encode (ready_for cfg pid (cs_mgr s0) i) = Ok reply →
       zlen (fd_frame reply) ≤ ANCILLARY_RECV_BUF) →
  clean_setup cenv → (∀ q : Q, bq_join q = None) →
  ∃ bytes reply i ptr c q,
    SubscriptionRequest_encode bootstrap_request = Ok bytes ∧
    (i < MAX_CONNECTION_SLOTS)%nat ∧
    (∀ j, (j < i)%nat → busy (ue_scan (ce_upsert env) 0) (cs_mgr s0) j) ∧
    ConnectionReadyShm_encode (ready_for cfg pid (cs_mgr s0) i) = Ok reply ∧
    (ce_sendmsg env = SysOk (zlen (fd_frame reply)) →
     se_recv cenv = RecvMsg (fd_frame reply) [mkCmsg ScmRights fd' []] →
     ∃ s1 cons,
       serve_frame env cfg bytes s0 = Some (Ok tt, s1) ∧
       sent (cs_writer s1) = sent (cs_writer s0) ++ fd_frame reply ∧
       cs_fds s1 = cs_fds s0 ++ [ce_pass_fd env (sink_wakeup (mc_sink c))] ∧
       setup_shm_consumer_with_metrics cenv m (mkWriter [] None) fds (shm (cs_mgr s1))
         = (Ok cons, mkWriter (frame_bytes bytes) None, fds ∪ {[fd']}) ∧
       mgr_ok (shm_dir cfg) pid (cs_mgr s1) ∧
       view (cs_mgr s1) i = Some (ptr, c, q) ∧ bq_data q = [] ∧
       c_inode (qc_ring cons) = p_inode (mc_ring c) ∧
       c_path (qc_ring cons) = p_path (mc_ring c) ∧
       consumer_slot_token (AQ:=AQ) cons = Some (slot_token c) ∧
       is_closed (qc_ring cons) (shm (cs_mgr s1)) = false).
Proof.
  intros Hok Ha Hn Hh Hfree Hfit Hsize Hfits Hclean Hjoin.
  destruct (subscription_encode_decode bootstrap_request Hfit) as (bytes & He & Ht & Hd).
  assert (decode_client_frame bytes = Ok (Subscription bootstrap_request)) as Hdec.
  { unfold decode_client_frame. rewrite Ht. cbn. by rewrite Hd. }
  destruct (serve_new_slot cfg pid env s0 bootstrap_request bytes Hok Ha Hn Hh Hfree
    ltac:(by intros ??? (? & ? & _)) Hdec)
    as (i & ptr & c & q & st1 & Hi & Hbusy & Hok1 & _ & Hv & Hq & Htok & Hpath & _ & _ & _ & Hserve).
  destruct (Hfits i Hi) as [Hf1 Hf2].
  destruct (ready_shm_encode_decode _ Hf1) as (reply & Hre & Hrt & Hrd).
  assert (zlen reply ≤ u32_max) as Hlen.
  { specialize (Hf2 _ Hre). unfold fd_frame in Hf2. rewrite zlen_app, zlen_u32_le in Hf2.
    unfold ANCILLARY_RECV_BUF, u32_max in *. lia. }
  cbn [ready_for rs_slot_token rs_ring_path rs_ring_capacity slot_index] in Hrd.
  rewrite !bool_decide_false in Hrd;
    [|destruct Hh; lia|apply conn_path_nonempty
     |unfold UNSET_SLOT_INDEX, u8_max, MAX_CONNECTION_SLOTS in *; lia].
  exists bytes, reply, i, ptr, c, q. split_and!; [done|done|done|done|].
  intros Hsend Hrecv.
  specialize (Hserve reply Hre Hlen Hsend).
  pose proof (ok_view _ _ _ _ _ _ _ Hok1 Hv) as Hc.
  pose proof Hv as (_ & _ & Hqueue)%view_Some.
  destruct (setup_with_reply (AQ:=AQ) cenv m fds (shm st1) (ready_for cfg pid (cs_mgr s0) i)
    reply fd'
    (p_inode (mc_ring c)) q Hclean Hfit Hsize) as (bytes' & cons & He' & Hsetup & Htk & H1 & H2 & H3 & H4).
  - unfold decode_server_frame. rewrite Hrt. cbn. by rewrite Hrd.
  - by apply Hf2.
  - done.
  - cbn [ready_for rs_ring_path]. rewrite <-Hpath. apply Hc.
  - done.
  - apply Hjoin.
  - rewrite He in He'. injection He' as <-.
    eexists _, cons. split; [exact Hserve|]. rewrite forward_mgr. cbn [cs_mgr].
    split_and!; try done.
    + unfold forward. by destruct (ce_forward env) as [[]|].
    + unfold forward. by destruct (ce_forward env) as [[]|].
    + rewrite H2. cbn. done.
    + rewrite Htk, Htok. cbn. by rewrite bool_decide_false
        by (unfold UNSET_SLOT_INDEX, u8_max, MAX_CONNECTION_SLOTS in *; lia).
    + unfold is_closed. rewrite H3, H2. cbn. rewrite <-Hpath, (co_file _ _ _ _ _ _ Hc). done.
Qed.

Definition demo_reply : list byte :=
  match @ConnectionReadyShm_encode Bincode.codecs
          (ready_for demo_cfg 7 (cs_mgr demo_conn) 0) with Ok b => b | _ => [] end.
Definition demo_serve_env : ConnEnv (Q:=list_queue) (B:=gset pubkey) (K:=sim_event) :=
  {| ce_upsert := Demo.env 1000; ce_fuel := 1; ce_sendmsg := SysOk (zlen (fd_frame demo_reply));
     ce_pass_fd _ := 5; ce_forward := None; ce_between st := st |}.
Definition demo_setup_env : SetupEnv :=
  {| se_connect := None; se_sockopt := SysOk 0; se_plat := Linux; se_fcntl _ := SysOk 0;
     se_recv := RecvMsg (fd_frame demo_reply) [mkCmsg ScmRights 9 []];
     se_open_err := None; se_meta := Some 448; se_debug _ := "" |}.

Lemma demo_empty j : ¬ busy (λ _, 1000) (cs_mgr demo_conn) j.
Proof.
  intros (p & c & q & Hv & _). apply view_Some in Hv as (_ & Hh & _).
  cbn in Hh. by rewrite lookup_empty in Hh.
Qed.

Lemma demo_fits i : (i < MAX_CONNECTION_SLOTS)%nat →
  @wincode_fits _ Bincode.codecs.(cc_ready_shm)
    (ConnectionReadyShm_wire (ready_for demo_cfg 7 (cs_mgr demo_conn) i)) ∧
  ∀ reply, @ConnectionReadyShm_encode Bincode.codecs (ready_for demo_cfg 7 (cs_mgr demo_conn) i)
      = Ok reply → zlen (fd_frame reply) ≤ ANCILLARY_RECV_BUF.
Proof.
  unfold MAX_CONNECTION_SLOTS. intros Hi.
  do 10 (destruct i as [|i];
    [split; [cbn; unfold Bincode.rs_fits, Bincode.head_fits; decide_now
            |intros reply [= <-]; vm_compute; discriminate]|]). lia.
Qed.

Lemma handshake_connects_witness :
  ∃ bytes s1 cons,
    @serve_frame _ list_byte_queue _ exact_bloom _ sim_event_kernel Bincode.codecs
      demo_serve_env demo_cfg bytes demo_conn = Some (Ok tt, s1) ∧
    @setup_shm_consumer_with_metrics _ list_byte_queue _ list_bounded_queue rle_lz4 Bincode.codecs
      demo_setup_env QlasterConsumerMetrics_new (mkWriter [] None) ∅ (shm (cs_mgr s1))
      = (Ok cons, mkWriter (frame_bytes bytes) None, ∅ ∪ {[9]}) ∧
    is_closed (qc_ring cons) (shm (cs_mgr s1)) = false.
Proof.
  destruct (@handshake_connects _ list_byte_queue list_byte_queue_laws _ exact_bloom _
    sim_event_kernel _ list_bounded_queue rle_lz4 Bincode.codecs Bincode.codecs_laws demo_cfg 7
    demo_serve_env demo_conn demo_setup_env QlasterConsumerMetrics_new ∅ 9)
    as (bytes & reply & i & ptr & c & q & H1 & Hi & Hb & H2 & H3).
  - apply manager_new_ok.
  - split; [apply (Demo.quiet_env 1000)|cbn; lia].
  - done.
  - apply (Demo.healthy_env 1000 256). lia.
  - exists 0%nat. split; [unfold MAX_CONNECTION_SLOTS; lia|apply demo_empty].
  - cbn. unfold Bincode.sub_fits, Bincode.head_fits. decide_now.
  - intros bytes [= <-]. vm_compute. discriminate.
  - apply demo_fits.
  - split_and!; [done|done|by eexists|by eexists].
  - done.
  - destruct i as [|i]; [|destruct (demo_empty 0); apply Hb; lia].
    assert (reply = demo_reply) as -> by (unfold demo_reply; by rewrite H2).
    destruct (H3 eq_refl eq_refl) as (s1 & cons & E1 & _ & _ & E2 & _ & _ & _ & _ & _ & _ & E3).
    exists bytes, s1, cons. split; [exact E1|]. split; [exact E2|exact E3].
Defined.

(** C1: What is dispatched is what arrives: for a subscriber with a live lease
    and enough room, any sequence of account, transaction and slot updates, mixed in
    any order, ends after one wakeup of the reader in its application queues as
    exactly the updates its filter wants, each in the queue of its kind, in order and
    equal to the one the sender was given (the newest 2048 of a kind if there are
    more). *)
Theorem subscribed_updates_arrive {Q} {BQ : ByteQueue Q} {BQL : ByteQueueLaws Q}
    {B} {BF : BloomFilter B} {K} {EK : EventKernel K} {EKL : EventKernelLaws K}
    {LZ : Lz4} {LZL : Lz4Laws} {CC : ControlCodecs}
    {AQ : Type → Type} {BoQ : BoundedQueue AQ} {BoQL : BoundedQueueLaws AQ}
    shm_dir pid evs (st : MState Q B K) m i ptr c q (s : RState AQ) times :
  mgr_ok shm_dir pid st → view st i = Some (ptr, c, q) → bq_data q = [] →
  Forall (λ e, Update_wf e.2 ∧ is_stale (de_now e.1 i) c = false) evs →
  room_needed (wanted (mc_filter c) evs) ≤ bq_capacity q →
  c_inode (rs_ring s) = p_inode (mc_ring c) → c_path (rs_ring s) = p_path (mc_ring c) →
  c_closed (rs_ring s) = false →
  roomy s →
  let us := wanted (mc_filter c) evs in
  ∃ s' shm' k', reader_round no_rely times (S (length us)) 0 s
      (shm (dispatch_updates evs st m).1) = Some (Asleep, s', shm', k') ∧
    aq_items (rs_updates s') = keep_last (aq_capacity (rs_updates s))
      (aq_items (rs_updates s) ++ omap event_account us) ∧
    aq_items (rs_transactions s') = keep_last (aq_capacity (rs_transactions s))
      (aq_items (rs_transactions s) ++ omap event_transaction us) ∧
    aq_items (rs_slots s') = keep_last (aq_capacity (rs_slots s))
      (aq_items (rs_slots s) ++ omap event_slot us).
Proof.
  intros Hok Hv Hd Hall Hroom Hino Hpath Hcl Hroomy us.
  destruct (dispatch_updates_stream shm_dir pid evs st m i ptr c q Hok Hv Hall)
    as (c' & q' & bs & Hv' & Hok' & (_ & _ & L3 & L4) & Hd' & Hw & Hs & _).
  { rewrite Hd, zlen_nil. lia. }
  rewrite Hd in Hd'. cbn [app] in Hd'.
  pose proof (co_file _ _ _ _ _ _ (ok_view _ _ _ _ _ _ _ Hok' Hv')) as Hfile.
  pose proof Hv' as (_ & _ & Hq')%view_Some. fold us in Hw.
  destruct (reader_round_alone times (S (length us)) 0 s
    (shm (dispatch_updates evs st m).1) q' bs)
    as (s' & shm' & k' & E & [Hu Ht Hsl _]);
    [|done|done|apply Forall2_length in Hw; lia|done|done|].
  { unfold ring_queue. by rewrite Hino, <-L3. }
  rewrite Hpath, <-L4, Hfile, bool_decide_false in E by done.
  destruct (carries_events bs us Hw) as (W1 & W2 & W3).
  exists s', shm', k'. split; [exact E|]. by rewrite Hu, Ht, Hsl, W1, W2, W3.
Qed.

Definition demo_events : list (DispatchEnv * Update) :=
  [(demo_dispatch, SlotEvent (mkSlotUpdate 9));
   (demo_dispatch, AccountEvent demo_account);
   (demo_dispatch, AccountEvent (sample_account (sample_key x02) (sample_key x09)));
   (demo_dispatch, TransactionEvent demo_tx);
   (demo_dispatch, SlotEvent (mkSlotUpdate 10))].

Lemma subscribed_updates_arrive_witness :
  ∃ (s : RState list_bq) s' shm' k', @reader_round _ list_byte_queue _ list_bounded_queue rle_lz4
      Bincode.codecs no_rely demo_times 4 0 s
      (shm (@dispatch_updates _ list_byte_queue _ exact_bloom _ sim_event_kernel rle_lz4
              demo_events Demo.one demo_metrics).1) = Some (Asleep, s', shm', k') ∧
    @aq_items _ list_bounded_queue _ (rs_updates s') = [demo_account] ∧
    @aq_items _ list_bounded_queue _ (rs_transactions s') = [] ∧
    @aq_items _ list_bounded_queue _ (rs_slots s') = [mkSlotUpdate 9; mkSlotUpdate 10].
Proof.
  destruct Demo.one_view as (ring & efd & q & Hv & Hd & Hp).
  pose proof (co_cap _ _ _ _ _ _ (ok_view _ _ _ _ _ _ _ Demo.one_ok Hv)) as Hcap.
  cbn in Hcap. rewrite Hp in Hcap.
  set (c := mkManaged 0 1 (from_request 0 Demo.request) (mkSink ring efd) 1000) in *.
  set (s := mkRState (mkConsumer (p_inode ring) 0 (p_path ring) false)
    (mkListBq 4 []) (mkListBq 4 []) (mkListBq 4 []) QlasterConsumerMetrics_new : RState list_bq).
  assert (wanted (mc_filter c) demo_events = [SlotEvent (mkSlotUpdate 9);
    AccountEvent demo_account; SlotEvent (mkSlotUpdate 10)]) as Hw by (vm_compute; reflexivity).
  destruct (@subscribed_updates_arrive _ list_byte_queue list_byte_queue_laws _ exact_bloom _
    sim_event_kernel sim_event_laws rle_lz4 rle_lz4_laws Bincode.codecs _ list_bounded_queue
    list_bounded_queue_laws Demo.dir 7 demo_events Demo.one demo_metrics 0 0 c q s demo_times)
    as (s' & shm' & k' & E & Hu & Ht & Hs).
  - apply Demo.one_ok.
  - exact Hv.
  - exact Hd.
  - repeat constructor; try decide_now; vm_compute; reflexivity.
  - change (bq_capacity q) with (lq_cap q). rewrite <-Hcap, Hw. vm_compute. discriminate.
  - reflexivity.
  - reflexivity.
  - reflexivity.
  - vm_compute. lia.
  - rewrite Hw in E, Hu, Ht, Hs. exists s, s', shm', k'. split; [exact E|].
    split; [exact Hu|]. split; [exact Ht|exact Hs].
Defined.

(** C17: Room in the default configuration: a ring of the default capacity of 64 MiB
    takes any six updates, of any kind and of any legal size, between two visits of its
    reader: whatever sequence is dispatched, a live subscriber that wants at most six of
    them is not disconnected, and its ring stays within its capacity. *)
Theorem default_ring_holds_six {Q} {BQ : ByteQueue Q} {BQL : ByteQueueLaws Q}
    {B} {BF : BloomFilter B} {K} {EK : EventKernel K} {EKL : EventKernelLaws K}
    {LZ : Lz4} {LZL : Lz4Laws} {CC : ControlCodecs}
    plat temp_dir pid uds evs (st : MState Q B K) m i ptr c q :
  let cfg := config_defaults plat temp_dir pid uds in
  mgr_ok (shm_dir cfg) pid st → view st i = Some (ptr, c, q) → bq_data q = [] →
  p_capacity (mc_ring c) = next_power_of_two (ring_capacity_bytes cfg) →
  Forall (λ e, Update_wf e.2 ∧ is_stale (de_now e.1 i) c = false) evs →
  (length (wanted (mc_filter c) evs) ≤ 6)%nat →
  ∃ c' q', view (dispatch_updates evs st m).1 i = Some (ptr, c', q') ∧ same_lease c c' ∧
    zlen (bq_data q') ≤ room_needed (wanted (mc_filter c) evs) ≤ DEFAULT_SHM_RING_CAPACITY.
Proof.
  intros cfg Hok Hv Hd Hcap Hall Hsix.
  assert (Forall (λ e, Update_wf e.2) evs) as Hwf by (eapply Forall_impl; [exact Hall|naive_solver]).
  pose proof (room_needed_count _ 6 (wanted_wf (mc_filter c) evs Hwf) Hsix) as Hroom.
  assert (room_needed (wanted (mc_filter c) evs) ≤ DEFAULT_SHM_RING_CAPACITY) as Hfit.
  { etrans; [exact Hroom|]. vm_compute. discriminate. }
  pose proof (co_cap _ _ _ _ _ _ (ok_view _ _ _ _ _ _ _ Hok Hv)) as Hc. rewrite Hcap in Hc.
  pose proof (next_power_of_two_ge (ring_capacity_bytes cfg)) as Hge.
  change (ring_capacity_bytes cfg) with DEFAULT_SHM_RING_CAPACITY in *.
  destruct (dispatch_updates_stream (shm_dir cfg) pid evs st m i ptr c q Hok Hv Hall)
    as (c' & q' & bs & Hv' & _ & Hl & Hd' & _ & _ & Hz).
  { rewrite Hd, zlen_nil. lia. }
  exists c', q'. split_and!; [done|done| |done]. by rewrite Hd', Hd.
Qed.

(** A subscriber in a ring of the default capacity. *)
Definition demo_default : Demo.State :=
  Demo.started "/dev/shm/qlaster-7" DEFAULT_SHM_RING_CAPACITY.

Lemma default_ring_holds_six_witness :
  ∃ ptr c' q', view (@dispatch_updates _ list_byte_queue _ exact_bloom _ sim_event_kernel rle_lz4
      demo_events demo_default demo_metrics).1 0 = Some (ptr, c', q') ∧
    zlen (bq_data q') ≤ DEFAULT_SHM_RING_CAPACITY.
Proof.
  destruct (Demo.started_view "/dev/shm/qlaster-7" DEFAULT_SHM_RING_CAPACITY)
    as (Hok & ring & efd & q & Hv & Hd & Hp); [unfold DEFAULT_SHM_RING_CAPACITY; lia|].
  destruct (@default_ring_holds_six _ list_byte_queue list_byte_queue_laws _ exact_bloom _
    sim_event_kernel sim_event_laws rle_lz4 rle_lz4_laws Bincode.codecs Linux "/tmp" 7
    "/run/q.sock" demo_events demo_default demo_metrics 0 0
    (mkManaged 0 1 (from_request 0 Demo.request) (mkSink ring efd) 1000) q)
    as (c' & q' & H1 & _ & H2).
  - exact Hok.
  - exact Hv.
  - exact Hd.
  - exact Hp.
  - repeat constructor; try decide_now; vm_compute; reflexivity.
  - apply Nat.leb_le. vm_compute. reflexivity.
  - exists 0%nat, c', q'. split; [exact H1|lia].
Defined.
