(* ===== verification/Wakeup.v ===== *)
(** * Wakeup protocol: sender tasks and reader task interleaved

    [SlotSink::try_push] and [SlotSink::close] ([src/src/transport.rs]) write
    to the ring and then notify; an eviction then empties the slot and, with the
    last reference, unlinks the ring file; [run_reader]
    ([src/src/consumer/shm.rs]) drains, checks for the close and sleeps.  Here each
    of those accesses is one step, any number of sender tasks may be between their
    two steps, several of them may close the same connection, and the ring is the FIFO
    it was proved to be ([Ring]).  A notification adds to the counter of the eventfd or
    finds it full, as its manual page says of a valid descriptor ([EventFd.v]). *)

From stdpp Require Import prelude relations.
From Stdlib Require Import Strings.Byte.
From S2P Require Import Prelude Errors Ring.

(** Where the reader task is. *)
Inductive rpc := Draining | Checking | Sleeping | Finished.
(** How far the eviction of this consumer got: whether some task has closed the sink,
    after which its compare-and-swap may empty the slot, and whether the last reference
    is gone. *)
Inductive epc := Installed | Notified | Unlinked.

#[export] Instance rpc_eq_dec : EqDecision rpc.
Proof. solve_decision. Defined.
#[export] Instance epc_eq_dec : EqDecision epc.
Proof. solve_decision. Defined.

Record WState := mkWState {
  w_ring : Fifo;
  w_count : Z;          (** the eventfd counter *)
  w_unnotified : nat;   (** pushes that have written and not yet notified *)
  w_closing : nat;      (** closes that have tried the sentinel and not yet notified *)
  w_evict : epc;
  w_reader : rpc;
}.

Definition file_exists (w : WState) : bool := negb (bool_decide (w_evict w = Unlinked)).

Definition bump_count (n : Z) : Z := Z.min (n + 1) (u64_max - 1).

(** Sender tasks.  A push to an evicted connection, or another close of it, is still
    possible: a task may hold the connection it loaded before the slot was emptied.  The
    file goes with the last reference, so no task is then between its two steps. *)
Inductive sender_step : WState → WState → Prop :=
| s_push parts w f' :
    w_evict w ≠ Unlinked → fifo_step (Push parts) (w_ring w) = (Pushed, f') →
    sender_step w (mkWState f' (w_count w) (S (w_unnotified w)) (w_closing w) (w_evict w)
                     (w_reader w))
| s_push_refused parts e w f' :
    w_evict w ≠ Unlinked → fifo_step (Push parts) (w_ring w) = (Refused e, f') →
    sender_step w (mkWState f' (w_count w) (w_unnotified w) (w_closing w) (w_evict w)
                     (w_reader w))
| s_notify n w :
    w_unnotified w = S n →
    sender_step w (mkWState (w_ring w) (bump_count (w_count w)) n (w_closing w) (w_evict w)
                     (w_reader w))
| s_close_write w f' :
    w_evict w ≠ Unlinked → fifo_step CloseRing (w_ring w) = (ClosedRing, f') →
    sender_step w (mkWState f' (w_count w) (w_unnotified w) (S (w_closing w)) (w_evict w)
                     (w_reader w))
| s_close_notify n w :
    w_closing w = S n →
    sender_step w (mkWState (w_ring w) (bump_count (w_count w)) (w_unnotified w) n Notified
                     (w_reader w))
| s_unlink w :
    w_evict w = Notified → w_unnotified w = 0%nat → w_closing w = 0%nat →
    sender_step w (mkWState (w_ring w) (w_count w) 0 0 Unlinked (w_reader w)).

(** The reader task. *)
Inductive reader_step : WState → WState → Prop :=
| r_pop m w f' :
    w_reader w = Draining → fifo_step Pop (w_ring w) = (Popped (Some m), f') →
    reader_step w (mkWState f' (w_count w) (w_unnotified w) (w_closing w) (w_evict w) Draining)
| r_empty w f' :
    w_reader w = Draining → fifo_step Pop (w_ring w) = (Popped None, f') →
    reader_step w (mkWState f' (w_count w) (w_unnotified w) (w_closing w) (w_evict w) Checking)
| r_closed w :
    w_reader w = Checking → seen_close (w_ring w) = true ∨ file_exists w = false →
    reader_step w (mkWState (w_ring w) (w_count w) (w_unnotified w) (w_closing w) (w_evict w) Finished)
| r_sleep w :
    w_reader w = Checking → seen_close (w_ring w) = false → file_exists w = true →
    reader_step w (mkWState (w_ring w) (w_count w) (w_unnotified w) (w_closing w) (w_evict w) Sleeping)
| r_wake w :
    w_reader w = Sleeping → 0 < w_count w →
    reader_step w (mkWState (w_ring w) 0 (w_unnotified w) (w_closing w) (w_evict w) Draining).

Definition wstep (w w' : WState) : Prop := sender_step w w' ∨ reader_step w w'.

Definition w_init (cap : Z) : WState := mkWState (mkFifo [] cap 0 false) 0 0 0 Installed Draining.

(** ** The invariant

    A reader that has stopped draining while the ring is not empty has a wakeup
    in the counter or on its way. *)
Definition no_lost_wakeup (w : WState) : Prop :=
  0 ≤ w_count w ∧ (w_reader w = Sleeping → seen_close (w_ring w) = false) ∧
  (w_reader w = Checking ∨ w_reader w = Sleeping → seen_close (w_ring w) = false →
   entries (w_ring w) ≠ [] →
   0 < w_count w ∨ (0 < w_unnotified w)%nat ∨ (0 < w_closing w)%nat).

Lemma bump_count_pos n : 0 ≤ n → 0 < bump_count n.
Proof. unfold bump_count, u64_max. lia. Qed.

Lemma push_seen_close parts f : seen_close (fifo_step (Push parts) f).2 = seen_close f.
Proof. cbn. by repeat case_bool_decide. Qed.

Lemma push_refused_entries parts f e f' :
  fifo_step (Push parts) f = (Refused e, f') → entries f' = entries f.
Proof. cbn. repeat case_bool_decide; intros [= <- <-]; done. Qed.

Lemma pop_empty_spec f f' :
  fifo_step Pop f = (Popped None, f') →
  (entries f = [] ∧ f' = f) ∨ seen_close f' = true.
Proof.
  destruct f as [[|[b|] es] lim n sc]; cbn; intros [= <-]; [by left|by right].
Qed.

Lemma close_seen_close f : seen_close (fifo_step CloseRing f).2 = seen_close f.
Proof. cbn. by case_bool_decide. Qed.

Lemma sender_step_inv w w' : no_lost_wakeup w → sender_step w w' → no_lost_wakeup w'.
Proof.
  intros (H0 & Hs & H) Hstep.
  destruct Hstep as [parts w f' _ E|parts e w f' _ E|n w E|w f' _ E|n w E|w E1 E2 E3].
  - pose proof (push_seen_close parts (w_ring w)) as Hsc. rewrite E in Hsc. cbn in Hsc.
    split_and!; cbn; [done|by rewrite Hsc|]. intros _ _ _. right. left. lia.
  - pose proof (push_seen_close parts (w_ring w)) as Hsc. rewrite E in Hsc. cbn in Hsc.
    split_and!; cbn; [done|by rewrite Hsc|].
    rewrite Hsc, (push_refused_entries _ _ _ _ E). exact H.
  - pose proof (bump_count_pos (w_count w) H0). split_and!; cbn; [lia|done|]. auto.
  - pose proof (close_seen_close (w_ring w)) as Hsc. rewrite E in Hsc. cbn in Hsc.
    split_and!; cbn; [done|by rewrite Hsc|]. intros _ _ _. right. right. lia.
  - pose proof (bump_count_pos (w_count w) H0). split_and!; cbn; [lia|done|]. auto.
  - split_and!; cbn; [done|done|]. intros Hr Hc Hne.
    destruct (H Hr Hc Hne) as [?|[?|?]]; [by left|lia|lia].
Qed.

Lemma reader_step_inv w w' : no_lost_wakeup w → reader_step w w' → no_lost_wakeup w'.
Proof.
  intros (H0 & Hs & H) Hstep.
  destruct Hstep as [m w f' E1 E2|w f' E1 E2|w E1 E2|w E1 E2 E3|w E1 E2];
    split_and!; cbn; try done; try (by intros [?|?]).
  - intros _ Hc Hne. destruct (pop_empty_spec _ _ E2) as [[He ->]|]; congruence.
  - intros _ Hc Hne. apply H; [by left|done|done].
Qed.

Lemma wstep_inv cap w : rtc wstep (w_init cap) w → no_lost_wakeup w.
Proof.
  intros Hr. assert (no_lost_wakeup (w_init cap)) as Hi by (split_and!; [done|done|by intros [?|?]]).
  revert Hi. induction Hr as [|w1 w2 w3 [Hs|Hs] _ IH]; [done|..]; intros Hi; apply IH.
  - by eapply sender_step_inv.
  - by eapply reader_step_inv.
Qed.

(** Once the file is gone no task is inside a push or a close. *)
Definition unlinked_idle (w : WState) : Prop :=
  w_evict w = Unlinked → w_unnotified w = 0%nat ∧ w_closing w = 0%nat.

Lemma wstep_idle cap w : rtc wstep (w_init cap) w → unlinked_idle w.
Proof.
  intros Hr. assert (unlinked_idle (w_init cap)) as Hi by done. revert Hi.
  induction Hr as [|w1 w2 w3 Hs _ IH]; [done|]. intros Hi. apply IH. clear IH.
  destruct Hs as [Hs|Hs]; destruct Hs; intros Hu; cbn in *; try done; try (by apply Hi).
  destruct (Hi Hu) as [Hu' _]. congruence.
Qed.

Lemma reader_progress w :
  no_lost_wakeup w → entries (w_ring w) ≠ [] ∨ seen_close (w_ring w) = true →
  w_unnotified w = 0%nat → w_closing w = 0%nat → w_reader w ≠ Finished →
  ∃ w', reader_step w w'.
Proof.
  intros (_ & Hs & H) Hne Hn He Hf. destruct (w_reader w) eqn:Ew; [| | |done].
  - destruct (fifo_step Pop (w_ring w)) as [o f'] eqn:E.
    assert (∃ m, o = Popped m) as [[m|] ->].
    { destruct (w_ring w) as [[|[b|] es] lim n sc]; cbn in E; injection E as <- <-; eauto. }
    + eexists. by eapply r_pop.
    + eexists. by eapply r_empty.
  - destruct (seen_close (w_ring w)) eqn:Es.
    + eexists. apply r_closed; [done|by left].
    + destruct (file_exists w) eqn:Ef; eexists; [by apply r_sleep|by apply r_closed; [|right]].
  - destruct Hne as [Hne|Hsc]; [|by rewrite (Hs eq_refl) in Hsc].
    destruct (H ltac:(by right) (Hs eq_refl) Hne) as [Hc|[Hc|Hc]]; [|lia|lia].
    eexists. by apply r_wake.
Qed.

(** ** After an eviction

    Only the reader moves, and every one of its steps makes this smaller. *)
Definition rank (r : rpc) : nat :=
  match r with Sleeping => 3 | Draining => 2 | Checking => 1 | Finished => 0 end.
Definition measure (w : WState) : nat := 4 * length (entries (w_ring w)) + rank (w_reader w).

(** The close is in the ring or has been read. *)
Definition close_pending (w : WState) : Prop :=
  Closed ∈ entries (w_ring w) ∨ seen_close (w_ring w) = true.

Definition evicted_state (w : WState) : Prop :=
  no_lost_wakeup w ∧ w_evict w = Unlinked ∧ w_unnotified w = 0%nat ∧ w_closing w = 0%nat ∧
  close_pending w.

Lemma pop_Some_spec f m f' :
  fifo_step Pop f = (Popped (Some m), f') →
  entries f = Frame m :: entries f' ∧ seen_close f' = seen_close f.
Proof. destruct f as [[|[b|] es] lim n sc]; cbn; intros [= <- <-]; done. Qed.

Lemma pop_None_length f f' :
  fifo_step Pop f = (Popped None, f') →
  (length (entries f') ≤ length (entries f))%nat ∧ (seen_close f = true → seen_close f' = true).
Proof. destruct f as [[|[b|] es] lim n sc]; cbn; intros [= <-]; cbn; auto. Qed.

Lemma evicted_step w w' :
  evicted_state w → reader_step w w' → evicted_state w' ∧ (measure w' < measure w)%nat.
Proof.
  intros (Hi & He & Hn & Hcl & Hc) Hs. pose proof (reader_step_inv _ _ Hi Hs) as Hi'.
  unfold evicted_state, measure, close_pending in *.
  destruct Hs as [m w f' E1 E2|w f' E1 E2|w E1 E2|w E1 E2 E3|w E1 E2]; cbn in *.
  - destruct (pop_Some_spec _ _ _ E2) as [Hen Hsc]. rewrite Hen, E1 in *. cbn [length rank].
    split_and!; [done|done|done|done| |lia]. rewrite Hsc. destruct Hc as [Hc|]; [|by right].
    left. by apply elem_of_cons in Hc as [?|?].
  - destruct (pop_None_length _ _ E2) as [Hl Hsc]. rewrite E1. cbn [rank].
    split_and!; [done|done|done|done| |lia].
    destruct (pop_empty_spec _ _ E2) as [[Hnil ->]|?]; [|by right]. done.
  - rewrite E1. cbn [rank]. split_and!; [done|done|done|done|done|lia].
  - exfalso. unfold file_exists in E3. by rewrite He in E3.
  - rewrite E1. cbn [rank]. split_and!; [done|done|done|done|done|lia].
Qed.

Lemma evicted_run w n w' :
  evicted_state w → nsteps reader_step n w w' → evicted_state w' ∧ (n + measure w' ≤ measure w)%nat.
Proof.
  intros He Hr. revert He. induction Hr as [|n w1 w2 w3 Hs _ IH]; intros He; [split; [done|lia]|].
  destruct (evicted_step _ _ He Hs) as [He2 Hlt]. destruct (IH He2). split; [done|lia].
Qed.

(** ** Properties *)

(** C4: No lost wakeup: in every interleaving of any number of sender tasks with
    the reader, whenever a message (or the close sentinel) is in the ring and every
    sender task has finished the notification it owes, the reader either is running
    or can be woken; a message is never left behind by a sleeping reader. *)
Theorem reader_never_misses_a_message cap w :
  rtc wstep (w_init cap) w →
  entries (w_ring w) ≠ [] → w_unnotified w = 0%nat → w_closing w = 0%nat →
  w_reader w ≠ Finished →
  ∃ w', reader_step w w'.
Proof.
  intros Hr Hne Hn He Hf. apply reader_progress; [by eapply wstep_inv|by left|done..].
Qed.

Lemma reader_never_misses_a_message_witness :
  ∃ w', reader_step (mkWState (mkFifo [Frame [x01]] 64 0 false) 1 0 0 Installed Sleeping) w'.
Proof.
  apply (reader_never_misses_a_message 64); [|discriminate|reflexivity|reflexivity|discriminate].
  eapply rtc_l; [right; eapply r_empty; reflexivity|].
  eapply rtc_l; [right; eapply r_sleep; reflexivity|].
  eapply rtc_l; [left; eapply (s_push [[x01]]); [discriminate|vm_compute; reflexivity]|].
  eapply rtc_l; [left; eapply s_notify; reflexivity|].
  vm_compute. apply rtc_refl.
Defined.

(** C20: A consumer evicted with room for the sentinel always ends: once the
    eviction is complete, every run of its reader is bounded by the number of
    messages left and stops only when the reader has finished. *)
Theorem evicted_reader_terminates cap w n w' :
  rtc wstep (w_init cap) w → w_evict w = Unlinked → close_pending w →
  nsteps reader_step n w w' →
  (n ≤ measure w)%nat ∧ ((∀ w'', ¬ reader_step w' w'') → w_reader w' = Finished).
Proof.
  intros Hr He Hc Hs. destruct (wstep_idle _ _ Hr He) as [Hn Hcl].
  destruct (evicted_run w n w') as [(Hi' & He' & Hn' & Hcl' & Hc') Hm];
    [split_and!; [by eapply wstep_inv|done..]|done|].
  split; [lia|]. intros Hstuck. apply dec_stable. intros Hf.
  destruct (reader_progress w' Hi') as [w'' Hw]; [|done|done|done|by eapply Hstuck].
  destruct Hc' as [Hc'|]; [|by right]. left. by intros Heq; rewrite Heq in Hc'; inversion Hc'.
Qed.

(** An evicted consumer with one message and the sentinel to read. *)
Definition demo_evicted : WState :=
  mkWState (mkFifo [Frame [x01]; Closed] 64 0 false) 2 0 0 Unlinked Sleeping.
(** The same after the reader has run. *)
Definition demo_ended : WState :=
  mkWState (mkFifo [] 64 0 true) 0 0 0 Unlinked Finished.

Lemma demo_evicted_reached : rtc wstep (w_init 64) demo_evicted.
Proof.
  eapply rtc_l; [right; eapply r_empty; reflexivity|].
  eapply rtc_l; [right; eapply r_sleep; reflexivity|].
  eapply rtc_l; [left; eapply (s_push [[x01]]); [discriminate|vm_compute; reflexivity]|].
  eapply rtc_l; [left; eapply s_notify; reflexivity|].
  eapply rtc_l; [left; eapply s_close_write; [discriminate|vm_compute; reflexivity]|].
  eapply rtc_l; [left; eapply s_close_notify; reflexivity|].
  eapply rtc_l; [left; eapply s_unlink; reflexivity|].
  vm_compute. apply rtc_refl.
Qed.

Lemma demo_evicted_run : nsteps reader_step 4 demo_evicted demo_ended.
Proof.
  eapply nsteps_l; [eapply r_wake; reflexivity|].
  eapply nsteps_l; [eapply (r_pop [x01]); reflexivity|].
  eapply nsteps_l; [eapply r_empty; reflexivity|].
  eapply nsteps_l; [eapply r_closed; [reflexivity|by left]|]. apply nsteps_O.
Qed.

Lemma evicted_reader_terminates_witness :
  (4 ≤ measure demo_evicted)%nat ∧
  ((∀ w'', ¬ reader_step demo_ended w'') → w_reader demo_ended = Finished).
Proof.
  apply (evicted_reader_terminates 64 demo_evicted 4 demo_ended);
    [apply demo_evicted_reached|reflexivity| |apply demo_evicted_run].
  left. right. left.
Defined.

(** C21: A slow consumer can be left asleep forever: if the ring is full when the
    sender evicts it, the sentinel is dropped; the reader may then drain everything
    and go back to sleep between the sender's notification and the removal of the
    ring file, after which nothing wakes it and no step of the system is possible. *)
Theorem evicted_reader_can_hang :
  ∃ w, rtc wstep (w_init 64) w ∧ w_evict w = Unlinked ∧ w_reader w = Sleeping ∧
    entries (w_ring w) = [] ∧ ∀ w', ¬ wstep w w'.
Proof.
  set (b := replicate 60 x00). set (full n := mkFifo [Frame b] 64 n false).
  set (none := mkFifo [] 64 1 false).
  exists (mkWState none 0 0 0 Unlinked Sleeping). split_and!; [|done|done|done|].
  - assert (fifo_step (Push [b]) (mkFifo [] 64 0 false) = (Pushed, full 0)) as E1
      by (vm_compute; reflexivity).
    assert (fifo_step (Push [[x01]]) (full 0) = (Refused ShmFull, full 1)) as E2
      by (vm_compute; reflexivity).
    assert (fifo_step CloseRing (full 1) = (ClosedRing, full 1)) as E3
      by (vm_compute; reflexivity).
    assert (fifo_step Pop (full 1) = (Popped (Some b), none)) as E4 by reflexivity.
    assert (fifo_step Pop none = (Popped None, none)) as E5 by reflexivity.
    clearbody b full.
    apply (rtc_l _ _ (mkWState (full 0) 0 1 0 Installed Draining)).
    { left. by apply (s_push _ (w_init 64)) in E1. }
    apply (rtc_l _ _ (mkWState (full 0) 1 0 0 Installed Draining)).
    { left. by apply (s_notify 0 (mkWState (full 0) 0 1 0 Installed Draining)). }
    apply (rtc_l _ _ (mkWState (full 1) 1 0 0 Installed Draining)).
    { left. by apply (s_push_refused _ _ (mkWState (full 0) 1 0 0 Installed Draining)) in E2. }
    apply (rtc_l _ _ (mkWState (full 1) 1 0 1 Installed Draining)).
    { left. by apply (s_close_write (mkWState (full 1) 1 0 0 Installed Draining)) in E3. }
    apply (rtc_l _ _ (mkWState (full 1) 2 0 0 Notified Draining)).
    { left. by apply (s_close_notify 0 (mkWState (full 1) 1 0 1 Installed Draining)). }
    apply (rtc_l _ _ (mkWState none 2 0 0 Notified Draining)).
    { right. by apply (r_pop _ (mkWState (full 1) 2 0 0 Notified Draining)) in E4. }
    apply (rtc_l _ _ (mkWState none 2 0 0 Notified Checking)).
    { right. by apply (r_empty (mkWState none 2 0 0 Notified Draining)). }
    apply (rtc_l _ _ (mkWState none 2 0 0 Notified Sleeping)).
    { right. by apply (r_sleep (mkWState none 2 0 0 Notified Checking)). }
    apply (rtc_l _ _ (mkWState none 0 0 0 Notified Draining)).
    { right. by apply (r_wake (mkWState none 2 0 0 Notified Sleeping)). }
    apply (rtc_l _ _ (mkWState none 0 0 0 Notified Checking)).
    { right. by apply (r_empty (mkWState none 0 0 0 Notified Draining)). }
    apply (rtc_l _ _ (mkWState none 0 0 0 Notified Sleeping)).
    { right. by apply (r_sleep (mkWState none 0 0 0 Notified Checking)). }
    apply rtc_once. left. by apply (s_unlink (mkWState none 0 0 0 Notified Sleeping)).
  - intros w' [H|H]; inversion H; subst; cbn in *; try discriminate; try done.
Qed.

