(* ===== verification/ControlPlane.v ===== *)
(** * Control requests across the socket

    What a consumer that already has a slot and the sender make of each other's
    control frames: a re-subscription and a ping with a live token, and a
    re-subscription whose slot has been taken away. *)

From stdpp Require Import prelude gmap strings.
From Stdlib Require Import Strings.Byte.
From S2P Require Import Prelude Errors WireCodec DataFrames ControlFrames Wire Uds Metrics EventFd.
From S2P Require Import Ring Transport Filter Manager ManagerInv ManagerSpec SenderShm Consumer EndToEnd.

Section exchange.
Context {Q : Type} {BQ : ByteQueue Q} {BQL : ByteQueueLaws Q}.
Context {B : Type} {BF : BloomFilter B}.
Context {K : Type} {EK : EventKernel K}.
Context {AQ : Type → Type} {BoQ : BoundedQueue AQ}.
Context {LZ : Lz4} {CC : ControlCodecs} {CCL : ControlCodecsLaws}.
Implicit Types (cons : QlasterShmConsumer AQ).

(** The request [subscribe] sends. *)
Definition resubscription cons (pks owners : list (list byte)) : SubscriptionRequest :=
  with_slot_token (SubscriptionRequest_new pks owners) (consumer_slot_token cons).

Lemma consumer_token_set cons t :
  consumer_slot_token cons = Some t → slot_index t ≠ UNSET_SLOT_INDEX ∧ set_token cons t = cons.
Proof.
  unfold consumer_slot_token. case_bool_decide as H; [done|]. intros [= <-].
  split; [done|]. by destruct cons.
Qed.

(** A subscription with a token travels as it is. *)
Lemma resubscription_travels cons pks owners t :
  consumer_slot_token cons = Some t →
  wincode_fits (SubscriptionRequest_wire (resubscription cons pks owners)) →
  ∃ bytes, SubscriptionRequest_encode (resubscription cons pks owners) = Ok bytes ∧
    decode_client_frame bytes = Ok (Subscription (resubscription cons pks owners)).
Proof.
  intros Ht Hfit. destruct (subscription_encode_decode _ Hfit) as (bytes & He & Htag & Hd).
  exists bytes. split; [done|]. unfold decode_client_frame. rewrite Htag. cbn.
  rewrite Hd. cbn. unfold resubscription. rewrite Ht. cbn.
  destruct (consumer_token_set _ _ Ht) as [Hi _]. by rewrite bool_decide_true, bool_decide_false.
Qed.

(** The consumer's side of the exchange: the request goes out and the next frame on
    the socket decides. *)
Lemma subscribe_exchange cons pks owners bytes out reply rest rf f :
  SubscriptionRequest_encode (resubscription cons pks owners) = Ok bytes →
  zlen bytes ≤ u32_max → zlen reply ≤ MAX_FRAME_SIZE →
  decode_server_frame_owned reply = Ok f →
  subscribe cons pks owners (mkWriter out None) (mkReader (frame_bytes reply ++ rest) rf) =
    (match f with
     | SF_ConnectionReady r => (Ok tt, set_token cons (ready_slot_token r))
     | SF_ConnectionReadyShm _ =>
         (Err (UdsError "unexpected ConnectionReadyShm on re-subscribe"), cons)
     | SF_AccountUpdate _ => (Err (UdsError "AccountUpdate on UDS control channel"), cons)
     | SF_TransactionUpdate _ => (Err (UdsError "TransactionUpdate on UDS control channel"), cons)
     | SF_SlotUpdate _ => (Err (UdsError "SlotUpdate on UDS control channel"), cons)
     end, mkWriter (out ++ frame_bytes bytes) None, mkReader rest rf).
Proof.
  intros He Hb Hr Hd. unfold subscribe, send_subscription. fold (resubscription cons pks owners).
  rewrite He, write_framed_healthy by done. rewrite read_framed_frame by done.
  rewrite Hd. by destruct f.
Qed.

(** The sender's side for a live token. *)
Lemma serve_live cfg pid (env : ConnEnv (Q:=Q) (B:=B) (K:=K)) s0 request bytes reply ptr c q out :
  mgr_ok (shm_dir cfg) pid (cs_mgr s0) → cs_writer s0 = mkWriter out None →
  live_token (ue_seen (ce_upsert env)) (req_slot_token request) (cs_mgr s0) ptr c q →
  decode_client_frame bytes = Ok (Subscription request) →
  ConnectionReady_encode (mkConnectionReady (slot_token c)) = Ok reply →
  zlen reply ≤ u32_max →
  ∃ st', serve_frame env cfg bytes s0
      = Some (Ok tt, forward env request
          (mkConnState st' (mkWriter (out ++ frame_bytes reply) None) (cs_fds s0)
             (cs_forwarded s0))) ∧
    local (shm_dir cfg) pid (cs_mgr s0) st' (mc_slot_index c)
      (Some (ptr, upsert_existing (ce_upsert env) request c, q)).
Proof.
  intros Hok Hw Hl Hd He Hr.
  destruct (upsert_existing_spec _ _ (ce_upsert env) request (ring_capacity_bytes cfg)
    (ce_fuel env) (cs_mgr s0) ptr c q Hok Hl) as (st' & E & L).
  exists st'. split; [|done]. unfold serve_frame. rewrite Hd, E, He. cbn [cs_writer].
  by rewrite Hw, write_framed_healthy.
Qed.

(** A consumer's token is that of the connection it designates. *)
Lemma live_slot_token shm_dir pid now t (st : MState Q B K) ptr c q :
  mgr_ok shm_dir pid st → live_token now (Some t) st ptr c q → is_u8 (slot_index t) →
  slot_token c = t.
Proof.
  intros Hok (t' & [= <-] & Hv & Hg & _) Hu. destruct t as [i g]. unfold slot_token. cbn in *.
  pose proof Hv as (Hlt & _)%view_Some. apply load_lt in Hlt.
  rewrite (co_index _ _ _ _ _ _ (ok_view _ _ _ _ _ _ _ Hok Hv)), Hg.
  rewrite (ok_len _ _ _ Hok) in Hlt. unfold MAX_CONNECTION_SLOTS in Hlt.
  rewrite Z.mod_small by lia. rewrite Z2Nat.id; [done|apply Hu].
Qed.
End exchange.

(** ** Retrying a subscription *)
Section retry.
Context {Q : Type} {BQ : ByteQueue Q} {BQL : ByteQueueLaws Q}.
Context {B : Type} {BF : BloomFilter B}.
Context {K : Type} {EK : EventKernel K}.
Context (shm_dir : string) (pid cap : Z) (request : SubscriptionRequest).
Context (envs : nat → UpsertEnv (Q:=Q) (B:=B) (K:=K)).

(** Up to [n] subscriptions with the same request, until one is refused: how many
    were granted, and the refusal. *)
Fixpoint retry (n k : nat) (st : MState Q B K) : option (nat * QlasterError * MState Q B K) :=
  match n with
  | O => None
  | S n =>
      match upsert_shm (envs k) request shm_dir cap 1 st with
      | Some (Ok _, st) =>
          match retry n (S k) st with
          | Some (granted, e, st) => Some (S granted, e, st)
          | None => None
          end
      | Some (Err e, st) => Some (O, e, st)
      | _ => None
      end
  end.

Definition occupied (st : MState Q B K) : nat :=
  length (filter (λ i, is_Some (view st i)) (seq 0 MAX_CONNECTION_SLOTS)).

(** Every connection was heard from at time [T] or later. *)
Definition leased_since (T : Z) (st : MState Q B K) : Prop :=
  ∀ i ptr c q, view st i = Some (ptr, c, q) → T ≤ last_seen_ms c.

(** The clocks of one attempt lie within a lease of [T]. *)
Definition within_lease (T : Z) (env : UpsertEnv (Q:=Q) (B:=B) (K:=K)) : Prop :=
  ue_seen env ≤ T + SLOT_IDLE_TIMEOUT_ms ∧
  (∀ n i, ue_scan env n i ≤ T + SLOT_IDLE_TIMEOUT_ms) ∧ ∀ n, T ≤ ue_installed env n.

Lemma leased_fresh T st i ptr c q now :
  leased_since T st → view st i = Some (ptr, c, q) → now ≤ T + SLOT_IDLE_TIMEOUT_ms →
  is_stale now c = false.
Proof.
  intros Hl Hv Hn. specialize (Hl _ _ _ _ Hv). unfold is_stale, saturating_sub.
  apply bool_decide_false. unfold SLOT_IDLE_TIMEOUT_ms in *. lia.
Qed.

Lemma filter_same {A} (P P' : A → Prop) `{∀ x, Decision (P x)} `{∀ x, Decision (P' x)}
    (l : list A) :
  (∀ x, x ∈ l → P' x ↔ P x) → filter P' l = filter P l.
Proof.
  induction l as [|x l IH]; intros Hs; [done|]. rewrite !filter_cons, IH by set_solver.
  assert (P' x ↔ P x) as Hx by (apply Hs; set_solver).
  by destruct (decide (P' x)), (decide (P x)); tauto.
Qed.

Lemma filter_grows {A} (P P' : A → Prop) `{∀ x, Decision (P x)}
    `{∀ x, Decision (P' x)} (l : list A) i :
  NoDup l → i ∈ l → ¬ P i → P' i → (∀ j, j ≠ i → P' j ↔ P j) →
  length (filter P' l) = S (length (filter P l)).
Proof.
  intros Hnd Hi Hn Hp Hsame. apply list_elem_of_split in Hi as (l1 & l2 & ->).
  apply NoDup_app in Hnd as (_ & Hd & Hnd). apply NoDup_cons in Hnd as [Hd2 _].
  rewrite !filter_app, !filter_cons, !length_app, decide_True, decide_False by done.
  cbn [length]. rewrite (filter_same P P' l1), (filter_same P P' l2); [lia|..];
    intros x Hx; apply Hsame; set_solver.
Qed.

Lemma occupied_full st :
  occupied st = MAX_CONNECTION_SLOTS ↔
  ∀ i, (i < MAX_CONNECTION_SLOTS)%nat → is_Some (view st i).
Proof.
  unfold occupied. set (l := seq 0 MAX_CONNECTION_SLOTS).
  assert (length l = MAX_CONNECTION_SLOTS) as Hl by apply length_seq.
  split.
  - intros H i Hi. destruct (decide (is_Some (view st i))) as [?|Hn]; [done|].
    pose proof (length_filter_lt (λ i, is_Some (view st i)) l i) as Hlt.
    assert (i ∈ l) by (apply elem_of_seq; lia). specialize (Hlt ltac:(done) Hn). lia.
  - intros H. rewrite <-Hl. f_equal.
    assert (filter (λ _ : nat, True) l = l) as Ht.
    { clear. induction l as [|x l IH]; [done|]. by rewrite filter_cons, decide_True, IH. }
    rewrite <-Ht at 2. apply filter_same. intros x Hx%elem_of_seq. split; [done|].
    intros _. apply H. lia.
Qed.

(** One more retry within the lease. *)
Lemma retry_step T k (st : MState Q B K) :
  mgr_ok shm_dir pid st → token_gone (req_slot_token request) st → leased_since T st →
  next_connection_id st < u64_max →
  (∀ t, req_slot_token request = Some t → generation t < next_connection_id st) →
  quiet pid (envs k) → healthy cap (envs k) → within_lease T (envs k) →
  if bool_decide (occupied st = MAX_CONNECTION_SLOTS) then
    ∃ msg st', upsert_shm (envs k) request shm_dir cap 1 st = Some (Err (ConfigError msg), st')
  else ∃ p st', upsert_shm (envs k) request shm_dir cap 1 st = Some (Ok p, st') ∧
    occupied st' = S (occupied st) ∧ mgr_ok shm_dir pid st' ∧
    token_gone (req_slot_token request) st' ∧ leased_since T st' ∧
    next_connection_id st' = next_connection_id st + 1.
Proof.
  intros Hok Hgone Hl Hn Hgen Hq Hh (W1 & W2 & W3).
  destruct (upsert_new_spec shm_dir pid (envs k) request cap 0 st Hok Hq ltac:(apply Hh) Hn
    (Hgone _)) as (st0 & r & st' & E & Hsw & _ & Hn0 & Ho & Hok' & Hn').
  assert (∀ j, view st0 j = view st j) as Hv0.
  { intros j. destruct (Hsw j) as [?|(p & c & q & Hv & Hs & _)]; [done|].
    by rewrite (leased_fresh T st j p c q) in Hs. }
  assert (∀ j, view st j ≠ None → busy (ue_scan (envs k) 0) st0 j) as Hbusy.
  { intros j Hj. destruct (view st j) as [[[p c] q]|] eqn:Hv; [|done].
    exists p, c, q. rewrite Hv0. split; [done|]. by eapply leased_fresh. }
  case_bool_decide as Hocc.
  - rewrite occupied_full in Hocc.
    assert (∀ i, (i < MAX_CONNECTION_SLOTS)%nat → busy (ue_scan (envs k) 0) st0 i) as Hall.
    { intros i Hi. apply Hbusy, not_eq_None_Some. by apply Hocc. }
    destruct r as [[|]|e|]; cbn in Ho; [done| | |done].
    + destruct Ho as (i & _ & _ & _ & _ & _ & Hi & Hnb & _). by destruct Hnb; apply Hall.
    + destruct e; try (destruct Ho as (_ & i & Hi & Hnb & _); by destruct Hnb; apply Hall).
      by eexists _, _.
  - assert (∃ i, (i < MAX_CONNECTION_SLOTS)%nat ∧ ¬ busy (ue_scan (envs k) 0) st i) as Hfree.
    { destruct (decide (Forall (λ i, is_Some (view st i)) (seq 0 MAX_CONNECTION_SLOTS)))
        as [Hf|Hf%not_Forall_Exists]; [| |apply _].
      - destruct Hocc. apply occupied_full. intros i Hi. rewrite Forall_forall in Hf.
        apply Hf, elem_of_seq. lia.
      - apply Exists_exists in Hf as (i & Hi%elem_of_seq & Hnone). exists i. split; [lia|].
        intros (p & c & q & Hv & _). apply Hnone. by rewrite Hv. }
    destruct (upsert_healthy_dead shm_dir pid cap (envs k) request 0 st Hok Hq Hn Hh (Hgone _) Hfree)
      as (tok & path & efd & st1 & E1).
    rewrite E1 in E. injection E as <- <-. eexists _, _. split; [exact E1|].
    destruct Ho as (i & q & ring & _ & _ & _ & Hi & Hnb & _ & Hv & _ & _ & _ & Hoth).
    assert (view st i = None) as Hempty.
    { destruct (view st i) eqn:Hvi; [|done]. destruct Hnb. apply Hbusy. by rewrite Hvi. }
    split_and!; [|done| | |done].
    + apply (filter_grows _ _ _ i); [apply NoDup_seq|apply elem_of_seq; lia| | |].
      * rewrite Hempty. by intros [].
      * rewrite Hv. by eexists.
      * intros j Hj. by rewrite Hoth, Hv0.
    + intros now p c q0 (t & Ht & Hvt & Hid & Hs).
      destruct (decide (Z.to_nat (slot_index t) = i)) as [Hti|Hti].
      * rewrite Hti, Hv in Hvt. injection Hvt as _ <- _. cbn in Hid.
        specialize (Hgen t Ht). lia.
      * rewrite Hoth, Hv0 in Hvt by done. apply (Hgone now p c q0). by exists t.
    + intros j p c q0 Hvj. destruct (decide (j = i)) as [->|Hj].
      * rewrite Hv in Hvj. injection Hvj as _ <- _. apply W3.
      * rewrite Hoth, Hv0 in Hvj by done. by eapply Hl.
Qed.

Lemma retry_exhausts T n k (st : MState Q B K) :
  mgr_ok shm_dir pid st → token_gone (req_slot_token request) st → leased_since T st →
  next_connection_id st + Z.of_nat n < u64_max →
  (∀ t, req_slot_token request = Some t → generation t < next_connection_id st) →
  (∀ k, quiet pid (envs k) ∧ healthy cap (envs k) ∧ within_lease T (envs k)) →
  (occupied st + n = MAX_CONNECTION_SLOTS)%nat →
  ∃ msg st', retry (S n) k st = Some (n, ConfigError msg, st').
Proof.
  revert k st. induction n as [|n IH]; intros k st Hok Hg Hl Hn Hgen Henv Hocc.
  all: destruct (Henv k) as (Hq & Hh & Hw).
  all: pose proof (retry_step T k st Hok Hg Hl ltac:(lia) Hgen Hq Hh Hw) as Hs.
  - rewrite bool_decide_true in Hs by lia. destruct Hs as (msg & st' & E).
    exists msg, st'. cbn [retry]. by rewrite E.
  - rewrite bool_decide_false in Hs by lia.
    destruct Hs as (p & st1 & E & Hocc1 & Hok1 & Hg1 & Hl1 & Hn1).
    destruct (IH (S k) st1 Hok1 Hg1 Hl1) as (msg & st' & E'); [lia| |done|lia|].
    { intros t Ht. rewrite Hn1. specialize (Hgen t Ht). lia. }
    exists msg, st'. revert E'. cbn [retry]. rewrite E. by intros ->.
Qed.
End retry.

(** ** Properties *)

(** C14: Subscribing again works while the lease lasts: the request of a consumer
    whose token designates a live connection reaches the sender unchanged, widens that
    connection's filter by exactly the requested keys and owners and renews its lease,
    is forwarded to the application's channel when there is one, and its reply leaves
    the consumer with the token it had; from then on the connection matches exactly
    the account updates that this or an earlier request of it asked for. *)
Theorem subscribe_live_roundtrip {Q} {BQ : ByteQueue Q} {BQL : ByteQueueLaws Q}
    {B} {BF : BloomFilter B} {BL : BloomLaws B} {K} {EK : EventKernel K}
    {AQ : Type → Type} {BoQ : BoundedQueue AQ} {LZ : Lz4} {CC : ControlCodecs}
    {CCL : ControlCodecsLaws} cfg pid (env : ConnEnv (Q:=Q) (B:=B) (K:=K)) s0
    (cons : QlasterShmConsumer AQ) pks owners t ptr c q rs out out' :
  mgr_ok (shm_dir cfg) pid (cs_mgr s0) → cs_writer s0 = mkWriter out' None →
  consumer_slot_token cons = Some t → is_u8 (slot_index t) →
  live_token (ue_seen (ce_upsert env)) (Some t) (cs_mgr s0) ptr c q →
  holds_requests (mc_filter c) rs →
  let request := resubscription cons pks owners in
  wincode_fits (SubscriptionRequest_wire request) →
  wincode_fits (ConnectionReady_wire (mkConnectionReady t)) →
  (∀ bytes, SubscriptionRequest_encode request = Ok bytes → zlen bytes ≤ MAX_FRAME_SIZE) →
  (∀ bytes, ConnectionReady_encode (mkConnectionReady t) = Ok bytes →
     zlen bytes ≤ MAX_FRAME_SIZE) →
  ∃ bytes reply s1 c',
    serve_frame env cfg bytes s0 = Some (Ok tt, s1) ∧
    sent (cs_writer s1) = out' ++ frame_bytes reply ∧
    subscribe cons pks owners (mkWriter out None) (mkReader (frame_bytes reply) None)
      = (Ok tt, cons, mkWriter (out ++ frame_bytes bytes) None, mkReader [] None) ∧
    mgr_ok (shm_dir cfg) pid (cs_mgr s1) ∧
    view (cs_mgr s1) (mc_slot_index c) = Some (ptr, c', q) ∧
    last_seen_ms c' = ue_now (ce_upsert env) ∧ mc_sink c' = mc_sink c ∧
    holds_requests (mc_filter c') (rs ++ [request]) ∧
    (∀ j, j ≠ mc_slot_index c → view (cs_mgr s1) j = view (cs_mgr s0) j) ∧
    cs_forwarded s1 = cs_forwarded s0
      ++ (if bool_decide (ce_forward env = Some true) then [request] else []) ∧
    ∀ u, matches_account (mc_filter c') u = true ↔ wants_account (rs ++ [request]) u.
Proof.
  intros Hok Hw Ht Hu8 Hl Hrs request Hf1 Hf2 Hs1 Hs2.
  destruct (resubscription_travels cons pks owners t Ht Hf1) as (bytes & He & Hd).
  destruct (ready_encode_decode (mkConnectionReady t) Hf2) as (reply & Hre & Hrt & Hrd).
  destruct (consumer_token_set cons t Ht) as [Hset Hsame].
  rewrite bool_decide_false in Hrd by done.
  pose proof (live_slot_token _ _ _ _ _ _ _ _ Hok Hl Hu8) as Htok.
  assert (req_slot_token request = Some t) as Hreq by done.
  destruct (serve_live cfg pid env s0 request bytes reply ptr c q out' Hok Hw)
    as (st' & E & [L1 L2 L3 L4 L5]).
  - by rewrite Hreq.
  - done.
  - by rewrite Htok.
  - specialize (Hs2 _ Hre). unfold MAX_FRAME_SIZE, u32_max in *. lia.
  - eexists bytes, reply, _, _. split; [exact E|]. rewrite forward_mgr. cbn [cs_mgr].
    assert (holds_requests (mc_filter (upsert_existing (ce_upsert env) request c))
      (rs ++ [request])) as Hh by (by apply with_request_holds).
    split_and!; [| |done|exact L2|done|done|done|done| |].
    + unfold forward. by destruct (ce_forward env) as [[]|].
    + rewrite <-(app_nil_r (frame_bytes reply)).
      rewrite (subscribe_exchange cons pks owners bytes out reply [] None
        (SF_ConnectionReady (mkConnectionReady t)) He); [by cbn; rewrite Hsame| |by apply Hs2|].
      * specialize (Hs1 _ He). unfold MAX_FRAME_SIZE, u32_max in *. lia.
      * unfold decode_server_frame_owned. rewrite Hrt. cbn. by rewrite Hrd.
    + unfold forward. destruct (ce_forward env) as [[]|]; cbn; by rewrite ?app_nil_r.
    + intros u. by apply holds_requests_matches.
Qed.

(** The consumer of [Demo.one]. *)
Definition demo_consumer : QlasterShmConsumer list_bq :=
  mkShmConsumer 0 1 (mkListBq 4 []) (mkListBq 4 []) (mkListBq 4 []) QlasterConsumerMetrics_new
    (mkConsumer 0 256 "" false) 9.
Definition demo_one_conn : ConnState list_queue (gset pubkey) sim_event :=
  mkConnState Demo.one (mkWriter [] None) [] [].
Definition demo_conn_env_at (now : Z) : ConnEnv (Q:=list_queue) (B:=gset pubkey) (K:=sim_event) :=
  {| ce_upsert := Demo.env now; ce_fuel := 1; ce_sendmsg := SysOk 0; ce_pass_fd _ := 5;
     ce_forward := Some true; ce_between st := st |}.

Lemma subscribe_live_roundtrip_witness :
  ∃ bytes reply s1,
    @serve_frame _ list_byte_queue _ exact_bloom _ sim_event_kernel Bincode.codecs
      (demo_conn_env_at 2000) demo_cfg bytes demo_one_conn = Some (Ok tt, s1) ∧
    @subscribe _ rle_lz4 Bincode.codecs demo_consumer [] [sample_key x09] (mkWriter [] None)
      (mkReader (frame_bytes reply) None)
      = (Ok tt, demo_consumer, mkWriter (frame_bytes bytes) None, mkReader [] None) ∧
    ∃ c q, view (cs_mgr s1) 0 = Some (0%nat, c, q) ∧
      matches_account (mc_filter c) (sample_account (sample_key x02) (sample_key x09)) = true.
Proof.
  destruct Demo.one_view as (ring & efd & q & Hv & _).
  destruct (@subscribe_live_roundtrip _ list_byte_queue list_byte_queue_laws _ exact_bloom
    exact_bloom_laws _ sim_event_kernel _ list_bounded_queue rle_lz4 Bincode.codecs
    Bincode.codecs_laws demo_cfg 7 (demo_conn_env_at 2000) demo_one_conn demo_consumer []
    [sample_key x09] (mkSlotToken 0 1) 0
    (mkManaged 0 1 (from_request 0 Demo.request) (mkSink ring efd) 1000) q [Demo.request] [] [])
    as (bytes & reply & s1 & c' & H1 & _ & H2 & _ & H3 & _ & _ & _ & _ & _ & H4).
  - apply Demo.one_ok.
  - reflexivity.
  - reflexivity.
  - vm_compute. split; discriminate.
  - exists (mkSlotToken 0 1). split_and!; [reflexivity|exact Hv|reflexivity|vm_compute; reflexivity].
  - apply from_request_holds.
  - cbn. unfold Bincode.sub_fits, Bincode.head_fits. decide_now.
  - cbn. unfold Bincode.head_fits. decide_now.
  - intros bytes [= <-]. vm_compute. discriminate.
  - intros bytes [= <-]. vm_compute. discriminate.
  - exists bytes, reply, s1. split; [exact H1|]. split; [exact H2|].
    exists c', q. split; [exact H3|]. apply H4. apply Exists_cons. right. apply Exists_cons. left. right. constructor.
Defined.

(** C22: Subscribing again after an eviction never succeeds and costs the sender a
    slot: when the consumer's token designates no live connection and a slot is free,
    the sender answers the request with a new slot, ring file and descriptor, which the
    consumer's [subscribe] refuses as unexpected; the consumer keeps its old token,
    which designates nothing on the sender from then on, while the new connection,
    filtering for the request, stays in the table with nobody reading its ring. *)
Theorem resubscribe_after_eviction_fails {Q} {BQ : ByteQueue Q} {BQL : ByteQueueLaws Q}
    {B} {BF : BloomFilter B} {K} {EK : EventKernel K}
    {AQ : Type → Type} {BoQ : BoundedQueue AQ} {LZ : Lz4} {CC : ControlCodecs}
    {CCL : ControlCodecsLaws} cfg pid (env : ConnEnv (Q:=Q) (B:=B) (K:=K)) s0
    (cons : QlasterShmConsumer AQ) pks owners t out :
  mgr_ok (shm_dir cfg) pid (cs_mgr s0) → alone pid env →
  next_connection_id (cs_mgr s0) < u64_max → healthy (ring_capacity_bytes cfg) (ce_upsert env) →
  (∃ i, (i < MAX_CONNECTION_SLOTS)%nat ∧ ¬ busy (ue_scan (ce_upsert env) 0) (cs_mgr s0) i) →
  consumer_slot_token cons = Some t → generation t < next_connection_id (cs_mgr s0) →
  (∀ ptr c q, ¬ live_token (ue_seen (ce_upsert env)) (Some t) (cs_mgr s0) ptr c q) →
  let request := resubscription cons pks owners in
  wincode_fits (SubscriptionRequest_wire request) →
  (∀ bytes, SubscriptionRequest_encode request = Ok bytes → zlen bytes ≤ MAX_FRAME_SIZE) →
  (∀ i, (i < MAX_CONNECTION_SLOTS)%nat →
     wincode_fits (ConnectionReadyShm_wire (ready_for cfg pid (cs_mgr s0) i)) ∧
     ∀ reply, ConnectionReadyShm_encode (ready_for cfg pid (cs_mgr s0) i) = Ok reply →
       zlen (fd_frame reply) ≤ ANCILLARY_RECV_BUF) →
  ∃ bytes reply i,
    (∀ j, (j < i)%nat → busy (ue_scan (ce_upsert env) 0) (cs_mgr s0) j) ∧
    ConnectionReadyShm_encode (ready_for cfg pid (cs_mgr s0) i) = Ok reply ∧
    subscribe cons pks owners (mkWriter out None) (mkReader (fd_frame reply) None)
      = (Err (UdsError "unexpected ConnectionReadyShm on re-subscribe"), cons,
         mkWriter (out ++ frame_bytes bytes) None, mkReader [] None) ∧
    (ce_sendmsg env = SysOk (zlen (fd_frame reply)) →
     ∃ s1 ptr c q,
       serve_frame env cfg bytes s0 = Some (Ok tt, s1) ∧
       sent (cs_writer s1) = sent (cs_writer s0) ++ fd_frame reply ∧
       mgr_ok (shm_dir cfg) pid (cs_mgr s1) ∧ token_gone (Some t) (cs_mgr s1) ∧
       view (cs_mgr s1) i = Some (ptr, c, q) ∧ bq_data q = [] ∧
       connection_id c = next_connection_id (cs_mgr s0) ∧
       mc_filter c = from_request (ue_seed (ce_upsert env)) request).
Proof.
  intros Hok Ha Hn Hh Hfree Ht Hgen Hdead request Hfit Hsize Hfits.
  destruct (resubscription_travels cons pks owners t Ht Hfit) as (bytes & He & Hd).
  assert (req_slot_token request = Some t) as Hreq by done.
  destruct (serve_new_slot cfg pid env s0 request bytes Hok Ha Hn Hh Hfree)
    as (i & ptr & c & q & st1 & Hi & Hb & Hok1 & _ & Hv & Hq & Htok & _ & Hfl & _ & Hgone & Hs);
    [by rewrite Hreq|done|].
  destruct (Hfits i Hi) as [Hf1 Hf2].
  destruct (ready_shm_encode_decode _ Hf1) as (reply & Hre & Hrt & Hrd). specialize (Hf2 _ Hre).
  assert (zlen reply + 4 ≤ ANCILLARY_RECV_BUF) as Hlen.
  { unfold fd_frame in Hf2. rewrite zlen_app, zlen_u32_le in Hf2. lia. }
  cbn [ready_for rs_slot_token rs_ring_path rs_ring_capacity slot_index] in Hrd.
  rewrite !bool_decide_false in Hrd;
    [|destruct Hh; lia|apply conn_path_nonempty
     |unfold UNSET_SLOT_INDEX, u8_max, MAX_CONNECTION_SLOTS in *; lia].
  exists bytes, reply, i. split_and!; [done|done| |].
  - change (fd_frame reply) with (frame_bytes reply). rewrite <-(app_nil_r (frame_bytes reply)).
    rewrite (subscribe_exchange cons pks owners bytes out reply [] None
      (SF_ConnectionReadyShm (ready_for cfg pid (cs_mgr s0) i)) He); [done| | |].
    + specialize (Hsize _ He). unfold MAX_FRAME_SIZE, u32_max in *. lia.
    + unfold ANCILLARY_RECV_BUF, MAX_FRAME_SIZE in *. lia.
    + unfold decode_server_frame_owned. rewrite Hrt. cbn. by rewrite Hrd.
  - intros Hsend. eexists _, ptr, c, q. split.
    { apply Hs; [done| |done]. unfold ANCILLARY_RECV_BUF, u32_max in *. lia. }
    rewrite forward_mgr. cbn [cs_mgr]. split_and!; try done.
    + unfold forward. by destruct (ce_forward env) as [[]|].
    + rewrite <-Hreq. apply Hgone. rewrite Hreq. by intros ? [= <-].
    + by injection Htok.
Qed.

(** The sender 40 seconds after the only message of its only consumer. *)
Definition demo_late_reply : list byte :=
  match @ConnectionReadyShm_encode Bincode.codecs (ready_for demo_cfg 7 Demo.one 0) with
  | Ok b => b | _ => [] end.
Definition demo_late_env : ConnEnv (Q:=list_queue) (B:=gset pubkey) (K:=sim_event) :=
  {| ce_upsert := Demo.env 41000; ce_fuel := 1;
     ce_sendmsg := SysOk (zlen (fd_frame demo_late_reply)); ce_pass_fd _ := 5;
     ce_forward := None; ce_between st := st |}.

Lemma demo_one_next : next_connection_id Demo.one = 2.
Proof. vm_compute. reflexivity. Qed.

Lemma demo_one_idle : ¬ busy (λ _, 41000) Demo.one 0.
Proof.
  destruct Demo.one_view as (ring & efd & q & Hv & _). intros (p & c & q' & Hv' & Hs).
  rewrite Hv in Hv'. injection Hv' as _ <- _. vm_compute in Hs. discriminate.
Qed.

Lemma demo_one_late : ∀ ptr c q, ¬ live_token 41000 (Some (mkSlotToken 0 1)) Demo.one ptr c q.
Proof. intros ptr c q (t & [= <-] & Hv & _ & Hs). apply demo_one_idle. by exists ptr, c, q. Qed.

Lemma demo_late_fits i : (i < MAX_CONNECTION_SLOTS)%nat →
  @wincode_fits _ Bincode.codecs.(cc_ready_shm)
    (ConnectionReadyShm_wire (ready_for demo_cfg 7 Demo.one i)) ∧
  ∀ reply, @ConnectionReadyShm_encode Bincode.codecs (ready_for demo_cfg 7 Demo.one i)
      = Ok reply → zlen (fd_frame reply) ≤ ANCILLARY_RECV_BUF.
Proof.
  unfold MAX_CONNECTION_SLOTS, ready_for. rewrite demo_one_next. intros Hi.
  do 10 (destruct i as [|i];
    [split; [cbn; unfold Bincode.rs_fits, Bincode.head_fits; decide_now
            |intros reply [= <-]; vm_compute; discriminate]|]). lia.
Qed.

Lemma resubscribe_after_eviction_fails_witness :
  ∃ bytes s1 ptr c q,
    @subscribe _ rle_lz4 Bincode.codecs demo_consumer [] [sample_key x09] (mkWriter [] None)
      (mkReader (fd_frame demo_late_reply) None)
      = (Err (UdsError "unexpected ConnectionReadyShm on re-subscribe"), demo_consumer,
         mkWriter (frame_bytes bytes) None, mkReader [] None) ∧
    @serve_frame _ list_byte_queue _ exact_bloom _ sim_event_kernel Bincode.codecs
      demo_late_env demo_cfg bytes demo_one_conn = Some (Ok tt, s1) ∧
    view (cs_mgr s1) 0 = Some (ptr, c, q) ∧ connection_id c = 2.
Proof.
  destruct (@resubscribe_after_eviction_fails _ list_byte_queue list_byte_queue_laws _ exact_bloom
    _ sim_event_kernel _ list_bounded_queue rle_lz4 Bincode.codecs
    Bincode.codecs_laws demo_cfg 7 demo_late_env demo_one_conn demo_consumer []
    [sample_key x09] (mkSlotToken 0 1) [])
    as (bytes & reply & i & Hb & Hr & H1 & H2).
  - apply Demo.one_ok.
  - split; [apply (Demo.quiet_env 41000)|cbn; lia].
  - vm_compute. reflexivity.
  - apply (Demo.healthy_env 41000 256). lia.
  - exists 0%nat. split; [unfold MAX_CONNECTION_SLOTS; lia|apply demo_one_idle].
  - reflexivity.
  - vm_compute. reflexivity.
  - apply demo_one_late.
  - cbn. unfold Bincode.sub_fits, Bincode.head_fits. decide_now.
  - intros bytes [= <-]. vm_compute. discriminate.
  - apply demo_late_fits.
  - destruct i as [|i].
    2: { destruct demo_one_idle. apply (Hb 0%nat). lia. }
    assert (reply = demo_late_reply) as ->.
    { unfold demo_late_reply. cbn [demo_one_conn cs_mgr] in Hr. by rewrite Hr. }
    destruct (H2 eq_refl) as (s1 & ptr & c & q & E & _ & _ & _ & Hv & _ & Hid & _).
    exists bytes, s1, ptr, c, q. split; [exact H1|]. split; [exact E|]. split; [exact Hv|].
    rewrite Hid. exact demo_one_next.
Defined.

(** C23: Retrying starves the sender: within thirty seconds, on a healthy sender
    whose other consumers have all been heard from, a consumer that keeps repeating a
    subscription whose token designates nothing is granted every slot that is left,
    one per attempt, and exactly then refused for lack of slots. *)
Theorem retries_exhaust_slots {Q} {BQ : ByteQueue Q} {BQL : ByteQueueLaws Q}
    {B} {BF : BloomFilter B} {K} {EK : EventKernel K} shm_dir pid cap request envs T
    (st : MState Q B K) :
  mgr_ok shm_dir pid st → token_gone (req_slot_token request) st → leased_since T st →
  next_connection_id st + Z.of_nat MAX_CONNECTION_SLOTS < u64_max →
  (∀ t, req_slot_token request = Some t → generation t < next_connection_id st) →
  (∀ k, quiet pid (envs k) ∧ healthy cap (envs k) ∧ within_lease T (envs k)) →
  let free := (MAX_CONNECTION_SLOTS - occupied st)%nat in
  ∃ msg st', retry shm_dir cap request envs (S free) 0 st = Some (free, ConfigError msg, st').
Proof.
  intros Hok Hg Hl Hn Hgen Henv free.
  assert (occupied st ≤ MAX_CONNECTION_SLOTS)%nat as Hocc.
  { unfold occupied. rewrite length_filter, length_seq. done. }
  apply (retry_exhausts shm_dir pid cap request envs T free 0 st); try done; lia.
Qed.

Lemma retries_exhaust_slots_witness :
  let request := with_slot_token (SubscriptionRequest_new [] [sample_key x09])
                   (Some (mkSlotToken 0 0)) in
  ∃ msg st', @retry _ list_byte_queue _ exact_bloom _ sim_event_kernel Demo.dir 256 request
    (λ k, Demo.env (41000 + Z.of_nat (k mod 20))) 11 0 manager_new
      = Some (10%nat, ConfigError msg, st').
Proof.
  intros request.
  assert (∀ i, view (manager_new : Demo.State) i = None) as Hv.
  { intros i. destruct (view _ i) as [[[p c] q]|] eqn:Hv; [|reflexivity].
    apply view_Some in Hv as (_ & Hh & _). cbn in Hh. by rewrite lookup_empty in Hh. }
  apply (@retries_exhaust_slots _ list_byte_queue list_byte_queue_laws _ exact_bloom
    _ sim_event_kernel Demo.dir 7 256 request _ 41000 manager_new).
  - apply manager_new_ok.
  - intros now ptr c q (t & _ & H & _). by rewrite Hv in H.
  - intros i ptr c q H. by rewrite Hv in H.
  - vm_compute. reflexivity.
  - intros t [= <-]. vm_compute. reflexivity.
  - intros k. split; [apply Demo.quiet_env|]. split; [apply Demo.healthy_env; lia|].
    pose proof (Nat.mod_upper_bound k 20 ltac:(lia)).
    split_and!; cbn [Demo.env ue_seen ue_scan ue_installed]; intros; unfold SLOT_IDLE_TIMEOUT_ms; lia.
Defined.

(** A ping of a live consumer renews its lease and nothing else, and is not answered. *)
Theorem ping_renews_lease {Q} {BQ : ByteQueue Q} {BQL : ByteQueueLaws Q}
    {B} {BF : BloomFilter B} {K} {EK : EventKernel K}
    {AQ : Type → Type} {BoQ : BoundedQueue AQ} {CC : ControlCodecs}
    {CCL : ControlCodecsLaws} cfg pid (env : ConnEnv (Q:=Q) (B:=B) (K:=K)) s0
    (cons : QlasterShmConsumer AQ) t ptr c q out :
  mgr_ok (shm_dir cfg) pid (cs_mgr s0) → consumer_slot_token cons = Some t →
  live_token (ue_seen (ce_upsert env)) (Some t) (cs_mgr s0) ptr c q →
  wincode_fits (PingRequest_wire (mkPingRequest t)) →
  (∀ bytes, PingRequest_encode (mkPingRequest t) = Ok bytes → zlen bytes ≤ MAX_FRAME_SIZE) →
  ∃ bytes st',
    send_ping cons (mkWriter out None) = (Ok tt, mkWriter (out ++ frame_bytes bytes) None) ∧
    serve_frame env cfg bytes s0
      = Some (Ok tt, mkConnState st' (cs_writer s0) (cs_fds s0) (cs_forwarded s0)) ∧
    local (shm_dir cfg) pid (cs_mgr s0) st' (mc_slot_index c)
      (Some (ptr, set_last_seen c (ue_now (ce_upsert env)), q)).
Proof.
  intros Hok Ht (t' & [= <-] & Hv & Hg & Hs) Hfit Hsize.
  destruct (ping_encode_decode (mkPingRequest t) Hfit) as (bytes & He & Htag & Hd).
  destruct (consumer_token_set cons t Ht) as [Hset _].
  rewrite bool_decide_false in Hd by done.
  pose proof (touch_ping_eq _ _ (ue_seen (ce_upsert env)) (ue_now (ce_upsert env))
    (mkPingRequest t) (cs_mgr s0) Hok) as Hp. cbv zeta in Hp. cbn [ping_slot_token] in Hp.
  rewrite Hv, bool_decide_false, Hs in Hp by tauto. destruct Hp as [_ Hp].
  rewrite <-(co_index _ _ _ _ _ _ (ok_view _ _ _ _ _ _ _ Hok Hv)) in Hp.
  specialize (Hsize _ He).
  eexists bytes, _. split_and!; [| |exact Hp].
  - unfold send_ping. rewrite Ht, He. apply write_framed_healthy.
    unfold MAX_FRAME_SIZE, u32_max in *. lia.
  - assert (decode_client_frame bytes = Ok (Ping (mkPingRequest t))) as Hc.
    { unfold decode_client_frame. rewrite Htag. cbn. by rewrite Hd. }
    unfold serve_frame. rewrite Hc. by destruct (touch_ping _ _ _ _).
Qed.
