(* ===== verification/Conformance.v ===== *)
(** * Validation of the model: the program's own unit tests

    The [#[test]] functions of the crate's source files, as executable checks on the
    definitions of this development: [expect] becomes a match that fails on anything
    but [Ok], an assertion a boolean.  [Pubkey::new_unique] and the clock are
    arguments; what the tests run against outside the crate (the codec, the byte queue,
    the kernel) are the classes of the other files, here at their reference instances.
    These are single evaluations that guard against slips in the translation; what the
    tests stand for is proved for all inputs in the other files.  The tests whose
    outcome depends on what LZ4 makes of a given block are left out. *)

From stdpp Require Import prelude gmap strings.
From Stdlib Require Import Strings.Byte.
From S2P Require Import Prelude Errors WireCodec DataFrames ControlFrames Wire Uds Metrics EventFd.
From S2P Require Import Ring Transport Filter.

(** [r.expect(..)] followed by the rest of the test. *)
Definition expect {E A} (r : result E A) (k : A → bool) : bool :=
  match r with Ok x => k x | _ => false end.

Definition expect_err {E A} (r : result E A) (k : E → bool) : bool :=
  match r with Err e => k e | _ => false end.

Definition expect_some {A} (r : option A) (k : A → bool) : bool :=
  match r with Some x => k x | None => false end.

Definition is_err {E A} (r : result E A) : bool :=
  match r with Err _ => true | _ => false end.

Definition is_malformed {A} (r : Res A) : bool :=
  match r with Err (MalformedPayload _) => true | _ => false end.

(** ** [types.rs] *)
Section types_tests.
Context {LZ : Lz4} {CC : ControlCodecs}.
Context (new_unique : nat → list byte) (now : Z).

Definition test_subscription_request_roundtrip : bool :=
  let req := with_slot_token (with_transactions
               (SubscriptionRequest_new [new_unique 0; new_unique 1] [new_unique 2]))
               (Some (mkSlotToken 2 42)) in
  expect (SubscriptionRequest_encode req) (λ bytes,
  expect (SubscriptionRequest_decode bytes) (λ decoded,
    bool_decide (decoded = req) && req_include_transactions decoded)).

Definition test_connection_ready_shm_roundtrip : bool :=
  let ready := mkConnectionReadyShm (mkSlotToken 3 7) "qlaster/test-ring" (64 * 1024) in
  expect (ConnectionReadyShm_encode ready) (λ bytes,
  expect (ConnectionReadyShm_decode bytes) (λ decoded, bool_decide (decoded = ready)) &&
  expect (decode_server_frame bytes) (λ routed,
    match routed with SF_ConnectionReadyShm _ => true | _ => false end)).

Definition test_connection_ready_shm_rejects_missing_fields : bool :=
  expect (ConnectionReadyShm_encode (mkConnectionReadyShm (mkSlotToken 0 1) "" 64)) (λ bytes,
    is_malformed (ConnectionReadyShm_decode bytes)) &&
  expect (ConnectionReadyShm_encode (mkConnectionReadyShm (mkSlotToken 0 1) "/path" 0)) (λ bytes,
    is_malformed (ConnectionReadyShm_decode bytes)).

Definition test_ping_and_ready_roundtrip : bool :=
  let token := mkSlotToken 1 99 in
  let ping := mkPingRequest token in
  expect (PingRequest_encode ping) (λ bytes,
    expect (PingRequest_decode bytes) (λ decoded, bool_decide (decoded = ping))) &&
  let ready := mkConnectionReady token in
  expect (ConnectionReady_encode ready) (λ bytes,
    expect (ConnectionReady_decode bytes) (λ decoded, bool_decide (decoded = ready))).

Definition test_account_update_roundtrip : bool :=
  expect (AccountPayload_from_slice (String.list_byte_of_string "hello")) (λ payload,
  let update := mkAccountUpdate (new_unique 0) (new_unique 1) 42 true 7 99 11 payload in
  expect (AccountUpdate_encode update now) (λ bytes,
  expect (AccountUpdate_decode bytes) (λ decoded, bool_decide (decoded = update)))).

Definition test_account_update_carries_sender_timestamp_metadata : bool :=
  expect (AccountPayload_from_slice (String.list_byte_of_string "hello")) (λ payload,
  let update := mkAccountUpdate (new_unique 0) (new_unique 1) 42 false 7 99 11 payload in
  let sender_created := 123456789 in
  expect (AccountUpdate_encode_parts_at update sender_created) (λ '(header, payload),
  expect (AccountUpdate_decode_with_meta (header ++ payload)) (λ '(decoded, meta),
    bool_decide (decoded = update) &&
    bool_decide (sender_created_at_unix_nanos meta = sender_created)))).

Definition test_transaction_update_roundtrip_and_metadata : bool :=
  expect (TransactionPayload_from_slice (String.list_byte_of_string "transaction bytes")) (λ payload,
  let update := mkTransactionUpdate 123 4 (replicate 64 x07) true payload in
  let sender_created := 987654321 in
  expect (TransactionUpdate_encode_parts_at update sender_created) (λ '(header, payload),
  let bytes := header ++ payload in
  expect (TransactionUpdate_decode_with_meta bytes) (λ '(decoded, meta),
    bool_decide (decoded = update) &&
    bool_decide (sender_created_at_unix_nanos meta = sender_created)) &&
  expect (decode_server_frame bytes) (λ routed,
    match routed with SF_TransactionUpdate _ => true | _ => false end))).

Definition test_slot_update_roundtrip_and_metadata : bool :=
  let update := mkSlotUpdate 456 in
  let sender_created := 222333444 in
  expect (SlotUpdate_encode_parts_at update sender_created) (λ '(header, payload),
  bool_decide (payload = []) &&
  let bytes := header ++ payload in
  expect (SlotUpdate_decode_with_meta bytes) (λ '(decoded, meta),
    bool_decide (decoded = update) &&
    bool_decide (sender_created_at_unix_nanos meta = sender_created)) &&
  expect (SlotUpdate_decode_owned bytes) (λ decoded_owned, bool_decide (decoded_owned = update)) &&
  expect (decode_server_frame bytes) (λ routed,
    match routed with SF_SlotUpdate _ => true | _ => false end)).

Definition test_frame_decode_routes_by_tag : bool :=
  expect (SubscriptionRequest_encode (SubscriptionRequest_new [new_unique 0] [])) (λ bytes,
    expect (decode_client_frame bytes) (λ f,
      match f with Subscription _ => true | _ => false end)) &&
  expect (PingRequest_encode (mkPingRequest (mkSlotToken 0 1))) (λ bytes,
    expect (decode_client_frame bytes) (λ f, match f with Ping _ => true | _ => false end)) &&
  expect (ConnectionReady_encode (mkConnectionReady (mkSlotToken 0 1))) (λ bytes,
    expect (decode_server_frame bytes) (λ f,
      match f with SF_ConnectionReady _ => true | _ => false end)).

Definition test_request_rejects_invalid_version_and_tag : bool :=
  expect (SubscriptionRequest_encode (SubscriptionRequest_new [new_unique 0] [])) (λ bytes,
  expect_err (SubscriptionRequest_decode (<[0%nat := byte_of 99]> bytes)) (λ e,
    bool_decide (e = InvalidWireVersion 99 WIRE_VERSION)) &&
  expect_err (SubscriptionRequest_decode (<[1%nat := byte_of 99]> bytes)) (λ e,
    bool_decide (e = InvalidMessageTag 99 REQUEST_SUBSCRIBE_TAG))).

Definition test_update_rejects_invalid_version_and_tag : bool :=
  expect (AccountPayload_from_slice [x01; x02; x03]) (λ payload,
  let update := mkAccountUpdate (new_unique 0) (new_unique 1) 1 false 0 1 1 payload in
  expect (AccountUpdate_encode update now) (λ bytes,
  expect_err (AccountUpdate_decode (<[0%nat := byte_of 77]> bytes)) (λ e,
    bool_decide (e = InvalidWireVersion 77 WIRE_VERSION)) &&
  expect_err (AccountUpdate_decode (<[1%nat := byte_of 77]> bytes)) (λ e,
    bool_decide (e = InvalidMessageTag 77 UPDATE_TAG)))).

Definition test_decode_rejects_truncated_and_garbage_payloads : bool :=
  expect (SubscriptionRequest_encode (SubscriptionRequest_new [new_unique 0] [])) (λ bytes,
    is_err (SubscriptionRequest_decode (take (length bytes / 2) bytes))) &&
  is_err (SubscriptionRequest_decode [x01; x02; x03; x04; x05]) &&
  expect (AccountPayload_from_slice [x09; x08; x07]) (λ payload,
  let update := mkAccountUpdate (new_unique 1) (new_unique 2) 1 false 0 1 2 payload in
  expect (AccountUpdate_encode update now) (λ bytes,
    is_err (AccountUpdate_decode (take (length bytes / 2) bytes)))) &&
  is_err (AccountUpdate_decode [x09; x09; x09]).

Definition test_account_payload_rejects_oversized_data : bool :=
  let too_large := replicate (Z.to_nat (MAX_ACCOUNT_PAYLOAD_BYTES + 1)) x07 in
  expect_err (AccountPayload_from_bytes too_large) (λ e,
    bool_decide (e = PayloadTooLarge (MAX_ACCOUNT_PAYLOAD_BYTES + 1) MAX_ACCOUNT_PAYLOAD_BYTES)).
End types_tests.

(** *** Compression *)
Section compression_tests.
Context {LZ : Lz4}.

Definition zeros (n : Z) (b : byte) : list byte := replicate (Z.to_nat n) b.

Definition test_compression_probe_skips_below_threshold : bool :=
  negb (should_attempt_lz4 (zeros (ACCOUNT_UPDATE_COMPRESSION_THRESHOLD_BYTES - 1) x00)).

End compression_tests.

(** ** [wire.rs] *)

(** [duplex]: what the writer sent is what the reader finds. *)
Definition reader_of (w : Writer) : Reader := mkReader (sent w) None.

Definition test_framed_roundtrip_supports_multiple_and_empty_payloads : bool :=
  let hello := String.list_byte_of_string "hello" in
  match write_framed (mkWriter [] None) hello with
  | (Ok _, w) =>
      match write_framed w [] with
      | (Ok _, w) =>
          let '(first, rd) := read_framed (reader_of w) in
          let '(second, _) := read_framed rd in
          expect first (λ first, bool_decide (first = hello)) &&
          expect second (λ second, bool_decide (second = []))
      | _ => false
      end
  | _ => false
  end.

Definition test_read_framed_rejects_oversized_frame_header : bool :=
  expect_err (read_framed (mkReader (u32_le (MAX_FRAME_SIZE + 1)) None)).1 (λ err,
    bool_decide (err = FrameTooLarge (MAX_FRAME_SIZE + 1))).

Definition test_read_framed_rejects_truncated_payload : bool :=
  expect_err (read_framed (mkReader (u32_le 8 ++ [x01; x02; x03]) None)).1 (λ err,
    match err with Io e => bool_decide (io_kind e = UnexpectedEof) | _ => false end).

(** ** [shm/uds.rs]

    The kernel passes the bytes and installs a descriptor [got] of the receiver for
    the same wakeup object [k]. *)
Section uds_tests.
Context {K : Type} {EK : EventKernel K} (k : K) (fd got : Z) (fuel : nat).

Definition test_round_trip_payload_and_fd : bool :=
  expect (eventfd_new (SysOk fd) ∅).1 (λ efd_send,
  let payload := String.list_byte_of_string "hello over uds" in
  let '(send, (bytes, fds)) :=
    send_frame_with_fd payload (eventfd_pass_fd efd_send) (SysOk (zlen (fd_frame payload))) in
  expect send (λ _,
  bool_decide (fds = [eventfd_pass_fd efd_send]) &&
  expect (recv_frame_with_fd Linux (λ _, SysOk 0) (RecvMsg bytes [mkCmsg ScmRights got []]) ∅).1
    (λ '(got_payload, got_fd),
    bool_decide (got_payload = payload) &&
    expect_some got_fd (λ received,
    bool_decide (le_fd (eventfd_from_owned_fd received) = got) &&
    match notify fuel k with
    | Some (Ok _, k) =>
        match drain fuel k with
        | Some (Ok n, _) => bool_decide (n = 1)
        | _ => false
        end
    | _ => false
    end)))).

Definition test_round_trip_without_fd_returns_none : bool :=
  let plain := String.list_byte_of_string "plain" in
  match write_framed (mkWriter [] None) plain with
  | (Ok _, w) => expect (read_framed (reader_of w)).1 (λ got, bool_decide (got = plain))
  | _ => false
  end.
End uds_tests.

(** ** [shm/ring.rs] *)
Section ring_tests.
Context {Q : Type} {BQ : ByteQueue Q} (env : CreateEnv) (temp_ring_path : string → string).

(** [create] on an empty file system, and the queue behind the file. *)
Definition with_producer (name : string) (capacity : Z)
    (k : ShmRingProducer → Q → Shm Q → bool) : bool :=
  match create env (temp_ring_path name) capacity (mkShm ∅ ∅ 0) with
  | (Ok producer, s) => expect_some (queues s !! p_inode producer) (λ q, k producer q s)
  | _ => false
  end.

Definition with_ring (name : string) (capacity : Z)
    (k : ShmRingProducer → ShmRingConsumer → Q → Shm Q → bool) : bool :=
  with_producer name capacity (λ producer q s,
  expect (ring_open None None (temp_ring_path name) s) (λ consumer, k producer consumer q s)).

Definition push_ok (parts : list (list byte)) (p : ShmRingProducer) (q : Q)
    (k : ShmRingProducer → Q → bool) : bool :=
  let '(r, p, q) := ring_try_push p parts q in expect r (λ _, k p q).

Definition pop_some (c : ShmRingConsumer) (q : Q)
    (k : list byte → ShmRingConsumer → Q → bool) : bool :=
  let '(r, c, q) := try_pop c q in expect_some r (λ x, k x c q).

Definition pop_none (c : ShmRingConsumer) (q : Q) (k : ShmRingConsumer → Q → bool) : bool :=
  let '(r, c, q) := try_pop c q in match r with None => k c q | Some _ => false end.

Definition test_create_and_simple_push_pop_roundtrip : bool :=
  let body := String.list_byte_of_string "hello qlaster" in
  with_ring "simple" 4096 (λ p c q _,
  push_ok [body] p q (λ _ q,
  pop_some c q (λ popped c q,
    bool_decide (popped = body) && pop_none c q (λ _ _, true)))).

Definition test_multi_part_frames_concatenate_correctly : bool :=
  with_ring "multipart" 4096 (λ p c q _,
  push_ok [[x01; x02; x03]; [x04; x05]; [x06; x07; x08; x09]] p q (λ _ q,
  pop_some c q (λ popped _ _,
    bool_decide (popped = [x01; x02; x03; x04; x05; x06; x07; x08; x09])))).

Definition test_ring_full_returns_shm_full_and_drops_frame : bool :=
  let body := replicate 16 xaa in
  with_producer "full" 64 (λ p q _,
  push_ok [body] p q (λ p q, push_ok [body] p q (λ p q, push_ok [body] p q (λ p q,
  let '(r, p, _) := ring_try_push p [body] q in
  expect_err r (λ e, bool_decide (e = ShmFull)) && bool_decide (dropped_frames p = 1))))).

Definition test_queue_wraps_without_splitting_frames : bool :=
  let small := replicate 16 x11 in
  let big := replicate 20 x22 in
  let round (k : ShmRingProducer → ShmRingConsumer → Q → bool) p c q :=
    push_ok [small] p q (λ p q, pop_some c q (λ popped c q,
      bool_decide (zlen popped = 16) && k p c q)) in
  with_ring "wrap" 64 (λ p c q _,
  round (round (round (λ p c q,
    push_ok [big] p q (λ _ q,
    pop_some c q (λ popped c q,
      bool_decide (zlen popped = 20) && forallb (λ b, bool_decide (b = x22)) popped &&
      pop_none c q (λ _ _, true)))))) p c q).

Definition test_frame_larger_than_capacity_is_rejected : bool :=
  with_producer "toobig" 64 (λ p q _,
  expect_err (ring_try_push p [replicate 128 x00] q).1.1 (λ e,
    match e with ShmError _ => true | _ => false end)).

Definition test_close_sentinel_marks_consumer_closed : bool :=
  with_ring "close" 4096 (λ p c q s,
  negb (is_closed c s) && pop_none c (ring_close q) (λ c _, is_closed c s)).
End ring_tests.

(** ** [sender/mod.rs] *)
Section filter_tests.
Context {B : Type} {BF : BloomFilter B} (seed : nat) (new_unique : nat → list byte).

Definition sample_update (account_pubkey account_owner : list byte) : AccountUpdate :=
  mkAccountUpdate account_pubkey account_owner 1 false 0 0 0 (mkAccountPayload []).

Definition test_filter_from_request_deduplicates_and_matches_pubkey_or_owner : bool :=
  let matched_pubkey := new_unique 0 in let matched_owner := new_unique 1 in
  let other_pubkey := new_unique 2 in let other_owner := new_unique 3 in
  let filter := from_request seed (SubscriptionRequest_new [matched_pubkey; matched_pubkey]
                                     [matched_owner; matched_owner]) in
  bool_decide (size (f_account_pubkeys filter) = 1%nat) &&
  bool_decide (size (f_account_owners filter) = 1%nat) &&
  matches_account filter (sample_update matched_pubkey other_owner) &&
  matches_account filter (sample_update other_pubkey matched_owner) &&
  negb (matches_account filter (sample_update other_pubkey other_owner)).

Definition test_add_request_updates_existing_filter_contents : bool :=
  let first_pubkey := new_unique 0 in let first_owner := new_unique 1 in
  let second_pubkey := new_unique 2 in let second_owner := new_unique 3 in
  let filter := from_request seed (SubscriptionRequest_new [first_pubkey] [first_owner]) in
  negb (matches_account filter (sample_update second_pubkey second_owner)) &&
  let filter := with_request seed filter (SubscriptionRequest_new [second_pubkey] [second_owner]) in
  bool_decide (first_pubkey ∈ f_account_pubkeys filter) &&
  bool_decide (second_pubkey ∈ f_account_pubkeys filter) &&
  bool_decide (first_owner ∈ f_account_owners filter) &&
  bool_decide (second_owner ∈ f_account_owners filter) &&
  matches_account filter (sample_update second_pubkey second_owner).

Definition test_transaction_subscription_is_explicit_and_sticky : bool :=
  let filter := from_request seed (SubscriptionRequest_new [] []) in
  negb (matches_transaction filter) &&
  let filter := with_request seed filter SubscriptionRequest_transactions in
  matches_transaction filter &&
  let filter := with_request seed filter (SubscriptionRequest_new [] []) in
  matches_transaction filter.

Definition test_empty_filter_matches_nothing : bool :=
  let filter := from_request seed (SubscriptionRequest_new [] []) in
  bool_decide (f_account_pubkeys filter = ∅) && bool_decide (f_account_owners filter = ∅) &&
  negb (matches_account filter (sample_update (new_unique 0) (new_unique 1))).
End filter_tests.

(** ** [shm/eventfd.rs], on both backends *)
Section eventfd_tests.
Context {K : Type} {EK : EventKernel K} (fuel : nat).

Definition test_notify_then_drain_returns_count (k : K) : bool :=
  let drained (k : K) (n : Z) (f : K → bool) : bool :=
    match drain fuel k with Some (Ok m, k) => bool_decide (m = n) && f k | _ => false end in
  let notified (k : K) (f : K → bool) : bool :=
    match notify fuel k with Some (Ok _, k) => f k | _ => false end in
  drained k 0 (λ k, notified k (λ k, notified k (λ k, notified k (λ k,
  drained k 3 (λ k, drained k 0 (λ _, true)))))).

(** The task is woken once before the notification, spuriously, and once after. *)
Definition test_async_wait_resolves_after_notify (k : K) : bool :=
  match drain fuel k with
  | Some (r0, k) =>
      match notify fuel k with
      | Some (Ok _, k) =>
          match drain fuel k with
          | Some (r1, _) => match wait [(Ok tt, r0); (Ok tt, r1)] with
                            | Some (Ok count) => bool_decide (count >= 1)
                            | _ => false
                            end
          | None => false
          end
      | _ => false
      end
  | None => false
  end.
End eventfd_tests.

Section pipe_tests.
Context {K : Type} {PK : PipeKernel K} (fuel : nat).

Definition test_pipe_notify_then_drain_returns_count (k : K) : bool :=
  expect (pipe_new (inl (4, 5)) (λ _, Ok tt) ∅).1 (λ efd,
  let drained (k : K) (n : Z) (f : K → bool) : bool :=
    match pipe_drain fuel k with Some (Ok m, k) => bool_decide (m = n) && f k | _ => false end in
  let notified (k : K) (f : K → bool) : bool :=
    match pipe_notify efd fuel k with Some (Ok _, k) => f k | _ => false end in
  drained k 0 (λ k, notified k (λ k, notified k (λ k, notified k (λ k,
  drained k 3 (λ k, drained k 0 (λ _, true))))))).

Definition test_notify_on_consumer_side_handle_is_unsupported (k : K) (dup : Z) : bool :=
  let consumer := pipe_from_owned_fd dup (Ok tt) in
  match pipe_notify consumer fuel k with
  | Some (Err e, _) => bool_decide (io_kind e = Unsupported)
  | _ => false
  end.
End pipe_tests.

(** ** Running the tests *)
Definition unique_key (i : nat) : list byte := replicate 32 (byte_of (Z.of_nat i + 1)).

Definition types_tests {LZ : Lz4} {CC : ControlCodecs} (now : Z) : list bool :=
  [test_subscription_request_roundtrip unique_key;
   test_connection_ready_shm_roundtrip;
   test_connection_ready_shm_rejects_missing_fields;
   test_ping_and_ready_roundtrip;
   test_account_update_roundtrip unique_key now;
   test_account_update_carries_sender_timestamp_metadata unique_key;
   test_transaction_update_roundtrip_and_metadata;
   test_slot_update_roundtrip_and_metadata;
   test_frame_decode_routes_by_tag unique_key;
   test_request_rejects_invalid_version_and_tag unique_key;
   test_update_rejects_invalid_version_and_tag unique_key now;
   test_decode_rejects_truncated_and_garbage_payloads unique_key now].

Definition transport_tests : list bool :=
  [test_framed_roundtrip_supports_multiple_and_empty_payloads;
   test_read_framed_rejects_oversized_frame_header;
   test_read_framed_rejects_truncated_payload;
   test_round_trip_without_fd_returns_none].

Definition ring_tests {Q : Type} {BQ : ByteQueue Q} (env : CreateEnv)
    (temp_ring_path : string → string) : list bool :=
  [test_create_and_simple_push_pop_roundtrip env temp_ring_path;
   test_multi_part_frames_concatenate_correctly env temp_ring_path;
   test_ring_full_returns_shm_full_and_drops_frame env temp_ring_path;
   test_queue_wraps_without_splitting_frames env temp_ring_path;
   test_frame_larger_than_capacity_is_rejected env temp_ring_path;
   test_close_sentinel_marks_consumer_closed env temp_ring_path].

Definition filter_tests {B : Type} {BF : BloomFilter B} (seed : nat) : list bool :=
  [test_filter_from_request_deduplicates_and_matches_pubkey_or_owner seed unique_key;
   test_add_request_updates_existing_filter_contents seed unique_key;
   test_transaction_subscription_is_explicit_and_sticky seed;
   test_empty_filter_matches_nothing seed unique_key].

Definition wakeup_tests {K : Type} {EK : EventKernel K} {P : Type} {PK : PipeKernel P}
    (k : K) (p : P) (fuel : nat) : list bool :=
  [test_round_trip_payload_and_fd k 5 9 fuel;
   test_notify_then_drain_returns_count fuel k;
   test_async_wait_resolves_after_notify fuel k;
   test_pipe_notify_then_drain_returns_count fuel p;
   test_notify_on_consumer_side_handle_is_unsupported fuel p 6].

Definition all_true (l : list bool) : Prop := Forall (λ b, b = true) l.

Lemma types_tests_pass {LZ : Lz4} : all_true (@types_tests LZ Bincode.codecs 1000).
Proof. repeat constructor; vm_compute; reflexivity. Qed.

Lemma transport_tests_pass : all_true transport_tests.
Proof. repeat constructor; vm_compute; reflexivity. Qed.

Lemma ring_tests_pass :
  all_true (@ring_tests _ list_byte_queue sample_env (λ name, "/tmp/" +:+ name)).
Proof. repeat constructor; vm_compute; reflexivity. Qed.

Lemma filter_tests_pass : all_true (@filter_tests _ exact_bloom 0).
Proof. repeat constructor; vm_compute; reflexivity. Qed.

Lemma wakeup_tests_pass :
  all_true (@wakeup_tests _ sim_event_kernel _ sim_pipe_kernel (mkSimEvent 0 1) (mkSimPipe 0 1) 3).
Proof. repeat constructor; vm_compute; reflexivity. Qed.

Lemma zlen_zeros n b : 0 ≤ n → zlen (zeros n b) = n.
Proof. intros H. unfold zlen, zeros. rewrite length_replicate. lia. Qed.

Lemma oversized_payload_test : test_account_payload_rejects_oversized_data = true.
Proof.
  unfold test_account_payload_rejects_oversized_data.
  fold (zeros (MAX_ACCOUNT_PAYLOAD_BYTES + 1) x07).
  assert (zlen (zeros (MAX_ACCOUNT_PAYLOAD_BYTES + 1) x07) = MAX_ACCOUNT_PAYLOAD_BYTES + 1) as Hz
    by (by apply zlen_zeros).
  revert Hz. generalize (zeros (MAX_ACCOUNT_PAYLOAD_BYTES + 1) x07). intros l Hz.
  unfold AccountPayload_from_bytes, AccountPayload_new. rewrite Hz.
  rewrite bool_decide_true by lia. cbn [expect_err]. by apply bool_decide_eq_true.
Qed.

Lemma below_threshold_test {LZ : Lz4} : test_compression_probe_skips_below_threshold = true.
Proof.
  unfold test_compression_probe_skips_below_threshold, should_attempt_lz4.
  rewrite zlen_zeros by done. by rewrite bool_decide_true by lia.
Qed.
